(** * github-discord-sync: the reconciliation engine, embedded and verified

    The repository holds two generations of the same program:
    - the split version ([src/index.ts], [src/discord.ts], [src/github.ts]),
      embedded below in the modules [Discord], [Github] and [Index];
    - the earlier single-file version, embedded in the module [Legacy].

    JavaScript strings are sequences of UTF-16 code units, so a string is a
    [list N] here and [length] is the JavaScript [.length].  The regular
    expressions of the source are transcribed as syntax trees and run by a
    backtracking matcher that follows the ECMAScript priorities (leftmost
    start, greedy and lazy quantifiers in their order of preference). *)

From Stdlib Require Import String Ascii DecimalString.
From Stdlib Require Import Bool Arith NArith ZArith Lia List.
Import ListNotations.

(* ================================================================= *)
(** ** JavaScript strings *)

Module Js.

Definition code_unit := N.
Bind Scope N_scope with code_unit.
Definition jsstring := list code_unit.

Definition ch (a : ascii) : code_unit := N_of_ascii a.

(** An ASCII literal of the source, one code unit per character. *)
Definition lit (s : string) : jsstring :=
  map N_of_ascii (list_ascii_of_string s).

Definition LF : code_unit := 10%N.
Definition DQUOTE : code_unit := 34%N.

Fixpoint eqb (s t : jsstring) : bool :=
  match s, t with
  | [], [] => true
  | c :: s', d :: t' => N.eqb c d && eqb s' t'
  | _, _ => false
  end.

(** [t.startsWith(p)] on the suffix [t]. *)
Fixpoint prefixb (p t : jsstring) : bool :=
  match p, t with
  | [], _ => true
  | c :: p', d :: t' => N.eqb c d && prefixb p' t'
  | _ :: _, [] => false
  end.

(** [s.includes(p)]: [p] occurs somewhere in [s]. *)
Fixpoint includes (s p : jsstring) : bool :=
  prefixb p s ||
  match s with
  | [] => false
  | _ :: s' => includes s' p
  end.

(** Index arguments are JavaScript numbers and may be negative. *)
Definition clamp (n : Z) (s : jsstring) : nat :=
  Z.to_nat (Z.min (Z.max n 0) (Z.of_nat (length s))).

(** [s.substring(a, b)]: both ends clamped to [0, length], then ordered. *)
Definition substring (s : jsstring) (a b : Z) : jsstring :=
  let a' := clamp a s in
  let b' := clamp b s in
  firstn (Nat.max a' b' - Nat.min a' b') (skipn (Nat.min a' b') s).

(** [s.slice(a, b)] and [s.slice(a)] for the non-negative indices the
    source passes. *)
Definition slice (s : jsstring) (a b : nat) : jsstring :=
  firstn (b - a) (skipn a s).
Definition slice_from (s : jsstring) (a : nat) : jsstring := skipn a s.

(** [s.charAt(i)]: the one-unit string at [i], or the empty string. *)
Definition charAt (s : jsstring) (i : Z) : jsstring :=
  if (i <? 0)%Z then []
  else match nth_error s (Z.to_nat i) with
       | Some c => [c]
       | None => []
       end.

(** [a || b] on strings: the empty string is falsy. *)
Definition or_else (a b : jsstring) : jsstring :=
  match a with [] => b | _ => a end.

(** Template interpolation of an integer-valued number. *)
Definition of_Z (n : Z) : jsstring :=
  lit (NilZero.string_of_int (Z.to_int n)).

End Js.

Import Js.

(* ================================================================= *)
(** ** Regular expressions *)

Module Regex.

(** An element of a character class. *)
Inductive citem : Type :=
| One (c : code_unit)
| Rng (lo hi : code_unit)
| Space                       (* \s *)
| Digit.                      (* \d *)

(** What matches exactly one code unit. *)
Inductive atom : Type :=
| Chr (c : code_unit)
| Dot
| Cls (negated : bool) (items : list citem).

(** The patterns of the source quantify single-unit atoms only, and their
    capture groups are neither nested nor quantified; [Open] and [Close]
    are the parentheses of a group. *)
Inductive node : Type :=
| A (a : atom)
| Star (greedy : bool) (a : atom)
| Plus (greedy : bool) (a : atom)
| Opt (a : atom)
| Open
| Close
| Bol.

Definition regex := list node.

Definition str (s : string) : regex := map (fun c => A (Chr c)) (lit s).

Definition is_line_terminator (c : code_unit) : bool :=
  (c =? 10)%N || (c =? 13)%N || (c =? 8232)%N || (c =? 8233)%N.

Definition is_space (c : code_unit) : bool :=
  ((9 <=? c) && (c <=? 13))%N || (c =? 32)%N || (c =? 160)%N ||
  (c =? 5760)%N || ((8192 <=? c) && (c <=? 8202))%N ||
  (c =? 8232)%N || (c =? 8233)%N || (c =? 8239)%N || (c =? 8287)%N ||
  (c =? 12288)%N || (c =? 65279)%N.

Definition is_digit (c : code_unit) : bool := ((48 <=? c) && (c <=? 57))%N.

(** Canonicalize of the [i] flag (without [u]): upper-casing.  Every
    pattern of the source is ASCII, and a code unit outside ASCII never
    canonicalizes to an ASCII one, so upper-casing [a]-[z] alone decides
    the same matches. *)
Definition canon (c : code_unit) : code_unit :=
  if ((97 <=? c) && (c <=? 122))%N then (c - 32)%N else c.

Definition swapcase (c : code_unit) : code_unit :=
  if ((97 <=? c) && (c <=? 122))%N then (c - 32)%N
  else if ((65 <=? c) && (c <=? 90))%N then (c + 32)%N
  else c.

Section Matcher.

Variable ignoreCase : bool.

Definition same (p c : code_unit) : bool :=
  if ignoreCase then (canon p =? canon c)%N else (p =? c)%N.

(** A range holds [c] when some member canonicalizes as [c] does: [c]
    itself or, under the [i] flag, its other-case letter. *)
Definition in_range (lo hi c : code_unit) : bool :=
  ((lo <=? c) && (c <=? hi))%N ||
  (ignoreCase && ((lo <=? swapcase c) && (swapcase c <=? hi))%N).

Definition citem_match (it : citem) (c : code_unit) : bool :=
  match it with
  | One p => same p c
  | Rng lo hi => in_range lo hi c
  | Space => is_space c
  | Digit => is_digit c
  end.

Definition atom_match (a : atom) (c : code_unit) : bool :=
  match a with
  | Chr p => same p c
  | Dot => negb (is_line_terminator c)
  | Cls negated items => xorb negated (existsb (fun it => citem_match it c) items)
  end.

(** Captures under construction: the start of the group that is open,
    and the spans of the groups already closed, last first. *)
Record caps : Type := { opened : nat; closed : list (nat * nat) }.

(** A successful match: its end index and the spans of its groups. *)
Definition found : Type := (nat * list (nat * nat))%type.

(** [a*] followed by [k]: as many as possible first, then give back. *)
Fixpoint star_greedy (a : atom) (k : nat -> jsstring -> option found)
    (i : nat) (s : jsstring) : option found :=
  match s with
  | c :: s' =>
      if atom_match a c
      then match star_greedy a k (S i) s' with
           | Some r => Some r
           | None => k i s
           end
      else k i s
  | [] => k i s
  end.

(** [a*?] followed by [k]: as few as possible first. *)
Fixpoint star_lazy (a : atom) (k : nat -> jsstring -> option found)
    (i : nat) (s : jsstring) : option found :=
  match k i s with
  | Some r => Some r
  | None =>
      match s with
      | c :: s' => if atom_match a c then star_lazy a k (S i) s' else None
      | [] => None
      end
  end.

Definition star (greedy : bool) := if greedy then star_greedy else star_lazy.

(** [m r st i s]: match [r] at index [i], where [s] is the input from
    [i] on. *)
Fixpoint m (r : regex) (st : caps) (i : nat) (s : jsstring) {struct r}
    : option found :=
  match r with
  | [] => Some (i, rev (closed st))
  | A a :: r' =>
      match s with
      | c :: s' => if atom_match a c then m r' st (S i) s' else None
      | [] => None
      end
  | Star g a :: r' => star g a (m r' st) i s
  | Plus g a :: r' =>
      match s with
      | c :: s' => if atom_match a c then star g a (m r' st) (S i) s' else None
      | [] => None
      end
  | Opt a :: r' =>
      match s with
      | c :: s' =>
          if atom_match a c
          then match m r' st (S i) s' with
               | Some r => Some r
               | None => m r' st i s
               end
          else m r' st i s
      | [] => m r' st i s
      end
  | Open :: r' => m r' {| opened := i; closed := closed st |} i s
  | Close :: r' => m r' {| opened := opened st; closed := (opened st, i) :: closed st |} i s
  | Bol :: r' => if (i =? 0)%nat then m r' st i s else None
  end.

Definition start : caps := {| opened := 0; closed := [] |}.

(** The leftmost index at or after [i] where [r] matches. *)
Fixpoint search (r : regex) (i : nat) (s : jsstring) : option (nat * found) :=
  match m r start i s with
  | Some f => Some (i, f)
  | None =>
      match s with
      | _ :: s' => search r (S i) s'
      | [] => None
      end
  end.

(** The match object: [index], [match[0]] and the captured groups
    [match[1]], [match[2]], ... *)
Record Match : Type := { index : nat; matched : jsstring; groups : list jsstring }.

Definition mkMatch (input : jsstring) (i : nat) (f : found) : Match :=
  {| index := i;
     matched := slice input i (fst f);
     groups := map (fun sp => slice input (fst sp) (snd sp)) (snd f) |}.

(** [r.exec(input)] with [r.lastIndex = lastIndex] (flag [g]); for a
    fresh pattern [lastIndex] is 0. *)
Definition exec (r : regex) (input : jsstring) (lastIndex : nat) : option Match :=
  if (length input <? lastIndex)%nat then None
  else match search r lastIndex (skipn lastIndex input) with
       | Some (i, f) => Some (mkMatch input i f)
       | None => None
       end.

Definition group (n : nat) (mt : Match) : jsstring :=
  match n with
  | O => matched mt
  | S n' => nth n' (groups mt) []
  end.

(** [input.replace(r, f)] with flag [g]: every match, left to right, the
    search resuming where the previous match ended (one unit further
    after an empty match).  [skip] counts the units of the current match
    still to pass over. *)
Fixpoint replace_from (r : regex) (f : Match -> jsstring) (input : jsstring)
    (skip : nat) (i : nat) (s : jsstring) : jsstring :=
  match skip with
  | S skip' =>
      match s with
      | _ :: s' => replace_from r f input skip' (S i) s'
      | [] => []
      end
  | O =>
      match m r start i s with
      | Some fd =>
          f (mkMatch input i fd) ++
          match s with
          | c :: s' =>
              if (fst fd =? i)%nat
              then c :: replace_from r f input 0 (S i) s'
              else replace_from r f input (fst fd - i - 1) (S i) s'
          | [] => []
          end
      | None =>
          match s with
          | c :: s' => c :: replace_from r f input 0 (S i) s'
          | [] => []
          end
      end
  end.

Definition replace (r : regex) (f : Match -> jsstring) (input : jsstring) : jsstring :=
  replace_from r f input 0 0 input.

End Matcher.

(** A replacement pattern: text and [$n] references. *)
Inductive piece : Type :=
| Txt (s : jsstring)
| Ref (n : nat).

Definition expand (tpl : list piece) (mt : Match) : jsstring :=
  flat_map (fun p => match p with Txt s => s | Ref n => group n mt end) tpl.

End Regex.

Import Regex.

(* ================================================================= *)
(** ** Data model *)

Record Author : Type := { login : jsstring }.

(** [GithubDiscussion] of [github.ts] ([Discussion] in the single-file
    version, whose [author] is the login itself).  [d_category] is the
    [category.name] that only a webhook payload carries; the listing query
    does not ask for it. *)
Record GithubDiscussion : Type := {
  d_id : jsstring;
  d_number : Z;
  d_title : jsstring;
  d_body : jsstring;
  d_author : Author;
  d_category : option jsstring
}.

Record GithubComment : Type := {
  c_id : jsstring;
  c_body : jsstring;
  c_author : Author
}.

Record GithubCategory : Type := { cat_id : jsstring; cat_name : jsstring }.

(** The part of a discord.js [User], [Message] and thread channel that the
    program reads. *)
Record User : Type := { u_id : jsstring; u_username : jsstring; u_bot : bool }.

Record AnyThreadChannel : Type := {
  t_id : jsstring;
  t_name : jsstring;
  t_parentId : jsstring;
  t_guild_id : jsstring
}.

Record Message : Type := {
  m_id : jsstring;
  m_content : jsstring;
  m_author : User;
  (** [message.channel] when [message.channel.isThread()] *)
  m_channel : option AnyThreadChannel
}.

Record ThreadMessage : Type := {
  tm_id : jsstring;
  tm_message : jsstring;
  tm_user : jsstring;
  tm_isAuthor : bool;
  tm_fromGithub : bool
}.

(** Environment variables, with the fall-backs of the source. *)
Record Config : Type := {
  FORUM_CHANNEL_ID : jsstring;
  GITHUB_REPO : jsstring;
  GITHUB_OWNER : jsstring;
  CATEGORY_NAME : jsstring;
  DRY_RUN : bool
}.

Definition default_config : Config := {|
  FORUM_CHANNEL_ID := lit "1375527112521552003";
  GITHUB_REPO := [];
  GITHUB_OWNER := [];
  CATEGORY_NAME := lit "General";
  DRY_RUN := false
|}.

(* ================================================================= *)
(** ** The two platforms and the process state *)

Inductive LogLevel : Type :=
| EMERGENCY | ALERT | CRITICAL | ERROR | WARNING | NOTICE | INFO | DEBUG.

(** What the process does that is visible from outside: calls to the two
    platforms and log statements. *)
Inductive Event : Type :=
| Log (level : LogLevel) (line : jsstring)
| Console (line : jsstring)
| QueryRepository
| QueryCategories
| QueryRepositoryId
| QueryDiscussions (categoryId : jsstring)
| QueryComments (number : Z) (after : option nat)
| FetchChannel (channelId : jsstring)
| FetchThreads
| FetchMessages (threadId : jsstring)
| CreateDiscussion (categoryId title body repositoryId : jsstring)
| CreateDiscussionCategory (repositoryId name description : jsstring)
| AddDiscussionComment (discussionId body : jsstring)
| UpdateDiscussion (discussionId body : jsstring)
| ThreadsCreate (name content : jsstring)
| ThreadSend (threadId content : jsstring)
| MessageReply (messageId content : jsstring)
| SendStatus (code : Z)
| ProcessExit (code : Z).

(** The mutating calls of the collaborator contract. *)
Definition is_write (e : Event) : bool :=
  match e with
  | CreateDiscussion _ _ _ _ | CreateDiscussionCategory _ _ _
  | AddDiscussionComment _ _ | UpdateDiscussion _ _
  | ThreadsCreate _ _ | ThreadSend _ _ | MessageReply _ _ => true
  | _ => false
  end.

Definition is_read (e : Event) : bool :=
  match e with
  | QueryRepository | QueryCategories | QueryRepositoryId | QueryDiscussions _
  | QueryComments _ _ | FetchChannel _ | FetchThreads | FetchMessages _ => true
  | _ => false
  end.

Definition is_log (e : Event) : bool :=
  match e with Log _ _ | Console _ => true | _ => false end.

(** A discussion as GitHub holds it. *)
Record RemoteDiscussion : Type := {
  rd : GithubDiscussion;
  rd_category_id : jsstring;
  rd_comments : list GithubComment
}.

(** A forum thread as Discord holds it; [rt_messages] newest first, the
    order in which [messages.fetch()] returns them. *)
Record RemoteThread : Type := {
  rt : AnyThreadChannel;
  rt_messages : list Message
}.

Record GitHub : Type := {
  repository : option jsstring;         (* the repository id, when it exists *)
  hasDiscussionsEnabled : bool;
  categories : list GithubCategory;
  discussions : list RemoteDiscussion;
  viewer : jsstring                     (* login of the token's owner *)
}.

Record DiscordServer : Type := {
  forum : option jsstring;              (* the forum channel id, when it exists *)
  guild : jsstring;
  threads : list RemoteThread;
  user : User                           (* [discord.user] *)
}.

Record World : Type := {
  github : GitHub;
  discord : DiscordServer;
  (** the identifier the platforms hand out next *)
  next_id : N;
  (** the [n]-th call to a platform fails when [outage n] *)
  outage : nat -> bool;
  calls : nat;
  (** module state of the process *)
  discussionCache : option (list GithubDiscussion);
  REPO_CATEGORY_ID : option jsstring;
  (** everything done so far, oldest first *)
  trace : list Event;
  (** what was done by work that nobody awaits any more (the listing a
      rejected [Promise.all] leaves running): it happens at times of its
      own, so it is kept apart from [trace] *)
  detached : list Event
}.

Definition set_trace (t : list Event) (w : World) : World :=
  {| github := github w; discord := discord w; next_id := next_id w;
     outage := outage w; calls := calls w;
     discussionCache := discussionCache w;
     REPO_CATEGORY_ID := REPO_CATEGORY_ID w; trace := t; detached := detached w |}.

Definition set_calls (n : nat) (w : World) : World :=
  {| github := github w; discord := discord w; next_id := next_id w;
     outage := outage w; calls := n;
     discussionCache := discussionCache w;
     REPO_CATEGORY_ID := REPO_CATEGORY_ID w; trace := trace w; detached := detached w |}.

Definition set_discussionCache (c : option (list GithubDiscussion)) (w : World) : World :=
  {| github := github w; discord := discord w; next_id := next_id w;
     outage := outage w; calls := calls w;
     discussionCache := c;
     REPO_CATEGORY_ID := REPO_CATEGORY_ID w; trace := trace w; detached := detached w |}.

Definition set_REPO_CATEGORY_ID (c : option jsstring) (w : World) : World :=
  {| github := github w; discord := discord w; next_id := next_id w;
     outage := outage w; calls := calls w;
     discussionCache := discussionCache w;
     REPO_CATEGORY_ID := c; trace := trace w; detached := detached w |}.

Definition set_detached (t : list Event) (w : World) : World :=
  {| github := github w; discord := discord w; next_id := next_id w;
     outage := outage w; calls := calls w;
     discussionCache := discussionCache w;
     REPO_CATEGORY_ID := REPO_CATEGORY_ID w; trace := trace w; detached := t |}.

(** The remote effect of a mutating call. *)
Definition set_discussions (ds : list RemoteDiscussion) (w : World) : World :=
  {| github := {| repository := repository (github w);
                  hasDiscussionsEnabled := hasDiscussionsEnabled (github w);
                  categories := categories (github w);
                  discussions := ds;
                  viewer := viewer (github w) |};
     discord := discord w; next_id := N.succ (next_id w);
     outage := outage w; calls := calls w;
     discussionCache := discussionCache w;
     REPO_CATEGORY_ID := REPO_CATEGORY_ID w; trace := trace w; detached := detached w |}.

Definition set_categories (cs : list GithubCategory) (w : World) : World :=
  {| github := {| repository := repository (github w);
                  hasDiscussionsEnabled := hasDiscussionsEnabled (github w);
                  categories := cs;
                  discussions := discussions (github w);
                  viewer := viewer (github w) |};
     discord := discord w; next_id := N.succ (next_id w);
     outage := outage w; calls := calls w;
     discussionCache := discussionCache w;
     REPO_CATEGORY_ID := REPO_CATEGORY_ID w; trace := trace w; detached := detached w |}.

Definition set_threads (ts : list RemoteThread) (w : World) : World :=
  {| github := github w;
     discord := {| forum := forum (discord w); guild := guild (discord w);
                   threads := ts; user := user (discord w) |};
     next_id := N.succ (next_id w);
     outage := outage w; calls := calls w;
     discussionCache := discussionCache w;
     REPO_CATEGORY_ID := REPO_CATEGORY_ID w; trace := trace w; detached := detached w |}.

(* ================================================================= *)
(** ** Computations: state, and exceptions that leave the state as it is *)

(** What is thrown: an [Error] object, of which the program reads the
    [message] and, through a template ([`${e}`]), the [name]. *)
Record JsError : Type := { e_name : jsstring; e_message : jsstring }.

(** [new Error(message)] *)
Definition new_Error (message : jsstring) : JsError :=
  {| e_name := lit "Error"; e_message := message |}.

(** The [TypeError] of a property read on [undefined] or [null]. *)
Definition new_TypeError (message : jsstring) : JsError :=
  {| e_name := lit "TypeError"; e_message := message |}.

(** [`${e}`], that is [Error.prototype.toString]: the name, a colon and
    the message; the name alone or the message alone when the other is
    empty. *)
Definition toString (e : JsError) : jsstring :=
  match e_name e, e_message e with
  | [], message => message
  | name, [] => name
  | name, message => name ++ lit ": " ++ message
  end.

Inductive Result (A : Type) : Type :=
| Ok (a : A)
| Throw (e : JsError).
Arguments Ok {A} a.
Arguments Throw {A} e.

Definition M (A : Type) : Type := World -> Result A * World.

Definition ret {A} (a : A) : M A := fun w => (Ok a, w).

Definition bind {A B} (c : M A) (k : A -> M B) : M B :=
  fun w => match c w with
           | (Ok a, w') => k a w'
           | (Throw e, w') => (Throw e, w')
           end.

(** [throw new Error(message)] *)
Definition throw {A} (message : jsstring) : M A := fun w => (Throw (new_Error message), w).

(** [throw e], for an error that was caught *)
Definition rethrow {A} (e : JsError) : M A := fun w => (Throw e, w).

(** A property read on [undefined] or [null]. *)
Definition type_error {A} (message : jsstring) : M A :=
  fun w => (Throw (new_TypeError message), w).

(** [try { c } catch (e) { h e }] *)
Definition try_catch {A} (c : M A) (h : JsError -> M A) : M A :=
  fun w => match c w with
           | (Ok a, w') => (Ok a, w')
           | (Throw e, w') => h e w'
           end.

Definition get : M World := fun w => (Ok w, w).
Definition modify (f : World -> World) : M unit := fun w => (Ok tt, f w).

Declare Scope m_scope.
Delimit Scope m_scope with m.
Notation "x <- c ;; k" := (bind c (fun x => k))
  (at level 61, c at next level, right associativity) : m_scope.
Notation "c ;; k" := (bind c (fun _ => k))
  (at level 61, right associativity) : m_scope.
Local Open Scope m_scope.

Definition emit (e : Event) : M unit :=
  modify (fun w => set_trace (trace w ++ [e]) w).

(** [for (const x of xs) await body(x)] *)
Fixpoint for_each {A} (xs : list A) (body : A -> M unit) : M unit :=
  match xs with
  | [] => ret tt
  | x :: xs' => body x ;; for_each xs' body
  end.

(** A call to a platform: recorded, then it fails or goes through.  The
    error classes of the two clients are not in the repository: a plain
    [Error] stands for what they throw. *)
Definition call (e : Event) : M unit :=
  fun w =>
    let w' := set_calls (S (calls w)) (set_trace (trace w ++ [e]) w) in
    if outage w (calls w) then (Throw (new_Error (lit "request failed")), w') else (Ok tt, w').

(** [logger.info(line)] and its siblings, and [log(level, line)] of the
    single-file version. *)
Definition logger (level : LogLevel) (line : jsstring) : M unit := emit (Log level line).

(** A bare [console.log(line)] or [console.error(line)]. *)
Definition console_log (line : jsstring) : M unit := emit (Console line).

(** [for (let idx = from; idx < from + count; idx++) body(idx)] *)
Fixpoint for_range (from count : nat) (body : nat -> M unit) : M unit :=
  match count with
  | O => ret tt
  | S count' => body from ;; for_range (S from) count' body
  end.

(** [xs[idx]!] followed by a property access: a missing element throws. *)
Definition item {A} (xs : list A) (idx : nat) : M A :=
  match nth_error xs idx with
  | Some x => ret x
  | None => type_error (lit "undefined is not an object")
  end.

(** [q] left to itself: it runs to its end, its result is dropped, and
    what it does goes to [detached]. *)
Definition detach {B} (q : M B) (w : World) : World :=
  let w' := snd (q w) in
  set_detached (detached w' ++ skipn (length (trace w)) (trace w'))
    (set_trace (trace w) w').

(** [await Promise.all([p, q])], for a [p] that makes its one call at once
    (before [q] makes its first) and has nothing to do after it.  Both are
    started, so the calls are issued in this order: that of [p], then those
    of [q].  When both are fulfilled the results come as a pair.  When [q]
    is rejected, [p] has nothing left to do.  When [p] is rejected the
    whole is rejected at once with the error of [p], and nobody awaits [q]
    any more: [q] goes on by itself. *)
Definition promise_all {A B} (p : M A) (q : M B) : M (A * B) :=
  fun w =>
    match p w with
    | (Ok a, w1) =>
        match q w1 with
        | (Ok b, w2) => (Ok (a, b), w2)
        | (Throw e, w2) => (Throw e, w2)
        end
    | (Throw e, w1) => (Throw e, detach q w1)
    end.

(* ================================================================= *)
(** ** The platform clients

    What [graphqlWithAuth] and the discord.js client answer, read off the
    [World].  Every operation is one [call]: it is recorded in the trace and
    fails when the environment says so; a mutating call that goes through
    changes the platform's state.  The pacing delays of the source
    ([setTimeout] of one second after a call) change nothing and are left
    out. *)

Module Platform.

Definition fresh_id : M jsstring :=
  w <- get ;; ret (of_Z (Z.of_N (next_id w))).

(** *** GitHub *)

(** The fields the listing query asks for. *)
Definition listed (d : GithubDiscussion) : GithubDiscussion :=
  {| d_id := d_id d; d_number := d_number d; d_title := d_title d;
     d_body := d_body d; d_author := d_author d; d_category := None |}.

(** [repository { discussions(categoryId: $id, first: 100) { nodes } } ] *)
Definition query_discussions (categoryId : option jsstring)
    : M (list GithubDiscussion) :=
  match categoryId with
  | None => call (QueryDiscussions []) ;; throw (lit "Variable $id of type ID! was provided invalid value")
  | Some cid =>
      call (QueryDiscussions cid) ;;
      w <- get ;;
      match repository (github w) with
      | None => throw (lit "Could not resolve to a Repository")
      | Some _ =>
          ret (firstn 100
                 (map (fun r => listed (rd r))
                    (filter (fun r => eqb (rd_category_id r) cid)
                       (discussions (github w)))))
      end
  end.

Definition find_discussion (number : Z) (w : World) : option RemoteDiscussion :=
  find (fun r => (d_number (rd r) =? number)%Z) (discussions (github w)).

(** One page: [comments(first: 100, after: $offset)] with its [pageInfo]
    ([hasNextPage], [endCursor]).  A cursor is the count of comments
    before it. *)
Definition query_comments (number : Z) (offset : option nat)
    : M (list GithubComment * (bool * option nat)) :=
  call (QueryComments number offset) ;;
  w <- get ;;
  match find_discussion number w with
  | None => type_error (lit "null is not an object")
  | Some r =>
      let from := match offset with Some k => k | None => O end in
      let nodes := firstn 100 (skipn from (rd_comments r)) in
      ret (nodes,
           ((from + 100 <? length (rd_comments r))%nat,
            match nodes with [] => None | _ => Some (from + length nodes)%nat end))
  end.

Definition update_remote (discussionId : jsstring)
    (f : RemoteDiscussion -> RemoteDiscussion) (w : World) : World :=
  set_discussions
    (map (fun r => if eqb (d_id (rd r)) discussionId then f r else r)
       (discussions (github w))) w.

Definition known (discussionId : jsstring) (w : World) : bool :=
  existsb (fun r => eqb (d_id (rd r)) discussionId) (discussions (github w)).

(** [addDiscussionComment] *)
Definition mutation_addDiscussionComment (discussionId body : jsstring) : M unit :=
  call (AddDiscussionComment discussionId body) ;;
  w <- get ;;
  if known discussionId w then
    cid <- fresh_id ;;
    modify (update_remote discussionId (fun r =>
      {| rd := rd r; rd_category_id := rd_category_id r;
         rd_comments := rd_comments r ++
           [{| c_id := cid; c_body := body;
               c_author := {| login := viewer (github w) |} |}] |}))
  else throw (lit "Could not resolve to a node").

(** [updateDiscussion] *)
Definition mutation_updateDiscussion (discussionId body : jsstring) : M unit :=
  call (UpdateDiscussion discussionId body) ;;
  w <- get ;;
  if known discussionId w then
    modify (update_remote discussionId (fun r =>
      {| rd := {| d_id := d_id (rd r); d_number := d_number (rd r);
                  d_title := d_title (rd r); d_body := body;
                  d_author := d_author (rd r); d_category := d_category (rd r) |};
         rd_category_id := rd_category_id r;
         rd_comments := rd_comments r |}))
  else throw (lit "Could not resolve to a node").

(** [createDiscussion]: answers the [id] and [number] of the new
    discussion, the only fields the mutation selects. *)
Definition mutation_createDiscussion (categoryId : option jsstring)
    (title body repositoryId : jsstring) : M GithubDiscussion :=
  match categoryId with
  | None =>
      call (CreateDiscussion [] title body repositoryId) ;;
      throw (lit "Variable $categoryId of type ID! was provided invalid value")
  | Some cid =>
      call (CreateDiscussion cid title body repositoryId) ;;
      w <- get ;;
      did <- fresh_id ;;
      let number := Z.of_N (next_id w) in
      modify (set_discussions
        (discussions (github w) ++
           [{| rd := {| d_id := lit "D_" ++ did; d_number := number;
                        d_title := title; d_body := body;
                        d_author := {| login := viewer (github w) |};
                        d_category := None |};
               rd_category_id := cid;
               rd_comments := [] |}])) ;;
      ret {| d_id := lit "D_" ++ did; d_number := number; d_title := [];
             d_body := []; d_author := {| login := [] |}; d_category := None |}
  end.

(** [createDiscussionCategory] of the single-file version: answers the
    [id] of the new category. *)
Definition mutation_createDiscussionCategory (repositoryId name description : jsstring)
    : M jsstring :=
  call (CreateDiscussionCategory repositoryId name description) ;;
  w <- get ;;
  cid <- fresh_id ;;
  modify (set_categories
    (categories (github w) ++ [{| cat_id := lit "DIC_" ++ cid; cat_name := name |}])) ;;
  ret (lit "DIC_" ++ cid).

(** [repository { id }] *)
Definition query_repository_id : M (option jsstring) :=
  call QueryRepositoryId ;; w <- get ;; ret (repository (github w)).

(** [repository { id hasDiscussionsEnabled }] *)
Definition query_repository : M (option bool) :=
  call QueryRepository ;;
  w <- get ;;
  ret (match repository (github w) with
       | Some _ => Some (hasDiscussionsEnabled (github w))
       | None => None
       end).

(** [repository { discussionCategories(first: 50) { nodes } } ] *)
Definition query_categories : M (option (list GithubCategory)) :=
  call QueryCategories ;;
  w <- get ;;
  ret (match repository (github w) with
       | Some _ => Some (firstn 50 (categories (github w)))
       | None => None
       end).

(** *** Discord *)

(** [discord.channels.fetch(id)], taken as the forum channel. *)
Definition channels_fetch (channelId : jsstring) : M jsstring :=
  call (FetchChannel channelId) ;;
  w <- get ;;
  match forum (discord w) with
  | Some f => if eqb f channelId then ret f else throw (lit "Unknown Channel")
  | None => throw (lit "Unknown Channel")
  end.

(** [(await forum.threads.fetch()).threads]: a collection keyed by id. *)
Definition threads_fetch : M (list (jsstring * AnyThreadChannel)) :=
  call FetchThreads ;;
  w <- get ;;
  ret (map (fun r => (t_id (rt r), rt r)) (threads (discord w))).

Definition find_thread (threadId : jsstring) (w : World) : option RemoteThread :=
  find (fun r => eqb (t_id (rt r)) threadId) (threads (discord w)).

(** [thread.messages.fetch()]: newest first. *)
Definition messages_fetch (thread : AnyThreadChannel) : M (list Message) :=
  call (FetchMessages (t_id thread)) ;;
  w <- get ;;
  match find_thread (t_id thread) w with
  | Some r => ret (rt_messages r)
  | None => throw (lit "Unknown Channel")
  end.

Definition post (thread : AnyThreadChannel) (content : jsstring) (w : World)
    : list RemoteThread :=
  map (fun r =>
         if eqb (t_id (rt r)) (t_id thread)
         then {| rt := rt r;
                 rt_messages :=
                   {| m_id := of_Z (Z.of_N (next_id w)); m_content := content;
                      m_author := user (discord w);
                      m_channel := Some (rt r) |} :: rt_messages r |}
         else r)
      (threads (discord w)).

(** [thread.send(content)] *)
Definition thread_send (thread : AnyThreadChannel) (content : jsstring) : M unit :=
  call (ThreadSend (t_id thread) content) ;;
  w <- get ;;
  match find_thread (t_id thread) w with
  | Some _ => modify (fun w => set_threads (post thread content w) w)
  | None => throw (lit "Unknown Channel")
  end.

(** [message.reply(content)] *)
Definition message_reply (message : Message) (content : jsstring) : M unit :=
  call (MessageReply (m_id message) content) ;;
  match m_channel message with
  | Some thread =>
      w <- get ;;
      match find_thread (t_id thread) w with
      | Some _ => modify (fun w => set_threads (post thread content w) w)
      | None => throw (lit "Unknown Channel")
      end
  | None => ret tt
  end.

(** [forum.threads.create({ name, message: { content } })] *)
Definition threads_create (forumId name content : jsstring) : M AnyThreadChannel :=
  call (ThreadsCreate name content) ;;
  w <- get ;;
  tid <- fresh_id ;;
  let thread :=
    {| t_id := tid; t_name := name; t_parentId := forumId;
       t_guild_id := guild (discord w) |} in
  modify (set_threads
    (threads (discord w) ++
       [{| rt := thread;
           rt_messages :=
             [{| m_id := tid; m_content := content;
                 m_author := user (discord w);
                 m_channel := Some thread |}] |}])) ;;
  ret thread.

(** [res.sendStatus(code)] of the webhook endpoint. *)
Definition sendStatus (code : Z) : M unit := emit (SendStatus code).

End Platform.

Import Platform.

(** [return v;] with statements after it: they never run. *)
Definition returning {A} (v : M A) (unreachable : M A) : M A := v.

(** The speech-balloon emoji of the attribution header, U+1F4AC, as its two
    surrogates. *)
Definition BALLOON : jsstring := [55357; 56492]%N.

(** The prefix that marks a mirrored message: the balloon, a space and two
    asterisks. *)
Definition ATTRIBUTION : jsstring := BALLOON ++ lit " **".

(** [/!\[(.*?)\]\((https?:\/\/[^\s)]+)\)/g] *)
Definition markdownImage : regex :=
  str "![" ++ [Open; Star false Dot; Close] ++ str "](" ++
  [Open] ++ str "http" ++ [Opt (Chr (ch "s"))] ++ str "://" ++
  [Plus true (Cls true [Space; One (ch ")")]); Close] ++ str ")".

(** The hard ceiling of a Discord message, as the comment in
    [makeDiscordMessage] gives it: Discord message length limit (2000 chars). *)
Definition DISCORD_MESSAGE_LIMIT : Z := 2000.

Definition CONTINUED : jsstring := [LF] ++ lit "(continued...)".

(* ================================================================= *)
(** ** [src/discord.ts] *)

Module Discord.
Section WithConfig.

Variable cfg : Config.

Definition listDiscordThreads : M (list (jsstring * AnyThreadChannel)) :=
forum <- channels_fetch (FORUM_CHANNEL_ID cfg) ;;
threads_fetch.

(** [/^<U+1F504> \\*\\*.*\\*\\* on GitHub wrote:\\n/]: in a regular
  expression literal [\\*] is a backslash, any number of times. *)
Definition fromGithubPattern : regex :=
[Bol; A (Chr 55357); A (Chr 56580); A (Chr (ch " "));
 Star true (Chr (ch "\")); Star true (Chr (ch "\")); Star true Dot;
 Star true (Chr (ch "\")); Star true (Chr (ch "\"))] ++
str " on GitHub wrote:" ++ [A (Chr (ch "\")); A (Chr (ch "n"))].

Definition toThreadMessage (bot : User) (message : Message) : ThreadMessage :=
{| tm_id := m_id message;
   tm_message := m_content message;
   tm_user := u_username (m_author message);
   tm_isAuthor := eqb (u_id (m_author message)) (u_id bot);
   tm_fromGithub :=
     match exec false fromGithubPattern (m_content message) 0 with
     | Some _ => true
     | None => false
     end |}.

(** Newest-first as fetched, reversed to oldest-first, the first (seed)
  message filtered out by [idx > 0]. *)
Definition listDiscordMessages (thread : AnyThreadChannel) : M (list ThreadMessage) :=
fetched <- messages_fetch thread ;;
w <- get ;;
ret (skipn 1 (rev (map (toThreadMessage (user (discord w))) fetched))).

Definition messagePrefix (author : jsstring) (number : Z) : jsstring :=
ATTRIBUTION ++ author ++ lit "** on [GitHub](<https://github.com/" ++
GITHUB_OWNER cfg ++ lit "/" ++ GITHUB_REPO cfg ++ lit "/discussions/" ++
of_Z number ++ lit ">) wrote:" ++ [LF].

Definition maxContentLength (author : jsstring) (number : Z) : Z :=
(1900 - Z.of_nat (length (messagePrefix author number)))%Z.

(** The body after the image rewrite; the pass for user-attachments and
  HTML image tags is the identity here: [processedBody = (processedBody)]. *)
Definition processedBody (body : jsstring) : jsstring :=
let processedBody := replace false markdownImage (expand [Ref 2]) body in
let processedBody := processedBody in
processedBody.

Definition makeDiscordMessage (author : jsstring) (number : Z) (body : jsstring)
  : jsstring :=
let messagePrefix := messagePrefix author number in
let maxContentLength := (1900 - Z.of_nat (length messagePrefix))%Z in
let processedBody := processedBody body in
messagePrefix ++
(if (maxContentLength <? Z.of_nat (length processedBody))%Z
 then substring processedBody 0 maxContentLength ++ CONTINUED
 else processedBody).

Definition createThread (author : jsstring) (number : Z) (title body : jsstring)
  : M AnyThreadChannel :=
forum <- channels_fetch (FORUM_CHANNEL_ID cfg) ;;
logger INFO (lit "[Discord] Creating thread on Discord forum " ++ forum ++
             lit ": " ++ title) ;;
threads_create forum title (makeDiscordMessage author number body).

Definition pushDiscordMessage (thread : AnyThreadChannel) (comment : GithubComment)
  (discussion : GithubDiscussion) : M unit :=
logger INFO (lit "[Discord] Sending message to Discord thread " ++ t_id thread ++
             lit ": " ++ c_body comment) ;;
thread_send thread
  (makeDiscordMessage (login (c_author comment)) (d_number discussion) (c_body comment)).

End WithConfig.
End Discord.

(* ================================================================= *)
(** ** [src/github.ts] *)

Module Github.
Section WithConfig.

Variable cfg : Config.

Definition repoName : jsstring := GITHUB_OWNER cfg ++ lit "/" ++ GITHUB_REPO cfg.

Definition getRepositoryId : M jsstring :=
try_catch
  (result <- query_repository_id ;;
   match result with
   | None => throw (lit "Repository " ++ repoName ++
                    lit " not found. Check your GITHUB_OWNER and GITHUB_REPO settings.")
   | Some id => ret id
   end)
  (fun error =>
     logger ERROR (lit "[Github] Failed to fetch repository ID: " ++ e_message error) ;;
     throw (lit "Cannot access repository: " ++ e_message error)).

Definition fetchRepoCategoryIdByName (name : jsstring) : M jsstring :=
try_catch
  (try_catch
     (repoResult <- query_repository ;;
      match repoResult with
      | None => throw (lit "Repository " ++ repoName ++
                       lit " not found. Check your GITHUB_OWNER and GITHUB_REPO settings.")
      | Some false => throw (lit "Discussions are not enabled on repository " ++ repoName ++
                             lit ". Enable them in repository settings.")
      | Some true => ret tt
      end)
     (fun repoError =>
        logger ERROR (lit "[Github] Repository check failed: " ++ e_message repoError) ;;
        rethrow repoError) ;;
   result <- query_categories ;;
   match result with
   | None => throw (lit "Could not access repository " ++ repoName)
   | Some categories =>
       match find (fun c => eqb (cat_name c) name) categories with
       | None => throw (lit "Category '" ++ name ++ lit "' not found in repository " ++ repoName)
       | Some cat => ret (cat_id cat)
       end
   end)
  (fun error =>
     logger ERROR (lit "[Github] Failed to fetch or create category with name '" ++
                   name ++ lit "': " ++ e_message error) ;;
     rethrow error).

Definition loadGithub : M unit :=
id <- fetchRepoCategoryIdByName (CATEGORY_NAME cfg) ;;
modify (set_REPO_CATEGORY_ID (Some id)).

(** The header written in [github.ts] opens with the four code units
  U+00F0 U+0178 U+2019 U+00AC. *)
Definition makeGithubComment (message author url : jsstring) : jsstring :=
let processedContent := message in
[240; 376; 8217; 172]%N ++ lit " **" ++ author ++ lit "** on [Discord](" ++ url ++
lit ") wrote:" ++ [LF; LF] ++ processedContent.

Definition messageUrl (thread : AnyThreadChannel) (messageId : jsstring) : jsstring :=
lit "https://discord.com/channels/" ++ t_guild_id thread ++ lit "/" ++
t_id thread ++ lit "/" ++ messageId.

Definition pushGithubComment (thread : AnyThreadChannel) (message : ThreadMessage)
  (discussion : GithubDiscussion) : M unit :=
let url := messageUrl thread (tm_id message) in
logger INFO (lit "[Github] Sending comment to GitHub discussion " ++
             of_Z (d_number discussion) ++ lit ": " ++ tm_message message) ;;
mutation_addDiscussionComment (d_id discussion)
  (makeGithubComment (tm_message message) (tm_user message) url).

(** The [while (hasNextPage)] loop; [fuel] bounds its rounds. *)
Fixpoint listGithubComments_loop (fuel : nat) (discussion : GithubDiscussion)
  (comments : list GithubComment) (offset : option nat)
  : M (option (list GithubComment)) :=
match fuel with
| O => ret None
| S fuel' =>
    res <- query_comments (d_number discussion) offset ;;
    let offset := snd (snd res) in
    let hasNextPage := fst (snd res) in
    let comments := comments ++ fst res in
    if hasNextPage
    then listGithubComments_loop fuel' discussion comments offset
    else ret (Some comments)
end.

(** One round per page of a hundred, so as many rounds as the discussion
  has comments, plus one, are never used up
  (see [listGithubComments_loop_returns]). *)
Definition listGithubComments (discussion : GithubDiscussion)
  : M (list GithubComment) :=
w <- get ;;
let rounds :=
  match find_discussion (d_number discussion) w with
  | Some r => S (length (rd_comments r))
  | None => 1%nat
  end in
res <- listGithubComments_loop rounds discussion [] None ;;
match res with
| Some comments => ret comments
| None => throw (lit "unreachable")
end.

Definition marker (discordId : jsstring) : jsstring :=
lit "<!-- Discord:" ++ discordId ++ lit " -->".

Definition updateDiscussion (discussion : GithubDiscussion) (discordId : jsstring)
  : M unit :=
logger INFO (lit "[Github] Updating discussion #" ++ of_Z (d_number discussion) ++
             lit " with body: " ++ d_body discussion) ;;
mutation_updateDiscussion (d_id discussion)
  (d_body discussion ++ [LF; LF] ++ marker discordId).

Definition createDiscussion (thread : AnyThreadChannel) (message : option Message)
  : M GithubDiscussion :=
match message with
| None => type_error (lit "undefined is not an object (evaluating 'message.author')")
| Some message =>
    let author := u_username (m_author message) in
    let url := messageUrl thread (m_id message) in
    logger INFO (lit "[Github] Creating discussion on GitHub repository " ++
                 CATEGORY_NAME cfg ++ lit ": " ++ t_name thread) ;;
    w <- get ;;
    repositoryId <- getRepositoryId ;;
    mutation_createDiscussion (REPO_CATEGORY_ID w) (t_name thread)
      (makeGithubComment (m_content message ++ [LF; LF] ++ marker (t_id thread)) author url)
      repositoryId
end.

Definition listGithubDiscussions : M (list GithubDiscussion) :=
w <- get ;;
match discussionCache w with
| Some cached => ret cached
| None =>
    nodes <- query_discussions (REPO_CATEGORY_ID w) ;;
    modify (set_discussionCache (Some nodes)) ;;
    ret nodes
end.

End WithConfig.
End Github.

(* ================================================================= *)
(** ** [src/index.ts] *)

(** The body of a webhook request and its [x-github-event] header. *)
Record Request : Type := {
  x_github_event : jsstring;
  action : jsstring;
  discussion : option GithubDiscussion
}.

Inductive Way : Type := way_discord | way_github.

Module Index.
Section WithConfig.

Variable cfg : Config.

(** The first cached discussion whose body holds the marker of the
  thread. *)
Definition findThreadOnGitHub (thread : AnyThreadChannel)
  : M (option GithubDiscussion) :=
listing <- Github.listGithubDiscussions ;;
ret (find (fun it => includes (d_body it) (Github.marker (t_id thread))) listing).

(** [/<!-- Discord:(\d+) -->/g] *)
Definition markerPattern : regex :=
str "<!-- Discord:" ++ [Open; Plus true (Cls false [Digit]); Close] ++ str " -->".

(** [/<!-- Discord:(\d+) -->/g.exec(body)?.[1]] *)
Definition markerId (body : jsstring) : option jsstring :=
option_map (group 1) (exec false markerPattern body 0).

Definition findDiscussionOnDiscord (discussion : GithubDiscussion)
  : M (option AnyThreadChannel) :=
threads <- Discord.listDiscordThreads cfg ;;
let id := markerId (d_body discussion) in
ret (option_map snd
       (find (fun it => match id with
                        | Some id => eqb (t_id (snd it)) id
                        | None => false
                        end) threads)).

(** [Promise.all] starts both listings: when the messages of the thread
  cannot be fetched, the catch-up fails at once and the listing of the
  comments is left running ([promise_all]). *)
Definition syncMessages (thread : AnyThreadChannel) (discussion : GithubDiscussion)
  : M unit :=
logger INFO (lit "Loading messages from thread " ++ t_id thread ++
             lit " & discussion " ++ d_id discussion) ;;
lists <- promise_all (Discord.listDiscordMessages thread)
           (Github.listGithubComments discussion) ;;
let threadMessages := fst lists in
let discussionMessages := snd lists in
if (length threadMessages =? length discussionMessages)%nat then
  logger INFO (lit "No new messages to sync between Discord thread " ++ t_id thread ++
               lit " & GitHub discussion " ++ d_id discussion)
else
  let way := if (length threadMessages <? length discussionMessages)%nat
             then way_discord else way_github in
  match way with
  | way_discord =>
      logger INFO (lit "Syncing messages from GitHub to Discord") ;;
      if DRY_RUN cfg then
        logger INFO (lit "Dry run enabled, skipping actual sync")
      else
        for_range (length threadMessages)
          (length discussionMessages - length threadMessages)
          (fun idx =>
             message <- item discussionMessages idx ;;
             Discord.pushDiscordMessage cfg thread message discussion)
  | way_github =>
      logger INFO (lit "Syncing messages from Discord to GitHub") ;;
      if DRY_RUN cfg then
        logger INFO (lit "Dry run enabled, skipping actual sync")
      else
        for_range (length discussionMessages)
          (length threadMessages - length discussionMessages)
          (fun idx =>
             message <- item threadMessages idx ;;
             Github.pushGithubComment thread message discussion)
  end.

(** Sync a discussion from GitHub to Discord. *)
Definition syncDiscussionOnDiscord (discussion : GithubDiscussion) : M unit :=
if negb (match d_category discussion with
         | Some name => eqb name (CATEGORY_NAME cfg)
         | None => false
         end)
then logger INFO (lit "skipping discussion not in the correct category")
else
  found <- findDiscussionOnDiscord discussion ;;
  match found with
  | Some thread => syncMessages thread discussion
  | None =>
      logger INFO (lit "Creating thread on Discord") ;;
      if DRY_RUN cfg then
        logger INFO (lit "Dry run: Skipping creation of thread on Discord")
      else
        res <- Discord.createThread cfg (login (d_author discussion))
                 (d_number discussion) (d_title discussion) (d_body discussion) ;;
        Github.updateDiscussion discussion (t_id res) ;;
        syncMessages res discussion
  end.

(** Sync a thread from Discord to GitHub.  The seed handed to
  [createDiscussion] is [(await thread.messages.fetch()).reverse().at(0)]. *)
Definition syncThreadOnGitHub (thread : AnyThreadChannel) : M unit :=
found <- findThreadOnGitHub thread ;;
match found with
| Some discussion => syncMessages thread discussion
| None =>
    logger INFO (lit "Creating discussion on GitHub") ;;
    if DRY_RUN cfg then
      logger INFO (lit "Dry run: Skipping creation of discussion on GitHub")
    else
      fetched <- messages_fetch thread ;;
      discussion <- Github.createDiscussion cfg thread (nth_error (rev fetched) 0) ;;
      syncMessages thread discussion
end.

(** The handler of [app.all] for the path [/webhook]. *)
Definition webhook (req : Request) : M unit :=
try_catch
  ((if eqb (x_github_event req) (lit "discussion") && eqb (action req) (lit "created")
    then
      logger INFO (lit "Received discussion creation event") ;;
      match discussion req with
      | Some d => syncDiscussionOnDiscord d
      | None => type_error (lit "undefined is not an object (evaluating 'discussion.category')")
      end
    else if eqb (x_github_event req) (lit "discussion_comment") &&
            eqb (action req) (lit "created")
    then
      logger INFO (lit "Received discussion comment event") ;;
      match discussion req with
      | Some d => syncDiscussionOnDiscord d
      | None => type_error (lit "undefined is not an object (evaluating 'discussion.category')")
      end
    else ret tt) ;;
   sendStatus 200)
  (fun e =>
     logger ERROR (lit "Webhook handler error: " ++ toString e) ;;
     sendStatus 500).

(** The handlers of the two Discord events, over the entry point they
  route to. *)
Section Handlers.

Variable syncThreadOnGitHub : AnyThreadChannel -> M unit.

(** The handler of the [threadCreate] event: it opens with a bare
  [return;]. *)
Definition threadCreate (thread : AnyThreadChannel) : M unit :=
returning (ret tt)
  (try_catch
     (if negb (eqb (t_parentId thread) (FORUM_CHANNEL_ID cfg)) then ret tt
      else
        messages <- messages_fetch thread ;;
        match firstn 1 messages with
        | [] => ret tt
        | msg :: _ => syncThreadOnGitHub thread
        end)
     (fun e =>
        logger ERROR (lit "Discord threadCreate error: " ++ e_message e) ;;
        try_catch
          (thread_send thread (lit "Failed to create GitHub discussion: " ++ e_message e))
          (fun sendError =>
             logger ERROR (lit "Failed to send error message to thread: " ++
                           toString sendError)))).

(** The handler of the [messageCreate] event. *)
Definition messageCreate (message : Message) : M unit :=
try_catch
  (match m_channel message with
   | None => logger INFO (lit "message not in thread")
   | Some thread =>
       if negb (eqb (t_parentId thread) (FORUM_CHANNEL_ID cfg)) then
         logger INFO (lit "thread not in forum channel")
       else if u_bot (m_author message) || includes (m_content message) ATTRIBUTION then
         logger INFO (lit "message ignored")
       else syncThreadOnGitHub thread
   end)
  (fun e =>
     logger ERROR (lit "Discord messageCreate error: " ++ e_message e) ;;
     try_catch
       (message_reply message (lit "Failed to sync to GitHub: " ++ e_message e))
       (fun replyError =>
          logger ERROR (lit "Failed to send error reply: " ++ toString replyError))).

End Handlers.

Definition on_threadCreate : AnyThreadChannel -> M unit := threadCreate syncThreadOnGitHub.
Definition on_messageCreate : Message -> M unit := messageCreate syncThreadOnGitHub.

(** Start-up, up to the point where the server begins to listen.  Of the
  two promises of its [Promise.all], the first is [discord.login] and the
  line that follows it: the login opens the gateway session, is no call of
  the collaborator contract and is taken to succeed at once, so nothing is
  left running when [loadGithub] fails. *)
Definition init : M unit :=
logger INFO (lit "Initializing GitHub/Discord...") ;;
logger INFO (lit "Discord ready !") ;;
Github.loadGithub cfg ;;
logger INFO (lit "Github ready !") ;;
logger INFO (lit "Syncing existing Discord threads to Github") ;;
threads <- Discord.listDiscordThreads cfg ;;
for_each threads (fun thread =>
  logger INFO (lit "Syncing thread " ++ fst thread) ;;
  syncThreadOnGitHub (snd thread)) ;;
discussions <- Github.listGithubDiscussions ;;
for_each discussions (fun discussion =>
  logger INFO (lit "Syncing Discussion " ++ of_Z (d_number discussion)) ;;
  syncDiscussionOnDiscord discussion).

End WithConfig.
End Index.

(* ================================================================= *)
(** ** The single-file version *)

Module Legacy.

(** The patterns below are given with [Q] for the double quote.

    [/<img.*?src=Q(https:\/\/github\.com\/user-attachments\/assets\/[^Q]+)Q.*?\/>/g] *)
Definition attachmentTag : regex :=
  str "<img" ++ [Star false Dot] ++ str "src=" ++ [A (Chr DQUOTE); Open] ++
  str "https://github.com/user-attachments/assets/" ++
  [Plus true (Cls true [One DQUOTE]); Close; A (Chr DQUOTE); Star false Dot] ++
  str "/>".

(** [/<img.*?src=Q(https?:\/\/[^Q]+)Q.*?\/>/] *)
Definition imageTag : regex :=
  str "<img" ++ [Star false Dot] ++ str "src=" ++ [A (Chr DQUOTE); Open] ++
  str "http" ++ [Opt (Chr (ch "s"))] ++ str "://" ++
  [Plus true (Cls true [One DQUOTE]); Close; A (Chr DQUOTE); Star false Dot] ++
  str "/>".

(** [/<img.*?src=Q(https?:\/\/[^Q]+)Q.*?alt=Q( [^Q]* )Q.*?\/>/], the second
    group written here with spaces inside its parentheses. *)
Definition imageTagWithAlt : regex :=
  str "<img" ++ [Star false Dot] ++ str "src=" ++ [A (Chr DQUOTE); Open] ++
  str "http" ++ [Opt (Chr (ch "s"))] ++ str "://" ++
  [Plus true (Cls true [One DQUOTE]); Close; A (Chr DQUOTE); Star false Dot] ++
  str "alt=" ++
  [A (Chr DQUOTE); Open; Star true (Cls true [One DQUOTE]); Close; A (Chr DQUOTE);
   Star false Dot] ++
  str "/>".

(** [/(https:\/\/github\.com\/user-attachments\/assets\/[a-zA-Z0-9-]+)/] *)
Definition attachmentRegex : regex :=
  [Open] ++ str "https://github.com/user-attachments/assets/" ++
  [Plus true (Cls false [Rng (ch "a") (ch "z"); Rng (ch "A") (ch "Z");
                         Rng (ch "0") (ch "9"); One (ch "-")]);
   Close].

(** One round of the [while ((match = attachmentRegex.exec(...)) !== null)]
    loop: the content and the [lastIndex] it leaves. *)
Definition isolate (processedContent : jsstring) (mt : Match) : jsstring * nat :=
  let position := index mt in
  let fullMatch := matched mt in
  let lastIndex := (position + length fullMatch)%nat in
  let before := or_else (charAt processedContent (Z.of_nat position - 1)) [LF] in
  let after :=
    or_else (charAt processedContent (Z.of_nat (position + length fullMatch))) [LF] in
  let '(processedContent, lastIndex) :=
    if negb (eqb before [LF])
    then (slice processedContent 0 position ++ [LF] ++ slice_from processedContent position,
          (lastIndex + 1)%nat)
    else (processedContent, lastIndex) in
  if negb (eqb after [LF])
  then
    let insertPosition :=
      (position + length fullMatch + (if negb (eqb before [LF]) then 1 else 0))%nat in
    (slice processedContent 0 insertPosition ++ [LF] ++
     slice_from processedContent insertPosition,
     (lastIndex + 1)%nat)
  else (processedContent, lastIndex).

Fixpoint attachment_loop (fuel : nat) (processedContent : jsstring) (lastIndex : nat)
    : option jsstring :=
  match fuel with
  | O => None
  | S fuel' =>
      match exec false attachmentRegex processedContent lastIndex with
      | None => Some processedContent
      | Some mt =>
          let next := isolate processedContent mt in
          attachment_loop fuel' (fst next) (snd next)
      end
  end.

(** Process GitHub user-attachments in content for proper display in
    Discord.  Each round of the loop moves [lastIndex] closer to the end of
    the content, so one round per code unit, plus one, is enough
    (see [attachment_loop_returns]). *)
Definition processGitHubAttachments (content : jsstring) : jsstring :=
  let processedContent := content in
  let processedContent :=
    replace false attachmentTag (fun mt => [LF] ++ group 1 mt ++ [LF]) processedContent in
  let processedContent :=
    replace false imageTag (fun mt => [LF] ++ group 1 mt ++ [LF]) processedContent in
  match attachment_loop (S (length processedContent)) processedContent 0 with
  | Some processedContent => processedContent
  | None => processedContent
  end.

(** Convert GitHub user-attachments in content to Markdown format for
    GitHub.  The replacer of the last pass looks at the content as it is
    before that pass. *)
Definition convertAttachmentsToMarkdown (content : jsstring) : jsstring :=
  let processedContent := content in
  let processedContent :=
    replace true imageTagWithAlt
      (expand [Txt (lit "!["); Ref 2; Txt (lit "]("); Ref 1; Txt (lit ")")])
      processedContent in
  let processedContent :=
    replace true imageTag
      (expand [Txt (lit "![Image]("); Ref 1; Txt (lit ")")])
      processedContent in
  replace true attachmentRegex
    (fun mt =>
       let match_ := matched mt in
       if includes processedContent (lit "![") &&
          includes processedContent (lit "](" ++ match_ ++ lit ")")
       then match_
       else lit "![GitHub Image](" ++ match_ ++ lit ")")
    processedContent.

(** The attribution prefix as this file has it: the code units U+F8FF
    U+00FC U+00ED U+00A8, a space and two asterisks. *)
Definition ATTRIBUTION : jsstring := [63743; 252; 237; 168]%N ++ lit " **".

Section WithConfig.

Variable cfg : Config.

Definition messagePrefix (author : jsstring) (number : Z) : jsstring :=
ATTRIBUTION ++ author ++ lit "** on [GitHub](<https://github.com/" ++
GITHUB_OWNER cfg ++ lit "/" ++ GITHUB_REPO cfg ++ lit "/discussions/" ++
of_Z number ++ lit ">) wrote:" ++ [LF].

Definition processedBody (body : jsstring) : jsstring :=
let processedBody := replace false markdownImage (expand [Ref 2]) body in
processGitHubAttachments processedBody.

Definition makeDiscordMessage (author : jsstring) (number : Z) (body : jsstring)
  : jsstring :=
let messagePrefix := messagePrefix author number in
let maxContentLength := (1900 - Z.of_nat (length messagePrefix))%Z in
let processedBody := processedBody body in
messagePrefix ++
(if (maxContentLength <? Z.of_nat (length processedBody))%Z
 then substring processedBody 0 maxContentLength ++ CONTINUED
 else processedBody).

Definition makeGithubComment (message author url : jsstring) : jsstring :=
let processedContent := convertAttachmentsToMarkdown message in
ATTRIBUTION ++ author ++ lit "** on [Discord](" ++ url ++
lit ") wrote:" ++ [LF; LF] ++ processedContent.

(** *** The category of the repository *)

Definition getRepositoryId : M jsstring :=
try_catch
  (result <- query_repository_id ;;
   match result with
   | None => throw (lit "Repository " ++ Github.repoName cfg ++
                    lit " not found. Check your GITHUB_OWNER and GITHUB_REPO settings.")
   | Some id => ret id
   end)
  (fun error =>
     logger ERROR (lit "Failed to fetch repository ID: " ++ e_message error) ;;
     throw (lit "Cannot access repository: " ++ e_message error)).

(** Here a category that is not found is created, when
  [createIfNotExists] says so (it is [true] unless given); [DRY_RUN] is
  not looked at. *)
Definition fetchRepoCategoryIdByName (name : jsstring) (createIfNotExists : bool)
  : M jsstring :=
try_catch
  (try_catch
     (repoResult <- query_repository ;;
      match repoResult with
      | None => throw (lit "Repository " ++ Github.repoName cfg ++
                       lit " not found. Check your GITHUB_OWNER and GITHUB_REPO settings.")
      | Some false => throw (lit "Discussions are not enabled on repository " ++
                             Github.repoName cfg ++
                             lit ". Enable them in repository settings.")
      | Some true => ret tt
      end)
     (fun repoError =>
        logger ERROR (lit "Repository check failed: " ++ e_message repoError) ;;
        rethrow repoError) ;;
   result <- query_categories ;;
   match result with
   | None => throw (lit "Could not access repository " ++ Github.repoName cfg)
   | Some categories =>
       match find (fun c => eqb (cat_name c) name) categories with
       | Some cat => ret (cat_id cat)
       | None =>
           if createIfNotExists then
             logger INFO (lit "Category '" ++ name ++
                          lit "' not found. Attempting to create it...") ;;
             try_catch
               (repositoryId <- getRepositoryId ;;
                mutation_createDiscussionCategory repositoryId name
                  (lit "Auto-created category for GitHub-Discord sync"))
               (fun createError =>
                  logger ERROR (lit "Failed to create category '" ++ name ++ lit "': " ++
                                e_message createError) ;;
                  throw (lit "Category '" ++ name ++
                         lit "' not found and could not be created. Error: " ++
                         e_message createError))
           else
             throw (lit "Category '" ++ name ++ lit "' not found in repository " ++
                    Github.repoName cfg)
       end
   end)
  (fun error =>
     logger ERROR (lit "Failed to fetch or create category with name '" ++
                   name ++ lit "': " ++ e_message error) ;;
     rethrow error).

(** *** The synchronization functions *)

Definition updateDiscussion (discussion : GithubDiscussion) (discordId : jsstring)
  : M unit :=
if DRY_RUN cfg then
  console_log (lit "DRY_RUN: Would update discussion #" ++ of_Z (d_number discussion) ++
               lit " with body: " ++ d_body discussion)
else
  console_log (lit "Updating discussion #" ++ of_Z (d_number discussion) ++
               lit " with body: " ++ d_body discussion) ;;
  mutation_updateDiscussion (d_id discussion)
    (d_body discussion ++ [LF; LF] ++ Github.marker discordId).

Definition listDiscussions : M (list GithubDiscussion) :=
w <- get ;;
match discussionCache w with
| Some cached => ret cached
| None =>
    nodes <- query_discussions (REPO_CATEGORY_ID w) ;;
    let mapped :=
      map (fun it =>
             {| d_body := d_body it; d_author := d_author it; d_id := d_id it;
                d_number := d_number it; d_title := d_title it;
                d_category := None |}) nodes in
    modify (set_discussionCache (Some mapped)) ;;
    ret mapped
end.

Fixpoint listGitHubComments_loop (fuel : nat) (discussion : GithubDiscussion)
  (comments : list GithubComment) (offset : option nat)
  : M (option (list GithubComment)) :=
match fuel with
| O => ret None
| S fuel' =>
    res <- query_comments (d_number discussion) offset ;;
    let offset := snd (snd res) in
    let hasNextPage := fst (snd res) in
    let comments :=
      comments ++
      map (fun comment =>
             {| c_id := c_id comment; c_body := c_body comment;
                c_author := c_author comment |}) (fst res) in
    if hasNextPage
    then listGitHubComments_loop fuel' discussion comments offset
    else ret (Some comments)
end.

Definition listGitHubComments (discussion : GithubDiscussion)
  : M (list GithubComment) :=
w <- get ;;
let rounds :=
  match find_discussion (d_number discussion) w with
  | Some r => S (length (rd_comments r))
  | None => 1%nat
  end in
res <- listGitHubComments_loop rounds discussion [] None ;;
match res with
| Some comments => ret comments
| None => throw (lit "unreachable")
end.

Definition listDiscordThreads : M (list (jsstring * AnyThreadChannel)) :=
forum <- channels_fetch (FORUM_CHANNEL_ID cfg) ;;
threads_fetch.

(** The pattern of [fromGithub] as this file has it: it opens with the
  code units U+F8FF U+00FC U+00EE U+00D1. *)
Definition fromGithubPattern : regex :=
[Bol; A (Chr 63743); A (Chr 252); A (Chr 238); A (Chr 209); A (Chr (ch " "));
 Star true (Chr (ch "\")); Star true (Chr (ch "\")); Star true Dot;
 Star true (Chr (ch "\")); Star true (Chr (ch "\"))] ++
str " on GitHub wrote:" ++ [A (Chr (ch "\")); A (Chr (ch "n"))].

Definition toThreadMessage (bot : User) (message : Message) : ThreadMessage :=
{| tm_id := m_id message;
   tm_message := m_content message;
   tm_user := u_username (m_author message);
   tm_isAuthor := eqb (u_id (m_author message)) (u_id bot);
   tm_fromGithub :=
     match exec false fromGithubPattern (m_content message) 0 with
     | Some _ => true
     | None => false
     end |}.

Definition listDiscordMessages (thread : AnyThreadChannel) : M (list ThreadMessage) :=
fetched <- messages_fetch thread ;;
w <- get ;;
ret (skipn 1 (rev (map (toThreadMessage (user (discord w))) fetched))).

(** Among the cached discussions titled as the thread, the first whose
  body holds the thread id. *)
Definition findThreadOnGitHub (thread : AnyThreadChannel)
  : M (option GithubDiscussion) :=
listing <- listDiscussions ;;
ret (find (fun it => includes (d_body it) (t_id thread))
       (filter (fun it => eqb (d_title it) (t_name thread)) listing)).

Definition findDiscussionOnDiscord (discussion : GithubDiscussion)
  : M (option AnyThreadChannel) :=
threads <- listDiscordThreads ;;
let id := Index.markerId (d_body discussion) in
ret (option_map snd
       (find (fun it => match id with
                        | Some id => eqb (t_id (snd it)) id
                        | None => false
                        end) threads)).

Definition createDiscussion (thread : AnyThreadChannel) (message : option Message)
  : M (option GithubDiscussion) :=
match message with
| None => type_error (lit "undefined is not an object (evaluating 'message.author')")
| Some message =>
    let author := u_username (m_author message) in
    let url := Github.messageUrl thread (m_id message) in
    if DRY_RUN cfg then
      console_log (lit "[DRY RUN] Creating discussion on GitHub repository " ++
                   CATEGORY_NAME cfg ++ lit ": " ++ t_name thread) ;;
      ret None
    else
      console_log (lit "Creating discussion on GitHub repository " ++
                   CATEGORY_NAME cfg ++ lit ": " ++ t_name thread) ;;
      w <- get ;;
      repositoryId <- getRepositoryId ;;
      created <- mutation_createDiscussion (REPO_CATEGORY_ID w) (t_name thread)
        (makeGithubComment (m_content message ++ [LF; LF] ++ Github.marker (t_id thread))
           author url)
        repositoryId ;;
      ret (Some created)
end.

Definition createThread (author : jsstring) (number : Z) (title body : jsstring)
  : M (option AnyThreadChannel) :=
forum <- channels_fetch (FORUM_CHANNEL_ID cfg) ;;
if DRY_RUN cfg then
  console_log (lit "[DRY RUN] Creating thread on Discord forum " ++ forum ++
               lit ": " ++ title) ;;
  ret None
else
  console_log (lit "Creating thread on Discord forum " ++ forum ++ lit ": " ++ title) ;;
  thread <- threads_create forum title (makeDiscordMessage author number body) ;;
  ret (Some thread).

Definition pushDiscordMessage (thread : AnyThreadChannel) (comment : GithubComment)
  (discussion : GithubDiscussion) : M unit :=
if DRY_RUN cfg then
  console_log (lit "[DRY RUN] Sending message to Discord thread " ++ t_id thread ++
               lit ": " ++ c_body comment)
else
  console_log (lit "Sending message to Discord thread " ++ t_id thread ++
               lit ": " ++ c_body comment) ;;
  thread_send thread
    (makeDiscordMessage (login (c_author comment)) (d_number discussion) (c_body comment)).

Definition pushGithubComment (thread : AnyThreadChannel) (message : ThreadMessage)
  (discussion : GithubDiscussion) : M unit :=
if DRY_RUN cfg then
  console_log (lit "[DRY RUN] Sending comment to GitHub discussion " ++
               of_Z (d_number discussion) ++ lit ": " ++ tm_message message)
else
  let url := Github.messageUrl thread (tm_id message) in
  console_log (lit "Sending comment to GitHub discussion " ++
               of_Z (d_number discussion) ++ lit ": " ++ tm_message message) ;;
  mutation_addDiscussionComment (d_id discussion)
    (makeGithubComment (tm_message message) (tm_user message) url).

Definition syncMessages (thread : AnyThreadChannel) (discussion : GithubDiscussion)
  : M unit :=
threadMessages <- listDiscordMessages thread ;;
discussionMessages <- listGitHubComments discussion ;;
let way := if (length threadMessages <? length discussionMessages)%nat
           then way_discord else way_github in
match way with
| way_discord =>
    for_range (length threadMessages)
      (length discussionMessages - length threadMessages)
      (fun idx =>
         message <- item discussionMessages idx ;;
         pushDiscordMessage thread message discussion)
| way_github =>
    for_range (length discussionMessages)
      (length threadMessages - length discussionMessages)
      (fun idx =>
         message <- item threadMessages idx ;;
         pushGithubComment thread message discussion)
end.

Definition syncDiscussionOnDiscord (discussion : GithubDiscussion) : M unit :=
found <- findDiscussionOnDiscord discussion ;;
match found with
| Some thread => syncMessages thread discussion
| None =>
    res <- createThread (login (d_author discussion)) (d_number discussion)
             (d_title discussion) (d_body discussion) ;;
    match res with
    | None =>
        console_log (lit "[DRY RUN] Failed to create thread on Discord forum " ++
                     FORUM_CHANNEL_ID cfg ++ lit ": " ++ d_title discussion)
    | Some res =>
        updateDiscussion discussion (t_id res) ;;
        syncMessages res discussion
    end
end.

Definition syncThreadOnGitHub (thread : AnyThreadChannel) : M unit :=
found <- findThreadOnGitHub thread ;;
match found with
| Some discussion => syncMessages thread discussion
| None =>
    fetched <- messages_fetch thread ;;
    created <- createDiscussion thread (nth_error (rev fetched) 0) ;;
    match created with
    | None =>
        console_log (lit "[DRY RUN] Failed to create discussion on GitHub category " ++
                     CATEGORY_NAME cfg ++ lit ": " ++ t_name thread)
    | Some discussion => syncMessages thread discussion
    end
end.

(** [syncDiscussionOnDiscord(undefined)], for a request without a
  discussion: [findDiscussionOnDiscord] awaits the threads before it reads
  [discussion.body]. *)
Definition unsent : M unit :=
threads <- listDiscordThreads ;;
type_error (lit "undefined is not an object (evaluating 'discussion.body')").

Definition webhook (req : Request) : M unit :=
try_catch
  ((if eqb (x_github_event req) (lit "discussion") && eqb (action req) (lit "created")
    then
      logger INFO (lit "Received discussion creation event") ;;
      match discussion req with
      | Some d => syncDiscussionOnDiscord d
      | None => unsent
      end
    else if eqb (x_github_event req) (lit "discussion_comment") &&
            eqb (action req) (lit "created")
    then
      logger INFO (lit "Received discussion comment event") ;;
      match discussion req with
      | Some d => syncDiscussionOnDiscord d
      | None => unsent
      end
    else ret tt) ;;
   sendStatus 200)
  (fun e =>
     logger ERROR (lit "Webhook handler error: " ++ toString e) ;;
     sendStatus 500).

Section Handlers.

Variable syncThreadOnGitHub : AnyThreadChannel -> M unit.

(** The handler of the [threadCreate] event: here too it opens with a
  bare [return;]. *)
Definition threadCreate (thread : AnyThreadChannel) : M unit :=
returning (ret tt)
  (try_catch
     (if negb (eqb (t_parentId thread) (FORUM_CHANNEL_ID cfg)) then ret tt
      else
        messages <- messages_fetch thread ;;
        match firstn 1 messages with
        | [] => ret tt
        | msg :: _ =>
            w <- get ;;
            match REPO_CATEGORY_ID w with
            | None => console_log (lit "REPO_CATEGORY_ID is not set!")
            | Some _ => syncThreadOnGitHub thread
            end
        end)
     (fun e =>
        logger ERROR (lit "Discord threadCreate error: " ++ e_message e) ;;
        try_catch
          (thread_send thread (lit "Failed to create GitHub discussion: " ++ e_message e))
          (fun sendError =>
             logger ERROR (lit "Failed to send error message to thread: " ++
                           toString sendError)))).

Definition messageCreate (message : Message) : M unit :=
try_catch
  (match m_channel message with
   | None => logger INFO (lit "message not in thread")
   | Some thread =>
       if negb (eqb (t_parentId thread) (FORUM_CHANNEL_ID cfg)) then
         logger INFO (lit "thread not in forum channel")
       else if u_bot (m_author message) || includes (m_content message) ATTRIBUTION then
         logger INFO (lit "message ignored")
       else syncThreadOnGitHub thread
   end)
  (fun e =>
     logger ERROR (lit "Discord messageCreate error: " ++ e_message e) ;;
     try_catch
       (message_reply message (lit "Failed to sync to GitHub: " ++ e_message e))
       (fun replyError =>
          logger ERROR (lit "Failed to send error reply: " ++ toString replyError))).

End Handlers.

Definition on_threadCreate : AnyThreadChannel -> M unit := threadCreate syncThreadOnGitHub.
Definition on_messageCreate : Message -> M unit := messageCreate syncThreadOnGitHub.

(** Start-up, up to the point where the server begins to listen.  When the
  category cannot be had the process exits: [process.exit(1)] is recorded
  and nothing after it runs. *)
Definition init : M unit :=
loaded <-
  try_catch
    (id <- fetchRepoCategoryIdByName (CATEGORY_NAME cfg) true ;;
     modify (set_REPO_CATEGORY_ID (Some id)) ;;
     logger INFO (lit "Using Repository Category ID: " ++ id) ;;
     ret true)
    (fun categoryError =>
       logger ERROR (lit "Category initialization failed: " ++ e_message categoryError) ;;
       emit (ProcessExit 1) ;;
       ret false) ;;
if loaded : bool then
  discussions <- listDiscussions ;;
  for_each discussions (fun discussion => syncDiscussionOnDiscord discussion) ;;
  threads <- listDiscordThreads ;;
  for_each threads (fun thread => syncThreadOnGitHub (snd thread))
else ret tt.

End WithConfig.
End Legacy.

(* ================================================================= *)
(** * The vocabulary of the properties *)

Module Bounds.

(** The fewest code units a pattern consumes. *)
Definition width (n : node) : nat :=
  match n with
  | A _ | Plus _ _ => 1
  | _ => 0
  end.

Definition min_width (r : regex) : nat := list_sum (map width r).

Section WithFlag.

Variable ignoreCase : bool.

(** A continuation that ends no earlier than [n] units further and no
    later than the end of the input. *)
Definition bounded (n : nat) (k : nat -> jsstring -> option found) : Prop :=
  forall i s e c, k i s = Some (e, c) -> i + n <= e <= i + length s.

End WithFlag.

End Bounds.

(* ================================================================= *)
(** * MessageTransformer: the length clamp *)
Module Clamp.

(** What is asked of the rendered message [out], for the attribution
    header [prefix] and the rewritten body [processed]: the header stands
    whole; a body that fits in the 1900 units left by the header follows
    it unchanged and without a marker; a longer body is cut to exactly
    that room and the continuation marker follows; and the whole stays
    within the ceiling of the platform. *)
Definition clamped (prefix processed out : jsstring) : Prop :=
  (exists rest, out = prefix ++ rest) /\
  (length processed <= 1900 - length prefix -> out = prefix ++ processed) /\
  (1900 - length prefix < length processed ->
   exists kept dropped,
     processed = kept ++ dropped /\ dropped <> [] /\
     length kept = 1900 - length prefix /\
     out = prefix ++ kept ++ CONTINUED) /\
  (Z.of_nat (length out) <= DISCORD_MESSAGE_LIMIT)%Z.

(** The last step of [makeDiscordMessage], in both versions. *)
Definition render (prefix processed : jsstring) : jsstring :=
  prefix ++
  (if (1900 - Z.of_nat (length prefix) <? Z.of_nat (length processed))%Z
   then substring processed 0 (1900 - Z.of_nat (length prefix)) ++ CONTINUED
   else processed).

End Clamp.

(* ================================================================= *)
(** * A small forum and repository, for the concrete runs *)
Module Sample.

Definition bot : User :=
  {| u_id := lit "900"; u_username := lit "syncbot"; u_bot := true |}.

Definition alice : User :=
  {| u_id := lit "901"; u_username := lit "alice"; u_bot := false |}.

(** A thread of the configured forum channel. *)
Definition thread : AnyThreadChannel :=
  {| t_id := lit "555"; t_name := lit "Bug: crash on startup";
     t_parentId := FORUM_CHANNEL_ID default_config; t_guild_id := lit "77" |}.

Definition said (id content : jsstring) : Message :=
  {| m_id := id; m_content := content; m_author := alice; m_channel := Some thread |}.

Definition seed : Message := said (lit "555") (lit "Steps to reproduce...").

(** A native message that quotes the attribution prefix. *)
Definition quoting : Message :=
  said (lit "556") (lit "as the bot said: " ++ ATTRIBUTION ++ lit "octocat** on").

Definition comment (id body : jsstring) : GithubComment :=
  {| c_id := id; c_body := body; c_author := {| login := lit "octocat" |} |}.

(** The discussion linked to the thread, as the listing gives it. *)
Definition linked : GithubDiscussion :=
  {| d_id := lit "D_7"; d_number := 7; d_title := lit "Bug: crash on startup";
     d_body := lit "It crashes." ++ [LF; LF] ++ Github.marker (lit "555");
     d_author := {| login := lit "octocat" |}; d_category := None |}.

Definition platform (discussions : list RemoteDiscussion) (messages : list Message)
    : World :=
  {| github := {| repository := Some (lit "R_1"); hasDiscussionsEnabled := true;
                  categories := [{| cat_id := lit "C_1"; cat_name := lit "General" |}];
                  discussions := discussions; viewer := lit "syncbot" |};
     discord := {| forum := Some (FORUM_CHANNEL_ID default_config); guild := lit "77";
                   threads := [{| rt := thread; rt_messages := messages |}];
                   user := bot |};
     next_id := 1000; outage := fun _ => false; calls := 0;
     discussionCache := None; REPO_CATEGORY_ID := Some (lit "C_1"); trace := [];
     detached := [] |}.

(** The thread with its seed only, no discussion yet. *)
Definition world : World := platform [] [seed].

(** The thread with its seed only; the linked discussion with two
    comments. *)
Definition on_github : RemoteDiscussion :=
  {| rd := linked; rd_category_id := lit "C_1";
     rd_comments := [comment (lit "DC_1") (lit "first reply");
                     comment (lit "DC_2") (lit "second reply")] |}.

Definition on_discord : RemoteThread := {| rt := thread; rt_messages := [seed] |}.

Definition behind : World := platform [on_github] [seed].

Definition dry : Config :=
  {| FORUM_CHANNEL_ID := FORUM_CHANNEL_ID default_config;
     GITHUB_REPO := lit "sync"; GITHUB_OWNER := lit "tcgdex";
     CATEGORY_NAME := lit "General"; DRY_RUN := true |}.

Definition live : Config :=
  {| FORUM_CHANNEL_ID := FORUM_CHANNEL_ID default_config;
     GITHUB_REPO := lit "sync"; GITHUB_OWNER := lit "tcgdex";
     CATEGORY_NAME := lit "General"; DRY_RUN := false |}.

End Sample.

(* ================================================================= *)
(** * Triggers: what the two Discord handlers route *)
Module Triggers.

(** A probe put in place of the entry point: it records the thread it is
    handed. *)
Definition probe_line (thread : AnyThreadChannel) : jsstring :=
  lit "syncThreadOnGitHub " ++ t_id thread.

Definition probe (thread : AnyThreadChannel) : M unit :=
  console_log (probe_line thread).

(** A handler invokes the entry point for [thread] when, run from [w] with
    the probe as entry point, what it adds to the trace holds the record
    of the thread. *)
Definition invokes (handler : (AnyThreadChannel -> M unit) -> M unit)
    (thread : AnyThreadChannel) (w : World) : Prop :=
  In (Console (probe_line thread))
     (skipn (length (trace w)) (trace (snd (handler probe w)))).

(** The three ways [messageCreate] drops a message. *)
Definition dropped : list jsstring :=
  [lit "message not in thread"; lit "thread not in forum channel"; lit "message ignored"].

End Triggers.

(* ================================================================= *)
(** * The discussion listing cache *)
Module Cache.

(** A computation keeps the cache when, started with a cache in place, it
    ends with the same cache, whether it returns or throws. *)
Definition keeps {A} (c : M A) : Prop :=
  forall w snapshot,
    discussionCache w = Some snapshot ->
    discussionCache (snd (c w)) = Some snapshot.

End Cache.

(** Everything the process can be asked to do after start-up: the triggers,
    and each exported function of [github.ts], [discord.ts] and [index.ts]
    on its own. *)
Inductive Operation : Type :=
| op_init
| op_webhook (req : Request)
| op_threadCreate (thread : AnyThreadChannel)
| op_messageCreate (message : Message)
| op_syncDiscussionOnDiscord (discussion : GithubDiscussion)
| op_syncThreadOnGitHub (thread : AnyThreadChannel)
| op_syncMessages (thread : AnyThreadChannel) (discussion : GithubDiscussion)
| op_findThreadOnGitHub (thread : AnyThreadChannel)
| op_findDiscussionOnDiscord (discussion : GithubDiscussion)
| op_loadGithub
| op_listGithubDiscussions
| op_listGithubComments (discussion : GithubDiscussion)
| op_createDiscussion (thread : AnyThreadChannel) (message : option Message)
| op_updateDiscussion (discussion : GithubDiscussion) (discordId : jsstring)
| op_pushGithubComment (thread : AnyThreadChannel) (message : ThreadMessage)
    (discussion : GithubDiscussion)
| op_listDiscordThreads
| op_listDiscordMessages (thread : AnyThreadChannel)
| op_createThread (author : jsstring) (number : Z) (title body : jsstring)
| op_pushDiscordMessage (thread : AnyThreadChannel) (comment : GithubComment)
    (discussion : GithubDiscussion).

Definition done {A} (c : M A) : M unit := bind c (fun _ => ret tt).

Definition perform (cfg : Config) (op : Operation) : M unit :=
  match op with
  | op_init => Index.init cfg
  | op_webhook req => Index.webhook cfg req
  | op_threadCreate thread => Index.on_threadCreate cfg thread
  | op_messageCreate message => Index.on_messageCreate cfg message
  | op_syncDiscussionOnDiscord d => Index.syncDiscussionOnDiscord cfg d
  | op_syncThreadOnGitHub t => Index.syncThreadOnGitHub cfg t
  | op_syncMessages t d => Index.syncMessages cfg t d
  | op_findThreadOnGitHub t => done (Index.findThreadOnGitHub t)
  | op_findDiscussionOnDiscord d => done (Index.findDiscussionOnDiscord cfg d)
  | op_loadGithub => Github.loadGithub cfg
  | op_listGithubDiscussions => done Github.listGithubDiscussions
  | op_listGithubComments d => done (Github.listGithubComments d)
  | op_createDiscussion t m => done (Github.createDiscussion cfg t m)
  | op_updateDiscussion d i => Github.updateDiscussion d i
  | op_pushGithubComment t m d => Github.pushGithubComment t m d
  | op_listDiscordThreads => done (Discord.listDiscordThreads cfg)
  | op_listDiscordMessages t => done (Discord.listDiscordMessages t)
  | op_createThread a n t b => done (Discord.createThread cfg a n t b)
  | op_pushDiscordMessage t c d => Discord.pushDiscordMessage cfg t c d
  end.

(** The same for the single-file version, where [loadGithub] is the
    category lookup that opens start-up. *)
Definition perform_legacy (cfg : Config) (op : Operation) : M unit :=
  match op with
  | op_init => Legacy.init cfg
  | op_webhook req => Legacy.webhook cfg req
  | op_threadCreate thread => Legacy.on_threadCreate cfg thread
  | op_messageCreate message => Legacy.on_messageCreate cfg message
  | op_syncDiscussionOnDiscord d => Legacy.syncDiscussionOnDiscord cfg d
  | op_syncThreadOnGitHub t => Legacy.syncThreadOnGitHub cfg t
  | op_syncMessages t d => Legacy.syncMessages cfg t d
  | op_findThreadOnGitHub t => done (Legacy.findThreadOnGitHub t)
  | op_findDiscussionOnDiscord d => done (Legacy.findDiscussionOnDiscord cfg d)
  | op_loadGithub => done (Legacy.fetchRepoCategoryIdByName cfg (CATEGORY_NAME cfg) true)
  | op_listGithubDiscussions => done Legacy.listDiscussions
  | op_listGithubComments d => done (Legacy.listGitHubComments d)
  | op_createDiscussion t m => done (Legacy.createDiscussion cfg t m)
  | op_updateDiscussion d i => Legacy.updateDiscussion cfg d i
  | op_pushGithubComment t m d => Legacy.pushGithubComment cfg t m d
  | op_listDiscordThreads => done (Legacy.listDiscordThreads cfg)
  | op_listDiscordMessages t => done (Legacy.listDiscordMessages t)
  | op_createThread a n t b => done (Legacy.createThread cfg a n t b)
  | op_pushDiscordMessage t c d => Legacy.pushDiscordMessage cfg t c d
  end.

(** The state after a run of operations, one after the other; an operation
    that throws leaves the state it reached, and the next one starts from
    it. *)
Fixpoint after (step : Operation -> M unit) (ops : list Operation) (w : World) : World :=
  match ops with
  | [] => w
  | op :: ops' => after step ops' (snd (step op w))
  end.

(* ================================================================= *)
(** * The matcher on literals and runs *)
Module Runs.

(** The literal part of a pattern, as nodes. *)
Definition literal (l : jsstring) : regex := map (fun c => A (Chr c)) l.

Section OverAtom.

Variable ignoreCase : bool.

Variable a : atom.

Definition run (xs : jsstring) : Prop :=
  Forall (fun x => atom_match ignoreCase a x = true) xs.

(** The input does not go on with a unit of the run. *)
Definition stops (rest : jsstring) : Prop :=
  match rest with
  | [] => True
  | c :: _ => atom_match ignoreCase a c = false
  end.

End OverAtom.

End Runs.

(* ================================================================= *)
(** * EntityLinker: the marker and the two resolvers *)
Module Linker.

Import Runs.

(** A well-formed identifier: one decimal digit or more. *)
Definition numeric (id : jsstring) : Prop :=
  id <> [] /\ Forall (fun c => is_digit c = true) id.

Definition OPENING : jsstring := lit "<!-- Discord:".

Definition CLOSING : jsstring := lit " -->".

End Linker.

Module Resolve.

Import Linker.

(** The body of a discussion holds no usable marker: none, or none with
    a numeric identifier. *)
Definition unmarked (body : jsstring) : Prop :=
  ~ exists pre id post, body = pre ++ Github.marker id ++ post /\ numeric id.

(** The marker of the body names a thread that is not among those
    fetched. *)
Definition dangling (body : jsstring) (threads : list (jsstring * AnyThreadChannel))
    : Prop :=
  exists id,
    Index.markerId body = Some id /\
    forall t, In t threads -> t_id (snd t) <> id.

(** No discussion of the listing carries the marker of the thread. *)
Definition unreferenced (thread : AnyThreadChannel) (listing : list GithubDiscussion)
    : Prop :=
  forall d, In d listing ->
    includes (d_body d) (Github.marker (t_id thread)) = false.

End Resolve.

(* ================================================================= *)
(** * Running the catch-up step *)
Module Run.

(** No call to a platform fails. *)
Definition no_outage (w : World) : Prop := forall n, outage w n = false.

(** The state after [n] calls and the events [evs], nothing else changed. *)
Definition advance (n : nat) (evs : list Event) (w : World) : World :=
  set_calls (n + calls w) (set_trace (trace w ++ evs) w).

Definition writes (evs : list Event) : list Event := filter is_write evs.

Definition logs (evs : list Event) : list Event := filter is_log evs.

Definition reads (evs : list Event) : list Event := filter is_read evs.

(** The messages of a thread as the catch-up step sees them: oldest first,
    the seed left out. *)
Definition mirrored (bot : User) (fetched : list Message) : list ThreadMessage :=
  skipn 1 (rev (map (Discord.toThreadMessage bot) fetched)).

(** The page queries of a listing that starts at [offset]. *)
Definition is_page (number : Z) (e : Event) : Prop :=
  exists offset, e = QueryComments number offset.

Definition from_of (offset : option nat) : nat :=
  match offset with Some k => k | None => 0 end.

End Run.

Module Push.

Import Run.

(** What the Discord-bound loop needs: no failing call, and the thread
    still there. *)
Definition thread_open (threadId : jsstring) (w : World) : Prop :=
  no_outage w /\ exists r, find_thread threadId w = Some r.

(** What the GitHub-bound loop needs: no failing call, and the discussion
    still there. *)
Definition discussion_open (discussionId : jsstring) (w : World) : Prop :=
  no_outage w /\ known discussionId w = true.

Section WithConfig.

Variable cfg : Config.

(** The write that mirrors a comment on Discord. *)
Definition toDiscord (thread : AnyThreadChannel) (discussion : GithubDiscussion)
    (comment : GithubComment) : Event :=
  ThreadSend (t_id thread)
    (Discord.makeDiscordMessage cfg (login (c_author comment)) (d_number discussion)
       (c_body comment)).

(** The write that mirrors a message on GitHub. *)
Definition toGithub (thread : AnyThreadChannel) (discussion : GithubDiscussion)
    (message : ThreadMessage) : Event :=
  AddDiscussionComment (d_id discussion)
    (Github.makeGithubComment (tm_message message) (tm_user message)
       (Github.messageUrl thread (tm_id message))).

End WithConfig.

End Push.

(* ================================================================= *)
(** * The catch-up step of the single-file version *)
Module LegacyRun.

Import Run.

Definition mirrored (bot : User) (fetched : list Message) : list ThreadMessage :=
  skipn 1 (rev (map (Legacy.toThreadMessage bot) fetched)).

Section WithConfig.

Variable cfg : Config.

Definition toDiscord (thread : AnyThreadChannel) (discussion : GithubDiscussion)
    (comment : GithubComment) : Event :=
  ThreadSend (t_id thread)
    (Legacy.makeDiscordMessage cfg (login (c_author comment)) (d_number discussion)
       (c_body comment)).

Definition toGithub (thread : AnyThreadChannel) (discussion : GithubDiscussion)
    (message : ThreadMessage) : Event :=
  AddDiscussionComment (d_id discussion)
    (Legacy.makeGithubComment (tm_message message) (tm_user message)
       (Github.messageUrl thread (tm_id message))).

(** The line a dry run prints in place of a push. *)
Definition wouldSend (thread : AnyThreadChannel) (comment : GithubComment) : Event :=
  Console (lit "[DRY RUN] Sending message to Discord thread " ++ t_id thread ++
           lit ": " ++ c_body comment).

Definition wouldComment (discussion : GithubDiscussion) (message : ThreadMessage) : Event :=
  Console (lit "[DRY RUN] Sending comment to GitHub discussion " ++
           of_Z (d_number discussion) ++ lit ": " ++ tm_message message).

(** In a dry run a push is its line and nothing else. *)
Definition untouched (platforms : World) (w : World) : Prop :=
  github w = github platforms /\ discord w = discord platforms.

End WithConfig.

End LegacyRun.

(* ================================================================= *)
(** * Dry run *)
Module DryRun.

(** The lines written, by the logger or on the console. *)
Definition lines (evs : list Event) : list jsstring :=
  flat_map (fun e => match e with Log _ l | Console l => [l] | _ => [] end) evs.

(** Some line written tells of the message with this text. *)
Definition described (evs : list Event) (text : jsstring) : bool :=
  existsb (fun line => includes line text) (lines evs).

(** The line that names the direction of the catch-up. *)
Definition direction (threadMessages discussionMessages : nat) : jsstring :=
  if (threadMessages <? discussionMessages)%nat
  then lit "Syncing messages from GitHub to Discord"
  else lit "Syncing messages from Discord to GitHub".

End DryRun.

(* ================================================================= *)
(** * Creating the counterpart discussion *)
Module Creation.

Import Run.

Section WithConfig.

Variable cfg : Config.

(** The body handed to the creation call for this thread and its seed
    message. *)
Definition creationBody (thread : AnyThreadChannel) (seed : Message) : jsstring :=
  Github.makeGithubComment
    (m_content seed ++ [LF; LF] ++ Github.marker (t_id thread))
    (u_username (m_author seed))
    (Github.messageUrl thread (m_id seed)).

(** The discussion as GitHub holds it after the creation call. *)
Definition newcomer (w : World) (categoryId title body : jsstring) : RemoteDiscussion :=
  {| rd := {| d_id := lit "D_" ++ of_Z (Z.of_N (next_id w));
              d_number := Z.of_N (next_id w);
              d_title := title; d_body := body;
              d_author := {| login := viewer (github w) |};
              d_category := None |};
     rd_category_id := categoryId;
     rd_comments := [] |}.

End WithConfig.

End Creation.

(* ================================================================= *)
(** * MessageTransformer: images, GitHub to Discord *)
Module Images.

Import Runs.

(** A markdown image with an http or https URL. *)
Record image : Type := { alt : jsstring; secure : bool; address : jsstring }.

Definition url (im : image) : jsstring :=
  lit "http" ++ (if secure im then lit "s" else []) ++ lit "://" ++ address im.

Definition markdown (im : image) : jsstring :=
  lit "![" ++ alt im ++ lit "](" ++ url im ++ lit ")".

(** The alternative text stays on its line and holds no closing bracket;
    the address is not empty and holds neither white space nor a closing
    parenthesis. *)
Definition well_formed (im : image) : Prop :=
  Forall (fun c => is_line_terminator c = false /\ c <> ch "]") (alt im) /\
  address im <> [] /\
  Forall (fun c => is_space c = false /\ c <> ch ")") (address im).

(** Text in which no image can start: it holds no exclamation mark. *)
Definition plain (text : jsstring) : Prop := Forall (fun c => c <> ch "!") text.

(** A body: images, each followed by plain text. *)
Fixpoint source (parts : list (image * jsstring)) : jsstring :=
  match parts with
  | [] => []
  | (im, text) :: parts' => markdown im ++ text ++ source parts'
  end.

(** The same body with each image replaced by its URL, nothing added. *)
Fixpoint target (parts : list (image * jsstring)) : jsstring :=
  match parts with
  | [] => []
  | (im, text) :: parts' => url im ++ text ++ target parts'
  end.

Definition ADDRESS : atom := Cls true [Space; One (ch ")")].

End Images.

(* ================================================================= *)
(** * [src/psr/log]: the console logger

    [logger-abstract.ts] and [console-logger.ts].  The program hands the
    logger one string per line it logs; [stringify] is given for strings
    and for [Error] objects (its [JSON.stringify] branch, for any other
    value, is never taken by the program and is left out).  The clock is a
    parameter: [now] stands for [new Date().toISOString()].  Only the
    branch without colours is given, the one [ConsoleLogger] takes. *)

Module Logger.

(** The values of the enumeration [LogLevel]. *)
Definition name (level : LogLevel) : jsstring :=
  match level with
  | EMERGENCY => lit "emergency"
  | ALERT => lit "alert"
  | CRITICAL => lit "critical"
  | ERROR => lit "error"
  | WARNING => lit "warning"
  | NOTICE => lit "notice"
  | INFO => lit "info"
  | DEBUG => lit "debug"
  end.

(** [order], least severe first. *)
Definition order : list LogLevel :=
  [DEBUG; INFO; NOTICE; WARNING; ERROR; CRITICAL; ALERT; EMERGENCY].

(** [xs.indexOf(x)], counted from [i]: the first index, or -1. *)
Fixpoint indexOf (x : LogLevel) (xs : list LogLevel) (i : Z) : Z :=
  match xs with
  | [] => (-1)%Z
  | y :: xs' => if eqb (name y) (name x) then i else indexOf x xs' (i + 1)%Z
  end.

Fixpoint skip_space (s : jsstring) : jsstring :=
  match s with
  | c :: s' => if is_space c then skip_space s' else s
  | [] => []
  end.

(** The decimal digits at the head of [s]; [None] when there is none. *)
Fixpoint digits (s : jsstring) (acc : option Z) : option Z :=
  match s with
  | c :: s' =>
      if is_digit c
      then digits s'
             (Some (10 * match acc with Some n => n | None => 0 end + Z.of_N (c - 48))%Z)
      else acc
  | [] => acc
  end.

(** [parseInt(s, 10)]: leading white space, a sign, then decimal digits as
    far as they go; [None] is [NaN].  The number is a double in
    JavaScript, rounded beyond 2^53; [canLog] clamps it to the eight
    positions of [order] at once, so the integer decides the same. *)
Definition parseInt (s : jsstring) : option Z :=
  match skip_space s with
  | c :: s' =>
      if (c =? 45)%N then option_map Z.opp (digits s' None)
      else if (c =? 43)%N then digits s' None
      else digits (c :: s') None
  | [] => None
  end.

(** [process.env.LOG_LEVEL || '4'] *)
Definition setting (LOG_LEVEL : option jsstring) : jsstring :=
  or_else (match LOG_LEVEL with Some s => s | None => [] end) (lit "4").

(** [Math.max(0, Math.min(parseInt(...), order.length - 1))]; [NaN] goes
    through [min] and [max] and is then replaced by 0. *)
Definition logLevel (LOG_LEVEL : option jsstring) : Z :=
  match parseInt (setting LOG_LEVEL) with
  | Some n => Z.max 0 (Z.min n (Z.of_nat (length order) - 1))
  | None => 0%Z
  end.

Definition canLog (LOG_LEVEL : option jsstring) (level : LogLevel) : bool :=
  let index := indexOf level order 0 in
  (logLevel LOG_LEVEL <=? index)%Z.

(** What is logged: a string, or an [Error] with its [name], [message]
    and [stack]. *)
Inductive content : Type :=
| Text (s : jsstring)
| Failure (name message stack : jsstring).

Definition stringify (c : content) : jsstring :=
  match c with
  | Text s => s
  | Failure name message stack => name ++ lit ": " ++ message ++ [LF] ++ stack
  end.

(** [text.split(sep)] for a separator of one code unit. *)
Fixpoint split (sep : code_unit) (text : jsstring) : list jsstring :=
  match text with
  | [] => [[]]
  | c :: text' =>
      if (c =? sep)%N then [] :: split sep text'
      else match split sep text' with
           | part :: parts => (c :: part) :: parts
           | [] => [[c]]
           end
  end.

(** [parts.join(sep)] *)
Fixpoint join (sep : jsstring) (parts : list jsstring) : jsstring :=
  match parts with
  | [] => []
  | part :: parts' =>
      match parts' with
      | [] => part
      | _ :: _ => part ++ sep ++ join sep parts'
      end
  end.

Definition prefixLines (text prefix : jsstring) : jsstring :=
  join ([LF] ++ prefix ++ lit " ") (split LF text).

(** [final] of [processLog]: the message, then each further parameter
    after a space. *)
Definition final (message : content) (optionalParams : list content) : jsstring :=
  fold_left (fun final item => final ++ lit " " ++ stringify item)
    optionalParams (stringify message).

Definition linePrefix (now : jsstring) (level : LogLevel) : jsstring :=
  lit "[" ++ now ++ lit "] " ++ name level ++ lit ":".

Definition processLog (now : jsstring) (level : LogLevel) (message : content)
    (optionalParams : list content) : jsstring :=
  let final := final message optionalParams in
  let prefix := linePrefix now level in
  prefix ++ lit " " ++ prefixLines final prefix.

(** [ConsoleLogger.log]: the line handed to [console.log], if any. *)
Definition log (LOG_LEVEL : option jsstring) (now : jsstring) (level : LogLevel)
    (message : content) (optionalParams : list content) : option jsstring :=
  if canLog LOG_LEVEL level
  then Some (processLog now level message optionalParams)
  else None.

(** The level methods of [LoggerAbstract]. *)
Definition emergency LOG_LEVEL now := log LOG_LEVEL now EMERGENCY.
Definition alert LOG_LEVEL now := log LOG_LEVEL now ALERT.
Definition critical LOG_LEVEL now := log LOG_LEVEL now CRITICAL.
Definition error LOG_LEVEL now := log LOG_LEVEL now ERROR.
Definition warning LOG_LEVEL now := log LOG_LEVEL now WARNING.
Definition notice LOG_LEVEL now := log LOG_LEVEL now NOTICE.
Definition info LOG_LEVEL now := log LOG_LEVEL now INFO.
Definition debug LOG_LEVEL now := log LOG_LEVEL now DEBUG.

End Logger.

(* ================================================================= *)
(** * Footprints: what a computation adds to the trace and changes *)

Module Footprint.

Definition is_status (e : Event) : bool :=
  match e with SendStatus _ => true | _ => false end.

(** The cache holds discussions as the listing query returns them:
    without their category. *)
Definition bare (w : World) : Prop :=
  forall listing,
    discussionCache w = Some listing ->
    Forall (fun d => d_category d = None) listing.

(** From [w] to [w'] under a discipline: the events added all pass [ok];
    what was left running only reads; under a strict discipline neither
    platform has changed; and a cache that was bare is still. *)
Definition step (ok : Event -> bool) (strict : bool) (w w' : World) : Prop :=
  (exists added, trace w' = trace w ++ added /\ forallb ok added = true) /\
  (exists left, detached w' = detached w ++ left /\ forallb is_read left = true) /\
  (strict = true -> github w' = github w /\ discord w' = discord w) /\
  (bare w -> bare w').

(** A computation that only makes calls that read, whether it returns or
    throws: nothing else of the state changes. *)
Definition reader {A} (c : M A) : Prop :=
  forall w, exists n evs,
    snd (c w) = Run.advance n evs w /\ forallb is_read evs = true.

(** A computation stays within a discipline when every run of it does,
    from any state, whether it returns or throws. *)
Definition within (ok : Event -> bool) (strict : bool) {A} (c : M A) : Prop :=
  forall w, step ok strict w (snd (c w)).

(** No mutating call. *)
Definition reading (e : Event) : bool := negb (is_write e).

(** No answer to a webhook request. *)
Definition unanswered (e : Event) : bool := negb (is_status e).

(** What the way from Discord to GitHub may do: anything but create a
    thread, rewrite a discussion, reply to a message or answer a
    request. *)
Definition towards_github (e : Event) : bool :=
  match e with
  | ThreadsCreate _ _ | UpdateDiscussion _ _ | MessageReply _ _ | SendStatus _ => false
  | _ => true
  end.

(** What the way from GitHub to Discord may do: anything but create a
    discussion, reply to a message or answer a request. *)
Definition towards_discord (e : Event) : bool :=
  match e with
  | CreateDiscussion _ _ _ _ | MessageReply _ _ | SendStatus _ => false
  | _ => true
  end.

(** The operations of [index.ts] that look at [DRY_RUN] before they
    write, and those that never write.  Left out: [messageCreate], which
    replies to the message when the synchronization fails, and the
    functions of [github.ts] and [discord.ts] that create, update or push,
    which do not look at [DRY_RUN] themselves. *)
Definition guarded (op : Operation) : bool :=
  match op with
  | op_init | op_webhook _ | op_threadCreate _
  | op_syncDiscussionOnDiscord _ | op_syncThreadOnGitHub _ | op_syncMessages _ _
  | op_findThreadOnGitHub _ | op_findDiscussionOnDiscord _
  | op_loadGithub | op_listGithubDiscussions | op_listGithubComments _
  | op_listDiscordThreads | op_listDiscordMessages _ => true
  | _ => false
  end.

(** In the single-file version every function that creates, updates or
    pushes looks at [DRY_RUN] itself; [messageCreate] replies on failure
    there too, and the category lookup, alone or at start-up, creates a
    category that is missing without looking at [DRY_RUN]. *)
Definition guarded_legacy (op : Operation) : bool :=
  match op with
  | op_init | op_loadGithub | op_messageCreate _ => false
  | _ => true
  end.

Definition creates_category (e : Event) : bool :=
  match e with CreateDiscussionCategory _ _ _ => true | _ => false end.

(** No mutating call but the creation of a category. *)
Definition settling (e : Event) : bool := negb (is_write e) || creates_category e.

(** The operations of the single-file version that look up the
    category. *)
Definition looks_up_category (op : Operation) : bool :=
  match op with
  | op_init | op_loadGithub => true
  | _ => false
  end.

End Footprint.

(* ================================================================= *)
(** * The handlers, in their parts *)

Module Endpoint.

Section WithConfig.

Variable cfg : Config.

(** What the handler does with a request before it answers. *)
Definition routed (req : Request) : M unit :=
  if eqb (x_github_event req) (lit "discussion") && eqb (action req) (lit "created")
  then
    logger INFO (lit "Received discussion creation event") ;;
    match discussion req with
    | Some d => Index.syncDiscussionOnDiscord cfg d
    | None => type_error (lit "undefined is not an object (evaluating 'discussion.category')")
    end
  else if eqb (x_github_event req) (lit "discussion_comment") &&
          eqb (action req) (lit "created")
  then
    logger INFO (lit "Received discussion comment event") ;;
    match discussion req with
    | Some d => Index.syncDiscussionOnDiscord cfg d
    | None => type_error (lit "undefined is not an object (evaluating 'discussion.category')")
    end
  else ret tt.

(** The handler: [Index.webhook], with [routed] named. *)
Definition answered (req : Request) : M unit :=
  try_catch
    (routed req ;; sendStatus 200)
    (fun e =>
       logger ERROR (lit "Webhook handler error: " ++ toString e) ;;
       sendStatus 500).

(** What the [messageCreate] handler does with a message inside its
    [try], over the entry point [sync] it routes to. *)
Definition relayed (sync : AnyThreadChannel -> M unit) (message : Message) : M unit :=
  match m_channel message with
  | None => logger INFO (lit "message not in thread")
  | Some thread =>
      if negb (eqb (t_parentId thread) (FORUM_CHANNEL_ID cfg)) then
        logger INFO (lit "thread not in forum channel")
      else if u_bot (m_author message) || includes (m_content message) ATTRIBUTION then
        logger INFO (lit "message ignored")
      else sync thread
  end.

(** The requests the handler acts on. *)
Definition concerns (req : Request) : bool :=
  (eqb (x_github_event req) (lit "discussion") ||
   eqb (x_github_event req) (lit "discussion_comment")) &&
  eqb (action req) (lit "created").

End WithConfig.

End Endpoint.

(* ================================================================= *)
(** * Start-up of the single-file version, in its parts *)

Module LegacyStart.

Section WithConfig.

Variable cfg : Config.

Definition DESCRIPTION : jsstring := lit "Auto-created category for GitHub-Discord sync".

(** What [init] does once it has the category: the pass over the
    discussions, then the pass over the threads. *)
Definition passes : M unit :=
  discussions <- Legacy.listDiscussions ;;
  for_each discussions (fun discussion => Legacy.syncDiscussionOnDiscord cfg discussion) ;;
  threads <- Legacy.listDiscordThreads cfg ;;
  for_each threads (fun thread => Legacy.syncThreadOnGitHub cfg (snd thread)).

(** The category as [createDiscussionCategory] answers it from [w]. *)
Definition created (w : World) (name : jsstring) : GithubCategory :=
  {| cat_id := lit "DIC_" ++ of_Z (Z.of_N (next_id w)); cat_name := name |}.

End WithConfig.

End LegacyStart.

(* ================================================================= *)
(** * More of the small forum and repository *)

Module Scene.

(** The sample repository without any category. *)
Definition bare_repository : World :=
  {| github := {| repository := Some (lit "R_1"); hasDiscussionsEnabled := true;
                  categories := []; discussions := []; viewer := lit "syncbot" |};
     discord := discord Sample.world;
     next_id := 1000; outage := fun _ => false; calls := 0;
     discussionCache := None; REPO_CATEGORY_ID := None; trace := [];
     detached := [] |}.

(** A discussion of the configured category that no thread mirrors yet,
    as a webhook delivers it. *)
Definition report : GithubDiscussion :=
  {| d_id := lit "D_8"; d_number := 8; d_title := lit "Cards missing";
     d_body := lit "Two cards are missing.";
     d_author := {| login := lit "octocat" |}; d_category := Some (lit "General") |}.

Definition on_github : RemoteDiscussion :=
  {| rd := report; rd_category_id := lit "C_1";
     rd_comments := [Sample.comment (lit "DC_3") (lit "which ones?")] |}.

(** The sample thread with its seed, and the report on GitHub. *)
Definition world : World := Sample.platform [on_github] [Sample.seed].

(** The sample thread with its seed and two later messages, newest
    first; no discussion yet, and the listing cached empty. *)
Definition busy : World :=
  let w := Sample.platform []
             [Sample.said (lit "557") (lit "same here");
              Sample.said (lit "556") (lit "any news?");
              Sample.seed] in
  set_discussionCache (Some []) w.

(** The linked discussion with two hundred and fifty comments. *)
Definition long_discussion : RemoteDiscussion :=
  {| rd := Sample.linked; rd_category_id := lit "C_1";
     rd_comments := repeat (Sample.comment (lit "DC_9") (lit "+1")) 250 |}.

Definition crowded : World := Sample.platform [long_discussion] [Sample.seed].

End Scene.

(* ================================================================= *)
(** * The pages of a comment listing *)

Module Paging.

(** The cursor handed to page [k]: none for the first page, then the
    count of the comments read so far. *)
Definition cursor (k : nat) : option nat :=
  match k with
  | O => None
  | S _ => Some (100 * k)
  end.

(** The pages of [n] comments: one per hundred begun, and one for none. *)
Definition pages (n : nat) : nat := Nat.max 1 ((n + 99) / 100).

(** The queries of pages [k], [k + 1], ... *)
Definition queries (number : Z) (k count : nat) : list Event :=
  map (fun j => QueryComments number (cursor j)) (seq k count).

End Paging.

(* ================================================================= *)
(** * Plain prose *)

Module Prose.

(** Text that holds no exclamation mark, no opening angle bracket and no
    slash: no image, no tag and no address can start in it. *)
Definition prose (text : jsstring) : Prop :=
  Forall (fun c => c <> ch "!" /\ c <> ch "<" /\ c <> ch "/") text.

End Prose.


(* ================================================================= *)
(** * Facts about strings and the matcher *)
Module JsFacts.

Lemma eqb_refl (s : jsstring) : eqb s s = true.
Proof.
  induction s as [| c s IH]; simpl; [reflexivity |].
  now rewrite N.eqb_refl, IH.
Qed.

Lemma eqb_eq (s t : jsstring) : eqb s t = true <-> s = t.
Proof.
  split; [| intros ->; apply eqb_refl].
  revert t; induction s as [| c s IH]; intros [| d t]; simpl; try congruence.
  intros H; apply andb_prop in H as [Hc Hs].
  apply N.eqb_eq in Hc; f_equal; auto.
Qed.

Lemma eqb_neq (s t : jsstring) : eqb s t = false <-> s <> t.
Proof.
  split.
  - intros H E; apply eqb_eq in E; congruence.
  - intros H; destruct (eqb s t) eqn:E; [apply eqb_eq in E; contradiction | reflexivity].
Qed.

Lemma prefixb_app (p t : jsstring) : prefixb p (p ++ t) = true.
Proof.
  induction p as [| c p IH]; simpl; [reflexivity |].
  now rewrite N.eqb_refl, IH.
Qed.

Lemma prefixb_cons_neq (p c : code_unit) (l s : jsstring) :
  p <> c -> prefixb (p :: l) (c :: s) = false.
Proof. intros H. simpl. apply N.eqb_neq in H. now rewrite H. Qed.

Lemma prefixb_spec (p t : jsstring) :
  prefixb p t = true <-> exists rest, t = p ++ rest.
Proof.
  split.
  - revert t; induction p as [| c p IH]; intros t H; simpl in *.
    + now exists t.
    + destruct t as [| d t]; [discriminate |].
      apply andb_prop in H as [Hc Hp]; apply N.eqb_eq in Hc; subst d.
      destruct (IH _ Hp) as [rest ->]; now exists rest.
  - intros [rest ->]; apply prefixb_app.
Qed.

(** [includes] is substring containment, anywhere in the string. *)
Lemma includes_spec (s p : jsstring) :
  includes s p = true <-> exists pre post, s = pre ++ p ++ post.
Proof.
  split.
  - induction s as [| c s IH]; simpl; intros H.
    + rewrite orb_false_r in H; apply prefixb_spec in H as [rest E].
      exists [], rest; exact E.
    + apply orb_prop in H as [H | H].
      * apply prefixb_spec in H as [rest E]; exists [], rest; exact E.
      * destruct (IH H) as (pre & post & ->); now exists (c :: pre), post.
  - intros (pre & post & ->).
    induction pre as [| c pre IH]; simpl.
    + pose proof (prefixb_app p post) as H.
      destruct (p ++ post); simpl; now rewrite H.
    + now rewrite IH, orb_true_r.
Qed.

Lemma includes_app_r (s t p : jsstring) :
  includes t p = true -> includes (s ++ t) p = true.
Proof.
  intros H; apply includes_spec in H as (pre & post & ->).
  apply includes_spec; exists (s ++ pre), post; now rewrite <- app_assoc.
Qed.

Lemma substring_0 (s : jsstring) (n : Z) :
  substring s 0 n = firstn (Z.to_nat n) s.
Proof.
  unfold substring, clamp.
  replace (Z.to_nat (Z.min (Z.max 0 0) (Z.of_nat (length s)))) with 0%nat by lia.
  rewrite Nat.max_0_l, Nat.min_0_l, Nat.sub_0_r; simpl.
  destruct (Z_le_gt_dec n (Z.of_nat (length s))) as [Hle | Hgt].
  - f_equal; lia.
  - replace (Z.to_nat (Z.min (Z.max n 0) (Z.of_nat (length s)))) with (length s) by lia.
    rewrite firstn_all, firstn_all2; [reflexivity | lia].
Qed.

End JsFacts.

Module BoundsFacts.

Import Bounds.

Section WithFlag.

Variable ignoreCase : bool.

Lemma star_greedy_bounded a n k :
  bounded n k -> bounded n (star_greedy ignoreCase a k).
Proof.
  intros Hk i s; revert i.
  induction s as [| x s IH]; intros i e c; simpl.
  - apply Hk.
  - destruct (atom_match ignoreCase a x); [| apply Hk].
    destruct (star_greedy ignoreCase a k (S i) s) as [[e' c'] |] eqn:E.
    + intros H; inversion H; subst. apply IH in E. simpl. lia.
    + intros H; apply Hk in H. exact H.
Qed.

Lemma star_lazy_bounded a n k :
  bounded n k -> bounded n (star_lazy ignoreCase a k).
Proof.
  intros Hk i s; revert i.
  induction s as [| x s IH]; intros i e c; simpl.
  - destruct (k i []) as [[e' c'] |] eqn:E; [| discriminate].
    intros H; inversion H; subst. now apply Hk in E.
  - destruct (k i (x :: s)) as [[e' c'] |] eqn:E.
    + intros H; inversion H; subst. now apply Hk in E.
    + destruct (atom_match ignoreCase a x); [| discriminate].
      intros H; apply IH in H. simpl. lia.
Qed.

Lemma star_bounded g a n k :
  bounded n k -> bounded n (star ignoreCase g a k).
Proof.
  destruct g; [apply star_greedy_bounded | apply star_lazy_bounded].
Qed.

Lemma m_bounded r : forall st, bounded (min_width r) (m ignoreCase r st).
Proof.
  induction r as [| nd r IH]; intros st i s e c.
  - simpl; intros H; inversion H; subst; unfold min_width; simpl; lia.
  - unfold min_width in *; destruct nd; simpl.
    + destruct s as [| x s]; [discriminate |].
      destruct (atom_match ignoreCase a x); [| discriminate].
      intros H; apply IH in H; simpl; lia.
    + intros H. exact (star_bounded _ _ _ _ (IH st) _ _ _ _ H).
    + destruct s as [| x s]; [discriminate |].
      destruct (atom_match ignoreCase a x); [| discriminate].
      intros H. apply (star_bounded _ _ _ _ (IH st)) in H. simpl; lia.
    + destruct s as [| x s]; [apply IH |].
      destruct (atom_match ignoreCase a x); [| apply IH].
      destruct (m ignoreCase r st (S i) s) as [[e' c'] |] eqn:E.
      * intros H; inversion H; subst. apply IH in E. simpl; lia.
      * apply IH.
    + apply IH.
    + apply IH.
    + destruct (i =? 0)%nat; [apply IH | discriminate].
Qed.

Lemma search_bounded r : forall i s j e c,
  search ignoreCase r i s = Some (j, (e, c)) ->
  i <= j /\ j + min_width r <= e <= i + length s.
Proof.
  intros i s; revert i.
  induction s as [| x s IH]; intros i j e c; simpl.
  - destruct (m ignoreCase r (start) i []) as [[e' c'] |] eqn:E; [| discriminate].
    intros H; inversion H; subst. apply m_bounded in E. simpl in E. lia.
  - destruct (m ignoreCase r (start) i (x :: s)) as [[e' c'] |] eqn:E.
    + intros H; inversion H; subst. apply m_bounded in E. simpl in E. lia.
    + intros H; apply IH in H. simpl. lia.
Qed.

(** What [exec] answers lies within the input, at or after
    [lastIndex], and is as long as it says. *)
Lemma exec_bounded r input lastIndex mt :
  exec ignoreCase r input lastIndex = Some mt ->
  lastIndex <= index mt /\
  index mt + length (matched mt) <= length input /\
  min_width r <= length (matched mt).
Proof.
  unfold exec.
  destruct (length input <? lastIndex)%nat eqn:L; [discriminate |].
  apply Nat.ltb_ge in L.
  destruct (search ignoreCase r lastIndex (skipn lastIndex input))
    as [[j [e c]] |] eqn:E; [| discriminate].
  intros H; inversion H; subst; clear H.
  apply search_bounded in E. rewrite length_skipn in E.
  unfold mkMatch, slice; simpl.
  rewrite length_firstn, length_skipn. lia.
Qed.

End WithFlag.

End BoundsFacts.

Module LegacyFacts.

Import Bounds BoundsFacts.

Lemma length_insert (s : jsstring) (p : nat) :
  p <= length s ->
  length (slice s 0 p ++ [LF] ++ slice_from s p) = S (length s).
Proof.
  intros H. unfold slice, slice_from.
  rewrite !length_app, length_firstn, !length_skipn. simpl. lia.
Qed.

(** A round of the loop leaves less of the content after [lastIndex]. *)
Lemma isolate_progress (content : jsstring) (lastIndex : nat) (mt : Match) :
  exec false Legacy.attachmentRegex content lastIndex = Some mt ->
  length (fst (Legacy.isolate content mt)) - snd (Legacy.isolate content mt)
  < length content - lastIndex.
Proof.
  intros H. apply exec_bounded in H as (H1 & H2 & H3).
  assert (W : 1 <= min_width Legacy.attachmentRegex) by (vm_compute; lia).
  unfold Legacy.isolate.
  set (before := or_else _ _). set (after := or_else _ _).
  destruct (negb (eqb before [LF])); destruct (negb (eqb after [LF])); simpl fst; simpl snd.
  - rewrite length_insert; rewrite ?length_insert; lia.
  - rewrite length_insert; lia.
  - rewrite length_insert; lia.
  - lia.
Qed.

(** The loop of [processGitHubAttachments] returns: the rounds it is
    given are enough. *)
Lemma attachment_loop_returns (fuel : nat) : forall content lastIndex,
  length content - lastIndex < fuel ->
  exists result, Legacy.attachment_loop fuel content lastIndex = Some result.
Proof.
  induction fuel as [| fuel IH]; intros content lastIndex Hlt; [lia |].
  simpl.
  destruct (exec false Legacy.attachmentRegex content lastIndex) as [mt |] eqn:E.
  - apply IH. apply isolate_progress in E. lia.
  - now exists content.
Qed.

Lemma processGitHubAttachments_returns (content : jsstring) :
  let tags := replace false Legacy.attachmentTag (fun mt => [LF] ++ group 1 mt ++ [LF]) content in
  let imgs := replace false Legacy.imageTag (fun mt => [LF] ++ group 1 mt ++ [LF]) tags in
  Legacy.attachment_loop (S (length imgs)) imgs 0 =
  Some (Legacy.processGitHubAttachments content).
Proof.
  intros tags imgs. unfold Legacy.processGitHubAttachments. fold tags. fold imgs.
  destruct (attachment_loop_returns (S (length imgs)) imgs 0) as [r Hr]; [lia |].
  now rewrite Hr.
Qed.

End LegacyFacts.

(* ================================================================= *)
(** * MessageTransformer: the length clamp *)
Module ClampFacts.

Import JsFacts.

Import Clamp.

Lemma render_clamped (prefix processed : jsstring) :
  length prefix <= 1900 -> clamped prefix processed (render prefix processed).
Proof.
  intros Hp. unfold clamped, render.
  rewrite substring_0.
  replace (Z.to_nat (1900 - Z.of_nat (length prefix))) with (1900 - length prefix) by lia.
  destruct (1900 - Z.of_nat (length prefix) <? Z.of_nat (length processed))%Z eqn:E.
  - apply Z.ltb_lt in E.
    repeat split.
    + eexists; reflexivity.
    + intros H; lia.
    + intros _.
      exists (firstn (1900 - length prefix) processed),
             (skipn (1900 - length prefix) processed).
      repeat split.
      * now rewrite firstn_skipn.
      * intros Hnil. apply length_zero_iff_nil in Hnil.
        rewrite length_skipn in Hnil. lia.
      * rewrite length_firstn. lia.
    + rewrite !length_app, length_firstn.
      change (length CONTINUED) with 15. unfold DISCORD_MESSAGE_LIMIT. lia.
  - apply Z.ltb_ge in E.
    repeat split.
    + eexists; reflexivity.
    + intros H; lia.
    + rewrite length_app. unfold DISCORD_MESSAGE_LIMIT. lia.
Qed.

(** Whatever the length of the header, the rendered message opens with
    it, and it is at most fifteen units (the marker) longer than the larger
    of 1900 and the header. *)
Lemma render_length (prefix processed : jsstring) :
  length (render prefix processed) <= Nat.max 1900 (length prefix) + 15.
Proof.
  unfold render. rewrite substring_0.
  destruct (1900 - Z.of_nat (length prefix) <? Z.of_nat (length processed))%Z eqn:E.
  - rewrite !length_app, length_firstn. change (length CONTINUED) with 15. lia.
  - apply Z.ltb_ge in E. rewrite length_app. lia.
Qed.

(** A header longer than 1900 units leaves a negative room: every body,
    the empty one too, is then longer than the room, nothing of it is kept,
    and the message is the header followed by the marker. *)
Lemma render_overlong (prefix processed : jsstring) :
  1900 < length prefix -> render prefix processed = prefix ++ CONTINUED.
Proof.
  intros Hp. unfold render.
  replace (1900 - Z.of_nat (length prefix) <? Z.of_nat (length processed))%Z with true
    by (symmetry; apply Z.ltb_lt; lia).
  rewrite substring_0.
  replace (Z.to_nat (1900 - Z.of_nat (length prefix))) with 0 by lia.
  reflexivity.
Qed.

End ClampFacts.

(** C2 (as amended).  [makeDiscordMessage] is a total function of the
    author handle, the discussion number and the body, in both versions (in
    the single-file version the loop of [processGitHubAttachments] runs to
    its end within the rounds it is given).  In each version, on the header
    of that version: when the attribution header is at most 1900 code units
    long, the message is the whole header followed by the rewritten body,
    unchanged and without marker if it fits in the room the header leaves
    within 1900 units, otherwise cut to exactly that room and followed by
    the continuation marker, and its length is then within the 2000 units
    of the platform; when the header is longer than 1900 units, the message
    is the header followed by the marker, whatever the body. *)
Theorem makeDiscordMessage_clamped
    (cfg : Config) (author : jsstring) (number : Z) (body : jsstring) :
  (length (Discord.messagePrefix cfg author number) <= 1900 ->
   Clamp.clamped (Discord.messagePrefix cfg author number)
                 (Discord.processedBody body)
                 (Discord.makeDiscordMessage cfg author number body)) /\
  (1900 < length (Discord.messagePrefix cfg author number) ->
   Discord.makeDiscordMessage cfg author number body =
   Discord.messagePrefix cfg author number ++ CONTINUED) /\
  (length (Legacy.messagePrefix cfg author number) <= 1900 ->
   Clamp.clamped (Legacy.messagePrefix cfg author number)
                 (Legacy.processedBody body)
                 (Legacy.makeDiscordMessage cfg author number body)) /\
  (1900 < length (Legacy.messagePrefix cfg author number) ->
   Legacy.makeDiscordMessage cfg author number body =
   Legacy.messagePrefix cfg author number ++ CONTINUED) /\
  (exists rounds,
     Legacy.attachment_loop rounds
       (replace false Legacy.imageTag (fun mt => [LF] ++ group 1 mt ++ [LF])
          (replace false Legacy.attachmentTag (fun mt => [LF] ++ group 1 mt ++ [LF])
             (replace false markdownImage (expand [Ref 2]) body))) 0
     = Some (Legacy.processedBody body)).
Proof.
  split; [| split; [| split; [| split]]].
  - exact (ClampFacts.render_clamped _ _).
  - exact (ClampFacts.render_overlong _ _).
  - exact (ClampFacts.render_clamped _ _).
  - exact (ClampFacts.render_overlong _ _).
  - eexists. apply LegacyFacts.processGitHubAttachments_returns.
Qed.

(** A header of 1900 units exactly in [discord.ts] (where the header of
    the single-file version, two units longer, is already too long), and an
    ordinary one. *)
Lemma makeDiscordMessage_clamped_witness :
  let cfg := default_config in
  let author := repeat (ch "a") 1835 in
  length (Discord.messagePrefix cfg author 7) = 1900 /\
  length (Legacy.messagePrefix cfg author 7) = 1902 /\
  Clamp.clamped (Discord.messagePrefix cfg author 7)
                (Discord.processedBody (lit "hi"))
                (Discord.makeDiscordMessage cfg author 7 (lit "hi")) /\
  Legacy.makeDiscordMessage cfg author 7 (lit "hi") =
    Legacy.messagePrefix cfg author 7 ++ CONTINUED /\
  Clamp.clamped (Legacy.messagePrefix cfg (lit "octocat") 7)
                (Legacy.processedBody (lit "hi"))
                (Legacy.makeDiscordMessage cfg (lit "octocat") 7 (lit "hi")).
Proof.
  intros cfg author.
  assert (H1 : length (Discord.messagePrefix cfg author 7) = 1900)
    by (vm_compute; reflexivity).
  assert (H2 : length (Legacy.messagePrefix cfg author 7) = 1902)
    by (vm_compute; reflexivity).
  assert (H3 : length (Legacy.messagePrefix cfg (lit "octocat") 7) <= 1900)
    by (apply Nat.leb_le; vm_compute; reflexivity).
  split; [exact H1 | split; [exact H2 |]].
  split; [| split].
  - apply (proj1 (makeDiscordMessage_clamped cfg author 7 (lit "hi"))). rewrite H1. lia.
  - apply (proj1 (proj2 (proj2 (proj2 (makeDiscordMessage_clamped cfg author 7 (lit "hi")))))).
    rewrite H2. lia.
  - exact (proj1 (proj2 (proj2 (makeDiscordMessage_clamped cfg (lit "octocat") 7 (lit "hi")))) H3).
Defined.

(** C2, as it is stated, fails for a header longer than the ceiling: with
    an author handle of 2000 units and an empty body the message is the
    header followed by the marker, 2075 units in all, although nothing was
    cut from the body. *)
Lemma makeDiscordMessage_exceeds_limit :
  let author := repeat (ch "a") 2000 in
  let out := Discord.makeDiscordMessage default_config author 1 [] in
  out = Discord.messagePrefix default_config author 1 ++ CONTINUED /\
  (Z.of_nat (length out) > DISCORD_MESSAGE_LIMIT)%Z /\
  Legacy.makeDiscordMessage default_config author 1 [] =
    Legacy.messagePrefix default_config author 1 ++ CONTINUED /\
  (Z.of_nat (length (Legacy.makeDiscordMessage default_config author 1 []))
   > DISCORD_MESSAGE_LIMIT)%Z.
Proof.
  vm_compute. repeat split; reflexivity.
Qed.

(** The event of a message whose author is a bot, or whose content holds
    the attribution prefix anywhere (whatever stands before and after it),
    never reaches the entry point: whatever the entry point is,
    [messageCreate] only writes one of its three informational lines and
    returns. *)
Lemma messageCreate_skips
    (cfg : Config) (sync : AnyThreadChannel -> M unit) (message : Message) (w : World)
    (H : u_bot (m_author message) = true \/
         exists pre post, m_content message = pre ++ ATTRIBUTION ++ post) :
  exists line,
    In line Triggers.dropped /\
    Index.messageCreate cfg sync message w =
      (Ok tt, set_trace (trace w ++ [Log INFO line]) w).
Proof.
  assert (E : u_bot (m_author message) || includes (m_content message) ATTRIBUTION = true).
  { destruct H as [-> | (pre & post & Hc)]; [reflexivity |].
    apply orb_true_intro; right.
    apply JsFacts.includes_spec; now exists pre, post. }
  unfold Index.messageCreate, try_catch, Triggers.dropped.
  destruct (m_channel message) as [thread |].
  - destruct (negb (eqb (t_parentId thread) (FORUM_CHANNEL_ID cfg))).
    + eexists; split; [right; left; reflexivity | reflexivity].
    + rewrite E. eexists; split; [right; right; left; reflexivity | reflexivity].
  - eexists; split; [left; reflexivity | reflexivity].
Qed.

(** The same in the single-file version, with the prefix as that file
    spells it. *)
Lemma Legacy_messageCreate_skips
    (cfg : Config) (sync : AnyThreadChannel -> M unit) (message : Message) (w : World) :
  u_bot (m_author message) = true \/
  (exists pre post, m_content message = pre ++ Legacy.ATTRIBUTION ++ post) ->
  exists line,
    In line Triggers.dropped /\
    Legacy.messageCreate cfg sync message w =
      (Ok tt, set_trace (trace w ++ [Log INFO line]) w).
Proof.
  intros H.
  assert (E : u_bot (m_author message) || includes (m_content message) Legacy.ATTRIBUTION = true).
  { destruct H as [-> | (pre & post & Hc)]; [reflexivity |].
    apply orb_true_intro; right.
    apply JsFacts.includes_spec; now exists pre, post. }
  unfold Legacy.messageCreate, try_catch, Triggers.dropped.
  destruct (m_channel message) as [thread |].
  - destruct (negb (eqb (t_parentId thread) (FORUM_CHANNEL_ID cfg))).
    + eexists; split; [right; left; reflexivity | reflexivity].
    + rewrite E. eexists; split; [right; right; left; reflexivity | reflexivity].
  - eexists; split; [left; reflexivity | reflexivity].
Qed.

(** C4, as it is stated, fails: for a thread of the configured forum
    channel whose seed message exists, the [threadCreate] handler does not
    invoke the entry point, in either version. *)
Lemma threadCreate_does_not_route :
  t_parentId Sample.thread = FORUM_CHANNEL_ID default_config /\
  fst (messages_fetch Sample.thread Sample.world) = Ok [Sample.seed] /\
  ~ Triggers.invokes
      (fun sync => Index.threadCreate default_config sync Sample.thread)
      Sample.thread Sample.world /\
  ~ Triggers.invokes
      (fun sync => Legacy.threadCreate default_config sync Sample.thread)
      Sample.thread Sample.world.
Proof.
  repeat split; try reflexivity; intros H; exact H.
Qed.

(** The route that exists: a message posted in a thread of the forum
    channel, by someone who is not a bot and without the attribution prefix,
    is handed to the entry point, and when the entry point returns the
    handler has done exactly what the entry point did. *)
Lemma messageCreate_routes
    (cfg : Config) (sync : AnyThreadChannel -> M unit)
    (message : Message) (thread : AnyThreadChannel) (w w' : World) :
  m_channel message = Some thread ->
  t_parentId thread = FORUM_CHANNEL_ID cfg ->
  u_bot (m_author message) = false ->
  includes (m_content message) ATTRIBUTION = false ->
  sync thread w = (Ok tt, w') ->
  Index.messageCreate cfg sync message w = (Ok tt, w').
Proof.
  intros Hc Hp Hb Hi Hs.
  unfold Index.messageCreate, try_catch.
  rewrite Hc, Hp, JsFacts.eqb_refl, Hb, Hi. simpl. now rewrite Hs.
Qed.

(** C4 (as amended).  The [threadCreate] handler routes nothing: in both
    versions it returns at once, for every thread and from every state, with
    no call, no log line and no change of state, whatever the entry point
    is; run with the probe, it never records the thread. *)
Theorem threadCreate_returns_at_once
    (cfg : Config) (sync : AnyThreadChannel -> M unit)
    (thread : AnyThreadChannel) (w : World) :
  Index.threadCreate cfg sync thread w = (Ok tt, w) /\
  Legacy.threadCreate cfg sync thread w = (Ok tt, w) /\
  ~ Triggers.invokes (fun sync => Index.threadCreate cfg sync thread) thread w /\
  ~ Triggers.invokes (fun sync => Legacy.threadCreate cfg sync thread) thread w.
Proof.
  repeat split; unfold Triggers.invokes; simpl;
    rewrite skipn_all; intros H; exact H.
Qed.

(* ================================================================= *)
(** * The discussion listing cache *)
Module CacheFacts.

Import Cache.

Lemma keeps_ret {A} (a : A) : keeps (ret a).
Proof. intros w snapshot H; exact H. Qed.

Lemma keeps_throw {A} (e : jsstring) : keeps (@throw A e).
Proof. intros w snapshot H; exact H. Qed.

Lemma keeps_rethrow {A} (e : JsError) : keeps (@rethrow A e).
Proof. intros w snapshot H; exact H. Qed.

Lemma keeps_type_error {A} (e : jsstring) : keeps (@type_error A e).
Proof. intros w snapshot H; exact H. Qed.

Lemma keeps_get : keeps get.
Proof. intros w snapshot H; exact H. Qed.

Lemma keeps_bind {A B} (c : M A) (k : A -> M B) :
  keeps c -> (forall a, keeps (k a)) -> keeps (bind c k).
Proof.
  intros Hc Hk w snapshot H. unfold bind.
  specialize (Hc w snapshot H).
  destruct (c w) as [[a | e] w']; simpl in *.
  - now apply Hk.
  - exact Hc.
Qed.

Lemma keeps_promise_all {A B} (p : M A) (q : M B) :
  keeps p -> keeps q -> keeps (promise_all p q).
Proof.
  intros Hp Hq w snapshot H. unfold promise_all.
  specialize (Hp w snapshot H).
  destruct (p w) as [[a | e] w1]; simpl in *.
  - specialize (Hq w1 snapshot Hp).
    destruct (q w1) as [[b | e] w2]; exact Hq.
  - exact (Hq w1 snapshot Hp).
Qed.

Lemma keeps_try_catch {A} (c : M A) (h : JsError -> M A) :
  keeps c -> (forall e, keeps (h e)) -> keeps (try_catch c h).
Proof.
  intros Hc Hh w snapshot H. unfold try_catch.
  specialize (Hc w snapshot H).
  destruct (c w) as [[a | e] w']; simpl in *.
  - exact Hc.
  - now apply Hh.
Qed.

Lemma keeps_modify (f : World -> World) :
  (forall w, discussionCache (f w) = discussionCache w) -> keeps (modify f).
Proof. intros Hf w snapshot H. simpl. now rewrite Hf. Qed.

Lemma keeps_emit (e : Event) : keeps (emit e).
Proof. apply keeps_modify; reflexivity. Qed.

Lemma keeps_logger (level : LogLevel) (line : jsstring) : keeps (logger level line).
Proof. apply keeps_emit. Qed.

Lemma keeps_console_log (line : jsstring) : keeps (console_log line).
Proof. apply keeps_emit. Qed.

Lemma keeps_call (e : Event) : keeps (call e).
Proof.
  intros w snapshot H. unfold call.
  destruct (outage w (calls w)); exact H.
Qed.

Lemma keeps_for_each {A} (xs : list A) (body : A -> M unit) :
  (forall x, keeps (body x)) -> keeps (for_each xs body).
Proof.
  intros Hb. induction xs as [| x xs IH]; simpl.
  - apply keeps_ret.
  - apply keeps_bind; auto.
Qed.

Lemma keeps_for_range (count : nat) : forall from (body : nat -> M unit),
  (forall idx, keeps (body idx)) -> keeps (for_range from count body).
Proof.
  induction count as [| count IH]; intros from body Hb; simpl.
  - apply keeps_ret.
  - apply keeps_bind; auto.
Qed.

Lemma keeps_item {A} (xs : list A) (idx : nat) : keeps (item xs idx).
Proof. unfold item. destruct (nth_error xs idx); [apply keeps_ret | apply keeps_type_error]. Qed.

Lemma keeps_returning {A} (v unreachable : M A) : keeps v -> keeps (returning v unreachable).
Proof. intros H; exact H. Qed.

Create HintDb cache discriminated.

#[export] Hint Resolve keeps_ret keeps_throw keeps_rethrow keeps_type_error keeps_get
  keeps_emit keeps_logger keeps_console_log keeps_call keeps_item : cache.

(** Break a computation down along its binds and its case analyses. *)
Ltac keeps :=
  repeat first
    [ assumption
    | solve [auto with cache]
    | apply keeps_bind; [| intros ]
    | apply keeps_try_catch; [| intros ]
    | apply keeps_promise_all
    | apply keeps_for_each; intros
    | apply keeps_for_range; intros
    | apply keeps_returning
    | apply keeps_modify; reflexivity
    | match goal with
      | |- keeps (match ?x with _ => _ end) => destruct x
      | |- keeps (let _ := _ in _) => cbv zeta
      end ].

(** *** The platform clients *)
Lemma keeps_fresh_id : keeps fresh_id.
Proof. unfold fresh_id; keeps. Qed.

#[export] Hint Resolve keeps_fresh_id : cache.

Lemma keeps_query_discussions c : keeps (query_discussions c).
Proof. unfold query_discussions; keeps. Qed.

Lemma keeps_query_comments n o : keeps (query_comments n o).
Proof. unfold query_comments; keeps. Qed.

Lemma keeps_mutation_addDiscussionComment i b : keeps (mutation_addDiscussionComment i b).
Proof. unfold mutation_addDiscussionComment; keeps. Qed.

Lemma keeps_mutation_updateDiscussion i b : keeps (mutation_updateDiscussion i b).
Proof. unfold mutation_updateDiscussion; keeps. Qed.

Lemma keeps_mutation_createDiscussionCategory r n d :
  keeps (mutation_createDiscussionCategory r n d).
Proof. unfold mutation_createDiscussionCategory; keeps. Qed.

Lemma keeps_mutation_createDiscussion c t b r : keeps (mutation_createDiscussion c t b r).
Proof. unfold mutation_createDiscussion; keeps. Qed.

Lemma keeps_query_repository_id : keeps query_repository_id.
Proof. unfold query_repository_id; keeps. Qed.

Lemma keeps_query_repository : keeps query_repository.
Proof. unfold query_repository; keeps. Qed.

Lemma keeps_query_categories : keeps query_categories.
Proof. unfold query_categories; keeps. Qed.

Lemma keeps_channels_fetch c : keeps (channels_fetch c).
Proof. unfold channels_fetch; keeps. Qed.

Lemma keeps_threads_fetch : keeps threads_fetch.
Proof. unfold threads_fetch; keeps. Qed.

Lemma keeps_messages_fetch t : keeps (messages_fetch t).
Proof. unfold messages_fetch; keeps. Qed.

Lemma keeps_thread_send t c : keeps (thread_send t c).
Proof. unfold thread_send; keeps. Qed.

Lemma keeps_message_reply m c : keeps (message_reply m c).
Proof. unfold message_reply; keeps. Qed.

Lemma keeps_threads_create f n c : keeps (threads_create f n c).
Proof. unfold threads_create; keeps. Qed.

Lemma keeps_sendStatus c : keeps (sendStatus c).
Proof. unfold sendStatus; keeps. Qed.

#[export] Hint Resolve keeps_query_discussions keeps_query_comments
  keeps_mutation_addDiscussionComment keeps_mutation_updateDiscussion
  keeps_mutation_createDiscussion keeps_query_repository_id
  keeps_query_repository keeps_query_categories keeps_channels_fetch
  keeps_threads_fetch keeps_messages_fetch keeps_thread_send
  keeps_message_reply keeps_threads_create keeps_sendStatus : cache.

End CacheFacts.

Module CurrentCacheFacts.

Import Cache CacheFacts.

Section WithConfig.

Variable cfg : Config.

(** With a cache in place the listing is the cache, and nothing is
    called. *)
Lemma listGithubDiscussions_cached (w : World) (snapshot : list GithubDiscussion) :
  discussionCache w = Some snapshot ->
  Github.listGithubDiscussions w = (Ok snapshot, w).
Proof.
  intros H. unfold Github.listGithubDiscussions, bind, get. now rewrite H.
Qed.

Lemma listDiscussions_cached (w : World) (snapshot : list GithubDiscussion) :
  discussionCache w = Some snapshot ->
  Legacy.listDiscussions w = (Ok snapshot, w).
Proof.
  intros H. unfold Legacy.listDiscussions, bind, get. now rewrite H.
Qed.

Lemma keeps_listGithubDiscussions : keeps Github.listGithubDiscussions.
Proof.
  intros w snapshot H. now rewrite (listGithubDiscussions_cached w snapshot H).
Qed.

Lemma keeps_listDiscussions : keeps Legacy.listDiscussions.
Proof.
  intros w snapshot H. now rewrite (listDiscussions_cached w snapshot H).
Qed.

Hint Resolve keeps_listGithubDiscussions keeps_listDiscussions : cache.

(** *** [github.ts] *)
Lemma keeps_getRepositoryId : keeps (Github.getRepositoryId cfg).
Proof. unfold Github.getRepositoryId; keeps. Qed.

Hint Resolve keeps_getRepositoryId : cache.

Lemma keeps_fetchRepoCategoryIdByName name :
  keeps (Github.fetchRepoCategoryIdByName cfg name).
Proof. unfold Github.fetchRepoCategoryIdByName; keeps. Qed.

Hint Resolve keeps_fetchRepoCategoryIdByName : cache.

Lemma keeps_loadGithub : keeps (Github.loadGithub cfg).
Proof. unfold Github.loadGithub; keeps. Qed.

Lemma keeps_pushGithubComment t m d : keeps (Github.pushGithubComment t m d).
Proof. unfold Github.pushGithubComment; keeps. Qed.

Lemma keeps_listGithubComments_loop fuel : forall d acc offset,
  keeps (Github.listGithubComments_loop fuel d acc offset).
Proof.
  induction fuel as [| fuel IH]; intros d acc offset; simpl; keeps.
Qed.

Hint Resolve keeps_listGithubComments_loop : cache.

Lemma keeps_listGithubComments d : keeps (Github.listGithubComments d).
Proof. unfold Github.listGithubComments; keeps. Qed.

Lemma keeps_updateDiscussion d i : keeps (Github.updateDiscussion d i).
Proof. unfold Github.updateDiscussion; keeps. Qed.

(** Creating a discussion changes GitHub, not the cache. *)
Lemma keeps_createDiscussion t m : keeps (Github.createDiscussion cfg t m).
Proof. unfold Github.createDiscussion; keeps. Qed.

Hint Resolve keeps_loadGithub keeps_pushGithubComment keeps_listGithubComments
  keeps_updateDiscussion keeps_createDiscussion : cache.

(** *** [discord.ts] *)
Lemma keeps_listDiscordThreads : keeps (Discord.listDiscordThreads cfg).
Proof. unfold Discord.listDiscordThreads; keeps. Qed.

Lemma keeps_listDiscordMessages t : keeps (Discord.listDiscordMessages t).
Proof. unfold Discord.listDiscordMessages; keeps. Qed.

Lemma keeps_createThread a n t b : keeps (Discord.createThread cfg a n t b).
Proof. unfold Discord.createThread; keeps. Qed.

Lemma keeps_pushDiscordMessage t c d : keeps (Discord.pushDiscordMessage cfg t c d).
Proof. unfold Discord.pushDiscordMessage; keeps. Qed.

Hint Resolve keeps_listDiscordThreads keeps_listDiscordMessages keeps_createThread
  keeps_pushDiscordMessage : cache.

(** *** [index.ts] *)
Lemma keeps_findThreadOnGitHub t : keeps (Index.findThreadOnGitHub t).
Proof. unfold Index.findThreadOnGitHub; keeps. Qed.

Lemma keeps_findDiscussionOnDiscord d : keeps (Index.findDiscussionOnDiscord cfg d).
Proof. unfold Index.findDiscussionOnDiscord; keeps. Qed.

Lemma keeps_syncMessages t d : keeps (Index.syncMessages cfg t d).
Proof. unfold Index.syncMessages; keeps. Qed.

Hint Resolve keeps_findThreadOnGitHub keeps_findDiscussionOnDiscord
  keeps_syncMessages : cache.

Lemma keeps_syncDiscussionOnDiscord d : keeps (Index.syncDiscussionOnDiscord cfg d).
Proof. unfold Index.syncDiscussionOnDiscord; keeps. Qed.

Lemma keeps_syncThreadOnGitHub t : keeps (Index.syncThreadOnGitHub cfg t).
Proof. unfold Index.syncThreadOnGitHub; keeps. Qed.

Hint Resolve keeps_syncDiscussionOnDiscord keeps_syncThreadOnGitHub : cache.

Lemma keeps_webhook req : keeps (Index.webhook cfg req).
Proof. unfold Index.webhook; keeps. Qed.

Lemma keeps_on_threadCreate t : keeps (Index.on_threadCreate cfg t).
Proof. unfold Index.on_threadCreate, Index.threadCreate; keeps. Qed.

Lemma keeps_on_messageCreate m : keeps (Index.on_messageCreate cfg m).
Proof. unfold Index.on_messageCreate, Index.messageCreate; keeps. Qed.

Lemma keeps_init : keeps (Index.init cfg).
Proof. unfold Index.init; keeps. Qed.

End WithConfig.

End CurrentCacheFacts.

Module LegacyCacheFacts.

Import Cache CacheFacts.

Section WithConfig.

Variable cfg : Config.

Hint Resolve CurrentCacheFacts.keeps_listDiscussions CurrentCacheFacts.keeps_getRepositoryId
  keeps_mutation_createDiscussionCategory : cache.

Lemma legacy_keeps_getRepositoryId : keeps (Legacy.getRepositoryId cfg).
Proof. unfold Legacy.getRepositoryId; keeps. Qed.

Hint Resolve legacy_keeps_getRepositoryId : cache.

Lemma legacy_keeps_fetchRepoCategoryIdByName name create :
  keeps (Legacy.fetchRepoCategoryIdByName cfg name create).
Proof. unfold Legacy.fetchRepoCategoryIdByName; keeps. Qed.

Hint Resolve legacy_keeps_fetchRepoCategoryIdByName : cache.

Lemma legacy_keeps_updateDiscussion d i : keeps (Legacy.updateDiscussion cfg d i).
Proof. unfold Legacy.updateDiscussion; keeps. Qed.

Lemma legacy_keeps_listGitHubComments_loop fuel : forall d acc offset,
  keeps (Legacy.listGitHubComments_loop fuel d acc offset).
Proof.
  induction fuel as [| fuel IH]; intros d acc offset; simpl; keeps.
Qed.

Hint Resolve legacy_keeps_listGitHubComments_loop : cache.

Lemma legacy_keeps_listGitHubComments d : keeps (Legacy.listGitHubComments d).
Proof. unfold Legacy.listGitHubComments; keeps. Qed.

Lemma legacy_keeps_listDiscordThreads : keeps (Legacy.listDiscordThreads cfg).
Proof. unfold Legacy.listDiscordThreads; keeps. Qed.

Lemma legacy_keeps_listDiscordMessages t : keeps (Legacy.listDiscordMessages t).
Proof. unfold Legacy.listDiscordMessages; keeps. Qed.

Hint Resolve legacy_keeps_updateDiscussion legacy_keeps_listGitHubComments
  legacy_keeps_listDiscordThreads legacy_keeps_listDiscordMessages : cache.

Lemma legacy_keeps_findThreadOnGitHub t : keeps (Legacy.findThreadOnGitHub t).
Proof. unfold Legacy.findThreadOnGitHub; keeps. Qed.

Lemma legacy_keeps_findDiscussionOnDiscord d : keeps (Legacy.findDiscussionOnDiscord cfg d).
Proof. unfold Legacy.findDiscussionOnDiscord; keeps. Qed.

Lemma legacy_keeps_createDiscussion t m : keeps (Legacy.createDiscussion cfg t m).
Proof. unfold Legacy.createDiscussion; keeps. Qed.

Lemma legacy_keeps_createThread a n t b : keeps (Legacy.createThread cfg a n t b).
Proof. unfold Legacy.createThread; keeps. Qed.

Lemma legacy_keeps_pushDiscordMessage t c d : keeps (Legacy.pushDiscordMessage cfg t c d).
Proof. unfold Legacy.pushDiscordMessage; keeps. Qed.

Lemma legacy_keeps_pushGithubComment t m d : keeps (Legacy.pushGithubComment cfg t m d).
Proof. unfold Legacy.pushGithubComment; keeps. Qed.

Hint Resolve legacy_keeps_findThreadOnGitHub legacy_keeps_findDiscussionOnDiscord
  legacy_keeps_createDiscussion legacy_keeps_createThread legacy_keeps_pushDiscordMessage
  legacy_keeps_pushGithubComment : cache.

Lemma legacy_keeps_syncMessages t d : keeps (Legacy.syncMessages cfg t d).
Proof. unfold Legacy.syncMessages; keeps. Qed.

Hint Resolve legacy_keeps_syncMessages : cache.

Lemma legacy_keeps_syncDiscussionOnDiscord d : keeps (Legacy.syncDiscussionOnDiscord cfg d).
Proof. unfold Legacy.syncDiscussionOnDiscord; keeps. Qed.

Lemma legacy_keeps_syncThreadOnGitHub t : keeps (Legacy.syncThreadOnGitHub cfg t).
Proof. unfold Legacy.syncThreadOnGitHub; keeps. Qed.

Hint Resolve legacy_keeps_syncDiscussionOnDiscord legacy_keeps_syncThreadOnGitHub : cache.

Lemma legacy_keeps_webhook req : keeps (Legacy.webhook cfg req).
Proof. unfold Legacy.webhook; keeps. Qed.

Lemma legacy_keeps_on_threadCreate t : keeps (Legacy.on_threadCreate cfg t).
Proof. unfold Legacy.on_threadCreate, Legacy.threadCreate; keeps. Qed.

Lemma legacy_keeps_on_messageCreate m : keeps (Legacy.on_messageCreate cfg m).
Proof. unfold Legacy.on_messageCreate, Legacy.messageCreate; keeps. Qed.

Lemma legacy_keeps_init : keeps (Legacy.init cfg).
Proof. unfold Legacy.init; keeps. Qed.

End WithConfig.

End LegacyCacheFacts.

Lemma perform_keeps (cfg : Config) (op : Operation) : Cache.keeps (perform cfg op).
Proof.
  destruct op; unfold perform, done;
    repeat (apply CacheFacts.keeps_bind; [| intros; apply CacheFacts.keeps_ret]);
    auto using CurrentCacheFacts.keeps_init, CurrentCacheFacts.keeps_webhook,
      CurrentCacheFacts.keeps_on_threadCreate, CurrentCacheFacts.keeps_on_messageCreate,
      CurrentCacheFacts.keeps_syncDiscussionOnDiscord, CurrentCacheFacts.keeps_syncThreadOnGitHub,
      CurrentCacheFacts.keeps_syncMessages, CurrentCacheFacts.keeps_findThreadOnGitHub,
      CurrentCacheFacts.keeps_findDiscussionOnDiscord, CurrentCacheFacts.keeps_loadGithub,
      CurrentCacheFacts.keeps_listGithubDiscussions, CurrentCacheFacts.keeps_listGithubComments,
      CurrentCacheFacts.keeps_createDiscussion, CurrentCacheFacts.keeps_updateDiscussion,
      CurrentCacheFacts.keeps_pushGithubComment, CurrentCacheFacts.keeps_listDiscordThreads,
      CurrentCacheFacts.keeps_listDiscordMessages, CurrentCacheFacts.keeps_createThread,
      CurrentCacheFacts.keeps_pushDiscordMessage.
Qed.

Lemma perform_legacy_keeps (cfg : Config) (op : Operation) :
  Cache.keeps (perform_legacy cfg op).
Proof.
  destruct op; unfold perform_legacy, done;
    repeat (apply CacheFacts.keeps_bind; [| intros; apply CacheFacts.keeps_ret]);
    auto using CacheFacts.keeps_ret, LegacyCacheFacts.legacy_keeps_init,
    LegacyCacheFacts.legacy_keeps_fetchRepoCategoryIdByName,
    LegacyCacheFacts.legacy_keeps_webhook,
      LegacyCacheFacts.legacy_keeps_on_threadCreate, LegacyCacheFacts.legacy_keeps_on_messageCreate,
      LegacyCacheFacts.legacy_keeps_syncDiscussionOnDiscord,
      LegacyCacheFacts.legacy_keeps_syncThreadOnGitHub, LegacyCacheFacts.legacy_keeps_syncMessages,
      LegacyCacheFacts.legacy_keeps_findThreadOnGitHub,
      LegacyCacheFacts.legacy_keeps_findDiscussionOnDiscord,
      CurrentCacheFacts.keeps_listDiscussions, LegacyCacheFacts.legacy_keeps_listGitHubComments,
      LegacyCacheFacts.legacy_keeps_createDiscussion, LegacyCacheFacts.legacy_keeps_updateDiscussion,
      LegacyCacheFacts.legacy_keeps_pushGithubComment, LegacyCacheFacts.legacy_keeps_listDiscordThreads,
      LegacyCacheFacts.legacy_keeps_listDiscordMessages, LegacyCacheFacts.legacy_keeps_createThread,
      LegacyCacheFacts.legacy_keeps_pushDiscordMessage.
Qed.

Lemma after_keeps (step : Operation -> M unit) :
  (forall op, Cache.keeps (step op)) ->
  forall ops w snapshot,
    discussionCache w = Some snapshot ->
    discussionCache (after step ops w) = Some snapshot.
Proof.
  intros Hstep ops. induction ops as [| op ops IH]; intros w snapshot H; simpl.
  - exact H.
  - apply IH. now apply Hstep.
Qed.

(** What the first listing answers when it goes through: the first hundred
    discussions of the configured category, as GitHub holds them then; and
    it is put in the cache. *)
Lemma listGithubDiscussions_first (w w1 : World) (first : list GithubDiscussion) :
  discussionCache w = None ->
  Github.listGithubDiscussions w = (Ok first, w1) ->
  discussionCache w1 = Some first /\
  exists categoryId,
    REPO_CATEGORY_ID w = Some categoryId /\
    first = firstn 100
              (map (fun r => listed (rd r))
                 (filter (fun r => eqb (rd_category_id r) categoryId)
                    (discussions (github w)))).
Proof.
  intros Hnone. unfold Github.listGithubDiscussions, bind, get. rewrite Hnone.
  unfold query_discussions.
  destruct (REPO_CATEGORY_ID w) as [cid |] eqn:Hcat.
  - unfold bind, call, get. destruct (outage w (calls w)); [discriminate |].
    cbn. destruct (repository (github w)); cbn; [| discriminate].
    intros H; inversion H; subst; clear H. cbn.
    split; [reflexivity | now exists cid].
  - unfold bind, call, throw. destruct (outage w (calls w)); discriminate.
Qed.

Lemma listDiscussions_first (w w1 : World) (first : list GithubDiscussion) :
  discussionCache w = None ->
  Legacy.listDiscussions w = (Ok first, w1) ->
  discussionCache w1 = Some first.
Proof.
  intros Hnone. unfold Legacy.listDiscussions, bind, get. rewrite Hnone.
  destruct (query_discussions (REPO_CATEGORY_ID w) w) as [[nodes | e] w'];
    [| discriminate].
  cbn. intros H; inversion H; subst; reflexivity.
Qed.

(** C9.  The first call of [listGithubDiscussions] that goes through fills
    the cache with what it answers; after any run of operations of the
    process, whether they return or throw, the cache is still that first
    snapshot, and [listGithubDiscussions] answers it again without calling
    GitHub and without changing anything. *)
Theorem discussionCache_frozen
    (cfg : Config) (w w1 : World) (first : list GithubDiscussion)
    (ops : list Operation)
    (Hempty : discussionCache w = None)
    (Hfirst : Github.listGithubDiscussions w = (Ok first, w1)) :
  discussionCache w1 = Some first /\
  discussionCache (after (perform cfg) ops w1) = Some first /\
  Github.listGithubDiscussions (after (perform cfg) ops w1)
    = (Ok first, after (perform cfg) ops w1).
Proof.
  destruct (listGithubDiscussions_first w w1 first Hempty Hfirst) as [Hc _].
  assert (H2 : discussionCache (after (perform cfg) ops w1) = Some first)
    by (apply after_keeps; [apply perform_keeps | exact Hc]).
  repeat split; try assumption.
  now apply CurrentCacheFacts.listGithubDiscussions_cached.
Qed.

(** Creating a discussion for the sample thread after the first listing:
    GitHub then holds the new discussion, the listing still answers the
    first snapshot, which is empty. *)
Lemma discussionCache_frozen_witness :
  let w := Sample.world in
  let w1 := snd (Github.listGithubDiscussions w) in
  let ops := [op_createDiscussion Sample.thread (Some Sample.seed)] in
  discussionCache w = None /\
  Github.listGithubDiscussions w = (Ok [], w1) /\
  length (discussions (github (after (perform Sample.live) ops w1))) = 1 /\
  discussionCache w1 = Some [] /\
  discussionCache (after (perform Sample.live) ops w1) = Some [] /\
  Github.listGithubDiscussions (after (perform Sample.live) ops w1)
    = (Ok [], after (perform Sample.live) ops w1).
Proof.
  intros w w1 ops.
  assert (Hempty : discussionCache w = None) by reflexivity.
  assert (Hfirst : Github.listGithubDiscussions w = (Ok [], w1)) by reflexivity.
  split; [exact Hempty | split; [exact Hfirst | split; [reflexivity |]]].
  exact (discussionCache_frozen Sample.live w w1 [] ops Hempty Hfirst).
Defined.

(** The same in the single-file version, for [listDiscussions]. *)
Lemma Legacy_listing_cache_frozen
    (cfg : Config) (w w1 : World) (first : list GithubDiscussion)
    (ops : list Operation) :
  discussionCache w = None ->
  Legacy.listDiscussions w = (Ok first, w1) ->
  discussionCache w1 = Some first /\
  discussionCache (after (perform_legacy cfg) ops w1) = Some first /\
  Legacy.listDiscussions (after (perform_legacy cfg) ops w1)
    = (Ok first, after (perform_legacy cfg) ops w1).
Proof.
  intros Hempty Hfirst.
  pose proof (listDiscussions_first w w1 first Hempty Hfirst) as Hc.
  assert (H2 : discussionCache (after (perform_legacy cfg) ops w1) = Some first)
    by (apply after_keeps; [apply perform_legacy_keeps | exact Hc]).
  repeat split; try assumption.
  now apply CurrentCacheFacts.listDiscussions_cached.
Qed.

(* ================================================================= *)
(** * The matcher on literals and runs *)
Module RunsFacts.

Import JsFacts.

Import Runs.

Lemma str_literal (s : string) : str s = literal (lit s).
Proof. reflexivity. Qed.

(** Without the [i] flag a literal matches itself and nothing else. *)
Lemma m_literal (l : jsstring) (r : regex) : forall st i s,
  m false (literal l ++ r) st i s =
  if prefixb l s then m false r st (i + length l) (skipn (length l) s) else None.
Proof.
  induction l as [| p l IH]; intros st i s; simpl.
  - now rewrite Nat.add_0_r.
  - destruct s as [| c s]; [reflexivity |].
    unfold same. destruct (N.eqb p c); simpl; [| reflexivity].
    rewrite IH. now rewrite Nat.add_succ_r.
Qed.

Lemma m_literal_app (l : jsstring) (r : regex) (st : caps) (i : nat) (rest : jsstring) :
  m false (literal l ++ r) st i (l ++ rest) = m false r st (i + length l) rest.
Proof.
  rewrite m_literal, prefixb_app.
  now rewrite skipn_app, skipn_all, Nat.sub_diag.
Qed.

Lemma m_literal_some (l : jsstring) (r : regex) (st : caps) (i : nat) (s : jsstring) f :
  m false (literal l ++ r) st i s = Some f ->
  exists rest, s = l ++ rest /\ m false r st (i + length l) rest = Some f.
Proof.
  rewrite m_literal. destruct (prefixb l s) eqn:E; [| discriminate].
  apply prefixb_spec in E as [rest ->].
  rewrite skipn_app, skipn_all, Nat.sub_diag. simpl.
  intros H. now exists rest.
Qed.

Section OverAtom.

Variable ignoreCase : bool.

Variable a : atom.

(** A greedy star that succeeds has passed a run and then its
    continuation succeeded. *)
Lemma star_greedy_some k : forall s i f,
  star_greedy ignoreCase a k i s = Some f ->
  exists xs rest, s = xs ++ rest /\ run ignoreCase a xs /\ k (i + length xs) rest = Some f.
Proof.
  induction s as [| c s IH]; intros i f; simpl.
  - intros H. exists [], []. rewrite Nat.add_0_r. repeat split; [constructor | exact H].
  - destruct (atom_match ignoreCase a c) eqn:E.
    + destruct (star_greedy ignoreCase a k (S i) s) as [f' |] eqn:G.
      * intros H; inversion H; subst.
        destruct (IH _ _ G) as (xs & rest & -> & Hr & Hk).
        exists (c :: xs), rest. simpl. rewrite Nat.add_succ_r.
        repeat split; [constructor; assumption | exact Hk].
      * intros H. exists [], (c :: s). rewrite Nat.add_0_r.
        repeat split; [constructor | exact H].
    + intros H. exists [], (c :: s). rewrite Nat.add_0_r.
      repeat split; [constructor | exact H].
Qed.

(** Over a whole run that the continuation cannot cut short, a greedy
    star hands the rest to its continuation. *)
Lemma star_greedy_run k : forall xs rest i,
  run ignoreCase a xs -> stops ignoreCase a rest ->
  (forall x1 x2, xs = x1 ++ x2 -> x2 <> [] -> k (i + length x1) (x2 ++ rest) = None) ->
  star_greedy ignoreCase a k i (xs ++ rest) = k (i + length xs) rest.
Proof.
  induction xs as [| x xs IH]; intros rest i Hrun Hstop Hcut; simpl.
  - rewrite Nat.add_0_r. destruct rest as [| c rest]; simpl; [reflexivity |].
    simpl in Hstop. now rewrite Hstop.
  - inversion Hrun as [| ? ? Hx Hxs]; subst. rewrite Hx.
    rewrite IH; try assumption.
    + rewrite Nat.add_succ_r. simpl.
      destruct (k (S (i + length xs)) rest) eqn:E; [reflexivity |].
      specialize (Hcut [] (x :: xs) eq_refl). simpl in Hcut.
      rewrite Nat.add_0_r in Hcut. apply Hcut. discriminate.
    + intros x1 x2 Hsplit Hne. specialize (Hcut (x :: x1) x2).
      simpl in Hcut. rewrite Nat.add_succ_r in Hcut. apply Hcut; [now f_equal | exact Hne].
Qed.

(** A lazy star that succeeds has passed a run, the shortest after
    which its continuation succeeds. *)
Lemma star_lazy_some k : forall s i f,
  star_lazy ignoreCase a k i s = Some f ->
  exists xs rest, s = xs ++ rest /\ run ignoreCase a xs /\ k (i + length xs) rest = Some f.
Proof.
  induction s as [| c s IH]; intros i f; simpl.
  - destruct (k i []) eqn:E; [| discriminate].
    intros H; inversion H; subst. exists [], []. rewrite Nat.add_0_r.
    repeat split; [constructor | exact E].
  - destruct (k i (c :: s)) eqn:E.
    + intros H; inversion H; subst. exists [], (c :: s). rewrite Nat.add_0_r.
      repeat split; [constructor | exact E].
    + destruct (atom_match ignoreCase a c) eqn:Ea; [| discriminate].
      intros H. destruct (IH _ _ H) as (xs & rest & -> & Hr & Hk).
      exists (c :: xs), rest. simpl. rewrite Nat.add_succ_r.
      repeat split; [constructor; assumption | exact Hk].
Qed.

Lemma star_lazy_run k : forall xs rest i,
  run ignoreCase a xs ->
  (forall x1 x2, xs = x1 ++ x2 -> x2 <> [] -> k (i + length x1) (x2 ++ rest) = None) ->
  star_lazy ignoreCase a k i (xs ++ rest) = 
  match k (i + length xs) rest with
  | Some f => Some f
  | None => star_lazy ignoreCase a k (i + length xs) rest
  end.
Proof.
  induction xs as [| x xs IH]; intros rest i Hrun Hcut; simpl.
  - rewrite Nat.add_0_r. destruct rest as [| c rest]; simpl.
    + destruct (k i []); reflexivity.
    + destruct (k i (c :: rest)); reflexivity.
  - inversion Hrun as [| ? ? Hx Hxs]; subst.
    pose proof (Hcut [] (x :: xs) eq_refl) as H0. simpl in H0.
    rewrite Nat.add_0_r in H0. rewrite H0 by discriminate.
    rewrite Hx. rewrite IH; try assumption.
    + now rewrite Nat.add_succ_r.
    + intros x1 x2 Hsplit Hne. specialize (Hcut (x :: x1) x2).
      simpl in Hcut. rewrite Nat.add_succ_r in Hcut. apply Hcut; [now f_equal | exact Hne].
Qed.

End OverAtom.

(** [search] answers nothing exactly when the pattern matches at no
    index. *)
Lemma search_none ic r : forall s i,
  search ic r i s = None <->
  forall pre suf, s = pre ++ suf -> m ic r start (i + length pre) suf = None.
Proof.
  induction s as [| c s IH]; intros i; simpl.
  - destruct (m ic r start i []) eqn:E.
    + split; [discriminate |]. intros H. specialize (H [] [] eq_refl).
      simpl in H. rewrite Nat.add_0_r in H. congruence.
    + split; [| reflexivity]. intros _ pre suf Hs.
      symmetry in Hs. apply app_eq_nil in Hs as [-> ->]. simpl.
      now rewrite Nat.add_0_r.
  - destruct (m ic r start i (c :: s)) eqn:E.
    + split; [discriminate |]. intros H. specialize (H [] (c :: s) eq_refl).
      simpl in H. rewrite Nat.add_0_r in H. congruence.
    + rewrite IH. split.
      * intros H pre suf Hs. destruct pre as [| p pre]; simpl in *.
        -- subst suf. now rewrite Nat.add_0_r.
        -- inversion Hs; subst. rewrite Nat.add_succ_r. now apply H.
      * intros H pre suf Hs. specialize (H (c :: pre) suf).
        simpl in H. rewrite Nat.add_succ_r in H. apply H. now f_equal.
Qed.

Lemma exec_none ic r (input : jsstring) :
  exec ic r input 0 = None <->
  forall pre suf, input = pre ++ suf -> m ic r start (length pre) suf = None.
Proof.
  unfold exec. simpl.
  destruct (search ic r 0 input) as [[j f] |] eqn:E.
  - split; [discriminate |]. intros H.
    apply (search_none ic r input 0) in H. congruence.
  - split; [| reflexivity]. intros _. now apply (search_none ic r input 0).
Qed.

End RunsFacts.

(* ================================================================= *)
(** * EntityLinker: the marker and the two resolvers *)
Module LinkerFacts.

Import JsFacts Runs RunsFacts.

Import Linker.

Lemma search_some ic r : forall s i j f,
  search ic r i s = Some (j, f) ->
  exists pre suf, s = pre ++ suf /\ j = i + length pre /\ m ic r start j suf = Some f.
Proof.
  induction s as [| c s IH]; intros i j f; simpl.
  - destruct (m ic r start i []) eqn:E; [| discriminate].
    intros H; inversion H; subst. exists [], []. simpl. now rewrite Nat.add_0_r.
  - destruct (m ic r start i (c :: s)) eqn:E.
    + intros H; inversion H; subst. exists [], (c :: s). simpl. now rewrite Nat.add_0_r.
    + intros H. destruct (IH _ _ _ H) as (pre & suf & -> & -> & Hm).
      exists (c :: pre), suf. simpl. now rewrite Nat.add_succ_r.
Qed.

Lemma marker_parts (id : jsstring) : Github.marker id = OPENING ++ id ++ CLOSING.
Proof. reflexivity. Qed.

Lemma markerPattern_parts :
  Index.markerPattern =
  literal OPENING ++ [Open; Plus true (Cls false [Digit]); Close] ++ literal CLOSING.
Proof. reflexivity. Qed.

Lemma digit_match (c : code_unit) :
  atom_match false (Cls false [Digit]) c = is_digit c.
Proof. simpl. now rewrite orb_false_r. Qed.

(** Where the pattern matches, a marker stands, and the group is its
    identifier. *)
Lemma markerPattern_some (i : nat) (s : jsstring) f :
  m false Index.markerPattern start i s = Some f ->
  exists id post,
    s = Github.marker id ++ post /\ numeric id /\
    f = (i + length (Github.marker id), [(i + length OPENING, i + length OPENING + length id)]).
Proof.
  rewrite markerPattern_parts. intros H.
  apply m_literal_some in H as (rest & -> & H).
  cbn [app m] in H.
  destruct rest as [| d rest]; [discriminate |].
  rewrite digit_match in H. destruct (is_digit d) eqn:Hd; [| discriminate].
  unfold star in H. apply star_greedy_some in H as (xs & rest' & -> & Hrun & Hk).
  cbn [m] in Hk.
  change (literal CLOSING) with (literal CLOSING ++ []) in Hk.
  apply m_literal_some in Hk as (post & -> & Hk).
  cbn [m closed rev app] in Hk. inversion Hk; subst; clear Hk.
  exists (d :: xs), post. rewrite marker_parts. repeat split.
  - now rewrite <- !app_assoc.
  - discriminate.
  - constructor; [exact Hd |].
    eapply Forall_impl; [| exact Hrun]. intros c Hc. rewrite <- digit_match. exact Hc.
  - rewrite !length_app. cbn [length].
    change (length OPENING) with 13. change (length CLOSING) with 4.
    f_equal; [lia |]. f_equal. f_equal. lia.
Qed.

(** Where a marker with a numeric identifier stands, the pattern
    matches. *)
Lemma markerPattern_complete (i : nat) (id post : jsstring) :
  numeric id ->
  m false Index.markerPattern start i (Github.marker id ++ post) <> None.
Proof.
  intros [Hne Hdigits]. rewrite markerPattern_parts, marker_parts.
  rewrite <- !app_assoc, m_literal_app. cbn [app m].
  destruct id as [| d id]; [contradiction |].
  inversion Hdigits as [| ? ? Hd Hid]; subst.
  cbn [app]. rewrite digit_match, Hd. unfold star.
  rewrite star_greedy_run.
  - cbn [m]. change (literal CLOSING) with (literal CLOSING ++ []).
    rewrite m_literal_app. cbn [m]. discriminate.
  - eapply Forall_impl; [| exact Hid]. intros c Hc. now rewrite digit_match.
  - reflexivity.
  - intros x1 x2 -> Hx2. destruct x2 as [| c x2]; [contradiction |].
    apply Forall_app in Hid as [_ Hid]. inversion Hid as [| ? ? Hc _]; subst.
    cbn [m]. change (literal CLOSING) with (literal CLOSING ++ []).
    rewrite m_literal. change CLOSING with (32%N :: lit "-->").
    cbn [app]. rewrite prefixb_cons_neq; [reflexivity |].
    unfold is_digit in Hc. apply andb_prop in Hc as [Hc _].
    apply N.leb_le in Hc. lia.
Qed.

(** The identifier is absent exactly when the body holds no marker with a
    numeric identifier: none at all, or only malformed ones. *)
Lemma markerId_none (body : jsstring) :
  Index.markerId body = None <->
  ~ exists pre id post, body = pre ++ Github.marker id ++ post /\ numeric id.
Proof.
  unfold Index.markerId. split.
  - intros H (pre & id & post & -> & Hid).
    destruct (exec false Index.markerPattern (pre ++ Github.marker id ++ post) 0)
      eqn:E; [discriminate |].
    apply (proj1 (exec_none _ _ _)) with (pre := pre) (suf := Github.marker id ++ post) in E;
      [| reflexivity].
    now apply (markerPattern_complete (length pre) id post Hid).
  - intros H.
    destruct (exec false Index.markerPattern body 0) as [mt |] eqn:E; [| reflexivity].
    exfalso. apply H. unfold exec in E. simpl in E.
    destruct (search false Index.markerPattern 0 body) as [[j f] |] eqn:S; [| discriminate].
    apply search_some in S as (pre & suf & -> & -> & Hm).
    apply markerPattern_some in Hm as (id & post & -> & Hid & _).
    now exists pre, id, post.
Qed.

Lemma slice_middle (pre mid post : jsstring) :
  slice (pre ++ mid ++ post) (length pre) (length pre + length mid) = mid.
Proof.
  unfold slice. rewrite skipn_app, skipn_all, Nat.sub_diag. simpl.
  replace (length pre + length mid - length pre) with (length mid + 0) by lia.
  now rewrite firstn_app_2, firstn_O, app_nil_r.
Qed.

(** The identifier, when there is one, is numeric and stands in a marker
    of the body. *)
Lemma markerId_some (body id : jsstring) :
  Index.markerId body = Some id ->
  numeric id /\ exists pre post, body = pre ++ Github.marker id ++ post.
Proof.
  unfold Index.markerId, exec. simpl.
  destruct (search false Index.markerPattern 0 body) as [[j f] |] eqn:S; [| discriminate].
  apply search_some in S as (pre & suf & -> & -> & Hm).
  apply markerPattern_some in Hm as (id' & post & -> & Hid & ->).
  unfold option_map, group, mkMatch, groups. cbn [map nth fst snd].
  match goal with
  | |- Some ?x = Some _ -> _ => assert (Hs : x = id')
  end.
  { rewrite marker_parts.
    replace (pre ++ (OPENING ++ id' ++ CLOSING) ++ post)
      with ((pre ++ OPENING) ++ id' ++ (CLOSING ++ post))
      by (now rewrite <- !app_assoc).
    replace (0 + length pre + length OPENING) with (length (pre ++ OPENING))
      by (rewrite length_app; lia).
    apply slice_middle. }
  rewrite Hs. intros H; injection H as <-.
  split; [exact Hid |]. now exists pre, post.
Qed.

End LinkerFacts.

Module ResolveFacts.

Import JsFacts Linker LinkerFacts.

Import Resolve.

Lemma find_all_false {A} (f : A -> bool) (l : list A) :
  (forall x, In x l -> f x = false) -> find f l = None.
Proof.
  induction l as [| x l IH]; intros H; simpl; [reflexivity |].
  rewrite (H x (or_introl eq_refl)). apply IH. intros y Hy. apply H. now right.
Qed.

End ResolveFacts.

(** C8.  Once the collection to scan is fetched, each resolver returns
    the absent result and does not throw: [findDiscussionOnDiscord] when
    the body of the discussion holds no marker with a numeric identifier
    (missing or malformed) or when its marker names a thread that is not
    among the threads fetched (dangling); [findThreadOnGitHub] when no
    discussion of the listing carries the marker of the thread.  The state
    is the one the fetch left. *)
Theorem resolvers_report_unlinked (cfg : Config) :
  (forall discussion w threads w',
     Discord.listDiscordThreads cfg w = (Ok threads, w') ->
     Resolve.unmarked (d_body discussion) \/ Resolve.dangling (d_body discussion) threads ->
     Index.findDiscussionOnDiscord cfg discussion w = (Ok None, w')) /\
  (forall thread w listing w',
     Github.listGithubDiscussions w = (Ok listing, w') ->
     Resolve.unreferenced thread listing ->
     Index.findThreadOnGitHub thread w = (Ok None, w')).
Proof.
  split.
  - intros discussion w threads w' Hfetch Hbody.
    unfold Index.findDiscussionOnDiscord, bind. rewrite Hfetch. unfold ret.
    rewrite ResolveFacts.find_all_false; [reflexivity |].
    intros t Ht. destruct Hbody as [Hnone | (id & Hid & Hdangling)].
    + apply LinkerFacts.markerId_none in Hnone. now rewrite Hnone.
    + rewrite Hid. apply JsFacts.eqb_neq. now apply Hdangling.
  - intros thread w listing w' Hfetch Hnone.
    unfold Index.findThreadOnGitHub, bind. rewrite Hfetch. unfold ret.
    now rewrite ResolveFacts.find_all_false.
Qed.

(** Three discussions against the sample forum, whose only thread is 555:
    one without marker, one whose marker is not numeric, one whose marker
    names thread 404; and the sample thread against a listing whose only
    discussion is linked to thread 404. *)
Lemma resolvers_report_unlinked_witness :
  let threads := [(lit "555", Sample.thread)] in
  let w' := snd (Discord.listDiscordThreads default_config Sample.world) in
  let titled body :=
    {| d_id := lit "D_1"; d_number := 1; d_title := lit "t"; d_body := body;
       d_author := {| login := lit "octocat" |}; d_category := None |} in
  let elsewhere := titled (lit "text" ++ Github.marker (lit "404")) in
  let cached := set_discussionCache (Some [elsewhere]) Sample.world in
  Discord.listDiscordThreads default_config Sample.world = (Ok threads, w') /\
  Index.findDiscussionOnDiscord default_config (titled (lit "no marker here")) Sample.world
    = (Ok None, w') /\
  Index.findDiscussionOnDiscord default_config
      (titled (lit "<!-- Discord:abc --> <!-- Discord: -->")) Sample.world
    = (Ok None, w') /\
  Index.findDiscussionOnDiscord default_config elsewhere Sample.world = (Ok None, w') /\
  Index.findThreadOnGitHub Sample.thread cached = (Ok None, cached).
Proof.
  intros threads w' titled elsewhere cached.
  destruct (resolvers_report_unlinked default_config) as [Hd Ht].
  assert (Hfetch : Discord.listDiscordThreads default_config Sample.world = (Ok threads, w'))
    by reflexivity.
  split; [exact Hfetch |].
  split; [| split; [| split]].
  - apply (Hd _ _ _ _ Hfetch). left.
    apply LinkerFacts.markerId_none. vm_compute. reflexivity.
  - apply (Hd _ _ _ _ Hfetch). left.
    apply LinkerFacts.markerId_none. vm_compute. reflexivity.
  - apply (Hd _ _ _ _ Hfetch). right. exists (lit "404"). split.
    + vm_compute. reflexivity.
    + intros t [<- | []]. vm_compute. discriminate.
  - apply (Ht Sample.thread cached [elsewhere] cached).
    + reflexivity.
    + intros d [<- | []]. vm_compute. reflexivity.
Defined.

(** The same in the single-file version, where [findThreadOnGitHub] looks,
    among the discussions titled as the thread, for a body holding the thread
    id. *)
Lemma Legacy_resolvers_unlinked (cfg : Config) :
  (forall discussion w threads w',
     Legacy.listDiscordThreads cfg w = (Ok threads, w') ->
     Resolve.unmarked (d_body discussion) \/ Resolve.dangling (d_body discussion) threads ->
     Legacy.findDiscussionOnDiscord cfg discussion w = (Ok None, w')) /\
  (forall thread w listing w',
     Legacy.listDiscussions w = (Ok listing, w') ->
     (forall d, In d listing -> d_title d = t_name thread ->
                includes (d_body d) (t_id thread) = false) ->
     Legacy.findThreadOnGitHub thread w = (Ok None, w')).
Proof.
  split.
  - intros discussion w threads w' Hfetch Hbody.
    unfold Legacy.findDiscussionOnDiscord, bind. rewrite Hfetch. unfold ret.
    rewrite ResolveFacts.find_all_false; [reflexivity |].
    intros t Ht. destruct Hbody as [Hnone | (id & Hid & Hdangling)].
    + apply LinkerFacts.markerId_none in Hnone. now rewrite Hnone.
    + rewrite Hid. apply JsFacts.eqb_neq. now apply Hdangling.
  - intros thread w listing w' Hfetch Hnone.
    unfold Legacy.findThreadOnGitHub, bind. rewrite Hfetch. unfold ret.
    rewrite ResolveFacts.find_all_false; [reflexivity |].
    intros d Hd. apply filter_In in Hd as [Hin Htitle].
    apply Hnone; [exact Hin | now apply JsFacts.eqb_eq].
Qed.

(* ================================================================= *)
(** * Running the catch-up step *)
Module RunFacts.

Import Run.

Lemma advance_advance n1 e1 n2 e2 w :
  advance n2 e2 (advance n1 e1 w) = advance (n1 + n2) (e1 ++ e2) w.
Proof.
  unfold advance, set_calls, set_trace; simpl.
  rewrite <- app_assoc. f_equal. lia.
Qed.

Lemma advance_outage n evs w : no_outage w -> no_outage (advance n evs w).
Proof. intros H k; apply H. Qed.

Lemma bind_ok {A B} {c : M A} (k : A -> M B) {w w' : World} {a : A} :
  c w = (Ok a, w') -> bind c k w = k a w'.
Proof. intros H. unfold bind. now rewrite H. Qed.

(** When both are fulfilled, [Promise.all] is the one, then the other. *)
Lemma promise_all_run {A B} (p : M A) (q : M B) (w w1 w2 : World) (a : A) (b : B) :
  p w = (Ok a, w1) -> q w1 = (Ok b, w2) -> promise_all p q w = (Ok (a, b), w2).
Proof. intros Hp Hq. unfold promise_all. now rewrite Hp, Hq. Qed.

Lemma logger_advance level line w :
  logger level line w = (Ok tt, advance 0 [Log level line] w).
Proof. reflexivity. Qed.

Lemma console_advance line w :
  console_log line w = (Ok tt, advance 0 [Console line] w).
Proof. reflexivity. Qed.

Lemma call_advance e w :
  no_outage w -> call e w = (Ok tt, advance 1 [e] w).
Proof. intros H. unfold call. now rewrite H. Qed.

(** *** Reads *)
Lemma messages_fetch_run thread r w :
  no_outage w ->
  find_thread (t_id thread) w = Some r ->
  messages_fetch thread w = (Ok (rt_messages r), advance 1 [FetchMessages (t_id thread)] w).
Proof.
  intros Ho Hf. unfold messages_fetch.
  rewrite (bind_ok _ (call_advance _ w Ho)).
  unfold bind, get. change (find_thread (t_id thread) (advance 1 [FetchMessages (t_id thread)] w))
    with (find_thread (t_id thread) w).
  now rewrite Hf.
Qed.

Lemma listDiscordMessages_run thread r w :
  no_outage w ->
  find_thread (t_id thread) w = Some r ->
  Discord.listDiscordMessages thread w =
    (Ok (mirrored (user (discord w)) (rt_messages r)),
     advance 1 [FetchMessages (t_id thread)] w).
Proof.
  intros Ho Hf. unfold Discord.listDiscordMessages.
  rewrite (bind_ok _ (messages_fetch_run thread r w Ho Hf)).
  reflexivity.
Qed.

Lemma query_comments_run number offset r w :
  no_outage w ->
  find_discussion number w = Some r ->
  query_comments number offset w =
    (Ok (firstn 100 (skipn (from_of offset) (rd_comments r)),
         ((from_of offset + 100 <? length (rd_comments r))%nat,
          match firstn 100 (skipn (from_of offset) (rd_comments r)) with
          | [] => None
          | _ => Some (from_of offset + length (firstn 100 (skipn (from_of offset) (rd_comments r))))
          end)),
     advance 1 [QueryComments number offset] w).
Proof.
  intros Ho Hf. unfold query_comments.
  rewrite (bind_ok _ (call_advance _ w Ho)).
  unfold bind, get.
  change (find_discussion number (advance 1 [QueryComments number offset] w))
    with (find_discussion number w).
  now rewrite Hf.
Qed.

(** The loop of [listGithubComments] gathers every comment, page after
    page, and returns within its rounds. *)
Lemma listGithubComments_loop_returns discussion r (fuel : nat) :
  forall offset acc w,
    no_outage w ->
    find_discussion (d_number discussion) w = Some r ->
    from_of offset <= length (rd_comments r) < fuel + from_of offset ->
    exists n evs,
      Github.listGithubComments_loop fuel discussion acc offset w =
        (Ok (Some (acc ++ skipn (from_of offset) (rd_comments r))), advance n evs w) /\
      evs <> [] /\ Forall (is_page (d_number discussion)) evs.
Proof.
  induction fuel as [| fuel IH]; intros offset acc w Ho Hf Hlt; [lia |].
  simpl. rewrite (bind_ok _ (query_comments_run _ offset r w Ho Hf)).
  cbn [fst snd].
  destruct (from_of offset + 100 <? length (rd_comments r))%nat eqn:Hnext.
  - apply Nat.ltb_lt in Hnext.
    set (page := firstn 100 (skipn (from_of offset) (rd_comments r))).
    assert (Hpage : length page = 100).
    { unfold page. rewrite length_firstn, length_skipn. lia. }
    destruct page as [| c page'] eqn:Epage; [discriminate |].
    rewrite <- Epage in *.
    destruct (IH (Some (from_of offset + length page)) (acc ++ page)
                (advance 1 [QueryComments (d_number discussion) offset] w))
      as (n & evs & Hrun & Hne & Hall).
    + now apply advance_outage.
    + exact Hf.
    + simpl. lia.
    + exists (1 + n), ([QueryComments (d_number discussion) offset] ++ evs).
      rewrite Hrun, advance_advance. split; [| split].
      * f_equal. f_equal. f_equal. rewrite <- app_assoc. f_equal.
        simpl from_of. rewrite Hpage. unfold page.
        rewrite <- (firstn_skipn 100 (skipn (from_of offset) (rd_comments r))) at 2.
        f_equal. rewrite skipn_skipn. f_equal. lia.
      * discriminate.
      * constructor; [now exists offset | exact Hall].
  - apply Nat.ltb_ge in Hnext.
    exists 1, [QueryComments (d_number discussion) offset].
    split; [| split].
    + unfold ret. f_equal. f_equal. f_equal. f_equal.
      apply firstn_all2. rewrite length_skipn. lia.
    + discriminate.
    + constructor; [now exists offset | constructor].
Qed.

Lemma listGithubComments_run discussion r w :
  no_outage w ->
  find_discussion (d_number discussion) w = Some r ->
  exists n evs,
    Github.listGithubComments discussion w = (Ok (rd_comments r), advance n evs w) /\
    evs <> [] /\ Forall (is_page (d_number discussion)) evs.
Proof.
  intros Ho Hf. unfold Github.listGithubComments, bind at 1, get. rewrite Hf.
  destruct (listGithubComments_loop_returns discussion r
              (S (length (rd_comments r))) None [] w Ho Hf)
    as (n & evs & Hrun & Hne & Hall); [simpl; lia |].
  exists n, evs. unfold bind. rewrite Hrun. simpl. auto.
Qed.

End RunFacts.

Module PushFacts.

Import Run RunFacts.

Import Push.

Lemma skipn_cons_nth {A} (l : list A) : forall n x,
  nth_error l n = Some x -> skipn n l = x :: skipn (S n) l.
Proof.
  induction l as [| y l IH]; intros [| n] x H; simpl in *; try discriminate.
  - now inversion H.
  - now apply IH.
Qed.

(** The push loops: element [from], then the next, to the end of the list,
    each handed to [push], which adds its events [ev]; [I] is what the loop
    needs of the state and every push hands on. *)
Lemma for_range_push {A} (I : World -> Prop) (xs : list A)
    (push : A -> M unit) (ev : A -> list Event) :
  (forall x w, I w -> In x xs ->
     exists w', push x w = (Ok tt, w') /\ trace w' = trace w ++ ev x /\ I w') ->
  forall count from w,
    from + count = length xs -> I w ->
    exists w',
      for_range from count (fun idx => bind (item xs idx) push) w = (Ok tt, w') /\
      trace w' = trace w ++ flat_map ev (skipn from xs) /\ I w'.
Proof.
  intros Hpush. induction count as [| count IH]; intros from w Hlen HI; simpl.
  - exists w. rewrite skipn_all2 by lia. simpl. rewrite app_nil_r. auto.
  - destruct (nth_error xs from) as [x |] eqn:Hx.
    2: { apply nth_error_None in Hx. lia. }
    destruct (Hpush x w HI (nth_error_In _ _ Hx)) as (w1 & Hrun & Htrace & HI1).
    destruct (IH (S from) w1) as (w2 & Hrun2 & Htrace2 & HI2); [lia | exact HI1 |].
    exists w2. split; [| split; [| exact HI2]].
    + unfold bind at 1. unfold bind at 1. unfold item. rewrite Hx. unfold ret.
      rewrite Hrun. exact Hrun2.
    + rewrite Htrace2, Htrace, (skipn_cons_nth _ _ _ Hx). simpl.
      now rewrite app_assoc.
Qed.

Lemma find_map_kept {A} (p : A -> bool) (g : A -> A) (l : list A) :
  (forall x, p (g x) = p x) ->
  find p (map g l) = option_map g (find p l).
Proof.
  intros H. induction l as [| x l IH]; simpl; [reflexivity |].
  rewrite H. destruct (p x); [reflexivity | exact IH].
Qed.

Lemma existsb_map_kept {A} (p : A -> bool) (g : A -> A) (l : list A) :
  (forall x, p (g x) = p x) ->
  existsb p (map g l) = existsb p l.
Proof.
  intros H. induction l as [| x l IH]; simpl; [reflexivity |].
  now rewrite H, IH.
Qed.

Lemma thread_send_run thread content w :
  thread_open (t_id thread) w ->
  exists w',
    thread_send thread content w = (Ok tt, w') /\
    trace w' = trace w ++ [ThreadSend (t_id thread) content] /\
    thread_open (t_id thread) w'.
Proof.
  intros [Ho [r Hf]]. unfold thread_send.
  rewrite (bind_ok _ (call_advance _ w Ho)).
  unfold bind, get.
  change (find_thread (t_id thread) (advance 1 [ThreadSend (t_id thread) content] w))
    with (find_thread (t_id thread) w).
  rewrite Hf. cbn [modify].
  eexists; split; [reflexivity | split; [reflexivity |]].
  split; [exact Ho |].
  unfold find_thread, post. cbn [threads discord set_threads].
  rewrite find_map_kept.
  - unfold find_thread in Hf. cbn [threads discord advance set_calls set_trace].
    rewrite Hf. eexists; reflexivity.
  - intros x. destruct (eqb (t_id (rt x)) (t_id thread)) eqn:E; simpl; [exact E | exact E].
Qed.

Lemma addDiscussionComment_run discussionId body w :
  discussion_open discussionId w ->
  exists w',
    mutation_addDiscussionComment discussionId body w = (Ok tt, w') /\
    trace w' = trace w ++ [AddDiscussionComment discussionId body] /\
    discussion_open discussionId w'.
Proof.
  intros [Ho Hk]. unfold mutation_addDiscussionComment.
  rewrite (bind_ok _ (call_advance _ w Ho)).
  unfold bind at 1. unfold get.
  change (known discussionId (advance 1 [AddDiscussionComment discussionId body] w))
    with (known discussionId w).
  rewrite Hk. unfold bind, fresh_id, get, ret, modify.
  eexists; split; [reflexivity | split; [reflexivity |]].
  split; [exact Ho |].
  unfold known, update_remote. cbn [discussions github set_discussions].
  rewrite existsb_map_kept; [exact Hk |].
  intros x. destruct (eqb (d_id (rd x)) discussionId) eqn:E; simpl; exact E.
Qed.

Section WithConfig.

Variable cfg : Config.

Lemma pushDiscordMessage_run thread comment discussion w :
  thread_open (t_id thread) w ->
  exists w',
    Discord.pushDiscordMessage cfg thread comment discussion w = (Ok tt, w') /\
    trace w' = trace w ++
      [Log INFO (lit "[Discord] Sending message to Discord thread " ++ t_id thread ++
                 lit ": " ++ c_body comment);
       toDiscord cfg thread discussion comment] /\
    thread_open (t_id thread) w'.
Proof.
  intros Hopen. unfold Discord.pushDiscordMessage.
  rewrite (bind_ok _ (logger_advance _ _ w)).
  destruct (thread_send_run thread
              (Discord.makeDiscordMessage cfg (login (c_author comment))
                 (d_number discussion) (c_body comment))
              (advance 0 [Log INFO (lit "[Discord] Sending message to Discord thread " ++
                                    t_id thread ++ lit ": " ++ c_body comment)] w))
    as (w' & Hrun & Htrace & Hopen').
  - destruct Hopen as [Ho Hr]. split; [now apply advance_outage | exact Hr].
  - exists w'. split; [exact Hrun | split; [| exact Hopen']].
    rewrite Htrace. cbn [trace advance set_calls set_trace]. now rewrite <- app_assoc.
Qed.

Lemma pushGithubComment_run thread message discussion w :
  discussion_open (d_id discussion) w ->
  exists w',
    Github.pushGithubComment thread message discussion w = (Ok tt, w') /\
    trace w' = trace w ++
      [Log INFO (lit "[Github] Sending comment to GitHub discussion " ++
                 of_Z (d_number discussion) ++ lit ": " ++ tm_message message);
       toGithub thread discussion message] /\
    discussion_open (d_id discussion) w'.
Proof.
  intros Hopen. unfold Github.pushGithubComment.
  rewrite (bind_ok _ (logger_advance _ _ w)).
  destruct (addDiscussionComment_run (d_id discussion)
              (Github.makeGithubComment (tm_message message) (tm_user message)
                 (Github.messageUrl thread (tm_id message)))
              (advance 0 [Log INFO (lit "[Github] Sending comment to GitHub discussion " ++
                                    of_Z (d_number discussion) ++ lit ": " ++
                                    tm_message message)] w))
    as (w' & Hrun & Htrace & Hopen').
  - destruct Hopen as [Ho Hr]. split; [now apply advance_outage | exact Hr].
  - exists w'. split; [exact Hrun | split; [| exact Hopen']].
    rewrite Htrace. cbn [trace advance set_calls set_trace]. now rewrite <- app_assoc.
Qed.

End WithConfig.

Lemma writes_app (e1 e2 : list Event) : writes (e1 ++ e2) = writes e1 ++ writes e2.
Proof. apply filter_app. Qed.

Lemma writes_pages number evs : Forall (is_page number) evs -> writes evs = [].
Proof.
  induction 1 as [| e evs [offset ->] _ IH]; simpl; [reflexivity | exact IH].
Qed.

(** Of a log line and a write per element, the writes are the writes. *)
Lemma writes_pushes {A} (line : A -> Event) (write : A -> Event) (xs : list A) :
  (forall x, is_write (line x) = false) ->
  (forall x, is_write (write x) = true) ->
  writes (flat_map (fun x => [line x; write x]) xs) = map write xs.
Proof.
  intros Hl Hw. induction xs as [| x xs IH]; simpl; [reflexivity |].
  rewrite Hl, Hw. now f_equal.
Qed.

End PushFacts.

(** C1.  With dry-run disabled and both platforms answering, the catch-up
    step over a linked pair returns, and the mutating calls it issues are:
    none when the two fetched lists have the same length; otherwise one per
    message of the longer list from index [length shorter] to its end, in
    that order, each sent to the side that is behind ([thread.send] towards
    Discord, [addDiscussionComment] towards GitHub). *)
Theorem syncMessages_pushes_surplus
    (cfg : Config) (thread : AnyThreadChannel) (discussion : GithubDiscussion)
    (w : World) (onDiscord : RemoteThread) (onGithub : RemoteDiscussion)
    (Hlive : DRY_RUN cfg = false)
    (Hup : Run.no_outage w)
    (Hthread : find_thread (t_id thread) w = Some onDiscord)
    (Hdiscussion : find_discussion (d_number discussion) w = Some onGithub)
    (Hknown : known (d_id discussion) w = true) :
  let threadMessages := Run.mirrored (user (discord w)) (rt_messages onDiscord) in
  let discussionMessages := rd_comments onGithub in
  exists w' added,
    Index.syncMessages cfg thread discussion w = (Ok tt, w') /\
    trace w' = trace w ++ added /\
    (length threadMessages = length discussionMessages -> Run.writes added = []) /\
    (length threadMessages < length discussionMessages ->
     Run.writes added =
       map (Push.toDiscord cfg thread discussion)
           (skipn (length threadMessages) discussionMessages)) /\
    (length discussionMessages < length threadMessages ->
     Run.writes added =
       map (Push.toGithub thread discussion)
           (skipn (length discussionMessages) threadMessages)).
Proof.
  intros tm dm. unfold Index.syncMessages.
  rewrite (RunFacts.bind_ok _ (RunFacts.logger_advance _ _ w)).
  set (w1 := Run.advance 0 _ w).
  assert (Hup1 : Run.no_outage w1) by now apply RunFacts.advance_outage.
  pose proof (RunFacts.listDiscordMessages_run thread onDiscord w1 Hup1 Hthread) as Hlisted.
  set (w2 := Run.advance 1 _ w1) in Hlisted.
  assert (Hup2 : Run.no_outage w2) by now apply RunFacts.advance_outage.
  destruct (RunFacts.listGithubComments_run discussion onGithub w2 Hup2 Hdiscussion)
    as (n & pages & Hpages & _ & Hall).
  rewrite (RunFacts.bind_ok _ (RunFacts.promise_all_run _ _ _ _ _ _ _ Hlisted Hpages)).
  cbv zeta. cbn [fst snd].
  change (Run.mirrored (user (discord w1)) (rt_messages onDiscord)) with tm.
  fold dm.
  set (w3 := Run.advance n pages w2).
  assert (Hup3 : Run.no_outage w3) by now apply RunFacts.advance_outage.
  pose (loaded := Log INFO (lit "Loading messages from thread " ++ t_id thread ++
                            lit " & discussion " ++ d_id discussion)
                  :: FetchMessages (t_id thread) :: pages).
  assert (Htrace3 : trace w3 = trace w ++ loaded).
  { unfold w3, w2, w1, loaded. cbn [trace Run.advance set_calls set_trace].
    now rewrite <- !app_assoc. }
  assert (Hw0 : Run.writes loaded = []).
  { unfold loaded. change (Run.writes pages = []). exact (PushFacts.writes_pages _ _ Hall). }
  clearbody loaded.
  destruct (length tm =? length dm) eqn:Heq.
  - (* nothing to push *)
    apply Nat.eqb_eq in Heq.
    eexists; eexists. split; [apply RunFacts.logger_advance |].
    split; [| split; [| split]].
    + cbn [trace Run.advance set_calls set_trace]. rewrite Htrace3, <- app_assoc. reflexivity.
    + intros _. rewrite PushFacts.writes_app, Hw0. reflexivity.
    + lia.
    + lia.
  - apply Nat.eqb_neq in Heq.
    destruct (length tm <? length dm) eqn:Hlt.
    + (* Discord is behind *)
      apply Nat.ltb_lt in Hlt.
      rewrite (RunFacts.bind_ok _ (RunFacts.logger_advance _ _ w3)). rewrite Hlive.
      set (w4 := Run.advance 0 _ w3).
      destruct (PushFacts.for_range_push (Push.thread_open (t_id thread)) dm
                  (fun message => Discord.pushDiscordMessage cfg thread message discussion)
                  (fun comment =>
                     [Log INFO (lit "[Discord] Sending message to Discord thread " ++
                                t_id thread ++ lit ": " ++ c_body comment);
                      Push.toDiscord cfg thread discussion comment])
                  (fun x w0 Hopen _ => PushFacts.pushDiscordMessage_run cfg thread x discussion w0 Hopen)
                  (length dm - length tm) (length tm) w4)
        as (w' & Hrun & Htrace & _).
      * lia.
      * split; [now apply RunFacts.advance_outage | now exists onDiscord].
      * exists w'. eexists. split; [exact Hrun |].
        split; [| split; [| split]].
        -- rewrite Htrace. unfold w4. cbn [trace Run.advance set_calls set_trace].
           rewrite Htrace3, <- !app_assoc. reflexivity.
        -- lia.
        -- intros _. rewrite !PushFacts.writes_app, Hw0.
           rewrite PushFacts.writes_pushes; reflexivity.
        -- lia.
    + (* GitHub is behind *)
      apply Nat.ltb_ge in Hlt.
      rewrite (RunFacts.bind_ok _ (RunFacts.logger_advance _ _ w3)). rewrite Hlive.
      set (w4 := Run.advance 0 _ w3).
      destruct (PushFacts.for_range_push (Push.discussion_open (d_id discussion)) tm
                  (fun message => Github.pushGithubComment thread message discussion)
                  (fun message =>
                     [Log INFO (lit "[Github] Sending comment to GitHub discussion " ++
                                of_Z (d_number discussion) ++ lit ": " ++ tm_message message);
                      Push.toGithub thread discussion message])
                  (fun x w0 Hopen _ => PushFacts.pushGithubComment_run thread x discussion w0 Hopen)
                  (length tm - length dm) (length dm) w4)
        as (w' & Hrun & Htrace & _).
      * lia.
      * split; [now apply RunFacts.advance_outage | exact Hknown].
      * exists w'. eexists. split; [exact Hrun |].
        split; [| split; [| split]].
        -- rewrite Htrace. unfold w4. cbn [trace Run.advance set_calls set_trace].
           rewrite Htrace3, <- !app_assoc. reflexivity.
        -- lia.
        -- lia.
        -- intros _. rewrite !PushFacts.writes_app, Hw0.
           rewrite PushFacts.writes_pushes; reflexivity.
Qed.

Lemma syncMessages_pushes_surplus_witness :
  DRY_RUN Sample.live = false /\
  Run.no_outage Sample.behind /\
  find_thread (t_id Sample.thread) Sample.behind = Some Sample.on_discord /\
  find_discussion (d_number Sample.linked) Sample.behind = Some Sample.on_github /\
  known (d_id Sample.linked) Sample.behind = true /\
  exists w' added,
    Index.syncMessages Sample.live Sample.thread Sample.linked Sample.behind = (Ok tt, w') /\
    trace w' = trace Sample.behind ++ added /\
    Run.writes added =
      map (Push.toDiscord Sample.live Sample.thread Sample.linked)
          (rd_comments Sample.on_github).
Proof.
  assert (Hup : Run.no_outage Sample.behind) by (intros n; reflexivity).
  repeat (split; [first [reflexivity | exact Hup] |]).
  destruct (syncMessages_pushes_surplus Sample.live Sample.thread Sample.linked
              Sample.behind Sample.on_discord Sample.on_github
              eq_refl Hup eq_refl eq_refl eq_refl)
    as (w' & added & Hrun & Htrace & _ & Hbehind & _).
  exists w', added. split; [exact Hrun | split; [exact Htrace |]].
  apply Hbehind. simpl. lia.
Defined.

(* ================================================================= *)
(** * The catch-up step of the single-file version *)
Module LegacyRunFacts.

Import Run RunFacts.

Import LegacyRun.

Lemma legacy_listDiscordMessages_run thread r w :
  no_outage w ->
  find_thread (t_id thread) w = Some r ->
  Legacy.listDiscordMessages thread w =
    (Ok (mirrored (user (discord w)) (rt_messages r)),
     advance 1 [FetchMessages (t_id thread)] w).
Proof.
  intros Ho Hf. unfold Legacy.listDiscordMessages.
  rewrite (bind_ok _ (messages_fetch_run thread r w Ho Hf)).
  reflexivity.
Qed.

Lemma rebuilt (nodes : list GithubComment) :
  map (fun comment =>
         {| c_id := c_id comment; c_body := c_body comment;
            c_author := c_author comment |}) nodes = nodes.
Proof.
  induction nodes as [| [i b a] nodes IH]; simpl; [reflexivity | now rewrite IH].
Qed.

Lemma listGitHubComments_loop_returns discussion r (fuel : nat) :
  forall offset acc w,
    no_outage w ->
    find_discussion (d_number discussion) w = Some r ->
    from_of offset <= length (rd_comments r) < fuel + from_of offset ->
    exists n evs,
      Legacy.listGitHubComments_loop fuel discussion acc offset w =
        (Ok (Some (acc ++ skipn (from_of offset) (rd_comments r))), advance n evs w) /\
      evs <> [] /\ Forall (is_page (d_number discussion)) evs.
Proof.
  induction fuel as [| fuel IH]; intros offset acc w Ho Hf Hlt; [lia |].
  simpl. rewrite (bind_ok _ (query_comments_run _ offset r w Ho Hf)).
  cbn [fst snd]. rewrite rebuilt.
  destruct (from_of offset + 100 <? length (rd_comments r))%nat eqn:Hnext.
  - apply Nat.ltb_lt in Hnext.
    set (page := firstn 100 (skipn (from_of offset) (rd_comments r))).
    assert (Hpage : length page = 100).
    { unfold page. rewrite length_firstn, length_skipn. lia. }
    destruct page as [| c page'] eqn:Epage; [discriminate |].
    rewrite <- Epage in *.
    destruct (IH (Some (from_of offset + length page)) (acc ++ page)
                (advance 1 [QueryComments (d_number discussion) offset] w))
      as (n & evs & Hrun & Hne & Hall).
    + now apply advance_outage.
    + exact Hf.
    + simpl. lia.
    + exists (1 + n), ([QueryComments (d_number discussion) offset] ++ evs).
      rewrite Hrun, advance_advance. split; [| split].
      * f_equal. f_equal. f_equal. rewrite <- app_assoc. f_equal.
        simpl from_of. rewrite Hpage. unfold page.
        rewrite <- (firstn_skipn 100 (skipn (from_of offset) (rd_comments r))) at 2.
        f_equal. rewrite skipn_skipn. f_equal. lia.
      * discriminate.
      * constructor; [now exists offset | exact Hall].
  - apply Nat.ltb_ge in Hnext.
    exists 1, [QueryComments (d_number discussion) offset].
    split; [| split].
    + unfold ret. f_equal. f_equal. f_equal. f_equal.
      apply firstn_all2. rewrite length_skipn. lia.
    + discriminate.
    + constructor; [now exists offset | constructor].
Qed.

Lemma listGitHubComments_run discussion r w :
  no_outage w ->
  find_discussion (d_number discussion) w = Some r ->
  exists n evs,
    Legacy.listGitHubComments discussion w = (Ok (rd_comments r), advance n evs w) /\
    evs <> [] /\ Forall (is_page (d_number discussion)) evs.
Proof.
  intros Ho Hf. unfold Legacy.listGitHubComments, bind at 1, get. rewrite Hf.
  destruct (listGitHubComments_loop_returns discussion r
              (S (length (rd_comments r))) None [] w Ho Hf)
    as (n & evs & Hrun & Hne & Hall); [simpl; lia |].
  exists n, evs. unfold bind. rewrite Hrun. simpl. auto.
Qed.

Section WithConfig.

Variable cfg : Config.

Lemma legacy_pushDiscordMessage_run thread comment discussion w :
  DRY_RUN cfg = false ->
  Push.thread_open (t_id thread) w ->
  exists w',
    Legacy.pushDiscordMessage cfg thread comment discussion w = (Ok tt, w') /\
    trace w' = trace w ++
      [Console (lit "Sending message to Discord thread " ++ t_id thread ++
                lit ": " ++ c_body comment);
       toDiscord cfg thread discussion comment] /\
    Push.thread_open (t_id thread) w'.
Proof.
  intros Hlive Hopen. unfold Legacy.pushDiscordMessage. rewrite Hlive.
  rewrite (bind_ok _ (console_advance _ w)).
  destruct (PushFacts.thread_send_run thread
              (Legacy.makeDiscordMessage cfg (login (c_author comment))
                 (d_number discussion) (c_body comment))
              (advance 0 [Console (lit "Sending message to Discord thread " ++
                                   t_id thread ++ lit ": " ++ c_body comment)] w))
    as (w' & Hrun & Htrace & Hopen').
  - destruct Hopen as [Ho Hr]. split; [now apply advance_outage | exact Hr].
  - exists w'. split; [exact Hrun | split; [| exact Hopen']].
    rewrite Htrace. cbn [trace advance set_calls set_trace]. now rewrite <- app_assoc.
Qed.

Lemma legacy_pushGithubComment_run thread message discussion w :
  DRY_RUN cfg = false ->
  Push.discussion_open (d_id discussion) w ->
  exists w',
    Legacy.pushGithubComment cfg thread message discussion w = (Ok tt, w') /\
    trace w' = trace w ++
      [Console (lit "Sending comment to GitHub discussion " ++
                of_Z (d_number discussion) ++ lit ": " ++ tm_message message);
       toGithub thread discussion message] /\
    Push.discussion_open (d_id discussion) w'.
Proof.
  intros Hlive Hopen. unfold Legacy.pushGithubComment. rewrite Hlive.
  rewrite (bind_ok _ (console_advance _ w)).
  destruct (PushFacts.addDiscussionComment_run (d_id discussion)
              (Legacy.makeGithubComment (tm_message message) (tm_user message)
                 (Github.messageUrl thread (tm_id message)))
              (advance 0 [Console (lit "Sending comment to GitHub discussion " ++
                                   of_Z (d_number discussion) ++ lit ": " ++
                                   tm_message message)] w))
    as (w' & Hrun & Htrace & Hopen').
  - destruct Hopen as [Ho Hr]. split; [now apply advance_outage | exact Hr].
  - exists w'. split; [exact Hrun | split; [| exact Hopen']].
    rewrite Htrace. cbn [trace advance set_calls set_trace]. now rewrite <- app_assoc.
Qed.

Lemma pushDiscordMessage_dry thread comment discussion platforms w :
  DRY_RUN cfg = true ->
  untouched platforms w ->
  exists w',
    Legacy.pushDiscordMessage cfg thread comment discussion w = (Ok tt, w') /\
    trace w' = trace w ++ [wouldSend thread comment] /\
    untouched platforms w'.
Proof.
  intros Hdry Hsame. unfold Legacy.pushDiscordMessage. rewrite Hdry.
  eexists; split; [apply console_advance | split; [reflexivity | exact Hsame]].
Qed.

Lemma pushGithubComment_dry thread message discussion platforms w :
  DRY_RUN cfg = true ->
  untouched platforms w ->
  exists w',
    Legacy.pushGithubComment cfg thread message discussion w = (Ok tt, w') /\
    trace w' = trace w ++ [wouldComment discussion message] /\
    untouched platforms w'.
Proof.
  intros Hdry Hsame. unfold Legacy.pushGithubComment. rewrite Hdry.
  eexists; split; [apply console_advance | split; [reflexivity | exact Hsame]].
Qed.

End WithConfig.

Lemma flat_map_single {A B} (f : A -> B) (xs : list A) :
  flat_map (fun x => [f x]) xs = map f xs.
Proof. induction xs as [| x xs IH]; simpl; [reflexivity | now rewrite IH]. Qed.

End LegacyRunFacts.

(** C5, as it is stated, fails in [index.ts]: with dry-run enabled, the
    sample thread (seed only) and its discussion (two comments), the
    catch-up step reads both lists and writes nothing, but it logs three
    lines in all, and none of them tells of either of the two comments it
    would push. *)
Lemma dry_run_logs_no_push :
  let run := Index.syncMessages Sample.dry Sample.thread Sample.linked Sample.behind in
  fst run = Ok tt /\
  Run.reads (trace (snd run)) =
    [FetchMessages (lit "555"); QueryComments 7 None] /\
  Run.writes (trace (snd run)) = [] /\
  DryRun.lines (trace (snd run)) =
    [lit "Loading messages from thread 555 & discussion D_7";
     lit "Syncing messages from GitHub to Discord";
     lit "Dry run enabled, skipping actual sync"] /\
  map c_body (rd_comments Sample.on_github) = [lit "first reply"; lit "second reply"] /\
  DryRun.described (trace (snd run)) (lit "first reply") = false /\
  DryRun.described (trace (snd run)) (lit "second reply") = false.
Proof.
  vm_compute. repeat split; reflexivity.
Qed.

(** C5 (as amended).  In dry-run mode, for a linked pair with unequal
    message counts and both platforms answering, the catch-up step reads
    both lists (the messages of the thread, the pages of the comments) and
    issues no mutating call, and both platforms are left as they were.  In
    [index.ts] it logs, after the line that names the direction, the single
    line that the actual sync is skipped, whatever the number of messages
    to push; in the single-file version it prints one line for each message
    it would push, in their order. *)
Theorem dry_run_catch_up
    (cfg : Config) (thread : AnyThreadChannel) (discussion : GithubDiscussion)
    (w : World) (onDiscord : RemoteThread) (onGithub : RemoteDiscussion)
    (Hdry : DRY_RUN cfg = true)
    (Hup : Run.no_outage w)
    (Hthread : find_thread (t_id thread) w = Some onDiscord)
    (Hdiscussion : find_discussion (d_number discussion) w = Some onGithub)
    (Hunequal : length (Run.mirrored (user (discord w)) (rt_messages onDiscord))
                <> length (rd_comments onGithub)) :
  (exists w' pages,
     Index.syncMessages cfg thread discussion w = (Ok tt, w') /\
     trace w' = trace w ++
       [Log INFO (lit "Loading messages from thread " ++ t_id thread ++
                  lit " & discussion " ++ d_id discussion);
        FetchMessages (t_id thread)] ++ pages ++
       [Log INFO (DryRun.direction
                    (length (Run.mirrored (user (discord w)) (rt_messages onDiscord)))
                    (length (rd_comments onGithub)));
        Log INFO (lit "Dry run enabled, skipping actual sync")] /\
     pages <> [] /\ Forall (Run.is_page (d_number discussion)) pages /\
     github w' = github w /\ discord w' = discord w) /\
  (exists w' pages,
     Legacy.syncMessages cfg thread discussion w = (Ok tt, w') /\
     trace w' = trace w ++
       [FetchMessages (t_id thread)] ++ pages ++
       map (LegacyRun.wouldSend thread)
           (skipn (length (LegacyRun.mirrored (user (discord w)) (rt_messages onDiscord)))
                  (rd_comments onGithub)) ++
       map (LegacyRun.wouldComment discussion)
           (skipn (length (rd_comments onGithub))
                  (LegacyRun.mirrored (user (discord w)) (rt_messages onDiscord))) /\
     pages <> [] /\ Forall (Run.is_page (d_number discussion)) pages /\
     github w' = github w /\ discord w' = discord w).
Proof.
  split.
  - set (tm := Run.mirrored (user (discord w)) (rt_messages onDiscord)) in *.
    set (dm := rd_comments onGithub) in *.
    unfold Index.syncMessages.
    rewrite (RunFacts.bind_ok _ (RunFacts.logger_advance _ _ w)).
    set (w1 := Run.advance 0 _ w).
    assert (Hup1 : Run.no_outage w1) by now apply RunFacts.advance_outage.
    pose proof (RunFacts.listDiscordMessages_run thread onDiscord w1 Hup1 Hthread) as Hlisted.
    set (w2 := Run.advance 1 _ w1) in Hlisted.
    assert (Hup2 : Run.no_outage w2) by now apply RunFacts.advance_outage.
    destruct (RunFacts.listGithubComments_run discussion onGithub w2 Hup2 Hdiscussion)
      as (n & pages & Hpages & Hne & Hall).
    rewrite (RunFacts.bind_ok _ (RunFacts.promise_all_run _ _ _ _ _ _ _ Hlisted Hpages)).
    cbv zeta. cbn [fst snd].
    change (Run.mirrored (user (discord w1)) (rt_messages onDiscord)) with tm.
    fold dm.
    apply Nat.eqb_neq in Hunequal. rewrite Hunequal.
    unfold DryRun.direction.
    destruct (length tm <? length dm); rewrite Hdry;
      (eexists; exists pages;
       split; [reflexivity |];
       split; [| repeat split; try assumption];
       unfold w2, w1; cbn [trace Run.advance set_calls set_trace];
       now rewrite <- !app_assoc).
  - set (tm := LegacyRun.mirrored (user (discord w)) (rt_messages onDiscord)) in *.
    set (dm := rd_comments onGithub) in *.
    unfold Legacy.syncMessages.
    rewrite (RunFacts.bind_ok _ (LegacyRunFacts.legacy_listDiscordMessages_run thread onDiscord w Hup Hthread)).
    set (w1 := Run.advance 1 _ w).
    assert (Hup1 : Run.no_outage w1) by now apply RunFacts.advance_outage.
    destruct (LegacyRunFacts.listGitHubComments_run discussion onGithub w1 Hup1 Hdiscussion)
      as (n & pages & Hpages & Hne & Hall).
    rewrite (RunFacts.bind_ok _ Hpages).
    fold tm. fold dm.
    set (w2 := Run.advance n pages w1).
    assert (Hsame : LegacyRun.untouched w w2) by (split; reflexivity).
    assert (Htrace2 : trace w2 = trace w ++ [FetchMessages (t_id thread)] ++ pages).
    { unfold w2, w1. cbn [trace Run.advance set_calls set_trace]. now rewrite <- !app_assoc. }
    destruct (length tm <? length dm) eqn:Hlt.
    + apply Nat.ltb_lt in Hlt.
      destruct (PushFacts.for_range_push (LegacyRun.untouched w) dm
                  (fun message => Legacy.pushDiscordMessage cfg thread message discussion)
                  (fun comment => [LegacyRun.wouldSend thread comment])
                  (fun x w0 Hs _ =>
                     LegacyRunFacts.pushDiscordMessage_dry cfg thread x discussion w w0 Hdry Hs)
                  (length dm - length tm) (length tm) w2)
        as (w' & Hrun & Htrace & Hsame'); [lia | exact Hsame |].
      exists w', pages. split; [exact Hrun |].
      split; [| split; [exact Hne | split; [exact Hall | exact Hsame']]].
      rewrite Htrace, Htrace2, LegacyRunFacts.flat_map_single.
      rewrite (skipn_all2 tm) by lia. simpl map at 2.
      now rewrite app_nil_r, <- !app_assoc.
    + apply Nat.ltb_ge in Hlt.
      destruct (PushFacts.for_range_push (LegacyRun.untouched w) tm
                  (fun message => Legacy.pushGithubComment cfg thread message discussion)
                  (fun message => [LegacyRun.wouldComment discussion message])
                  (fun x w0 Hs _ =>
                     LegacyRunFacts.pushGithubComment_dry cfg thread x discussion w w0 Hdry Hs)
                  (length tm - length dm) (length dm) w2)
        as (w' & Hrun & Htrace & Hsame'); [lia | exact Hsame |].
      exists w', pages. split; [exact Hrun |].
      split; [| split; [exact Hne | split; [exact Hall | exact Hsame']]].
      rewrite Htrace, Htrace2, LegacyRunFacts.flat_map_single.
      rewrite (skipn_all2 dm) by lia. simpl map at 1.
      now rewrite <- !app_assoc.
Qed.

Lemma dry_run_catch_up_witness :
  DRY_RUN Sample.dry = true /\
  Run.no_outage Sample.behind /\
  find_thread (t_id Sample.thread) Sample.behind = Some Sample.on_discord /\
  find_discussion (d_number Sample.linked) Sample.behind = Some Sample.on_github /\
  length (Run.mirrored (user (discord Sample.behind)) (rt_messages Sample.on_discord))
    <> length (rd_comments Sample.on_github) /\
  (exists w' pages,
     Index.syncMessages Sample.dry Sample.thread Sample.linked Sample.behind = (Ok tt, w') /\
     trace w' = trace Sample.behind ++
       [Log INFO (lit "Loading messages from thread " ++ t_id Sample.thread ++
                  lit " & discussion " ++ d_id Sample.linked);
        FetchMessages (t_id Sample.thread)] ++ pages ++
       [Log INFO (lit "Syncing messages from GitHub to Discord");
        Log INFO (lit "Dry run enabled, skipping actual sync")] /\
     pages <> [] /\ Forall (Run.is_page (d_number Sample.linked)) pages /\
     github w' = github Sample.behind /\ discord w' = discord Sample.behind).
Proof.
  assert (Hup : Run.no_outage Sample.behind) by (intros n; reflexivity).
  assert (Hunequal :
    length (Run.mirrored (user (discord Sample.behind)) (rt_messages Sample.on_discord))
    <> length (rd_comments Sample.on_github)) by (simpl; lia).
  repeat (split; [first [reflexivity | exact Hup | exact Hunequal] |]).
  exact (proj1 (dry_run_catch_up Sample.dry Sample.thread Sample.linked Sample.behind
                  Sample.on_discord Sample.on_github eq_refl Hup eq_refl eq_refl Hunequal)).
Defined.

(* ================================================================= *)
(** * Creating the counterpart discussion *)
Module CreationFacts.

Import Run RunFacts JsFacts.

Import Creation.

Section WithConfig.

Variable cfg : Config.

Lemma creationBody_marked thread seed :
  includes (creationBody thread seed) (Github.marker (t_id thread)) = true.
Proof.
  apply includes_spec. unfold creationBody, Github.makeGithubComment.
  eexists; exists []. rewrite app_nil_r.
  rewrite !app_assoc. reflexivity.
Qed.

Lemma getRepositoryId_run w id :
  no_outage w ->
  repository (github w) = Some id ->
  Github.getRepositoryId cfg w = (Ok id, advance 1 [QueryRepositoryId] w).
Proof.
  intros Ho Hr. unfold Github.getRepositoryId, try_catch, query_repository_id.
  rewrite (bind_ok _ (bind_ok _ (call_advance _ w Ho))).
  unfold bind, get, ret.
  change (repository (github (advance 1 [QueryRepositoryId] w)))
    with (repository (github w)).
  now rewrite Hr.
Qed.

Lemma createDiscussion_run thread seed w categoryId repositoryId :
  no_outage w ->
  REPO_CATEGORY_ID w = Some categoryId ->
  repository (github w) = Some repositoryId ->
  exists w1 created,
    Github.createDiscussion cfg thread (Some seed) w = (Ok created, w1) /\
    trace w1 = trace w ++
      [Log INFO (lit "[Github] Creating discussion on GitHub repository " ++
                 CATEGORY_NAME cfg ++ lit ": " ++ t_name thread);
       QueryRepositoryId;
       CreateDiscussion categoryId (t_name thread) (creationBody thread seed) repositoryId] /\
    discussions (github w1) =
      discussions (github w) ++
      [newcomer w categoryId (t_name thread) (creationBody thread seed)] /\
    repository (github w1) = repository (github w) /\
    d_id created = lit "D_" ++ of_Z (Z.of_N (next_id w)) /\
    discussionCache w1 = discussionCache w.
Proof.
  intros Ho Hcat Hrepo. unfold Github.createDiscussion.
  rewrite (bind_ok _ (logger_advance _ _ w)).
  set (w0 := advance 0 _ w).
  unfold bind at 1. unfold get.
  assert (Ho0 : no_outage w0) by now apply advance_outage.
  rewrite (bind_ok _ (getRepositoryId_run w0 repositoryId Ho0 Hrepo)).
  change (REPO_CATEGORY_ID w0) with (REPO_CATEGORY_ID w). rewrite Hcat.
  unfold mutation_createDiscussion.
  set (w2 := advance 1 [QueryRepositoryId] w0).
  assert (Ho2 : no_outage w2) by now apply advance_outage.
  rewrite (bind_ok _ (call_advance _ w2 Ho2)).
  unfold bind, get, fresh_id, ret, modify.
  eexists; eexists. split; [reflexivity |].
  cbn [trace discussions github repository set_discussions advance set_calls set_trace
       d_id discussionCache w2 w0].
  repeat split. now rewrite <- !app_assoc.
Qed.

Lemma find_app_none {A} (p : A -> bool) (l1 l2 : list A) :
  (forall x, In x l1 -> p x = false) ->
  find p (l1 ++ l2) = find p l2.
Proof.
  intros H. induction l1 as [| x l1 IH]; simpl; [reflexivity |].
  rewrite (H x (or_introl eq_refl)). apply IH. intros y Hy. apply H. now right.
Qed.

(** A lookup that reads the listing anew, after the creation, finds the
    newcomer, provided no discussion carried the marker before and the
    listing (a hundred at most) has room for it. *)
Lemma lookup_fresh thread w2 categoryId (before : list RemoteDiscussion)
    (created : RemoteDiscussion) :
  discussionCache w2 = None ->
  REPO_CATEGORY_ID w2 = Some categoryId ->
  repository (github w2) <> None ->
  outage w2 (calls w2) = false ->
  discussions (github w2) = before ++ [created] ->
  rd_category_id created = categoryId ->
  includes (d_body (rd created)) (Github.marker (t_id thread)) = true ->
  (forall r, In r before ->
     includes (d_body (rd r)) (Github.marker (t_id thread)) = false) ->
  length (filter (fun r => eqb (rd_category_id r) categoryId) before) < 100 ->
  exists w3,
    Index.findThreadOnGitHub thread w2 = (Ok (Some (listed (rd created))), w3).
Proof.
  intros Hcache Hcat Hrepo Hout Hds Hnew Hmarked Hnone Hroom.
  unfold Index.findThreadOnGitHub, Github.listGithubDiscussions.
  unfold bind at 1. unfold bind at 1. unfold get. rewrite Hcache, Hcat.
  unfold query_discussions, bind, call, get. rewrite Hout.
  cbn [github set_calls set_trace]. 
  destruct (repository (github w2)) as [rid |] eqn:Hr; [| contradiction].
  unfold ret, modify. eexists. f_equal. f_equal.
  rewrite Hds, filter_app. cbn [filter]. rewrite Hnew, eqb_refl.
  rewrite map_app, firstn_all2.
  2: { rewrite length_app, length_map. simpl. lia. }
  rewrite find_app_none.
  - cbn [map find listed d_body]. now rewrite Hmarked.
  - intros d Hd. apply in_map_iff in Hd as (r & <- & Hr').
    apply filter_In in Hr' as [Hin _]. cbn [listed d_body]. now apply Hnone.
Qed.

End WithConfig.

End CreationFacts.

(** C3 fails in [index.ts], within one run of the process.  A new forum
    thread with its first message and a reply, no discussion yet.  The
    event of the first message creates the discussion, in one creation call
    whose body carries the marker of the thread, and GitHub then holds it;
    but the lookup that follows for that same thread answers from the
    listing cached before the creation and finds nothing, so the event of
    the reply creates a second discussion for the same thread. *)
Theorem lookup_after_creation_is_stale :
  let reply := Sample.said (lit "556") (lit "any news?") in
  let w := Sample.platform [] [reply; Sample.seed] in
  let first := Index.on_messageCreate Sample.live Sample.seed w in
  let second := Index.on_messageCreate Sample.live reply (snd first) in
  let body := Creation.creationBody Sample.thread Sample.seed in
  let creations :=
    filter (fun e => match e with CreateDiscussion _ _ _ _ => true | _ => false end) in
  let creation := CreateDiscussion (lit "C_1") (t_name Sample.thread) body (lit "R_1") in
  fst first = Ok tt /\
  creations (trace (snd first)) = [creation] /\
  includes body (Github.marker (t_id Sample.thread)) = true /\
  map (fun r => d_body (rd r)) (discussions (github (snd first))) = [body] /\
  fst (Index.findThreadOnGitHub Sample.thread (snd first)) = Ok None /\
  fst second = Ok tt /\
  creations (trace (snd second)) = [creation; creation] /\
  map (fun r => d_body (rd r)) (discussions (github (snd second))) = [body; body].
Proof.
  vm_compute. repeat split; reflexivity.
Qed.

(** What holds of the creation and of the lookups around it.  For a thread
    that no discussion on GitHub refers to, creating the counterpart is a
    single creation call whose body carries the marker of the thread.  A
    lookup that reads the listing anew (no cache yet, as after a restart)
    resolves to the new discussion, provided the listing, a hundred
    discussions at most, has room for it; a lookup run while the listing
    cached before the creation is in place does not. *)
Lemma createDiscussion_then_lookup
    (cfg : Config) (thread : AnyThreadChannel) (seed : Message) (w : World)
    (categoryId repositoryId : jsstring)
    (Hup : Run.no_outage w)
    (Hcategory : REPO_CATEGORY_ID w = Some categoryId)
    (Hrepository : repository (github w) = Some repositoryId)
    (Hunlinked : forall r, In r (discussions (github w)) ->
                   includes (d_body (rd r)) (Github.marker (t_id thread)) = false)
    (Hroom : length (filter (fun r => eqb (rd_category_id r) categoryId)
                       (discussions (github w))) < 100) :
  exists w1 created,
    Github.createDiscussion cfg thread (Some seed) w = (Ok created, w1) /\
    Run.writes (skipn (length (trace w)) (trace w1)) =
      [CreateDiscussion categoryId (t_name thread)
         (Creation.creationBody thread seed) repositoryId] /\
    includes (Creation.creationBody thread seed) (Github.marker (t_id thread)) = true /\
    (forall w2,
       discussionCache w2 = None ->
       REPO_CATEGORY_ID w2 = Some categoryId ->
       github w2 = github w1 ->
       outage w2 (calls w2) = false ->
       exists found w3,
         Index.findThreadOnGitHub thread w2 = (Ok (Some found), w3) /\
         d_id found = d_id created /\
         d_body found = Creation.creationBody thread seed) /\
    (forall snapshot,
       discussionCache w = Some snapshot ->
       Resolve.unreferenced thread snapshot ->
       Index.findThreadOnGitHub thread w1 = (Ok None, w1)).
Proof.
  destruct (CreationFacts.createDiscussion_run cfg thread seed w categoryId repositoryId
              Hup Hcategory Hrepository)
    as (w1 & created & Hrun & Htrace & Hds & Hrepo1 & Hid & Hcache).
  exists w1, created. split; [exact Hrun |].
  split; [| split; [apply CreationFacts.creationBody_marked | split]].
  - rewrite Htrace, skipn_app, skipn_all, Nat.sub_diag. reflexivity.
  - intros w2 Hnone Hcat2 Hgithub Hout.
    destruct (CreationFacts.lookup_fresh thread w2 categoryId (discussions (github w))
                (Creation.newcomer w categoryId (t_name thread)
                   (Creation.creationBody thread seed)))
      as (w3 & Hlookup); try assumption.
    + rewrite Hgithub, Hrepo1, Hrepository. discriminate.
    + now rewrite Hgithub.
    + reflexivity.
    + apply CreationFacts.creationBody_marked.
    + eexists; exists w3. split; [exact Hlookup |]. split; [| reflexivity].
      rewrite Hid. reflexivity.
  - intros snapshot Hsnapshot Hnone.
    unfold Index.findThreadOnGitHub.
    rewrite (RunFacts.bind_ok _ (CurrentCacheFacts.listGithubDiscussions_cached w1 snapshot
                              (eq_trans Hcache Hsnapshot))).
    unfold ret. now rewrite ResolveFacts.find_all_false.
Qed.

Lemma createDiscussion_then_lookup_witness :
  Run.no_outage Sample.world /\
  REPO_CATEGORY_ID Sample.world = Some (lit "C_1") /\
  repository (github Sample.world) = Some (lit "R_1") /\
  (forall r, In r (discussions (github Sample.world)) ->
     includes (d_body (rd r)) (Github.marker (t_id Sample.thread)) = false) /\
  length (filter (fun r => eqb (rd_category_id r) (lit "C_1"))
            (discussions (github Sample.world))) < 100 /\
  exists w1 created,
    Github.createDiscussion Sample.live Sample.thread (Some Sample.seed) Sample.world
      = (Ok created, w1) /\
    Run.writes (skipn (length (trace Sample.world)) (trace w1)) =
      [CreateDiscussion (lit "C_1") (t_name Sample.thread)
         (Creation.creationBody Sample.thread Sample.seed) (lit "R_1")] /\
    includes (Creation.creationBody Sample.thread Sample.seed)
             (Github.marker (t_id Sample.thread)) = true.
Proof.
  assert (Hup : Run.no_outage Sample.world) by (intros n; reflexivity).
  assert (Hunlinked : forall r, In r (discussions (github Sample.world)) ->
            includes (d_body (rd r)) (Github.marker (t_id Sample.thread)) = false)
    by (intros r H; destruct H).
  assert (Hroom : length (filter (fun r => eqb (rd_category_id r) (lit "C_1"))
                            (discussions (github Sample.world))) < 100)
    by (simpl; lia).
  split; [exact Hup | split; [reflexivity | split; [reflexivity |]]].
  split; [exact Hunlinked | split; [exact Hroom |]].
  destruct (createDiscussion_then_lookup Sample.live Sample.thread Sample.seed Sample.world
              (lit "C_1") (lit "R_1") Hup eq_refl eq_refl Hunlinked Hroom)
    as (w1 & created & Hrun & Hwrites & Hmarked & _).
  exists w1, created. auto.
Defined.

(* ================================================================= *)
(** * MessageTransformer: images, Discord to GitHub *)

(** In [github.ts] the message goes into the comment as it is: nothing is
    wrapped, whatever the message holds. *)
Lemma makeGithubComment_verbatim (message author url : jsstring) :
  exists header, Github.makeGithubComment message author url = header ++ message.
Proof.
  unfold Github.makeGithubComment.
  eexists. rewrite !app_assoc. reflexivity.
Qed.

(** In the single-file version an attachment URL that stands alone in
    image syntax is left as it is, and a bare one is wrapped once. *)
Lemma convertAttachmentsToMarkdown_samples :
  Legacy.convertAttachmentsToMarkdown
    (lit "![shot](https://github.com/user-attachments/assets/abc)")
  = lit "![shot](https://github.com/user-attachments/assets/abc)" /\
  Legacy.convertAttachmentsToMarkdown
    (lit "see https://github.com/user-attachments/assets/abc")
  = lit "see ![GitHub Image](https://github.com/user-attachments/assets/abc)".
Proof. vm_compute. split; reflexivity. Qed.

(** C7 fails in the single-file version.  A URL already inside image
    syntax is wrapped a second time when it goes on after the identifier
    that the pattern of the last pass takes (here with [.png]), or when the
    image carries a title: the replacer looks in the content for the closing
    parenthesis right after what the pattern matched, does not find it, and
    wraps. *)
Theorem convertAttachmentsToMarkdown_wraps_again :
  Legacy.convertAttachmentsToMarkdown
    (lit "![shot](https://github.com/user-attachments/assets/abc.png)")
  = lit "![shot](![GitHub Image](https://github.com/user-attachments/assets/abc).png)" /\
  Legacy.convertAttachmentsToMarkdown
    (lit "![shot](https://github.com/user-attachments/assets/abc " ++
     [DQUOTE] ++ lit "crash" ++ [DQUOTE] ++ lit ")")
  = lit "![shot](![GitHub Image](https://github.com/user-attachments/assets/abc) " ++
    [DQUOTE] ++ lit "crash" ++ [DQUOTE] ++ lit ")" /\
  includes
    (Legacy.makeGithubComment
       (lit "![shot](https://github.com/user-attachments/assets/abc.png)")
       (lit "alice") (lit "https://discord.com/channels/77/555/556"))
    (lit "![shot](![GitHub Image](") = true.
Proof. vm_compute. repeat split; reflexivity. Qed.

(* ================================================================= *)
(** * MessageTransformer: images, GitHub to Discord *)
Module ImagesFacts.

Import JsFacts Runs RunsFacts.

Import Images.

(** Replace the length of each literal by its value. *)
Ltac lengths :=
  repeat match goal with
         | |- context [length (lit ?s)] =>
             let n := eval vm_compute in (length (lit s)) in
             change (length (lit s)) with n
         end.

(** Two results of the matcher that differ in the writing of their
    positions only. *)
Ltac same_positions :=
  lengths; cbn [length]; repeat first [reflexivity | lia | progress f_equal].

Lemma markdownImage_parts :
  markdownImage =
  literal (lit "![") ++
  Open :: Star false Dot :: Close ::
  literal (lit "](") ++
  Open :: literal (lit "http") ++
  Opt (Chr (ch "s")) :: literal (lit "://") ++
  Plus true ADDRESS :: Close :: literal (lit ")").
Proof. reflexivity. Qed.

Lemma address_match (c : code_unit) :
  is_space c = false -> c <> ch ")" -> atom_match false ADDRESS c = true.
Proof.
  intros Hs Hc. simpl. rewrite Hs. unfold same.
  apply N.eqb_neq in Hc. rewrite N.eqb_sym in Hc. unfold ch in Hc. simpl in Hc.
  now rewrite Hc.
Qed.

(** The end of the pattern: the address up to the closing parenthesis. *)
Lemma m_address (st : caps) (i : nat) (addr rest : jsstring) :
  addr <> [] ->
  Forall (fun c => is_space c = false /\ c <> ch ")") addr ->
  m false (Plus true ADDRESS :: Close :: literal (lit ")")) st i (addr ++ lit ")" ++ rest) =
  Some (i + length addr + 1,
        rev ((opened st, i + length addr) :: closed st)).
Proof.
  intros Hne Hall. destruct addr as [| a addr]; [contradiction |].
  inversion Hall as [| ? ? [Ha1 Ha2] Haddr]; subst.
  cbn [m app]. rewrite (address_match a Ha1 Ha2). unfold star.
  rewrite star_greedy_run.
  - cbn [m]. change (literal (lit ")")) with (literal (lit ")") ++ []).
    rewrite m_literal_app. cbn [m closed opened length]. same_positions.
  - eapply Forall_impl; [| exact Haddr]. intros c [H1 H2]. now apply address_match.
  - simpl. reflexivity.
  - intros x1 x2 -> Hx2. destruct x2 as [| c x2]; [contradiction |].
    apply Forall_app in Haddr as [_ Hx]. inversion Hx as [| ? ? [_ Hc] _]; subst.
    cbn [m]. change (literal (lit ")")) with (literal (lit ")") ++ []).
    rewrite m_literal. change (lit ")") with [ch ")"]. cbn [app].
    rewrite prefixb_cons_neq; [reflexivity | congruence].
Qed.

(** From the scheme on. *)
Lemma m_url (st : caps) (i : nat) (im : image) (rest : jsstring) :
  address im <> [] ->
  Forall (fun c => is_space c = false /\ c <> ch ")") (address im) ->
  m false (literal (lit "http") ++ Opt (Chr (ch "s")) :: literal (lit "://") ++
           Plus true ADDRESS :: Close :: literal (lit ")"))
    st i (url im ++ lit ")" ++ rest) =
  Some (i + length (url im) + 1, rev ((opened st, i + length (url im)) :: closed st)).
Proof.
  intros Hne Hall. unfold url. rewrite <- !app_assoc, m_literal_app.
  destruct (secure im).
  - change (lit "s" ++ lit "://" ++ address im ++ lit ")" ++ rest)
      with (ch "s" :: lit "://" ++ address im ++ lit ")" ++ rest).
    cbn [m]. change (atom_match false (Chr (ch "s")) (ch "s")) with true. cbv iota.
    rewrite m_literal_app, (m_address st _ _ rest Hne Hall).
    rewrite !length_app. same_positions.
  - change ([] ++ lit "://" ++ address im ++ lit ")" ++ rest)
      with (ch ":" :: lit "//" ++ address im ++ lit ")" ++ rest).
    cbn [m]. change (atom_match false (Chr (ch "s")) (ch ":")) with false. cbv iota.
    change (ch ":" :: lit "//" ++ address im ++ lit ")" ++ rest)
      with (lit "://" ++ address im ++ lit ")" ++ rest).
    rewrite m_literal_app, (m_address st _ _ rest Hne Hall).
    rewrite !length_app. same_positions.
Qed.

(** Where an image stands the pattern matches the whole of it; its
    second group is the URL. *)
Lemma m_image (i : nat) (im : image) (rest : jsstring) :
  well_formed im ->
  m false markdownImage start i (markdown im ++ rest) =
  Some (i + length (markdown im),
        [(i + 2, i + 2 + length (alt im));
         (i + 4 + length (alt im), i + 4 + length (alt im) + length (url im))]).
Proof.
  intros (Halt & Hne & Haddr).
  rewrite markdownImage_parts. unfold markdown.
  rewrite <- !app_assoc, m_literal_app. cbn [m]. unfold star.
  rewrite star_lazy_run.
  - cbn [m]. rewrite m_literal_app. cbn [m].
    rewrite (m_url _ _ im rest Hne Haddr).
    cbn [opened closed rev app start]. rewrite !length_app. same_positions.
  - eapply Forall_impl; [| exact Halt]. intros c [Hc _]. simpl. now rewrite Hc.
  - intros x1 x2 Hsplit Hx2. destruct x2 as [| c x2]; [contradiction |].
    rewrite Hsplit in Halt.
    apply Forall_app in Halt as [_ Hx]. inversion Hx as [| ? ? [_ Hc] _]; subst.
    cbn [m]. rewrite m_literal. change (lit "](") with (ch "]" :: lit "("). cbn [app].
    rewrite prefixb_cons_neq; [reflexivity | congruence].
Qed.

(** In plain text the pattern matches nowhere. *)
Lemma m_plain (i : nat) (c : code_unit) (s : jsstring) :
  c <> ch "!" -> m false markdownImage start i (c :: s) = None.
Proof.
  intros Hc. rewrite markdownImage_parts, m_literal.
  change (lit "![") with (ch "!" :: lit "[").
  rewrite prefixb_cons_neq; [reflexivity | congruence].
Qed.

Section Replace.

Variable r : regex.

Variable f : Match -> jsstring.

Variable input : jsstring.

(** Passing over the units of a match. *)
Lemma replace_from_skip (skipped : jsstring) : forall i rest,
  replace_from false r f input (length skipped) i (skipped ++ rest) =
  replace_from false r f input 0 (i + length skipped) rest.
Proof.
  induction skipped as [| c skipped IH]; intros i rest; simpl.
  - now rewrite Nat.add_0_r.
  - rewrite IH. f_equal. lia.
Qed.

(** At a match that is not empty: the replacement, then on from its end. *)
Lemma replace_from_match (i : nat) (matched rest : jsstring) (spans : list (nat * nat)) :
  matched <> [] ->
  m false r start i (matched ++ rest) = Some (i + length matched, spans) ->
  replace_from false r f input 0 i (matched ++ rest) =
  f (mkMatch input i (i + length matched, spans)) ++
  replace_from false r f input 0 (i + length matched) rest.
Proof.
  intros Hne Hm. destruct matched as [| c matched]; [contradiction |].
  cbn [app replace_from] in *. rewrite Hm. cbn [fst length].
  replace (i + S (length matched) =? i) with false by (symmetry; apply Nat.eqb_neq; lia).
  replace (i + S (length matched) - i - 1) with (length matched) by lia.
  rewrite replace_from_skip. f_equal. f_equal. lia.
Qed.

End Replace.

(** Over plain text the rewrite copies. *)
Lemma replace_plain (f : Match -> jsstring) (input : jsstring) (text : jsstring) :
  plain text ->
  forall i rest,
    replace_from false markdownImage f input 0 i (text ++ rest) =
    text ++ replace_from false markdownImage f input 0 (i + length text) rest.
Proof.
  induction 1 as [| c text Hc _ IH]; intros i rest; cbn [app replace_from length].
  - now rewrite Nat.add_0_r.
  - rewrite (m_plain i c (text ++ rest) Hc), IH.
    replace (S i + length text) with (i + S (length text)) by lia. reflexivity.
Qed.

Lemma slice_at (before mid after : jsstring) (i : nat) :
  i = length before ->
  slice (before ++ mid ++ after) i (i + length mid) = mid.
Proof. intros ->. apply LinkerFacts.slice_middle. Qed.

(** At an image the rewrite puts its URL and goes on after it. *)
Lemma replace_image (before after : jsstring) (im : image) :
  well_formed im ->
  replace_from false markdownImage (expand [Ref 2]) (before ++ markdown im ++ after) 0
    (length before) (markdown im ++ after) =
  url im ++
  replace_from false markdownImage (expand [Ref 2]) (before ++ markdown im ++ after) 0
    (length before + length (markdown im)) after.
Proof.
  intros Hwf.
  assert (Hne : markdown im <> []) by (unfold markdown; discriminate).
  rewrite (replace_from_match markdownImage (expand [Ref 2]) _ (length before)
             (markdown im) after _ Hne (m_image _ _ _ Hwf)).
  f_equal. unfold expand, mkMatch, group. cbn [flat_map groups map nth fst snd].
  rewrite app_nil_r. unfold markdown at 1.
  replace (before ++ (lit "![" ++ alt im ++ lit "](" ++ url im ++ lit ")") ++ after)
    with ((before ++ lit "![" ++ alt im ++ lit "](") ++ url im ++ (lit ")" ++ after))
    by (now rewrite <- !app_assoc).
  apply slice_at. rewrite !length_app.
  change (length (lit "![")) with 2. change (length (lit "](")) with 2. lia.
Qed.

(** Image after image, text after text. *)
Lemma replace_parts (parts : list (image * jsstring)) :
  Forall (fun p => well_formed (fst p) /\ plain (snd p)) parts ->
  forall before,
    replace_from false markdownImage (expand [Ref 2]) (before ++ source parts) 0
      (length before) (source parts) = target parts.
Proof.
  induction 1 as [| [im text] parts [Hwf Hplain] _ IH]; intros before.
  - reflexivity.
  - cbn [source target fst snd] in *.
    rewrite (replace_image before (text ++ source parts) im Hwf). f_equal.
    rewrite (replace_plain _ _ text Hplain). f_equal.
    specialize (IH (before ++ markdown im ++ text)).
    rewrite <- !app_assoc in IH. rewrite !length_app in IH.
    rewrite Nat.add_assoc in IH. exact IH.
Qed.

End ImagesFacts.

(** The markdown pass, in both versions: a markdown image in the middle of
    a line becomes its URL in the middle of that line; the replacement is
    the URL alone and no line break is added. *)
Lemma markdown_image_stays_in_line :
  let body := lit "see ![screenshot](https://example.com/a.png) here" in
  Discord.processedBody body = lit "see https://example.com/a.png here" /\
  Legacy.processedBody body = lit "see https://example.com/a.png here" /\
  existsb (N.eqb LF) (Discord.processedBody body) = false /\
  existsb (N.eqb LF) (Legacy.processedBody body) = false.
Proof. vm_compute. repeat split; reflexivity. Qed.

(** What the further pass of the single-file version does with an HTML
    image tag, with or without [alt], and with a bare attachment URL: the
    URL between two line breaks. *)
Lemma processGitHubAttachments_samples :
  Legacy.processGitHubAttachments
    (lit "a <img width=2 src=" ++ [DQUOTE] ++ lit "https://example.com/a.png" ++ [DQUOTE] ++
     lit " alt=" ++ [DQUOTE] ++ lit "x" ++ [DQUOTE] ++ lit " /> b")
  = lit "a " ++ [LF] ++ lit "https://example.com/a.png" ++ [LF] ++ lit " b" /\
  Legacy.processGitHubAttachments
    (lit "a <img src=" ++ [DQUOTE] ++ lit "https://example.com/a.png" ++ [DQUOTE] ++ lit "/> b")
  = lit "a " ++ [LF] ++ lit "https://example.com/a.png" ++ [LF] ++ lit " b" /\
  Legacy.processGitHubAttachments
    (lit "see https://github.com/user-attachments/assets/ab-12 here")
  = lit "see " ++ [LF] ++ lit "https://github.com/user-attachments/assets/ab-12" ++ [LF] ++
    lit " here".
Proof. vm_compute. repeat split; reflexivity. Qed.

(** The markdown pass on a body made of plain text and well-formed images:
    the result is the same text with each image replaced by its URL and
    nothing added.  In the single-file version the result then goes through
    [processGitHubAttachments]. *)
Lemma markdown_images_rewritten_in_place
    (first : jsstring) (parts : list (Images.image * jsstring))
    (Hfirst : Images.plain first)
    (Hparts : Forall (fun p => Images.well_formed (fst p) /\ Images.plain (snd p)) parts) :
  Discord.processedBody (first ++ Images.source parts) = first ++ Images.target parts /\
  Legacy.processedBody (first ++ Images.source parts) =
    Legacy.processGitHubAttachments (first ++ Images.target parts).
Proof.
  assert (H : replace false markdownImage (expand [Ref 2]) (first ++ Images.source parts)
              = first ++ Images.target parts).
  { unfold replace.
    rewrite (ImagesFacts.replace_plain _ _ first Hfirst 0 (Images.source parts)).
    f_equal. apply (ImagesFacts.replace_parts parts Hparts first). }
  split.
  - exact H.
  - unfold Legacy.processedBody. now rewrite H.
Qed.

Lemma markdown_images_rewritten_in_place_witness :
  let shot := {| Images.alt := lit "screenshot"; Images.secure := true;
                 Images.address := lit "example.com/a.png" |} in
  let logo := {| Images.alt := []; Images.secure := false;
                 Images.address := lit "example.com/logo.gif" |} in
  let parts := [(shot, lit " and "); (logo, lit " here")] in
  Images.plain (lit "see ") /\
  Forall (fun p => Images.well_formed (fst p) /\ Images.plain (snd p)) parts /\
  Discord.processedBody
    (lit "see ![screenshot](https://example.com/a.png) and ![](http://example.com/logo.gif) here")
  = lit "see https://example.com/a.png and http://example.com/logo.gif here".
Proof.
  intros shot logo parts.
  assert (Hfirst : Images.plain (lit "see ")).
  { repeat constructor; discriminate. }
  assert (Hparts : Forall (fun p => Images.well_formed (fst p) /\ Images.plain (snd p)) parts).
  { repeat constructor; try discriminate; try reflexivity. }
  split; [exact Hfirst | split; [exact Hparts |]].
  exact (proj1 (markdown_images_rewritten_in_place (lit "see ") parts Hfirst Hparts)).
Defined.

(** C6 fails in [discord.ts].  Under the comment that announces the pass
    for user-attachments and HTML image tags, [makeDiscordMessage] has the
    statement [processedBody = (processedBody)], where the single-file
    version calls [processGitHubAttachments].  So in [discord.ts] an HTML
    image tag and a bare user-attachments URL go to Discord as they are, in
    the middle of their line, while the single-file version puts the URL
    between two line breaks; and every body without an exclamation mark
    leaves [discord.ts] unchanged, whatever tags and URLs it holds. *)
Theorem attachments_pass_is_missing :
  let address := lit "https://github.com/user-attachments/assets/ab-12" in
  let tag := lit "<img width=2 alt=" ++ [DQUOTE] ++ lit "shot" ++ [DQUOTE] ++
             lit " src=" ++ [DQUOTE] ++ address ++ [DQUOTE] ++ lit " />" in
  let isolated := lit "see " ++ [LF] ++ address ++ [LF] ++ lit " here" in
  Discord.processedBody (lit "see " ++ tag ++ lit " here") = lit "see " ++ tag ++ lit " here" /\
  Legacy.processedBody (lit "see " ++ tag ++ lit " here") = isolated /\
  Discord.processedBody (lit "see " ++ address ++ lit " here") =
    lit "see " ++ address ++ lit " here" /\
  Legacy.processedBody (lit "see " ++ address ++ lit " here") = isolated /\
  Discord.makeDiscordMessage Sample.live (lit "octocat") 7 (lit "see " ++ tag ++ lit " here") =
    Discord.messagePrefix Sample.live (lit "octocat") 7 ++ lit "see " ++ tag ++ lit " here" /\
  (forall body, Images.plain body -> Discord.processedBody body = body).
Proof.
  split; [vm_compute; reflexivity |].
  split; [vm_compute; reflexivity |].
  split; [vm_compute; reflexivity |].
  split; [vm_compute; reflexivity |].
  split; [vm_compute; reflexivity |].
  intros body Hplain. unfold Discord.processedBody, replace.
  pose proof (ImagesFacts.replace_plain (expand [Ref 2]) body body Hplain 0 []) as H.
  rewrite app_nil_r in H. rewrite H. cbn [replace_from]. apply app_nil_r.
Qed.

(** C1 in the single-file version: the same surplus, the same order, with
    the messages as that version renders them. *)
Lemma Legacy_catch_up_pushes_surplus
    (cfg : Config) (thread : AnyThreadChannel) (discussion : GithubDiscussion)
    (w : World) (onDiscord : RemoteThread) (onGithub : RemoteDiscussion) :
  DRY_RUN cfg = false ->
  Run.no_outage w ->
  find_thread (t_id thread) w = Some onDiscord ->
  find_discussion (d_number discussion) w = Some onGithub ->
  known (d_id discussion) w = true ->
  exists w' added,
    Legacy.syncMessages cfg thread discussion w = (Ok tt, w') /\
    trace w' = trace w ++ added /\
    Run.writes added =
      map (LegacyRun.toDiscord cfg thread discussion)
          (skipn (length (LegacyRun.mirrored (user (discord w)) (rt_messages onDiscord)))
                 (rd_comments onGithub)) ++
      map (LegacyRun.toGithub thread discussion)
          (skipn (length (rd_comments onGithub))
                 (LegacyRun.mirrored (user (discord w)) (rt_messages onDiscord))).
Proof.
  intros Hlive Hup Hthread Hdiscussion Hknown.
  set (tm := LegacyRun.mirrored (user (discord w)) (rt_messages onDiscord)).
  set (dm := rd_comments onGithub).
  unfold Legacy.syncMessages.
  rewrite (RunFacts.bind_ok _ (LegacyRunFacts.legacy_listDiscordMessages_run thread onDiscord w Hup Hthread)).
  set (w1 := Run.advance 1 _ w).
  assert (Hup1 : Run.no_outage w1) by now apply RunFacts.advance_outage.
  destruct (LegacyRunFacts.listGitHubComments_run discussion onGithub w1 Hup1 Hdiscussion)
    as (n & pages & Hpages & _ & Hall).
  rewrite (RunFacts.bind_ok _ Hpages).
  fold tm. fold dm.
  set (w2 := Run.advance n pages w1).
  assert (Hup2 : Run.no_outage w2) by now apply RunFacts.advance_outage.
  pose (loaded := FetchMessages (t_id thread) :: pages).
  assert (Htrace2 : trace w2 = trace w ++ loaded).
  { unfold w2, w1, loaded. cbn [trace Run.advance set_calls set_trace].
    now rewrite <- !app_assoc. }
  assert (Hw0 : Run.writes loaded = []).
  { unfold loaded. change (Run.writes pages = []). exact (PushFacts.writes_pages _ _ Hall). }
  clearbody loaded.
  destruct (length tm <? length dm) eqn:Hlt.
  - apply Nat.ltb_lt in Hlt.
    destruct (PushFacts.for_range_push (Push.thread_open (t_id thread)) dm
                (fun message => Legacy.pushDiscordMessage cfg thread message discussion)
                (fun comment =>
                   [Console (lit "Sending message to Discord thread " ++ t_id thread ++
                             lit ": " ++ c_body comment);
                    LegacyRun.toDiscord cfg thread discussion comment])
                (fun x w0 Hopen _ =>
                   LegacyRunFacts.legacy_pushDiscordMessage_run cfg thread x discussion w0 Hlive Hopen)
                (length dm - length tm) (length tm) w2)
      as (w' & Hrun & Htrace & _).
    + lia.
    + split; [exact Hup2 | now exists onDiscord].
    + exists w'. eexists. split; [exact Hrun |]. split.
      * rewrite Htrace, Htrace2, <- !app_assoc. reflexivity.
      * rewrite PushFacts.writes_app, Hw0, PushFacts.writes_pushes by reflexivity.
        rewrite (skipn_all2 tm) by lia. simpl. now rewrite app_nil_r.
  - apply Nat.ltb_ge in Hlt.
    destruct (PushFacts.for_range_push (Push.discussion_open (d_id discussion)) tm
                (fun message => Legacy.pushGithubComment cfg thread message discussion)
                (fun message =>
                   [Console (lit "Sending comment to GitHub discussion " ++
                             of_Z (d_number discussion) ++ lit ": " ++ tm_message message);
                    LegacyRun.toGithub thread discussion message])
                (fun x w0 Hopen _ =>
                   LegacyRunFacts.legacy_pushGithubComment_run cfg thread x discussion w0 Hlive Hopen)
                (length tm - length dm) (length dm) w2)
      as (w' & Hrun & Htrace & _).
    + lia.
    + split; [exact Hup2 | exact Hknown].
    + exists w'. eexists. split; [exact Hrun |]. split.
      * rewrite Htrace, Htrace2, <- !app_assoc. reflexivity.
      * rewrite PushFacts.writes_app, Hw0, PushFacts.writes_pushes by reflexivity.
        rewrite (skipn_all2 dm) by lia. reflexivity.
Qed.

(* ================================================================= *)
(** * The console logger *)
Module LoggerFacts.

Import Logger.

Lemma rank_bounds (level : LogLevel) :
  (0 <= indexOf level order 0 <= 7)%Z.
Proof. destruct level; vm_compute; split; discriminate. Qed.

Lemma rank_top (level : LogLevel) :
  indexOf level order 0 = 7%Z -> level = EMERGENCY.
Proof. destruct level; vm_compute; congruence. Qed.

Lemma split_cons (sep c : code_unit) (text : jsstring) :
  exists part parts, split sep text = part :: parts.
Proof.
  destruct text as [| d text]; simpl; [now exists [], [] |].
  destruct (d =? sep)%N; [now eexists; eexists |].
  destruct (split sep text); now eexists; eexists.
Qed.

(** Joining what was split gives the text back. *)
Lemma join_split (sep : code_unit) (text : jsstring) :
  join [sep] (split sep text) = text.
Proof.
  induction text as [| c text IH]; simpl; [reflexivity |].
  destruct (c =? sep)%N eqn:E.
  - apply N.eqb_eq in E. subst c.
    destruct (split_cons sep sep text) as (part & parts & Hs).
    rewrite Hs in *. cbn [join]. cbn [join] in IH. now rewrite IH.
  - destruct (split sep text) as [| part parts]; simpl in *; [now subst |].
    destruct parts; subst; reflexivity.
Qed.

(** No part holds the separator. *)
Lemma split_free (sep : code_unit) (text : jsstring) :
  Forall (fun part => ~ In sep part) (split sep text).
Proof.
  induction text as [| c text IH]; simpl.
  - constructor; [intros [] | constructor].
  - destruct (c =? sep)%N eqn:E.
    + constructor; [intros [] | exact IH].
    + apply N.eqb_neq in E.
      destruct (split sep text) as [| part parts].
      * constructor; [| constructor]. intros [H | []]. now apply E.
      * inversion IH; subst. constructor; [| assumption].
        intros [H | H]; [now apply E | contradiction].
Qed.

Lemma split_part (sep : code_unit) (part rest : jsstring) :
  ~ In sep part ->
  split sep (part ++ sep :: rest) = part :: split sep rest.
Proof.
  induction part as [| c part IH]; intros Hfree; simpl.
  - now rewrite N.eqb_refl.
  - destruct (c =? sep)%N eqn:E.
    + apply N.eqb_eq in E. exfalso. apply Hfree. now left.
    + rewrite IH; [reflexivity |]. intros H. apply Hfree. now right.
Qed.

Lemma split_last (sep : code_unit) (part : jsstring) :
  ~ In sep part -> split sep part = [part].
Proof.
  induction part as [| c part IH]; intros Hfree; simpl; [reflexivity |].
  destruct (c =? sep)%N eqn:E.
  - apply N.eqb_eq in E. exfalso. apply Hfree. now left.
  - rewrite IH; [reflexivity |]. intros H. apply Hfree. now right.
Qed.

(** Splitting what was joined gives the parts back. *)
Lemma split_join (sep : code_unit) (parts : list jsstring) :
  parts <> [] ->
  Forall (fun part => ~ In sep part) parts ->
  split sep (join [sep] parts) = parts.
Proof.
  intros Hne Hall. induction Hall as [| part parts Hpart Hparts IH]; [contradiction |].
  destruct parts as [| next parts].
  - cbn [join]. now apply split_last.
  - cbn [join]. cbn [join] in IH. change ([sep] ++ ?x) with (sep :: x).
    rewrite split_part by exact Hpart. f_equal. apply IH. discriminate.
Qed.

(** The prefix put before the first line and after each line break is the
    prefix put before every line. *)
Lemma join_prefixed (prefix : jsstring) (parts : list jsstring) :
  parts <> [] ->
  prefix ++ join ([LF] ++ prefix) parts = join [LF] (map (fun line => prefix ++ line) parts).
Proof.
  induction parts as [| part parts IH]; intros Hne; [contradiction |].
  destruct parts as [| next parts].
  - reflexivity.
  - cbn [join map]. cbn [join map] in IH.
    rewrite <- IH by discriminate. now rewrite <- !app_assoc.
Qed.

Lemma name_one_line (level : LogLevel) : ~ In LF (name level).
Proof.
  destruct level; cbv; intros H;
    repeat (destruct H as [H | H]; [discriminate |]); exact H.
Qed.

End LoggerFacts.

(** X1.  What [canLog] lets through.  A level is printed exactly when
    [LOG_LEVEL] (or ['4'] in its place when it is unset or empty) does not
    parse as a number, or parses as a number no greater than the position
    of the level in [order], or the level is [emergency], which no setting
    silences.  With [LOG_LEVEL] unset or empty, exactly [error],
    [critical], [alert] and [emergency] are printed: an informational line
    is handed to [console.log] by no call. *)
Theorem canLog_threshold (LOG_LEVEL : option jsstring) (level : LogLevel) :
  (Logger.canLog LOG_LEVEL level = true <->
   match Logger.parseInt (Logger.setting LOG_LEVEL) with
   | None => True
   | Some n => (n <= Logger.indexOf level Logger.order 0)%Z \/ level = EMERGENCY
   end) /\
  (Logger.canLog None level = true <-> In level [ERROR; CRITICAL; ALERT; EMERGENCY]) /\
  Logger.canLog (Some []) level = Logger.canLog None level /\
  (forall now message optionalParams,
     Logger.info None now message optionalParams = None).
Proof.
  split; [| split; [| split]].
  - unfold Logger.canLog, Logger.logLevel.
    change (Z.of_nat (length Logger.order) - 1)%Z with 7%Z.
    pose proof (LoggerFacts.rank_bounds level) as Hb.
    destruct (Logger.parseInt (Logger.setting LOG_LEVEL)) as [n |].
    + rewrite Z.leb_le. split.
      * intros H.
        destruct (Z.eq_dec (Logger.indexOf level Logger.order 0) 7) as [E | E].
        -- right. now apply LoggerFacts.rank_top.
        -- left. lia.
      * intros [H | ->]; [lia |]. vm_compute Logger.indexOf. lia.
    + rewrite Z.leb_le. split; [trivial | intros _; lia].
  - destruct level; vm_compute; split; intros H; try discriminate; try reflexivity;
      try (repeat (destruct H as [H | H]; [discriminate |]); contradiction);
      tauto.
  - reflexivity.
  - reflexivity.
Qed.

(** X2.  The shape of a printed line.  When the timestamp holds no line
    break, [processLog] puts the prefix [[timestamp] level:] and a space
    before every line of the message: split at its line breaks, the result
    is the lines of the message (the further parameters appended, each
    after a space), each one behind the prefix, as many as there were. *)
Theorem processLog_prefixes_every_line
    (now : jsstring) (level : LogLevel)
    (message : Logger.content) (optionalParams : list Logger.content)
    (Hnow : ~ In LF now) :
  Logger.split LF (Logger.processLog now level message optionalParams) =
  map (fun line => Logger.linePrefix now level ++ lit " " ++ line)
      (Logger.split LF (Logger.final message optionalParams)).
Proof.
  unfold Logger.processLog, Logger.prefixLines.
  set (text := Logger.final message optionalParams).
  set (prefix := Logger.linePrefix now level).
  destruct (LoggerFacts.split_cons LF LF text) as (part & parts & Hs).
  assert (Hne : Logger.split LF text <> []) by (rewrite Hs; discriminate).
  replace (prefix ++ lit " " ++ Logger.join ([LF] ++ prefix ++ lit " ") (Logger.split LF text))
    with ((prefix ++ lit " ") ++ Logger.join ([LF] ++ prefix ++ lit " ") (Logger.split LF text))
    by (now rewrite <- app_assoc).
  rewrite (LoggerFacts.join_prefixed (prefix ++ lit " ") _ Hne).
  rewrite LoggerFacts.split_join.
  - apply map_ext. intros line. now rewrite <- app_assoc.
  - intros H. apply map_eq_nil in H. contradiction.
  - apply Forall_map. eapply Forall_impl; [| apply LoggerFacts.split_free].
    intros line Hline Hin. cbv beta in Hin.
    unfold prefix, Logger.linePrefix in Hin.
    rewrite !in_app_iff in Hin.
    repeat match goal with
           | H : _ \/ _ |- _ => destruct H as [H | H]
           end;
      first [ now apply Hnow
            | now apply (LoggerFacts.name_one_line level)
            | now apply Hline
            | simpl in Hin; repeat (destruct Hin as [Hin | Hin]; [discriminate |]);
              contradiction ].
Qed.

Lemma processLog_prefixes_every_line_witness :
  let now := lit "2025-06-01T12:00:00.000Z" in
  let message := Logger.Text (lit "Webhook handler error:" ++ [LF] ++ lit "request failed") in
  ~ In LF now /\
  Logger.split LF (Logger.processLog now ERROR message []) =
    [lit "[2025-06-01T12:00:00.000Z] error: Webhook handler error:";
     lit "[2025-06-01T12:00:00.000Z] error: request failed"].
Proof.
  intros now message.
  assert (Hnow : ~ In LF now).
  { cbv. intros H. repeat (destruct H as [H | H]; [discriminate |]). exact H. }
  split; [exact Hnow |].
  exact (processLog_prefixes_every_line now ERROR message [] Hnow).
Defined.

(* ================================================================= *)
(** * Footprints *)
Module FootprintFacts.

Import Footprint.

Create HintDb footprint discriminated.

Lemma In_firstn {A} (n : nat) (x : A) (l : list A) : In x (firstn n l) -> In x l.
Proof.
  intros H. rewrite <- (firstn_skipn n l). apply in_or_app. now left.
Qed.

Lemma bare_same (w w' : World) :
  discussionCache w' = discussionCache w -> bare w -> bare w'.
Proof. intros E H listing Hl. apply H. now rewrite <- E. Qed.

Lemma advance_none (w : World) : Run.advance 0 [] w = w.
Proof.
  destruct w. unfold Run.advance, set_calls, set_trace. cbn. now rewrite app_nil_r.
Qed.

(** The listing of the comments only asks for pages, whether it comes to
    its end or fails on the way. *)
Lemma listGithubComments_loop_reader fuel : forall d acc offset,
  reader (Github.listGithubComments_loop fuel d acc offset).
Proof.
  induction fuel as [| fuel IH]; intros d acc offset w; cbn [Github.listGithubComments_loop].
  - exists 0, []. cbn [ret snd]. now rewrite advance_none.
  - unfold bind at 1, query_comments, bind at 1, call.
    destruct (outage w (calls w)).
    + exists 1, [QueryComments (d_number d) offset]. split; reflexivity.
    + unfold bind at 1, get.
      set (w1 := set_calls _ _).
      destruct (find_discussion (d_number d) w1) as [r |].
      * cbn [ret fst snd]. cbv zeta.
        match goal with
        | |- context [if ?b then _ else _] => destruct b
        end.
        -- destruct (IH d (acc ++ firstn 100
                                    (skipn match offset with Some k => k | None => 0 end
                                       (rd_comments r)))
                       (match firstn 100
                                (skipn match offset with Some k => k | None => 0 end
                                   (rd_comments r)) with
                        | [] => None
                        | _ :: _ =>
                            Some (match offset with Some k => k | None => 0 end +
                                  length (firstn 100
                                            (skipn match offset with Some k => k | None => 0 end
                                               (rd_comments r))))
                        end) w1) as (n & evs & Hrun & Hevs).
           exists (1 + n), (QueryComments (d_number d) offset :: evs).
           split; [| exact Hevs].
           cbn [fst snd]. rewrite Hrun.
           change w1 with (Run.advance 1 [QueryComments (d_number d) offset] w).
           now rewrite RunFacts.advance_advance.
        -- exists 1, [QueryComments (d_number d) offset]. split; reflexivity.
      * exists 1, [QueryComments (d_number d) offset]. split; reflexivity.
Qed.

Lemma listGithubComments_reader d : reader (Github.listGithubComments d).
Proof.
  intros w. unfold Github.listGithubComments, bind at 1, get. unfold bind.
  match goal with
  | |- context [Github.listGithubComments_loop ?f d [] None w] =>
      destruct (listGithubComments_loop_reader f d [] None w) as (n & evs & Hrun & Hevs);
      destruct (Github.listGithubComments_loop f d [] None w) as [[[comments |] | e] w1]
  end; exists n, evs; split; assumption.
Qed.

Section Discipline.

Variable ok : Event -> bool.

Variable strict : bool.

Lemma step_refl (w : World) : step ok strict w w.
Proof.
  split; [| split; [| split; auto]]; exists []; now rewrite app_nil_r.
Qed.

Lemma step_trans (w1 w2 w3 : World) :
  step ok strict w1 w2 -> step ok strict w2 w3 -> step ok strict w1 w3.
Proof.
  intros [[e1 [T1 F1]] [[l1 [L1 R1]] [S1 B1]]] [[e2 [T2 F2]] [[l2 [L2 R2]] [S2 B2]]].
  split; [| split; [| split]].
  - exists (e1 ++ e2). rewrite T2, T1, <- app_assoc. split; [reflexivity |].
    now rewrite forallb_app, F1, F2.
  - exists (l1 ++ l2). rewrite L2, L1, <- app_assoc. split; [reflexivity |].
    now rewrite forallb_app, R1, R2.
  - intros Hs. destruct (S1 Hs) as [G1 D1]. destruct (S2 Hs) as [G2 D2].
    split; congruence.
  - auto.
Qed.

(** A change of the state that leaves [detached] alone. *)
Lemma step_attached (w w' : World) :
  (exists added, trace w' = trace w ++ added /\ forallb ok added = true) ->
  detached w' = detached w ->
  (strict = true -> github w' = github w /\ discord w' = discord w) ->
  (bare w -> bare w') ->
  step ok strict w w'.
Proof.
  intros Ht Hd Hs Hb. split; [exact Ht | split; [| split; assumption]].
  exists []. now rewrite app_nil_r.
Qed.

(** A bind, run by run: what the continuation is handed to is what the
    first part returned. *)
Lemma step_bind {A B} (c : M A) (k : A -> M B) (w : World) :
  step ok strict w (snd (c w)) ->
  (forall a w', c w = (Ok a, w') -> step ok strict w' (snd (k a w'))) ->
  step ok strict w (snd (bind c k w)).
Proof.
  intros Hc Hk. unfold bind. destruct (c w) as [[a | e] w'] eqn:E; simpl in *.
  - eapply step_trans; [exact Hc | now apply Hk].
  - exact Hc.
Qed.

Lemma within_ret {A} (a : A) : within ok strict (ret a).
Proof. intros w. apply step_refl. Qed.

Lemma within_throw {A} (e : jsstring) : within ok strict (@throw A e).
Proof. intros w. apply step_refl. Qed.

Lemma within_rethrow {A} (e : JsError) : within ok strict (@rethrow A e).
Proof. intros w. apply step_refl. Qed.

Lemma within_type_error {A} (e : jsstring) : within ok strict (@type_error A e).
Proof. intros w. apply step_refl. Qed.

Lemma within_get : within ok strict get.
Proof. intros w. apply step_refl. Qed.

Lemma within_bind {A B} (c : M A) (k : A -> M B) :
  within ok strict c -> (forall a, within ok strict (k a)) -> within ok strict (bind c k).
Proof. intros Hc Hk w. apply step_bind; [apply Hc | intros a w' _; apply Hk]. Qed.

Lemma within_try_catch {A} (c : M A) (h : JsError -> M A) :
  within ok strict c -> (forall e, within ok strict (h e)) -> within ok strict (try_catch c h).
Proof.
  intros Hc Hh w. unfold try_catch. specialize (Hc w).
  destruct (c w) as [[a | e] w'] eqn:E; simpl in *.
  - exact Hc.
  - eapply step_trans; [exact Hc | apply Hh].
Qed.

Lemma within_returning {A} (v unreachable : M A) :
  within ok strict v -> within ok strict (returning v unreachable).
Proof. intros H; exact H. Qed.

Lemma within_for_each_in {A} (xs : list A) (body : A -> M unit) :
  (forall x, In x xs -> within ok strict (body x)) -> within ok strict (for_each xs body).
Proof.
  induction xs as [| x xs IH]; intros Hb; simpl.
  - apply within_ret.
  - apply within_bind; [apply Hb; now left |].
    intros _. apply IH. intros y Hy. apply Hb. now right.
Qed.

Lemma within_for_each {A} (xs : list A) (body : A -> M unit) :
  (forall x, within ok strict (body x)) -> within ok strict (for_each xs body).
Proof. intros Hb. apply within_for_each_in. intros x _. apply Hb. Qed.

Lemma within_for_range (count : nat) : forall from (body : nat -> M unit),
  (forall idx, within ok strict (body idx)) -> within ok strict (for_range from count body).
Proof.
  induction count as [| count IH]; intros from body Hb; simpl.
  - apply within_ret.
  - apply within_bind; auto.
Qed.

Lemma within_item {A} (xs : list A) (idx : nat) : within ok strict (item xs idx).
Proof. unfold item. destruct (nth_error xs idx); [apply within_ret | apply within_type_error]. Qed.

(** *** The primitive effects *)
Lemma within_emit (e : Event) : ok e = true -> within ok strict (emit e).
Proof.
  intros He w. apply step_attached.
  - exists [e]. split; [reflexivity |]. simpl. now rewrite He.
  - reflexivity.
  - intros _. split; reflexivity.
  - apply bare_same. reflexivity.
Qed.

Lemma within_call (e : Event) : ok e = true -> within ok strict (call e).
Proof.
  intros He w.
  assert (H : step ok strict w (set_calls (S (calls w)) (set_trace (trace w ++ [e]) w))).
  { apply step_attached.
    - exists [e]. split; [reflexivity |]. simpl. now rewrite He.
    - reflexivity.
    - intros _. split; reflexivity.
    - apply bare_same. reflexivity. }
  unfold call. destruct (outage w (calls w)); exact H.
Qed.

(** The events a computation added, once its trace is put back. *)
Lemma skipn_added (t added : list Event) : skipn (length t) (t ++ added) = added.
Proof. now rewrite skipn_app, skipn_all, Nat.sub_diag. Qed.

Lemma within_promise_all {A B} (p : M A) (q : M B) :
  within ok strict p -> within ok strict q -> reader q ->
  within ok strict (promise_all p q).
Proof.
  intros Hp Hq Hr w. unfold promise_all.
  specialize (Hp w). destruct (p w) as [[a | e] w1]; cbn [snd] in *.
  - specialize (Hq w1). destruct (q w1) as [[b | e] w2]; cbn [snd] in *;
      eapply step_trans; eassumption.
  - eapply step_trans; [exact Hp |].
    unfold detach. destruct (Hr w1) as (n & evs & -> & Hevs).
    split; [| split; [| split]]; cbn.
    + exists []. now rewrite app_nil_r.
    + exists evs. now rewrite skipn_added.
    + intros _. split; reflexivity.
    + apply bare_same. reflexivity.
Qed.

(** A change of the platforms, which a strict discipline excludes. *)
Lemma within_mutate (f : World -> World) :
  strict = false ->
  (forall w, trace (f w) = trace w) ->
  (forall w, detached (f w) = detached w) ->
  (forall w, discussionCache (f w) = discussionCache w) ->
  within ok strict (modify f).
Proof.
  intros Hs Ht Hd Hc w. apply step_attached; cbn [modify snd].
  - exists []. rewrite app_nil_r. split; [apply Ht | reflexivity].
  - apply Hd.
  - rewrite Hs. discriminate.
  - apply bare_same. apply Hc.
Qed.

Lemma within_set_category (c : option jsstring) :
  within ok strict (modify (set_REPO_CATEGORY_ID c)).
Proof.
  intros w. apply step_attached; cbn [modify snd].
  - exists []. now rewrite app_nil_r.
  - reflexivity.
  - intros _. split; reflexivity.
  - apply bare_same. reflexivity.
Qed.

Lemma within_set_cache (nodes : list GithubDiscussion) :
  Forall (fun d => d_category d = None) nodes ->
  within ok strict (modify (set_discussionCache (Some nodes))).
Proof.
  intros Hn w. apply step_attached; cbn [modify snd].
  - exists []. now rewrite app_nil_r.
  - reflexivity.
  - intros _. split; reflexivity.
  - intros _ listing Hl. cbn in Hl. now inversion Hl; subst.
Qed.

(** Logs and reads pass the discipline. *)
Hypothesis quiet : forall e, is_write e = false -> is_status e = false -> ok e = true.

Lemma within_logger (level : LogLevel) (line : jsstring) :
  within ok strict (logger level line).
Proof. apply within_emit. now apply quiet. Qed.

Lemma within_console_log (line : jsstring) : within ok strict (console_log line).
Proof. apply within_emit. now apply quiet. Qed.

Hint Resolve within_ret within_throw within_rethrow within_type_error within_get within_item
  within_logger within_console_log within_set_category : footprint.

(** Break a computation down along its binds and its case analyses. *)
Ltac footprint :=
  repeat first
    [ assumption
    | solve [eauto with footprint]
    | apply within_bind; [| intros ]
    | apply within_try_catch; [| intros ]
    | apply within_for_each; intros
    | apply within_for_range; intros
    | apply within_returning
    | apply within_call; apply quiet; reflexivity
    | match goal with
      | |- within _ _ (match ?x with _ => _ end) => case_eq x; intros
      | |- within _ _ (let _ := _ in _) => cbv zeta
      end ].

(** *** The platform clients: reads *)
Lemma within_fresh_id : within ok strict fresh_id.
Proof. unfold fresh_id; footprint. Qed.

Lemma within_query_discussions c : within ok strict (query_discussions c).
Proof. unfold query_discussions; footprint. Qed.

Lemma within_query_comments n o : within ok strict (query_comments n o).
Proof. unfold query_comments; footprint. Qed.

Lemma within_query_repository_id : within ok strict query_repository_id.
Proof. unfold query_repository_id; footprint. Qed.

Lemma within_query_repository : within ok strict query_repository.
Proof. unfold query_repository; footprint. Qed.

Lemma within_query_categories : within ok strict query_categories.
Proof. unfold query_categories; footprint. Qed.

Lemma within_channels_fetch c : within ok strict (channels_fetch c).
Proof. unfold channels_fetch; footprint. Qed.

Lemma within_threads_fetch : within ok strict threads_fetch.
Proof. unfold threads_fetch; footprint. Qed.

Lemma within_messages_fetch t : within ok strict (messages_fetch t).
Proof. unfold messages_fetch; footprint. Qed.

Hint Resolve within_fresh_id within_query_discussions within_query_comments
  within_query_repository_id within_query_repository within_query_categories
  within_channels_fetch within_threads_fetch within_messages_fetch : footprint.

(** *** The platform clients: writes *)
Lemma within_thread_send t c :
  strict = false -> ok (ThreadSend (t_id t) c) = true ->
  within ok strict (thread_send t c).
Proof.
  intros Hs He. unfold thread_send.
  apply within_bind; [now apply within_call | intros _].
  apply within_bind; [apply within_get | intros w0].
  destruct (find_thread (t_id t) w0); [| apply within_throw].
  apply within_mutate; [exact Hs | reflexivity | reflexivity | reflexivity].
Qed.

Lemma within_message_reply m c :
  strict = false -> ok (MessageReply (m_id m) c) = true ->
  within ok strict (message_reply m c).
Proof.
  intros Hs He. unfold message_reply.
  apply within_bind; [now apply within_call | intros _].
  destruct (m_channel m) as [thread |]; [| apply within_ret].
  apply within_bind; [apply within_get | intros w0].
  destruct (find_thread (t_id thread) w0); [| apply within_throw].
  apply within_mutate; [exact Hs | reflexivity | reflexivity | reflexivity].
Qed.

Lemma within_threads_create f n c :
  strict = false -> ok (ThreadsCreate n c) = true ->
  within ok strict (threads_create f n c).
Proof.
  intros Hs He. unfold threads_create.
  apply within_bind; [now apply within_call | intros _].
  apply within_bind; [apply within_get | intros w0].
  apply within_bind; [apply within_fresh_id | intros tid].
  cbv zeta.
  apply within_bind; [| intros _; apply within_ret].
  apply within_mutate; [exact Hs | reflexivity | reflexivity | reflexivity].
Qed.

Lemma within_addDiscussionComment i b :
  strict = false -> ok (AddDiscussionComment i b) = true ->
  within ok strict (mutation_addDiscussionComment i b).
Proof.
  intros Hs He. unfold mutation_addDiscussionComment.
  apply within_bind; [now apply within_call | intros _].
  apply within_bind; [apply within_get | intros w0].
  destruct (known i w0); [| apply within_throw].
  apply within_bind; [apply within_fresh_id | intros cid].
  apply within_mutate; [exact Hs | reflexivity | reflexivity | reflexivity].
Qed.

Lemma within_mutation_updateDiscussion i b :
  strict = false -> ok (UpdateDiscussion i b) = true ->
  within ok strict (mutation_updateDiscussion i b).
Proof.
  intros Hs He. unfold mutation_updateDiscussion.
  apply within_bind; [now apply within_call | intros _].
  apply within_bind; [apply within_get | intros w0].
  destruct (known i w0); [| apply within_throw].
  apply within_mutate; [exact Hs | reflexivity | reflexivity | reflexivity].
Qed.

Lemma within_mutation_createDiscussion c t b r :
  strict = false -> (forall c', ok (CreateDiscussion c' t b r) = true) ->
  within ok strict (mutation_createDiscussion c t b r).
Proof.
  intros Hs He. unfold mutation_createDiscussion.
  destruct c as [cid |].
  - apply within_bind; [apply within_call, He | intros _].
    apply within_bind; [apply within_get | intros w0].
    apply within_bind; [apply within_fresh_id | intros did].
    cbv zeta.
    apply within_bind; [| intros _; apply within_ret].
    apply within_mutate; [exact Hs | reflexivity | reflexivity | reflexivity].
  - apply within_bind; [apply within_call, He | intros _]. apply within_throw.
Qed.

Hint Resolve within_thread_send within_message_reply within_threads_create
  within_addDiscussionComment within_mutation_updateDiscussion
  within_mutation_createDiscussion : footprint.

(** *** [discord.ts], [github.ts] and [index.ts]

    The functions that write are run only where [DRY_RUN] is off, and what
    they write must then pass the discipline. *)
Variable cfg : Config.

Hypothesis may_send :
  DRY_RUN cfg = false -> strict = false /\ forall t c, ok (ThreadSend t c) = true.

Hypothesis may_comment :
  DRY_RUN cfg = false -> strict = false /\ forall i b, ok (AddDiscussionComment i b) = true.

Hypothesis may_create_thread :
  DRY_RUN cfg = false -> strict = false /\ forall n c, ok (ThreadsCreate n c) = true.

Hypothesis may_update :
  DRY_RUN cfg = false -> strict = false /\ forall i b, ok (UpdateDiscussion i b) = true.

Hypothesis may_create_discussion :
  DRY_RUN cfg = false ->
  strict = false /\ forall c t b r, ok (CreateDiscussion c t b r) = true.

Lemma within_listDiscordThreads : within ok strict (Discord.listDiscordThreads cfg).
Proof. unfold Discord.listDiscordThreads; footprint. Qed.

Lemma within_listDiscordMessages t : within ok strict (Discord.listDiscordMessages t).
Proof. unfold Discord.listDiscordMessages; footprint. Qed.

Lemma within_createThread a n t b :
  DRY_RUN cfg = false -> within ok strict (Discord.createThread cfg a n t b).
Proof.
  intros Hlive. destruct (may_create_thread Hlive) as [Hs He].
  unfold Discord.createThread; footprint.
Qed.

Lemma within_pushDiscordMessage t c d :
  DRY_RUN cfg = false -> within ok strict (Discord.pushDiscordMessage cfg t c d).
Proof.
  intros Hlive. destruct (may_send Hlive) as [Hs He].
  unfold Discord.pushDiscordMessage; footprint.
Qed.

Lemma within_getRepositoryId : within ok strict (Github.getRepositoryId cfg).
Proof. unfold Github.getRepositoryId; footprint. Qed.

Hint Resolve within_getRepositoryId : footprint.

Lemma within_fetchRepoCategoryIdByName name :
  within ok strict (Github.fetchRepoCategoryIdByName cfg name).
Proof. unfold Github.fetchRepoCategoryIdByName; footprint. Qed.

Hint Resolve within_fetchRepoCategoryIdByName : footprint.

Lemma within_loadGithub : within ok strict (Github.loadGithub cfg).
Proof. unfold Github.loadGithub; footprint. Qed.

Lemma within_pushGithubComment t m d :
  DRY_RUN cfg = false -> within ok strict (Github.pushGithubComment t m d).
Proof.
  intros Hlive. destruct (may_comment Hlive) as [Hs He].
  unfold Github.pushGithubComment; footprint.
Qed.

Lemma within_listGithubComments_loop fuel : forall d acc offset,
  within ok strict (Github.listGithubComments_loop fuel d acc offset).
Proof.
  induction fuel as [| fuel IH]; intros d acc offset; simpl; footprint.
Qed.

Hint Resolve within_listGithubComments_loop : footprint.

Lemma within_listGithubComments d : within ok strict (Github.listGithubComments d).
Proof. unfold Github.listGithubComments; footprint. Qed.

Lemma within_updateDiscussion d i :
  DRY_RUN cfg = false -> within ok strict (Github.updateDiscussion d i).
Proof.
  intros Hlive. destruct (may_update Hlive) as [Hs He].
  unfold Github.updateDiscussion; footprint.
Qed.

Lemma within_createDiscussion t m :
  DRY_RUN cfg = false -> within ok strict (Github.createDiscussion cfg t m).
Proof.
  intros Hlive. destruct (may_create_discussion Hlive) as [Hs He].
  unfold Github.createDiscussion; footprint.
Qed.

(** The listing query returns discussions without their category. *)
Lemma query_discussions_bare c w nodes w' :
  query_discussions c w = (Ok nodes, w') ->
  Forall (fun d => d_category d = None) nodes.
Proof.
  unfold query_discussions. destruct c as [cid |].
  - unfold bind at 1. destruct (call (QueryDiscussions cid) w) as [[[] | e] w1]; [| discriminate].
    unfold bind, get. destruct (repository (github w1)); [| discriminate].
    unfold ret.
    match goal with |- (Ok ?p, _) = _ -> _ => remember p as page eqn:Hp end.
    intros H. injection H as <- _. subst page.
    apply Forall_forall. intros d Hd. apply In_firstn in Hd.
    apply in_map_iff in Hd as (r & <- & _). reflexivity.
  - unfold bind. destruct (call (QueryDiscussions []) w) as [[[] | e] w1]; discriminate.
Qed.

Lemma within_listGithubDiscussions : within ok strict Github.listGithubDiscussions.
Proof.
  unfold Github.listGithubDiscussions. intros w.
  apply step_bind; [apply within_get | intros w0 w' Hget].
  inversion Hget; subst w0 w'.
  destruct (discussionCache w); [apply within_ret |].
  apply step_bind; [apply within_query_discussions | intros nodes w1 Hq].
  apply within_bind; [| intros _; apply within_ret].
  apply within_set_cache. exact (query_discussions_bare _ _ _ _ Hq).
Qed.

(** From a bare cache the listing is without categories. *)
Lemma listGithubDiscussions_bare w listing w' :
  bare w ->
  Github.listGithubDiscussions w = (Ok listing, w') ->
  Forall (fun d => d_category d = None) listing.
Proof.
  intros Hbare. unfold Github.listGithubDiscussions, bind at 1, get.
  destruct (discussionCache w) as [cached |] eqn:Hc.
  - unfold ret. intros H. inversion H; subst. now apply Hbare.
  - unfold bind at 1.
    destruct (query_discussions (REPO_CATEGORY_ID w) w) as [[nodes | e] w1] eqn:Hq;
      [| discriminate].
    unfold bind, modify, ret. intros H. inversion H; subst.
    exact (query_discussions_bare _ _ _ _ Hq).
Qed.

Hint Resolve within_listDiscordThreads within_listDiscordMessages within_createThread
  within_pushDiscordMessage within_loadGithub within_pushGithubComment
  within_listGithubComments within_updateDiscussion within_createDiscussion
  within_listGithubDiscussions : footprint.

Lemma within_findThreadOnGitHub t : within ok strict (Index.findThreadOnGitHub t).
Proof. unfold Index.findThreadOnGitHub; footprint. Qed.

Lemma within_findDiscussionOnDiscord d :
  within ok strict (Index.findDiscussionOnDiscord cfg d).
Proof. unfold Index.findDiscussionOnDiscord; footprint. Qed.

Lemma within_syncMessages t d : within ok strict (Index.syncMessages cfg t d).
Proof.
  unfold Index.syncMessages.
  apply within_bind; [footprint | intros _].
  apply within_bind;
    [apply within_promise_all; [footprint | footprint | apply listGithubComments_reader] |].
  intros lists. footprint.
Qed.

Hint Resolve within_findThreadOnGitHub within_findDiscussionOnDiscord
  within_syncMessages : footprint.

Lemma within_syncDiscussionOnDiscord d :
  within ok strict (Index.syncDiscussionOnDiscord cfg d).
Proof. unfold Index.syncDiscussionOnDiscord; footprint. Qed.

Lemma within_syncThreadOnGitHub t : within ok strict (Index.syncThreadOnGitHub cfg t).
Proof. unfold Index.syncThreadOnGitHub; footprint. Qed.

Hint Resolve within_syncDiscussionOnDiscord within_syncThreadOnGitHub : footprint.

(** A discussion that carries no category is skipped, whatever the
    discipline. *)
Lemma within_skipped d :
  d_category d = None -> within ok strict (Index.syncDiscussionOnDiscord cfg d).
Proof.
  intros Hc. unfold Index.syncDiscussionOnDiscord. rewrite Hc. cbn [negb].
  apply within_logger.
Qed.

Lemma within_routed req : within ok strict (Endpoint.routed cfg req).
Proof. unfold Endpoint.routed; footprint. Qed.

Lemma within_sendStatus code :
  ok (SendStatus code) = true -> within ok strict (sendStatus code).
Proof. intros H. now apply within_emit. Qed.

Lemma within_webhook req :
  (forall code, ok (SendStatus code) = true) -> within ok strict (Index.webhook cfg req).
Proof.
  intros Hst. change (Index.webhook cfg req) with (Endpoint.answered cfg req).
  unfold Endpoint.answered.
  apply within_try_catch.
  - apply within_bind; [apply within_routed | intros _; now apply within_sendStatus].
  - intros e. apply within_bind; [apply within_logger | intros _; now apply within_sendStatus].
Qed.

Lemma within_on_threadCreate t : within ok strict (Index.on_threadCreate cfg t).
Proof. unfold Index.on_threadCreate, Index.threadCreate; footprint. Qed.

Lemma within_init : within ok strict (Index.init cfg).
Proof. unfold Index.init; footprint. Qed.

Hint Resolve within_sendStatus : footprint.

(** Start-up: the pass over the listing meets discussions without
    category only, and skips each of them. *)
Lemma step_bare_bind {A B} (c : M A) (k : A -> M B) (w : World) :
  bare w -> within ok strict c ->
  (forall a w', bare w' -> c w = (Ok a, w') -> step ok strict w' (snd (k a w'))) ->
  step ok strict w (snd (bind c k w)).
Proof.
  intros Hb Hc Hk. apply step_bind; [apply Hc |].
  intros a w' E. apply Hk; [| exact E].
  destruct (Hc w) as (_ & _ & HB). rewrite E in HB. now apply HB.
Qed.

Lemma step_init (w : World) : bare w -> step ok strict w (snd (Index.init cfg w)).
Proof.
  intros Hb. unfold Index.init.
  do 7 match goal with
       | H : bare ?w0 |- step _ _ ?w0 _ =>
           apply step_bare_bind;
           [ exact H | footprint
           | let w1 := fresh "w" in
             let H1 := fresh "Hb" in
             intros ? w1 H1 _; clear H ]
       end.
  match goal with
  | H : bare ?w0 |- step _ _ ?w0 _ =>
      apply step_bare_bind; [exact H | footprint |];
      intros listing w' _ Hl;
      pose proof (listGithubDiscussions_bare w0 listing w' H Hl) as Hall
  end.
  apply within_for_each_in. intros d Hd.
  apply within_bind; [apply within_logger | intros _].
  apply within_skipped. rewrite Forall_forall in Hall. now apply Hall.
Qed.

(** *** The single-file version *)
Lemma within_createDiscussionCategory r n d :
  strict = false -> ok (CreateDiscussionCategory r n d) = true ->
  within ok strict (mutation_createDiscussionCategory r n d).
Proof.
  intros Hs He. unfold mutation_createDiscussionCategory.
  apply within_bind; [now apply within_call | intros _].
  apply within_bind; [apply within_get | intros w0].
  apply within_bind; [apply within_fresh_id | intros cid].
  apply within_bind; [| intros _; apply within_ret].
  apply within_mutate; [exact Hs | reflexivity | reflexivity | reflexivity].
Qed.

Lemma within_exit code : within ok strict (emit (ProcessExit code)).
Proof. apply within_emit. now apply quiet. Qed.

Lemma legacy_within_getRepositoryId : within ok strict (Legacy.getRepositoryId cfg).
Proof. unfold Legacy.getRepositoryId; footprint. Qed.

Hint Resolve within_createDiscussionCategory within_exit legacy_within_getRepositoryId
  : footprint.

Lemma legacy_within_fetchRepoCategoryIdByName name create :
  strict = false -> (forall r n d, ok (CreateDiscussionCategory r n d) = true) ->
  within ok strict (Legacy.fetchRepoCategoryIdByName cfg name create).
Proof. intros Hs He. unfold Legacy.fetchRepoCategoryIdByName; footprint. Qed.

Lemma legacy_within_updateDiscussion d i :
  within ok strict (Legacy.updateDiscussion cfg d i).
Proof.
  unfold Legacy.updateDiscussion. case_eq (DRY_RUN cfg); intros Hd; [footprint |].
  destruct (may_update Hd) as [Hs He]. footprint.
Qed.

Lemma legacy_within_listDiscussions : within ok strict Legacy.listDiscussions.
Proof.
  unfold Legacy.listDiscussions. intros w.
  apply step_bind; [apply within_get | intros w0 w' Hget].
  inversion Hget; subst w0 w'.
  destruct (discussionCache w); [apply within_ret |].
  apply within_bind; [apply within_query_discussions | intros nodes].
  cbv zeta. apply within_bind; [| intros _; apply within_ret].
  apply within_set_cache. apply Forall_map, Forall_forall. reflexivity.
Qed.

Lemma legacy_within_listGitHubComments_loop fuel : forall d acc offset,
  within ok strict (Legacy.listGitHubComments_loop fuel d acc offset).
Proof.
  induction fuel as [| fuel IH]; intros d acc offset; simpl; footprint.
Qed.

Hint Resolve legacy_within_listGitHubComments_loop : footprint.

Lemma legacy_within_listGitHubComments d : within ok strict (Legacy.listGitHubComments d).
Proof. unfold Legacy.listGitHubComments; footprint. Qed.

Lemma legacy_within_listDiscordThreads : within ok strict (Legacy.listDiscordThreads cfg).
Proof. unfold Legacy.listDiscordThreads; footprint. Qed.

Lemma legacy_within_listDiscordMessages t : within ok strict (Legacy.listDiscordMessages t).
Proof. unfold Legacy.listDiscordMessages; footprint. Qed.

Hint Resolve legacy_within_updateDiscussion legacy_within_listDiscussions
  legacy_within_listGitHubComments legacy_within_listDiscordThreads
  legacy_within_listDiscordMessages : footprint.

Lemma legacy_within_findThreadOnGitHub t : within ok strict (Legacy.findThreadOnGitHub t).
Proof. unfold Legacy.findThreadOnGitHub; footprint. Qed.

Lemma legacy_within_findDiscussionOnDiscord d :
  within ok strict (Legacy.findDiscussionOnDiscord cfg d).
Proof. unfold Legacy.findDiscussionOnDiscord; footprint. Qed.

Lemma legacy_within_createDiscussion t m : within ok strict (Legacy.createDiscussion cfg t m).
Proof.
  unfold Legacy.createDiscussion. destruct m as [message |]; [| apply within_type_error].
  cbv zeta. case_eq (DRY_RUN cfg); intros Hd; [footprint |].
  destruct (may_create_discussion Hd) as [Hs He]. footprint.
Qed.

Lemma legacy_within_createThread a n t b : within ok strict (Legacy.createThread cfg a n t b).
Proof.
  unfold Legacy.createThread.
  apply within_bind; [apply within_channels_fetch | intros forum].
  case_eq (DRY_RUN cfg); intros Hd; [footprint |].
  destruct (may_create_thread Hd) as [Hs He]. footprint.
Qed.

Lemma legacy_within_pushDiscordMessage t c d :
  within ok strict (Legacy.pushDiscordMessage cfg t c d).
Proof.
  unfold Legacy.pushDiscordMessage. case_eq (DRY_RUN cfg); intros Hd; [footprint |].
  destruct (may_send Hd) as [Hs He]. footprint.
Qed.

Lemma legacy_within_pushGithubComment t m d :
  within ok strict (Legacy.pushGithubComment cfg t m d).
Proof.
  unfold Legacy.pushGithubComment. case_eq (DRY_RUN cfg); intros Hd; [footprint |].
  destruct (may_comment Hd) as [Hs He]. footprint.
Qed.

Hint Resolve legacy_within_findThreadOnGitHub legacy_within_findDiscussionOnDiscord
  legacy_within_createDiscussion legacy_within_createThread
  legacy_within_pushDiscordMessage legacy_within_pushGithubComment : footprint.

Lemma legacy_within_syncMessages t d : within ok strict (Legacy.syncMessages cfg t d).
Proof. unfold Legacy.syncMessages; footprint. Qed.

Hint Resolve legacy_within_syncMessages : footprint.

Lemma legacy_within_syncDiscussionOnDiscord d :
  within ok strict (Legacy.syncDiscussionOnDiscord cfg d).
Proof. unfold Legacy.syncDiscussionOnDiscord; footprint. Qed.

Lemma legacy_within_syncThreadOnGitHub t :
  within ok strict (Legacy.syncThreadOnGitHub cfg t).
Proof. unfold Legacy.syncThreadOnGitHub; footprint. Qed.

Hint Resolve legacy_within_syncDiscussionOnDiscord legacy_within_syncThreadOnGitHub
  : footprint.

Lemma legacy_within_webhook req :
  (forall code, ok (SendStatus code) = true) -> within ok strict (Legacy.webhook cfg req).
Proof. intros Hst. unfold Legacy.webhook; footprint. Qed.

Lemma legacy_within_on_threadCreate t : within ok strict (Legacy.on_threadCreate cfg t).
Proof. unfold Legacy.on_threadCreate, Legacy.threadCreate; footprint. Qed.

Lemma legacy_within_passes : within ok strict (LegacyStart.passes cfg).
Proof. unfold LegacyStart.passes; footprint. Qed.

Lemma legacy_within_init :
  strict = false -> (forall r n d, ok (CreateDiscussionCategory r n d) = true) ->
  within ok strict (Legacy.init cfg).
Proof.
  intros Hs He.
  assert (Hf := legacy_within_fetchRepoCategoryIdByName (CATEGORY_NAME cfg) true Hs He).
  assert (Hp := legacy_within_passes).
  change (Legacy.init cfg) with
    (bind
       (try_catch
          (id <- Legacy.fetchRepoCategoryIdByName cfg (CATEGORY_NAME cfg) true ;;
           modify (set_REPO_CATEGORY_ID (Some id)) ;;
           logger INFO (lit "Using Repository Category ID: " ++ id) ;;
           ret true)
          (fun categoryError =>
             logger ERROR (lit "Category initialization failed: " ++
                           e_message categoryError) ;;
             emit (ProcessExit 1) ;;
             ret false))
       (fun loaded : bool => if loaded then LegacyStart.passes cfg else ret tt)).
  footprint.
Qed.

End Discipline.

(** What a discipline says of the events added. *)
Lemma reading_writes (added : list Event) :
  forallb reading added = true -> Run.writes added = [].
Proof.
  induction added as [| e added IH]; simpl; [reflexivity |].
  unfold reading at 1. intros H. apply andb_prop in H as [He Hrest].
  apply negb_true_iff in He. rewrite He. now apply IH.
Qed.

Lemma reading_quiet (e : Event) :
  is_write e = false -> is_status e = false -> reading e = true.
Proof. intros H _. unfold reading. now rewrite H. Qed.

Lemma unanswered_quiet (e : Event) :
  is_write e = false -> is_status e = false -> unanswered e = true.
Proof. intros _ H. unfold unanswered. now rewrite H. Qed.

Lemma settling_quiet (e : Event) :
  is_write e = false -> is_status e = false -> settling e = true.
Proof. intros H _. unfold settling. now rewrite H. Qed.

(** Of the mutating calls, a run that is settling makes none but
    creations of a category. *)
Lemma settling_writes (added : list Event) :
  forallb settling added = true -> forallb creates_category (Run.writes added) = true.
Proof.
  induction added as [| e added IH]; simpl; [reflexivity |].
  intros H. apply andb_prop in H as [He Hrest].
  destruct (is_write e) eqn:Hw; [| now apply IH].
  simpl. unfold settling in He. rewrite Hw in He. simpl in He.
  rewrite He. now apply IH.
Qed.

Lemma towards_github_quiet (e : Event) :
  is_write e = false -> is_status e = false -> towards_github e = true.
Proof. destruct e; simpl; intros; try reflexivity; discriminate. Qed.

Lemma towards_discord_quiet (e : Event) :
  is_write e = false -> is_status e = false -> towards_discord e = true.
Proof. destruct e; simpl; intros; try reflexivity; discriminate. Qed.

(** With [DRY_RUN] on, nothing is asked of the writes. *)
Lemma dry_may (cfg : Config) (P : Prop) :
  DRY_RUN cfg = true -> DRY_RUN cfg = false -> P.
Proof. intros H1 H2. rewrite H1 in H2. discriminate. Qed.

Lemma done_within ok strict {A} (c : M A) :
  within ok strict c -> within ok strict (done c).
Proof. intros H. apply within_bind; [exact H | intros _; apply within_ret]. Qed.

End FootprintFacts.

(** X3.  The webhook endpoint always answers, and answers once.  Whatever
    the request and whatever fails on the way, the handler returns; of what
    it awaits, the last thing is to send one status, 200 or 500, and it
    sends no other.  What a failed catch-up has left running (the listing of
    the comments, when the messages of the thread could not be fetched) goes
    on at times of its own, possibly after the answer: it only reads.  The
    handler sends 500 exactly after logging the error it caught, written as
    the template writes it, name and message.  A request that is not the
    creation of a discussion or of a discussion comment is answered 200 with
    nothing else done. *)
Theorem webhook_answers_once (cfg : Config) (req : Request) (w : World) :
  exists before code left,
    fst (Index.webhook cfg req w) = Ok tt /\
    trace (snd (Index.webhook cfg req w)) = trace w ++ before ++ [SendStatus code] /\
    forallb Footprint.unanswered before = true /\
    detached (snd (Index.webhook cfg req w)) = detached w ++ left /\
    forallb is_read left = true /\
    ((code = 200 /\ fst (Endpoint.routed cfg req w) = Ok tt) \/
     (code = 500 /\
      exists e rest,
        fst (Endpoint.routed cfg req w) = Throw e /\
        before = rest ++ [Log ERROR (lit "Webhook handler error: " ++ toString e)]))%Z /\
    (Endpoint.concerns req = false -> before = [] /\ left = [] /\ code = 200%Z).
Proof.
  change (Index.webhook cfg req) with (Endpoint.answered cfg req).
  assert (Hother : Endpoint.concerns req = false -> Endpoint.routed cfg req w = (Ok tt, w)).
  { unfold Endpoint.concerns, Endpoint.routed.
    destruct (eqb (x_github_event req) (lit "discussion"));
      destruct (eqb (x_github_event req) (lit "discussion_comment"));
      destruct (eqb (action req) (lit "created")); simpl; intros H;
      try discriminate; reflexivity. }
  assert (Hwithin : Footprint.within Footprint.unanswered false (Endpoint.routed cfg req)).
  { apply FootprintFacts.within_routed; try exact FootprintFacts.unanswered_quiet;
      intros _; split; reflexivity. }
  destruct (Hwithin w) as [(added & Htrace & Hok) [(left & Hleft & Hreads) _]].
  unfold Endpoint.answered, try_catch, bind.
  destruct (Endpoint.routed cfg req w) as [[[] | e] w1] eqn:E; cbn [snd fst] in *.
  - exists added, 200%Z, left. cbn. rewrite Htrace, <- app_assoc.
    split; [reflexivity | split; [reflexivity | split; [exact Hok |]]].
    split; [exact Hleft | split; [exact Hreads | split]].
    + left. split; reflexivity.
    + intros Hc. specialize (Hother Hc). injection Hother as ->.
      split; [| split; [| reflexivity]].
      * apply (app_inv_head (trace w)). now rewrite app_nil_r.
      * apply (app_inv_head (detached w)). now rewrite app_nil_r.
  - exists (added ++ [Log ERROR (lit "Webhook handler error: " ++ toString e)]), 500%Z, left.
    cbn. rewrite Htrace, <- !app_assoc.
    split; [reflexivity | split; [reflexivity | split; [| split; [exact Hleft |]]]].
    + rewrite forallb_app, Hok. reflexivity.
    + split; [exact Hreads | split].
      * right. split; [reflexivity |]. now exists e, added.
      * intros Hc. specialize (Hother Hc). discriminate.
Qed.

(** The messages of the thread cannot be fetched (the third call fails):
    the catch-up fails at once, the endpoint logs the error and answers 500,
    and the listing of the comments, three pages of them, is what was left
    running. *)
Lemma webhook_leaves_listing_running :
  let d := {| d_id := d_id Sample.linked; d_number := d_number Sample.linked;
              d_title := d_title Sample.linked; d_body := d_body Sample.linked;
              d_author := d_author Sample.linked;
              d_category := Some (lit "General") |} in
  let req := {| x_github_event := lit "discussion_comment"; action := lit "created";
                discussion := Some d |} in
  let w := {| github := github Scene.crowded; discord := discord Scene.crowded;
              next_id := 1000;
              outage := fun n => Nat.eqb n 2; calls := 0;
              discussionCache := None;
              REPO_CATEGORY_ID := Some (lit "C_1"); trace := [];
              detached := [] |} in
  let out := snd (Index.webhook Sample.live req w) in
  skipn 4 (trace out) =
    [FetchMessages (lit "555");
     Log ERROR (lit "Webhook handler error: Error: request failed");
     SendStatus 500] /\
  detached out =
    [QueryComments 7 None; QueryComments 7 (Some 100); QueryComments 7 (Some 200)].
Proof. vm_compute. split; reflexivity. Qed.

(** X4.  The [messageCreate] handler lets no failure out.  Whatever the
    entry point it routes to does, the handler returns.  When routing the
    message fails with [e], the handler logs the error and replies once to
    the message with [Failed to sync to GitHub: e]; if that reply fails
    too, it logs that and still returns. *)
Theorem messageCreate_lets_no_failure_out
    (cfg : Config) (sync : AnyThreadChannel -> M unit) (message : Message) (w : World) :
  fst (Index.messageCreate cfg sync message w) = Ok tt /\
  match Endpoint.relayed cfg sync message w with
  | (Ok _, w1) => Index.messageCreate cfg sync message w = (Ok tt, w1)
  | (Throw e, w1) =>
      exists rest,
        trace (snd (Index.messageCreate cfg sync message w)) =
          trace w1 ++
          [Log ERROR (lit "Discord messageCreate error: " ++ e_message e);
           MessageReply (m_id message) (lit "Failed to sync to GitHub: " ++ e_message e)] ++
          rest /\
        (rest = [] \/
         exists replyError,
           rest = [Log ERROR (lit "Failed to send error reply: " ++ toString replyError)])
  end.
Proof.
  pose (h := fun e : JsError =>
               logger ERROR (lit "Discord messageCreate error: " ++ e_message e) ;;
               try_catch
                 (message_reply message (lit "Failed to sync to GitHub: " ++ e_message e))
                 (fun replyError =>
                    logger ERROR (lit "Failed to send error reply: " ++ toString replyError))).
  change (Index.messageCreate cfg sync message w)
    with (try_catch (Endpoint.relayed cfg sync message) h w).
  unfold try_catch.
  destruct (Endpoint.relayed cfg sync message w) as [[[] | e] w1]; [split; reflexivity |].
  subst h. cbv beta.
  rewrite (RunFacts.bind_ok _ (RunFacts.logger_advance _ _ w1)).
  set (w2 := Run.advance 0 _ w1).
  unfold try_catch.
  set (content := lit "Failed to sync to GitHub: " ++ e_message e).
  assert (Hreply : exists r w3,
            message_reply message content w2 = (r, w3) /\
            trace w3 = trace w2 ++ [MessageReply (m_id message) content]).
  { unfold message_reply, bind, call.
    destruct (outage w2 (calls w2)); [eexists; eexists; split; reflexivity |].
    destruct (m_channel message) as [thread |]; [| eexists; eexists; split; reflexivity].
    unfold get. cbn [find_thread].
    match goal with
    | |- context [find_thread ?i ?x] => destruct (find_thread i x)
    end; eexists; eexists; split; reflexivity. }
  destruct Hreply as (r & w3 & Hrun & Htrace). rewrite Hrun.
  destruct r as [[] | e'].
  - split; [reflexivity |]. exists []. split; [| now left].
    cbn [snd]. rewrite Htrace. unfold w2. cbn. now rewrite <- app_assoc.
  - split; [reflexivity |].
    exists [Log ERROR (lit "Failed to send error reply: " ++ toString e')].
    split; [| right; now exists e'].
    cbn. rewrite Htrace. unfold w2. cbn. now rewrite <- !app_assoc.
Qed.

(** X5.  Dry run in [index.ts].  With [DRY_RUN] on, start-up, the webhook
    endpoint, the two synchronizations, the catch-up step and every
    function that only reads issue no mutating call and leave both
    platforms as they are, from any state and whatever fails on the way.
    (The [messageCreate] handler is not among them: it replies to the
    message when the synchronization fails.) *)
Theorem dry_run_writes_nothing
    (cfg : Config) (op : Operation) (w : World)
    (Hdry : DRY_RUN cfg = true)
    (Hguarded : Footprint.guarded op = true) :
  exists added,
    trace (snd (perform cfg op w)) = trace w ++ added /\
    Run.writes added = [] /\
    github (snd (perform cfg op w)) = github w /\
    discord (snd (perform cfg op w)) = discord w.
Proof.
  assert (H : Footprint.within Footprint.reading true (perform cfg op)).
  { destruct op; try discriminate Hguarded; cbn [perform];
      try apply FootprintFacts.done_within;
      first [ apply FootprintFacts.within_init
            | apply FootprintFacts.within_webhook
            | apply FootprintFacts.within_on_threadCreate
            | apply FootprintFacts.within_syncDiscussionOnDiscord
            | apply FootprintFacts.within_syncThreadOnGitHub
            | apply FootprintFacts.within_syncMessages
            | apply FootprintFacts.within_findThreadOnGitHub
            | apply FootprintFacts.within_findDiscussionOnDiscord
            | apply FootprintFacts.within_loadGithub
            | apply FootprintFacts.within_listGithubDiscussions
            | apply FootprintFacts.within_listGithubComments
            | apply FootprintFacts.within_listDiscordThreads
            | apply FootprintFacts.within_listDiscordMessages ];
      first [ exact FootprintFacts.reading_quiet
            | apply FootprintFacts.dry_may; exact Hdry
            | reflexivity ]. }
  destruct (H w) as ((added & Htrace & Hok) & _ & Hsame & _).
  destruct (Hsame eq_refl) as [Hg Hd].
  exists added. repeat split; try assumption.
  now apply FootprintFacts.reading_writes.
Qed.

Lemma dry_run_writes_nothing_witness :
  DRY_RUN Sample.dry = true /\
  Footprint.guarded (op_syncThreadOnGitHub Sample.thread) = true /\
  exists added,
    trace (snd (perform Sample.dry (op_syncThreadOnGitHub Sample.thread) Sample.world))
      = trace Sample.world ++ added /\
    Run.writes added = [] /\
    github (snd (perform Sample.dry (op_syncThreadOnGitHub Sample.thread) Sample.world))
      = github Sample.world /\
    discord (snd (perform Sample.dry (op_syncThreadOnGitHub Sample.thread) Sample.world))
      = discord Sample.world.
Proof.
  split; [reflexivity | split; [reflexivity |]].
  exact (dry_run_writes_nothing Sample.dry (op_syncThreadOnGitHub Sample.thread)
           Sample.world eq_refl eq_refl).
Defined.

(** X7.  Each way keeps to its side.  Synchronizing a thread towards
    GitHub never creates a Discord thread, never rewrites the body of a
    discussion and never replies to a message; synchronizing a discussion
    towards Discord never creates a discussion.  This holds from any
    state, with or without dry run, whether the run returns or throws. *)
Theorem each_way_keeps_to_its_side (cfg : Config) (w : World) :
  (forall thread,
     exists added,
       trace (snd (Index.syncThreadOnGitHub cfg thread w)) = trace w ++ added /\
       forallb Footprint.towards_github added = true) /\
  (forall discussion,
     exists added,
       trace (snd (Index.syncDiscussionOnDiscord cfg discussion w)) = trace w ++ added /\
       forallb Footprint.towards_discord added = true).
Proof.
  split.
  - intros thread.
    assert (H : Footprint.within Footprint.towards_github false
                  (Index.syncThreadOnGitHub cfg thread)).
    { apply FootprintFacts.within_syncThreadOnGitHub;
        try exact FootprintFacts.towards_github_quiet; intros _; split; reflexivity. }
    destruct (H w) as [Hadded _]. exact Hadded.
  - intros discussion.
    assert (H : Footprint.within Footprint.towards_discord false
                  (Index.syncDiscussionOnDiscord cfg discussion)).
    { apply FootprintFacts.within_syncDiscussionOnDiscord;
        try exact FootprintFacts.towards_discord_quiet; intros _; split; reflexivity. }
    destruct (H w) as [Hadded _]. exact Hadded.
Qed.

(** X8.  Start-up creates no thread.  The listing query does not ask for
    the category of a discussion, and the synchronization towards Discord
    skips a discussion whose category is not the configured one: so the
    pass of [init] over the listed discussions skips every one of them,
    with one log line each.  In a process whose cache is not filled yet,
    [init] as a whole never creates a Discord thread and never rewrites
    the body of a discussion. *)
Theorem init_creates_no_thread (cfg : Config) (w : World)
    (Hfresh : discussionCache w = None) :
  (exists added,
     trace (snd (Index.init cfg w)) = trace w ++ added /\
     forallb Footprint.towards_github added = true) /\
  (forall w0 listing w1 d,
     Github.listGithubDiscussions w0 = (Ok listing, w1) ->
     discussionCache w0 = None ->
     In d listing ->
     forall w2,
       Index.syncDiscussionOnDiscord cfg d w2 =
       (Ok tt, Run.advance 0 [Log INFO (lit "skipping discussion not in the correct category")] w2)).
Proof.
  split.
  - assert (Hbare : Footprint.bare w).
    { intros listing Hl. rewrite Hfresh in Hl. discriminate. }
    destruct (FootprintFacts.step_init Footprint.towards_github false
                FootprintFacts.towards_github_quiet cfg
                (fun _ => conj eq_refl (fun _ _ => eq_refl))
                (fun _ => conj eq_refl (fun _ _ => eq_refl))
                (fun _ => conj eq_refl (fun _ _ _ _ => eq_refl))
                w Hbare) as [Hadded _].
    exact Hadded.
  - intros w0 listing w1 d Hl Hnone Hd w2.
    assert (Hbare : Footprint.bare w0).
    { intros l H. rewrite Hnone in H. discriminate. }
    pose proof (FootprintFacts.listGithubDiscussions_bare w0 listing w1 Hbare Hl) as Hall.
    rewrite Forall_forall in Hall. specialize (Hall d Hd).
    unfold Index.syncDiscussionOnDiscord. rewrite Hall. reflexivity.
Qed.

Lemma init_creates_no_thread_witness :
  discussionCache Sample.behind = None /\
  exists added,
    trace (snd (Index.init Sample.live Sample.behind)) = trace Sample.behind ++ added /\
    forallb Footprint.towards_github added = true.
Proof.
  split; [reflexivity |].
  exact (proj1 (init_creates_no_thread Sample.live Sample.behind eq_refl)).
Defined.

(* ================================================================= *)
(** * Start-up on the GitHub side: the category and the repository *)
Module CategoryFacts.

Import Run RunFacts.

Section WithConfig.

Variable cfg : Config.

(** The first query of [fetchRepoCategoryIdByName], both platforms
    answering. *)
Lemma query_repository_run w :
  no_outage w ->
  query_repository w =
    (Ok (match repository (github w) with
         | Some _ => Some (hasDiscussionsEnabled (github w))
         | None => None
         end),
     advance 1 [QueryRepository] w).
Proof.
  intros Ho. unfold query_repository.
  rewrite (bind_ok _ (call_advance _ w Ho)). reflexivity.
Qed.

Lemma query_categories_run w :
  no_outage w ->
  query_categories w =
    (Ok (match repository (github w) with
         | Some _ => Some (firstn 50 (categories (github w)))
         | None => None
         end),
     advance 1 [QueryCategories] w).
Proof.
  intros Ho. unfold query_categories.
  rewrite (bind_ok _ (call_advance _ w Ho)). reflexivity.
Qed.

(** The outcome of [fetchRepoCategoryIdByName], check after check. *)
Lemma fetchRepoCategoryIdByName_run name w :
  no_outage w ->
  Github.fetchRepoCategoryIdByName cfg name w =
  match repository (github w) with
  | None =>
      let e := lit "Repository " ++ Github.repoName cfg ++
               lit " not found. Check your GITHUB_OWNER and GITHUB_REPO settings." in
      (Throw (new_Error e),
       advance 1 [QueryRepository;
                  Log ERROR (lit "[Github] Repository check failed: " ++ e);
                  Log ERROR (lit "[Github] Failed to fetch or create category with name '" ++
                             name ++ lit "': " ++ e)] w)
  | Some _ =>
      if hasDiscussionsEnabled (github w) then
        match find (fun c => eqb (cat_name c) name) (firstn 50 (categories (github w))) with
        | Some cat => (Ok (cat_id cat), advance 2 [QueryRepository; QueryCategories] w)
        | None =>
            let e := lit "Category '" ++ name ++ lit "' not found in repository " ++
                     Github.repoName cfg in
            (Throw (new_Error e),
             advance 2 [QueryRepository; QueryCategories;
                        Log ERROR (lit "[Github] Failed to fetch or create category with name '" ++
                                   name ++ lit "': " ++ e)] w)
        end
      else
        let e := lit "Discussions are not enabled on repository " ++ Github.repoName cfg ++
                 lit ". Enable them in repository settings." in
        (Throw (new_Error e),
         advance 1 [QueryRepository;
                    Log ERROR (lit "[Github] Repository check failed: " ++ e);
                    Log ERROR (lit "[Github] Failed to fetch or create category with name '" ++
                               name ++ lit "': " ++ e)] w)
  end.
Proof.
  intros Ho. unfold Github.fetchRepoCategoryIdByName.
  unfold try_catch at 1. unfold bind at 1. unfold try_catch at 1.
  rewrite (bind_ok _ (query_repository_run w Ho)).
  set (w1 := advance 1 [QueryRepository] w).
  assert (Ho1 : no_outage w1) by now apply advance_outage.
  destruct (repository (github w)) as [rid |] eqn:Hr.
  - destruct (hasDiscussionsEnabled (github w)) eqn:He.
    + cbn [ret]. rewrite (bind_ok _ (query_categories_run w1 Ho1)).
      change (repository (github w1)) with (repository (github w)). rewrite Hr.
      change (categories (github w1)) with (categories (github w)).
      destruct (find (fun c => eqb (cat_name c) name) (firstn 50 (categories (github w)))).
      * cbn [ret]. unfold w1. now rewrite advance_advance.
      * cbn [throw rethrow e_message new_Error]. rewrite (bind_ok _ (logger_advance _ _ _)).
        cbn [throw rethrow e_message new_Error]. cbv zeta. unfold w1. now rewrite !advance_advance.
    + cbn [throw rethrow e_message new_Error]. rewrite (bind_ok _ (logger_advance _ _ _)).
      cbn [throw rethrow e_message new_Error]. rewrite (bind_ok _ (logger_advance _ _ _)).
      cbn [throw rethrow e_message new_Error]. cbv zeta. unfold w1. now rewrite !advance_advance.
  - cbn [throw rethrow e_message new_Error]. rewrite (bind_ok _ (logger_advance _ _ _)).
    cbn [throw rethrow e_message new_Error]. rewrite (bind_ok _ (logger_advance _ _ _)).
    cbn [throw rethrow e_message new_Error]. cbv zeta. unfold w1. now rewrite !advance_advance.
Qed.

End WithConfig.

End CategoryFacts.

(* ================================================================= *)
(** * Start-up of the single-file version *)
Module LegacyStartFacts.

Import Run RunFacts CategoryFacts.

Section WithConfig.

Variable cfg : Config.

Lemma legacy_getRepositoryId_run w id :
  no_outage w ->
  repository (github w) = Some id ->
  Legacy.getRepositoryId cfg w = (Ok id, advance 1 [QueryRepositoryId] w).
Proof.
  intros Ho Hr. unfold Legacy.getRepositoryId, try_catch, query_repository_id.
  rewrite (bind_ok _ (bind_ok _ (call_advance _ w Ho))).
  unfold bind, get, ret.
  change (repository (github (advance 1 [QueryRepositoryId] w)))
    with (repository (github w)).
  now rewrite Hr.
Qed.

(** The category lookup on a repository that lacks the category: two
    queries, the line that announces the creation, the query for the
    repository, and the creation. *)
Lemma fetchRepoCategoryIdByName_creates name w repositoryId :
  no_outage w ->
  repository (github w) = Some repositoryId ->
  hasDiscussionsEnabled (github w) = true ->
  find (fun c => eqb (cat_name c) name) (firstn 50 (categories (github w))) = None ->
  exists w',
    Legacy.fetchRepoCategoryIdByName cfg name true w =
      (Ok (cat_id (LegacyStart.created w name)), w') /\
    trace w' = trace w ++
      [QueryRepository; QueryCategories;
       Log INFO (lit "Category '" ++ name ++ lit "' not found. Attempting to create it...");
       QueryRepositoryId;
       CreateDiscussionCategory repositoryId name LegacyStart.DESCRIPTION] /\
    categories (github w') = categories (github w) ++ [LegacyStart.created w name] /\
    discussions (github w') = discussions (github w) /\
    discord w' = discord w.
Proof.
  intros Ho Hr He Hfind. unfold Legacy.fetchRepoCategoryIdByName.
  unfold try_catch at 1. unfold bind at 1. unfold try_catch at 1.
  rewrite (bind_ok _ (query_repository_run w Ho)).
  rewrite Hr, He. cbn [ret].
  set (w1 := advance 1 [QueryRepository] w).
  assert (Ho1 : no_outage w1) by now apply advance_outage.
  rewrite (bind_ok _ (query_categories_run w1 Ho1)).
  change (repository (github w1)) with (repository (github w)). rewrite Hr.
  change (categories (github w1)) with (categories (github w)). rewrite Hfind.
  rewrite (bind_ok _ (logger_advance _ _ _)).
  set (w2 := advance 0 _ (advance 1 [QueryCategories] w1)).
  assert (Ho2 : no_outage w2) by (unfold w2; now repeat apply advance_outage).
  unfold try_catch.
  rewrite (bind_ok _ (legacy_getRepositoryId_run w2 repositoryId Ho2 Hr)).
  unfold mutation_createDiscussionCategory.
  set (w3 := advance 1 [QueryRepositoryId] w2).
  assert (Ho3 : no_outage w3) by now apply advance_outage.
  rewrite (bind_ok _ (call_advance _ w3 Ho3)).
  unfold bind, get, fresh_id, ret, modify.
  eexists. split; [reflexivity |].
  cbn [trace categories discussions github discord set_categories advance set_calls set_trace
       w3 w2 w1].
  rewrite <- !app_assoc. repeat split.
Qed.

(** Start-up on such a repository issues the creation. *)
Lemma init_creates w repositoryId :
  no_outage w ->
  repository (github w) = Some repositoryId ->
  hasDiscussionsEnabled (github w) = true ->
  find (fun c => eqb (cat_name c) (CATEGORY_NAME cfg)) (firstn 50 (categories (github w)))
    = None ->
  In (CreateDiscussionCategory repositoryId (CATEGORY_NAME cfg) LegacyStart.DESCRIPTION)
     (trace (snd (Legacy.init cfg w))).
Proof.
  intros Ho Hr He Hfind.
  destruct (fetchRepoCategoryIdByName_creates (CATEGORY_NAME cfg) w repositoryId
              Ho Hr He Hfind) as (w' & Hrun & Htrace & _).
  change (Legacy.init cfg) with
    (bind
       (try_catch
          (id <- Legacy.fetchRepoCategoryIdByName cfg (CATEGORY_NAME cfg) true ;;
           modify (set_REPO_CATEGORY_ID (Some id)) ;;
           logger INFO (lit "Using Repository Category ID: " ++ id) ;;
           ret true)
          (fun categoryError =>
             logger ERROR (lit "Category initialization failed: " ++
                           e_message categoryError) ;;
             emit (ProcessExit 1) ;;
             ret false))
       (fun loaded : bool => if loaded then LegacyStart.passes cfg else ret tt)).
  unfold bind at 1, try_catch. rewrite (bind_ok _ Hrun).
  unfold bind at 1, modify. rewrite (bind_ok _ (logger_advance _ _ _)). cbn [ret].
  match goal with
  | |- In _ (trace (snd (LegacyStart.passes cfg ?x))) =>
      destruct (FootprintFacts.legacy_within_passes (fun _ => true) false
                  (fun _ _ _ => eq_refl) cfg
                  (fun _ => conj eq_refl (fun _ _ => eq_refl))
                  (fun _ => conj eq_refl (fun _ _ => eq_refl))
                  (fun _ => conj eq_refl (fun _ _ => eq_refl))
                  (fun _ => conj eq_refl (fun _ _ => eq_refl))
                  (fun _ => conj eq_refl (fun _ _ _ _ => eq_refl)) x)
        as [(added & Hadded & _) _]
  end.
  rewrite Hadded. cbn [trace advance set_calls set_trace set_REPO_CATEGORY_ID].
  rewrite Htrace. apply in_or_app. left. apply in_or_app. left.
  apply in_or_app. right. cbn. tauto.
Qed.

End WithConfig.

End LegacyStartFacts.

(** X6.  Dry run in the single-file version.  There every function that
    creates, updates or pushes a discussion, a thread, a comment or a
    message looks at [DRY_RUN] itself: with [DRY_RUN] on, each operation on
    its own, these functions included, issues no mutating call and leaves
    both platforms as they are.  Two kinds of operation are not among
    them.  The [messageCreate] handler replies on failure.  The category
    lookup, alone or at start-up, does not look at [DRY_RUN]: the only
    mutating call it can issue is the creation of a category, and it does
    issue it when GitHub answers, the repository has discussions enabled and
    none of the first fifty categories has the configured name. *)
Theorem Legacy_dry_run_writes_nothing
    (cfg : Config) (op : Operation) (w : World)
    (Hdry : DRY_RUN cfg = true) :
  (Footprint.guarded_legacy op = true ->
   exists added,
     trace (snd (perform_legacy cfg op w)) = trace w ++ added /\
     Run.writes added = [] /\
     github (snd (perform_legacy cfg op w)) = github w /\
     discord (snd (perform_legacy cfg op w)) = discord w) /\
  (Footprint.looks_up_category op = true ->
   exists added,
     trace (snd (perform_legacy cfg op w)) = trace w ++ added /\
     forallb Footprint.creates_category (Run.writes added) = true) /\
  (Footprint.looks_up_category op = true ->
   Run.no_outage w ->
   forall repositoryId,
     repository (github w) = Some repositoryId ->
     hasDiscussionsEnabled (github w) = true ->
     find (fun c => eqb (cat_name c) (CATEGORY_NAME cfg))
          (firstn 50 (categories (github w))) = None ->
     In (CreateDiscussionCategory repositoryId (CATEGORY_NAME cfg) LegacyStart.DESCRIPTION)
        (trace (snd (perform_legacy cfg op w)))).
Proof.
  split; [| split].
  - intros Hguarded.
    assert (H : Footprint.within Footprint.reading true (perform_legacy cfg op)).
    { destruct op; try discriminate Hguarded; cbn [perform_legacy];
        try apply FootprintFacts.done_within;
        lazymatch goal with
        | |- Footprint.within _ _ (Legacy.webhook _ _) =>
            apply FootprintFacts.legacy_within_webhook
        | |- Footprint.within _ _ (Legacy.on_threadCreate _ _) =>
            apply FootprintFacts.legacy_within_on_threadCreate
        | |- Footprint.within _ _ (Legacy.syncDiscussionOnDiscord _ _) =>
            apply FootprintFacts.legacy_within_syncDiscussionOnDiscord
        | |- Footprint.within _ _ (Legacy.syncThreadOnGitHub _ _) =>
            apply FootprintFacts.legacy_within_syncThreadOnGitHub
        | |- Footprint.within _ _ (Legacy.syncMessages _ _ _) =>
            apply FootprintFacts.legacy_within_syncMessages
        | |- Footprint.within _ _ (Legacy.findThreadOnGitHub _) =>
            apply FootprintFacts.legacy_within_findThreadOnGitHub
        | |- Footprint.within _ _ (Legacy.findDiscussionOnDiscord _ _) =>
            apply FootprintFacts.legacy_within_findDiscussionOnDiscord
        | |- Footprint.within _ _ Legacy.listDiscussions =>
            apply FootprintFacts.legacy_within_listDiscussions
        | |- Footprint.within _ _ (Legacy.listGitHubComments _) =>
            apply FootprintFacts.legacy_within_listGitHubComments
        | |- Footprint.within _ _ (Legacy.createDiscussion _ _ _) =>
            apply FootprintFacts.legacy_within_createDiscussion
        | |- Footprint.within _ _ (Legacy.updateDiscussion _ _ _) =>
            apply FootprintFacts.legacy_within_updateDiscussion
        | |- Footprint.within _ _ (Legacy.pushGithubComment _ _ _ _) =>
            apply FootprintFacts.legacy_within_pushGithubComment
        | |- Footprint.within _ _ (Legacy.listDiscordThreads _) =>
            apply FootprintFacts.legacy_within_listDiscordThreads
        | |- Footprint.within _ _ (Legacy.listDiscordMessages _) =>
            apply FootprintFacts.legacy_within_listDiscordMessages
        | |- Footprint.within _ _ (Legacy.createThread _ _ _ _ _) =>
            apply FootprintFacts.legacy_within_createThread
        | |- Footprint.within _ _ (Legacy.pushDiscordMessage _ _ _ _) =>
            apply FootprintFacts.legacy_within_pushDiscordMessage
        end;
        first [ exact FootprintFacts.reading_quiet
              | apply FootprintFacts.dry_may; exact Hdry
              | reflexivity ]. }
    destruct (H w) as ((added & Htrace & Hok) & _ & Hsame & _).
    destruct (Hsame eq_refl) as [Hg Hd].
    exists added. repeat split; try assumption.
    now apply FootprintFacts.reading_writes.
  - intros Hlooks.
    assert (H : Footprint.within Footprint.settling false (perform_legacy cfg op)).
    { destruct op; try discriminate Hlooks; cbn [perform_legacy];
        try apply FootprintFacts.done_within;
        first [ apply FootprintFacts.legacy_within_init
              | apply FootprintFacts.legacy_within_fetchRepoCategoryIdByName ];
        first [ exact FootprintFacts.settling_quiet
              | apply FootprintFacts.dry_may; exact Hdry
              | reflexivity ]. }
    destruct (H w) as ((added & Htrace & Hok) & _).
    exists added. split; [exact Htrace |].
    now apply FootprintFacts.settling_writes.
  - intros Hlooks Hup repositoryId Hr He Hfind.
    destruct op; try discriminate Hlooks; cbn [perform_legacy].
    + now apply LegacyStartFacts.init_creates.
    + destruct (LegacyStartFacts.fetchRepoCategoryIdByName_creates cfg (CATEGORY_NAME cfg)
                  w repositoryId Hup Hr He Hfind) as (w' & Hrun & Htrace & _).
      unfold done, bind. rewrite Hrun. cbn [ret snd]. rewrite Htrace.
      apply in_or_app. right. cbn. tauto.
Qed.

Lemma Legacy_dry_run_writes_nothing_witness :
  let op := op_pushDiscordMessage Sample.thread
              (Sample.comment (lit "DC_1") (lit "first reply")) Sample.linked in
  DRY_RUN Sample.dry = true /\
  Footprint.guarded_legacy op = true /\
  (exists added,
     trace (snd (perform_legacy Sample.dry op Sample.behind)) = trace Sample.behind ++ added /\
     Run.writes added = [] /\
     github (snd (perform_legacy Sample.dry op Sample.behind)) = github Sample.behind /\
     discord (snd (perform_legacy Sample.dry op Sample.behind)) = discord Sample.behind) /\
  Run.no_outage Scene.bare_repository /\
  In (CreateDiscussionCategory (lit "R_1") (lit "General") LegacyStart.DESCRIPTION)
     (trace (snd (perform_legacy Sample.dry op_init Scene.bare_repository))).
Proof.
  intros op.
  assert (Hup : Run.no_outage Scene.bare_repository) by (intros n; reflexivity).
  split; [reflexivity | split; [reflexivity |]].
  split; [| split; [exact Hup |]].
  - exact (proj1 (Legacy_dry_run_writes_nothing Sample.dry op Sample.behind eq_refl) eq_refl).
  - exact (proj2 (proj2 (Legacy_dry_run_writes_nothing Sample.dry op_init
                           Scene.bare_repository eq_refl))
             eq_refl Hup (lit "R_1") eq_refl eq_refl eq_refl).
Defined.

(** X9.  What [fetchRepoCategoryIdByName] finds.  With GitHub answering,
    it returns an identifier exactly when the repository exists, has
    discussions enabled and holds, among the first fifty categories it
    lists, one with the name asked for; the identifier is that of the first
    such category, and the two queries are all that was done.  Otherwise it
    throws, and the last line it logged carries the message it throws. *)
Theorem fetchRepoCategoryIdByName_finds
    (cfg : Config) (name : jsstring) (w : World)
    (Hup : Run.no_outage w) :
  let outcome := Github.fetchRepoCategoryIdByName cfg name w in
  let listed := firstn 50 (categories (github w)) in
  (forall id,
     fst outcome = Ok id <->
     repository (github w) <> None /\
     hasDiscussionsEnabled (github w) = true /\
     exists cat,
       find (fun c => eqb (cat_name c) name) listed = Some cat /\ cat_id cat = id) /\
  (forall id,
     fst outcome = Ok id ->
     snd outcome = Run.advance 2 [QueryRepository; QueryCategories] w) /\
  (forall e,
     fst outcome = Throw e ->
     exists before,
       trace (snd outcome) =
       before ++ [Log ERROR (lit "[Github] Failed to fetch or create category with name '" ++
                             name ++ lit "': " ++ e_message e)]).
Proof.
  intros outcome listed. subst outcome listed.
  rewrite (CategoryFacts.fetchRepoCategoryIdByName_run cfg name w Hup).
  destruct (repository (github w)) as [rid |].
  - destruct (hasDiscussionsEnabled (github w)).
    + destruct (find (fun c => eqb (cat_name c) name) (firstn 50 (categories (github w))))
        as [cat |].
      * split; [| split].
        -- intros id. cbn [fst]. split.
           ++ intros H. injection H as <-.
              split; [discriminate | split; [reflexivity |]]. now exists cat.
           ++ intros (_ & _ & cat' & Hc & <-). now injection Hc as <-.
        -- reflexivity.
        -- discriminate.
      * split; [| split].
        -- intros id. cbn [fst]. split; [discriminate |].
           intros (_ & _ & cat' & Hc & _). discriminate.
        -- discriminate.
        -- intros e. cbn [fst snd]. intros H. injection H as <-.
           exists (trace w ++ [QueryRepository; QueryCategories]).
           cbn [trace Run.advance set_calls set_trace]. now rewrite <- app_assoc.
    + split; [| split].
      * intros id. cbn [fst]. split; [discriminate |].
        intros (_ & H & _). discriminate.
      * discriminate.
      * intros e. cbn [fst snd]. intros H. injection H as <-.
        eexists (trace w ++ [QueryRepository; _]).
        cbn [trace Run.advance set_calls set_trace]. now rewrite <- app_assoc.
  - split; [| split].
    + intros id. cbn [fst]. split; [discriminate |].
      intros (H & _). contradiction.
    + discriminate.
    + intros e. cbn [fst snd]. intros H. injection H as <-.
      eexists (trace w ++ [QueryRepository; _]).
      cbn [trace Run.advance set_calls set_trace]. now rewrite <- app_assoc.
Qed.

Lemma fetchRepoCategoryIdByName_finds_witness :
  Run.no_outage Sample.world /\
  fst (Github.fetchRepoCategoryIdByName Sample.live (lit "General") Sample.world)
    = Ok (lit "C_1").
Proof.
  assert (Hup : Run.no_outage Sample.world) by (intros n; reflexivity).
  split; [exact Hup |].
  apply (proj1 (fetchRepoCategoryIdByName_finds Sample.live (lit "General") Sample.world Hup)).
  split; [discriminate | split; [reflexivity |]].
  eexists. split; reflexivity.
Defined.

(** X10.  [loadGithub] sets the category or leaves it alone.  From any
    state and whatever fails: when [loadGithub] returns, [REPO_CATEGORY_ID]
    is the identifier [fetchRepoCategoryIdByName] answered for the
    configured name; when it throws, [REPO_CATEGORY_ID] is what it was, and
    the last line logged is the error line that carries the message
    thrown. *)
Theorem loadGithub_sets_or_reports (cfg : Config) (w : World) :
  match Github.loadGithub cfg w with
  | (Ok _, w') =>
      exists id,
        fst (Github.fetchRepoCategoryIdByName cfg (CATEGORY_NAME cfg) w) = Ok id /\
        REPO_CATEGORY_ID w' = Some id
  | (Throw e, w') =>
      REPO_CATEGORY_ID w' = REPO_CATEGORY_ID w /\
      exists before,
        trace w' =
        before ++ [Log ERROR (lit "[Github] Failed to fetch or create category with name '" ++
                              CATEGORY_NAME cfg ++ lit "': " ++ e_message e)]
  end.
Proof.
  unfold Github.loadGithub, bind.
  destruct (Github.fetchRepoCategoryIdByName cfg (CATEGORY_NAME cfg) w)
    as [[id | e] w1] eqn:E.
  - cbn. now exists id.
  - revert E.
    cbv beta iota zeta delta
      [Github.fetchRepoCategoryIdByName try_catch bind query_repository query_categories
       call get ret throw logger emit modify].
    repeat match goal with
           | |- context [match ?x with _ => _ end] =>
               lazymatch x with
               | outage _ _ => destruct x
               | repository _ => destruct x
               | hasDiscussionsEnabled _ => destruct x
               | find _ _ => destruct x
               end
           | _ => progress cbn [github repository hasDiscussionsEnabled categories outage
                                calls set_calls set_trace]
           | _ => progress cbv beta iota
           end;
      intros H; try discriminate H; injection H as <- <-;
      (split; [reflexivity | eexists; cbn [trace set_trace set_calls]; reflexivity]).
Qed.

(** X11.  [getRepositoryId] wraps what goes wrong.  From any state it makes
    one query.  When it returns, the identifier is that of the repository.
    When the query fails or answers no repository, the cause is logged as
    an error and the error thrown is a new one, whose message is the cause
    behind [Cannot access repository: ]. *)
Theorem getRepositoryId_wraps_failures (cfg : Config) (w : World) :
  match Github.getRepositoryId cfg w with
  | (Ok id, w') =>
      repository (github w) = Some id /\
      trace w' = trace w ++ [QueryRepositoryId]
  | (Throw e, w') =>
      exists cause,
        e = new_Error (lit "Cannot access repository: " ++ cause) /\
        trace w' = trace w ++
          [QueryRepositoryId;
           Log ERROR (lit "[Github] Failed to fetch repository ID: " ++ cause)] /\
        (cause = lit "request failed" \/
         repository (github w) = None /\
         cause = lit "Repository " ++ Github.repoName cfg ++
                 lit " not found. Check your GITHUB_OWNER and GITHUB_REPO settings.")
  end.
Proof.
  cbv beta iota zeta delta
    [Github.getRepositoryId try_catch bind query_repository_id
     call get ret throw logger emit modify].
  destruct (outage w (calls w)).
  - eexists. split; [reflexivity | split; [| now left]].
    cbn [trace set_trace set_calls]. now rewrite <- app_assoc.
  - cbn [github repository set_calls set_trace].
    destruct (repository (github w)) as [rid |].
    + split; reflexivity.
    + eexists. split; [reflexivity | split; [| right; split; reflexivity]].
      cbn [trace set_trace set_calls]. now rewrite <- app_assoc.
Qed.

(* ================================================================= *)
(** * The link, written and read back *)
Module LinkFacts.

Import JsFacts Runs RunsFacts Linker LinkerFacts Run RunFacts.

(** Over a stretch where the pattern matches nowhere, the search goes
    on. *)
Lemma search_skip ic r (rest : jsstring) : forall (pre : jsstring) i,
  (forall p1 p2, pre = p1 ++ p2 -> p2 <> [] ->
     m ic r start (i + length p1) (p2 ++ rest) = None) ->
  search ic r i (pre ++ rest) = search ic r (i + length pre) rest.
Proof.
  induction pre as [| c pre IH]; intros i Hnone.
  - simpl. now rewrite Nat.add_0_r.
  - cbn [app search].
    pose proof (Hnone [] (c :: pre) eq_refl) as H0. cbn [app length] in H0.
    rewrite Nat.add_0_r in H0. rewrite H0 by discriminate.
    rewrite IH.
    + f_equal. simpl. lia.
    + intros p1 p2 -> Hp2. specialize (Hnone (c :: p1) p2 eq_refl Hp2).
      cbn [length] in Hnone. now rewrite Nat.add_succ_r in Hnone.
Qed.

Lemma search_here ic r (s : jsstring) (i : nat) f :
  m ic r start i s = Some f -> search ic r i s = Some (i, f).
Proof. intros H. destruct s; simpl; now rewrite H. Qed.

(** A literal that does not hold [c] cannot reach over a [c]. *)
Lemma prefixb_within (c : code_unit) (p : jsstring) : forall s1 s2,
  ~ In c p -> prefixb p (s1 ++ c :: s2) = true -> prefixb p s1 = true.
Proof.
  induction p as [| x p IH]; intros s1 s2 Hc H; [reflexivity |].
  destruct s1 as [| y s1]; cbn [app prefixb] in *.
  - apply andb_prop in H as [H _]. apply N.eqb_eq in H. subst x.
    exfalso. apply Hc. now left.
  - apply andb_prop in H as [Hxy H]. rewrite Hxy. cbn [andb].
    apply (IH s1 s2); [| exact H]. intros Hin. apply Hc. now right.
Qed.

Lemma OPENING_one_line : ~ In LF OPENING.
Proof.
  cbv. intros H. repeat (destruct H as [H | H]; [discriminate |]). exact H.
Qed.

(** In a body that does not hold the opening of a marker, followed by a
    blank line, the pattern matches nowhere. *)
Lemma markerPattern_not_before (body p1 p2 rest : jsstring) (i : nat) :
  includes body OPENING = false ->
  body ++ [LF; LF] = p1 ++ p2 -> p2 <> [] ->
  m false Index.markerPattern start i (p2 ++ rest) = None.
Proof.
  intros Hnew Hsplit Hp2.
  rewrite markerPattern_parts, m_literal.
  destruct (prefixb OPENING (p2 ++ rest)) eqn:E; [| reflexivity].
  exfalso.
  destruct (@exists_last _ p2 Hp2) as (b2 & last & ->).
  assert (Hlast : last = LF /\ body ++ [LF] = p1 ++ b2).
  { change (body ++ [LF; LF]) with (body ++ [LF] ++ [LF]) in Hsplit.
    rewrite !app_assoc in Hsplit. apply app_inj_tail in Hsplit as [H1 H2].
    split; [now symmetry | exact H1]. }
  destruct Hlast as [-> Hrest].
  rewrite <- app_assoc in E. cbn [app] in E.
  apply prefixb_within in E; [| exact OPENING_one_line].
  destruct b2 as [| x b2] using rev_ind.
  - discriminate E.
  - clear IHb2. rewrite app_assoc in Hrest. apply app_inj_tail in Hrest as [Hbody <-].
    apply prefixb_within in E; [| exact OPENING_one_line].
    apply prefixb_spec in E as [tail ->].
    assert (Hin : includes body OPENING = true).
    { apply includes_spec. exists p1, tail. exact Hbody. }
    congruence.
Qed.

(** At a marker with a numeric identifier the pattern matches the whole
    marker; its group is the identifier. *)
Lemma markerPattern_at (i : nat) (id post : jsstring) :
  numeric id ->
  m false Index.markerPattern start i (Github.marker id ++ post) =
  Some (i + length (Github.marker id),
        [(i + length OPENING, i + length OPENING + length id)]).
Proof.
  intros [Hne Hdigits]. rewrite markerPattern_parts, marker_parts.
  rewrite <- !app_assoc, m_literal_app. cbn [app m].
  destruct id as [| d id]; [contradiction |].
  inversion Hdigits as [| ? ? Hd Hid]; subst.
  cbn [app]. rewrite digit_match, Hd. unfold star.
  rewrite star_greedy_run.
  - cbn [m]. change (literal CLOSING) with (literal CLOSING ++ []).
    rewrite m_literal_app. cbn [m closed opened rev app start].
    rewrite !length_app. cbn [length].
    change (length OPENING) with 13. change (length CLOSING) with 4.
    rewrite ?length_app. change (length CLOSING) with 4.
    repeat first [reflexivity | lia | progress f_equal].
  - eapply Forall_impl; [| exact Hid]. intros c Hc. now rewrite digit_match.
  - reflexivity.
  - intros x1 x2 -> Hx2. destruct x2 as [| c x2]; [contradiction |].
    apply Forall_app in Hid as [_ Hid]. inversion Hid as [| ? ? Hc _]; subst.
    cbn [m]. change (literal CLOSING) with (literal CLOSING ++ []).
    rewrite m_literal. change CLOSING with (32%N :: lit "-->").
    cbn [app]. rewrite prefixb_cons_neq; [reflexivity |].
    unfold is_digit in Hc. apply andb_prop in Hc as [Hc _].
    apply N.leb_le in Hc. lia.
Qed.

(** The marker appended to a body that held none is the one read back. *)
Lemma markerId_appended (body id : jsstring) :
  numeric id ->
  includes body OPENING = false ->
  Index.markerId (body ++ [LF; LF] ++ Github.marker id) = Some id.
Proof.
  intros Hid Hnew. unfold Index.markerId, exec.
  cbn [length Nat.ltb Nat.leb skipn].
  rewrite app_assoc.
  rewrite <- (app_nil_r (Github.marker id)).
  rewrite (search_skip false Index.markerPattern (Github.marker id ++ []) (body ++ [LF; LF]) 0).
  2: { intros p1 p2 Hsplit Hp2.
       now apply (markerPattern_not_before body p1 p2). }
  rewrite (search_here _ _ _ _ _ (markerPattern_at _ id [] Hid)).
  unfold option_map, group, mkMatch, groups. cbn [map nth fst snd].
  f_equal. rewrite marker_parts, app_nil_r.
  replace ((body ++ [LF; LF]) ++ OPENING ++ id ++ CLOSING)
    with (((body ++ [LF; LF]) ++ OPENING) ++ id ++ CLOSING)
    by (now rewrite <- !app_assoc).
  replace (0 + length (body ++ [LF; LF]) + length OPENING)
    with (length ((body ++ [LF; LF]) ++ OPENING))
    by (rewrite !length_app; lia).
  apply slice_middle.
Qed.

End LinkFacts.

(* ================================================================= *)
(** * What the writes leave behind *)
Module StateFacts.

Import JsFacts Run RunFacts PushFacts.

Lemma find_map {A B} (p : B -> bool) (g : A -> B) (l : list A) :
  find p (map g l) = option_map g (find (fun x => p (g x)) l).
Proof.
  induction l as [| x l IH]; simpl; [reflexivity |].
  destruct (p (g x)); [reflexivity | exact IH].
Qed.

Lemma find_known number discussionId r w :
  find_discussion number w = Some r -> d_id (rd r) = discussionId ->
  known discussionId w = true.
Proof.
  intros Hf Hid. unfold known. apply existsb_exists. exists r.
  apply find_some in Hf as [Hin _]. split; [exact Hin |].
  rewrite Hid. apply eqb_refl.
Qed.

Lemma length_mirrored bot (fetched : list Message) :
  length (mirrored bot fetched) = length fetched - 1.
Proof. unfold mirrored. now rewrite length_skipn, length_rev, length_map. Qed.

(** [thread.send]: one more message in the thread, GitHub untouched. *)
Lemma thread_send_state thread content w r :
  no_outage w ->
  find_thread (t_id thread) w = Some r ->
  exists w' r',
    thread_send thread content w = (Ok tt, w') /\
    trace w' = trace w ++ [ThreadSend (t_id thread) content] /\
    no_outage w' /\
    github w' = github w /\
    user (discord w') = user (discord w) /\
    find_thread (t_id thread) w' = Some r' /\
    length (rt_messages r') = S (length (rt_messages r)).
Proof.
  intros Ho Hf. unfold thread_send.
  rewrite (bind_ok _ (call_advance _ w Ho)).
  unfold bind, get.
  change (find_thread (t_id thread) (advance 1 [ThreadSend (t_id thread) content] w))
    with (find_thread (t_id thread) w).
  rewrite Hf. cbn [modify].
  eexists; eexists. split; [reflexivity |].
  split; [reflexivity |]. split; [exact Ho |].
  split; [reflexivity |]. split; [reflexivity |].
  unfold find_thread, post. cbn [threads discord set_threads].
  rewrite find_map_kept.
  - unfold find_thread in Hf. cbn [threads discord advance set_calls set_trace].
    rewrite Hf. cbn [option_map].
    apply find_some in Hf as [_ Hid]. rewrite Hid.
    split; reflexivity.
  - intros x. destruct (eqb (t_id (rt x)) (t_id thread)) eqn:E; simpl; exact E.
Qed.

(** [addDiscussionComment]: one more comment on the discussion, Discord
    untouched. *)
Lemma addDiscussionComment_state discussionId body number w r :
  no_outage w ->
  find_discussion number w = Some r ->
  d_id (rd r) = discussionId ->
  exists w' r',
    mutation_addDiscussionComment discussionId body w = (Ok tt, w') /\
    trace w' = trace w ++ [AddDiscussionComment discussionId body] /\
    no_outage w' /\
    discord w' = discord w /\
    find_discussion number w' = Some r' /\
    d_id (rd r') = discussionId /\
    length (rd_comments r') = S (length (rd_comments r)).
Proof.
  intros Ho Hf Hid. unfold mutation_addDiscussionComment.
  rewrite (bind_ok _ (call_advance _ w Ho)).
  unfold bind at 1. unfold get.
  change (known discussionId (advance 1 [AddDiscussionComment discussionId body] w))
    with (known discussionId w).
  rewrite (find_known number discussionId r w Hf Hid).
  unfold bind, fresh_id, get, ret, modify.
  eexists; eexists. split; [reflexivity |].
  split; [reflexivity |]. split; [exact Ho |]. split; [reflexivity |].
  unfold find_discussion, update_remote. cbn [discussions github set_discussions].
  rewrite find_map_kept.
  - unfold find_discussion in Hf. cbn [discussions github advance set_calls set_trace].
    rewrite Hf. cbn [option_map]. rewrite Hid, eqb_refl.
    split; [reflexivity |]. split; [exact Hid |].
    cbn [rd_comments]. rewrite length_app. simpl. lia.
  - intros x. destruct (eqb (d_id (rd x)) discussionId); reflexivity.
Qed.

(** A push loop, element by element: [I i] is what holds before element
    [i] is pushed. *)
Lemma for_range_steps {A} (I : nat -> World -> Prop) (xs : list A)
    (push : A -> M unit) (ev : A -> list Event) :
  (forall i x w, I i w -> nth_error xs i = Some x ->
     exists w', push x w = (Ok tt, w') /\ trace w' = trace w ++ ev x /\ I (S i) w') ->
  forall count from w,
    from + count = length xs -> I from w ->
    exists w',
      for_range from count (fun idx => bind (item xs idx) push) w = (Ok tt, w') /\
      trace w' = trace w ++ flat_map ev (skipn from xs) /\ I (length xs) w'.
Proof.
  intros Hpush. induction count as [| count IH]; intros from w Hlen HI; simpl.
  - exists w. rewrite skipn_all2 by lia. simpl. rewrite app_nil_r.
    replace (length xs) with from by lia. auto.
  - destruct (nth_error xs from) as [x |] eqn:Hx.
    2: { apply nth_error_None in Hx. lia. }
    destruct (Hpush from x w HI Hx) as (w1 & Hrun & Htrace & HI1).
    destruct (IH (S from) w1) as (w2 & Hrun2 & Htrace2 & HI2); [lia | exact HI1 |].
    exists w2. split; [| split; [| exact HI2]].
    + unfold bind at 1. unfold bind at 1. unfold item. rewrite Hx. unfold ret.
      rewrite Hrun. exact Hrun2.
    + rewrite Htrace2, Htrace, (skipn_cons_nth _ _ _ Hx). simpl.
      now rewrite app_assoc.
Qed.

Section WithConfig.

Variable cfg : Config.

(** The catch-up step, with what it leaves on both sides. *)
Lemma syncMessages_run thread discussion w onDiscord onGithub :
  DRY_RUN cfg = false ->
  no_outage w ->
  find_thread (t_id thread) w = Some onDiscord ->
  find_discussion (d_number discussion) w = Some onGithub ->
  d_id (rd onGithub) = d_id discussion ->
  let tm := mirrored (user (discord w)) (rt_messages onDiscord) in
  let dm := rd_comments onGithub in
  exists w' added onDiscord' onGithub',
    Index.syncMessages cfg thread discussion w = (Ok tt, w') /\
    trace w' = trace w ++ added /\
    writes added =
      map (Push.toDiscord cfg thread discussion) (skipn (length tm) dm) ++
      map (Push.toGithub thread discussion) (skipn (length dm) tm) /\
    no_outage w' /\
    user (discord w') = user (discord w) /\
    find_thread (t_id thread) w' = Some onDiscord' /\
    find_discussion (d_number discussion) w' = Some onGithub' /\
    d_id (rd onGithub') = d_id discussion /\
    length (rt_messages onDiscord') =
      length (rt_messages onDiscord) + (length dm - length tm) /\
    length (rd_comments onGithub') = length dm + (length tm - length dm).
Proof.
  intros Hlive Hup Hthread Hdiscussion Hid tm dm. unfold Index.syncMessages.
  rewrite (bind_ok _ (logger_advance _ _ w)).
  set (w1 := advance 0 _ w).
  assert (Hup1 : no_outage w1) by now apply advance_outage.
  pose proof (listDiscordMessages_run thread onDiscord w1 Hup1 Hthread) as Hlisted.
  set (w2 := advance 1 _ w1) in Hlisted.
  assert (Hup2 : no_outage w2) by now apply advance_outage.
  destruct (listGithubComments_run discussion onGithub w2 Hup2 Hdiscussion)
    as (n & pages & Hpages & _ & Hall).
  rewrite (bind_ok _ (promise_all_run _ _ _ _ _ _ _ Hlisted Hpages)).
  cbv zeta. cbn [fst snd].
  change (mirrored (user (discord w1)) (rt_messages onDiscord)) with tm.
  fold dm.
  set (w3 := advance n pages w2).
  assert (Hup3 : no_outage w3) by now apply advance_outage.
  pose (loaded := Log INFO (lit "Loading messages from thread " ++ t_id thread ++
                            lit " & discussion " ++ d_id discussion)
                  :: FetchMessages (t_id thread) :: pages).
  assert (Htrace3 : trace w3 = trace w ++ loaded).
  { unfold w3, w2, w1, loaded. cbn [trace advance set_calls set_trace].
    now rewrite <- !app_assoc. }
  assert (Hw0 : writes loaded = []).
  { unfold loaded. change (writes pages = []). exact (writes_pages _ _ Hall). }
  assert (Hg3 : github w3 = github w) by reflexivity.
  assert (Hd3 : discord w3 = discord w) by reflexivity.
  clearbody loaded.
  destruct (length tm =? length dm) eqn:Heq.
  - (* nothing to push *)
    apply Nat.eqb_eq in Heq.
    exists (advance 0 [Log INFO (lit "No new messages to sync between Discord thread " ++
                                 t_id thread ++ lit " & GitHub discussion " ++
                                 d_id discussion)] w3).
    eexists; exists onDiscord, onGithub.
    split; [apply logger_advance |].
    split; [cbn [trace advance set_calls set_trace]; rewrite Htrace3, <- app_assoc;
            reflexivity |].
    split.
    { rewrite writes_app, Hw0. cbn [writes filter is_write app].
      rewrite !skipn_all2 by lia. reflexivity. }
    split; [now apply advance_outage |].
    split; [reflexivity |]. split; [exact Hthread |]. split; [exact Hdiscussion |].
    split; [exact Hid |]. split; unfold dm, tm in *; lia.
  - apply Nat.eqb_neq in Heq.
    destruct (length tm <? length dm) eqn:Hlt.
    + (* Discord is behind *)
      apply Nat.ltb_lt in Hlt.
      rewrite (bind_ok _ (logger_advance _ _ w3)). rewrite Hlive.
      set (w4 := advance 0 _ w3).
      destruct (for_range_steps
                  (fun i w0 =>
                     no_outage w0 /\ github w0 = github w /\
                     user (discord w0) = user (discord w) /\
                     exists r, find_thread (t_id thread) w0 = Some r /\
                               length (rt_messages r) + length tm =
                               length (rt_messages onDiscord) + i)
                  dm
                  (fun message => Discord.pushDiscordMessage cfg thread message discussion)
                  (fun comment =>
                     [Log INFO (lit "[Discord] Sending message to Discord thread " ++
                                t_id thread ++ lit ": " ++ c_body comment);
                      Push.toDiscord cfg thread discussion comment]))
        with (count := length dm - length tm) (from := length tm) (w := w4)
        as (w' & Hrun & Htrace & Ho' & Hg' & Hu' & r' & Hr' & Hlen').
      * intros i x w0 (Ho0 & Hg0 & Hu0 & r0 & Hr0 & Hl0) Hx.
        unfold Discord.pushDiscordMessage.
        rewrite (bind_ok _ (logger_advance _ _ w0)).
        destruct (thread_send_state thread
                    (Discord.makeDiscordMessage cfg (login (c_author x))
                       (d_number discussion) (c_body x))
                    (advance 0 [Log INFO (lit "[Discord] Sending message to Discord thread " ++
                                          t_id thread ++ lit ": " ++ c_body x)] w0) r0)
          as (w5 & r5 & Hrun5 & Htrace5 & Ho5 & Hg5 & Hu5 & Hr5 & Hl5).
        -- now apply advance_outage.
        -- exact Hr0.
        -- exists w5. split; [exact Hrun5 |]. split.
           ++ rewrite Htrace5. cbn [trace advance set_calls set_trace].
              now rewrite <- app_assoc.
           ++ split; [exact Ho5 |]. split; [now rewrite Hg5 |].
              split; [now rewrite Hu5 |]. exists r5. split; [exact Hr5 | lia].
      * lia.
      * split; [now apply advance_outage |]. split; [reflexivity |].
        split; [reflexivity |]. exists onDiscord. split; [exact Hthread | lia].
      * exists w'. eexists. exists r', onGithub.
        split; [exact Hrun |].
        split; [rewrite Htrace; unfold w4; cbn [trace advance set_calls set_trace];
                rewrite Htrace3, <- !app_assoc; reflexivity |].
        split.
        { rewrite !writes_app, Hw0. cbn [writes filter is_write app].
          rewrite writes_pushes by reflexivity.
          rewrite (skipn_all2 tm) by lia. cbn [map]. now rewrite app_nil_r. }
        split; [exact Ho' |]. split; [exact Hu' |]. split; [exact Hr' |].
        split; [unfold find_discussion; rewrite Hg'; exact Hdiscussion |].
        split; [exact Hid |]. split; unfold dm, tm in *; lia.
    + (* GitHub is behind *)
      apply Nat.ltb_ge in Hlt.
      rewrite (bind_ok _ (logger_advance _ _ w3)). rewrite Hlive.
      set (w4 := advance 0 _ w3).
      destruct (for_range_steps
                  (fun i w0 =>
                     no_outage w0 /\ discord w0 = discord w /\
                     exists r, find_discussion (d_number discussion) w0 = Some r /\
                               d_id (rd r) = d_id discussion /\
                               length (rd_comments r) = i)
                  tm
                  (fun message => Github.pushGithubComment thread message discussion)
                  (fun message =>
                     [Log INFO (lit "[Github] Sending comment to GitHub discussion " ++
                                of_Z (d_number discussion) ++ lit ": " ++ tm_message message);
                      Push.toGithub thread discussion message]))
        with (count := length tm - length dm) (from := length dm) (w := w4)
        as (w' & Hrun & Htrace & Ho' & Hd' & r' & Hr' & Hid' & Hlen').
      * intros i x w0 (Ho0 & Hd0 & r0 & Hr0 & Hid0 & Hl0) Hx.
        unfold Github.pushGithubComment.
        rewrite (bind_ok _ (logger_advance _ _ w0)).
        destruct (addDiscussionComment_state (d_id discussion)
                    (Github.makeGithubComment (tm_message x) (tm_user x)
                       (Github.messageUrl thread (tm_id x)))
                    (d_number discussion)
                    (advance 0 [Log INFO (lit "[Github] Sending comment to GitHub discussion " ++
                                          of_Z (d_number discussion) ++ lit ": " ++
                                          tm_message x)] w0) r0)
          as (w5 & r5 & Hrun5 & Htrace5 & Ho5 & Hd5 & Hr5 & Hid5 & Hl5).
        -- now apply advance_outage.
        -- exact Hr0.
        -- exact Hid0.
        -- exists w5. split; [exact Hrun5 |]. split.
           ++ rewrite Htrace5. cbn [trace advance set_calls set_trace].
              now rewrite <- app_assoc.
           ++ split; [exact Ho5 |]. split; [now rewrite Hd5 |].
              exists r5. split; [exact Hr5 |]. split; [exact Hid5 | lia].
      * lia.
      * split; [now apply advance_outage |]. split; [reflexivity |].
        exists onGithub. split; [exact Hdiscussion |]. split; [exact Hid | reflexivity].
      * exists w'. eexists. exists onDiscord, r'.
        split; [exact Hrun |].
        split; [rewrite Htrace; unfold w4; cbn [trace advance set_calls set_trace];
                rewrite Htrace3, <- !app_assoc; reflexivity |].
        split.
        { rewrite !writes_app, Hw0. cbn [writes filter is_write app].
          rewrite writes_pushes by reflexivity.
          rewrite (skipn_all2 dm) by lia. reflexivity. }
        split; [exact Ho' |]. split; [now rewrite Hd' |].
        split; [unfold find_thread; rewrite Hd'; exact Hthread |].
        split; [exact Hr' |]. split; [exact Hid' |]. split; unfold dm, tm in *; lia.
Qed.

End WithConfig.

(** The messages of a thread as the catch-up sees them, around one of
    them: none is left out but the first. *)
Lemma mirrored_around bot (later earlier : list Message) (message seed : Message) :
  mirrored bot (later ++ message :: earlier ++ [seed]) =
  rev (map (Discord.toThreadMessage bot) earlier) ++
  Discord.toThreadMessage bot message :: rev (map (Discord.toThreadMessage bot) later).
Proof.
  unfold mirrored.
  rewrite map_app. cbn [map]. rewrite map_app. cbn [map].
  rewrite rev_app_distr. cbn [rev]. rewrite rev_app_distr. cbn [rev app].
  rewrite <- !app_assoc. reflexivity.
Qed.

End StateFacts.

(** C10, as it is stated, fails: a message that quotes the attribution
    prefix is not left out of the mirror.  Its own event is dropped, but the
    event of the next message in the thread runs the catch-up, which pushes
    both messages to GitHub. *)
Lemma attributed_message_is_mirrored_later :
  let next := Sample.said (lit "557") (lit "thanks") in
  let onGithub := {| rd := Sample.linked; rd_category_id := lit "C_1"; rd_comments := [] |} in
  let w := Sample.platform [onGithub] [Sample.quoting; Sample.seed] in
  let w1 := Sample.platform [onGithub] [next; Sample.quoting; Sample.seed] in
  includes (m_content Sample.quoting) ATTRIBUTION = true /\
  Index.on_messageCreate Sample.live Sample.quoting w =
    (Ok tt, set_trace (trace w ++ [Log INFO (lit "message ignored")]) w) /\
  fst (Index.on_messageCreate Sample.live next w1) = Ok tt /\
  Run.writes (trace (snd (Index.on_messageCreate Sample.live next w1))) =
    [AddDiscussionComment (lit "D_7")
       (Github.makeGithubComment (m_content Sample.quoting) (lit "alice")
          (lit "https://discord.com/channels/77/555/556"));
     AddDiscussionComment (lit "D_7")
       (Github.makeGithubComment (lit "thanks") (lit "alice")
          (lit "https://discord.com/channels/77/555/557"))].
Proof. vm_compute. repeat split; reflexivity. Qed.

(** C10 (as amended).  The [messageCreate] handler never invokes the entry
    point for the event of a message whose author is a bot or whose content
    holds the attribution prefix anywhere (a test of containment, not of
    the start): it writes one informational line and returns.  Only the
    event is dropped, not the message: [listDiscordMessages] leaves out
    neither bots nor the prefix, so the next catch-up of the thread, with
    dry run off and both platforms answering, for a discussion that holds
    no more comments than the thread held messages before this one, adds
    the message to the discussion like any other. *)
Theorem messageCreate_drops_the_event_only
    (cfg : Config) (sync : AnyThreadChannel -> M unit)
    (message : Message) (thread : AnyThreadChannel) (discussion : GithubDiscussion)
    (w : World) (onDiscord : RemoteThread) (onGithub : RemoteDiscussion)
    (later earlier : list Message) (seed : Message)
    (Hattributed : u_bot (m_author message) = true \/
                   exists pre post, m_content message = pre ++ ATTRIBUTION ++ post)
    (Hlive : DRY_RUN cfg = false)
    (Hup : Run.no_outage w)
    (Hthread : find_thread (t_id thread) w = Some onDiscord)
    (Hposted : rt_messages onDiscord = later ++ message :: earlier ++ [seed])
    (Hdiscussion : find_discussion (d_number discussion) w = Some onGithub)
    (Hid : d_id (rd onGithub) = d_id discussion)
    (Hbehind : length (rd_comments onGithub) <= length earlier) :
  (exists line,
     In line Triggers.dropped /\
     Index.messageCreate cfg sync message w =
       (Ok tt, set_trace (trace w ++ [Log INFO line]) w)) /\
  (exists w' added,
     Index.syncMessages cfg thread discussion w = (Ok tt, w') /\
     trace w' = trace w ++ added /\
     In (Push.toGithub thread discussion
           (Discord.toThreadMessage (user (discord w)) message)) added).
Proof.
  split; [exact (messageCreate_skips cfg sync message w Hattributed) |].
  destruct (StateFacts.syncMessages_run cfg thread discussion w onDiscord onGithub
              Hlive Hup Hthread Hdiscussion Hid)
    as (w' & added & _ & _ & Hrun & Htrace & Hwrites & _).
  exists w', added. split; [exact Hrun | split; [exact Htrace |]].
  assert (Hin : In (Push.toGithub thread discussion
                      (Discord.toThreadMessage (user (discord w)) message))
                   (Run.writes added)).
  { rewrite Hwrites. apply in_or_app. right. apply in_map.
    rewrite Hposted, StateFacts.mirrored_around.
    rewrite skipn_app. apply in_or_app. right.
    rewrite length_rev, length_map.
    replace (length (rd_comments onGithub) - length earlier) with 0 by lia.
    now left. }
  unfold Run.writes in Hin. now apply filter_In in Hin.
Qed.

Lemma messageCreate_drops_the_event_only_witness :
  let onGithub := {| rd := Sample.linked; rd_category_id := lit "C_1"; rd_comments := [] |} in
  let onDiscord := {| rt := Sample.thread; rt_messages := [Sample.quoting; Sample.seed] |} in
  let w := Sample.platform [onGithub] [Sample.quoting; Sample.seed] in
  (u_bot (m_author Sample.quoting) = true \/
   exists pre post, m_content Sample.quoting = pre ++ ATTRIBUTION ++ post) /\
  DRY_RUN Sample.live = false /\
  Run.no_outage w /\
  find_thread (t_id Sample.thread) w = Some onDiscord /\
  rt_messages onDiscord = [] ++ Sample.quoting :: [] ++ [Sample.seed] /\
  find_discussion (d_number Sample.linked) w = Some onGithub /\
  length (rd_comments onGithub) <= length (@nil Message) /\
  exists w' added,
    Index.syncMessages Sample.live Sample.thread Sample.linked w = (Ok tt, w') /\
    trace w' = trace w ++ added /\
    In (AddDiscussionComment (lit "D_7")
          (Github.makeGithubComment (m_content Sample.quoting) (lit "alice")
             (lit "https://discord.com/channels/77/555/556"))) added.
Proof.
  intros onGithub onDiscord w.
  assert (Hattributed : u_bot (m_author Sample.quoting) = true \/
            exists pre post, m_content Sample.quoting = pre ++ ATTRIBUTION ++ post).
  { right. exists (lit "as the bot said: "), (lit "octocat** on"). reflexivity. }
  assert (Hup : Run.no_outage w) by (intros n; reflexivity).
  assert (Hbehind : length (rd_comments onGithub) <= length (@nil Message))
    by (simpl; lia).
  split; [exact Hattributed |]. split; [reflexivity |]. split; [exact Hup |].
  split; [reflexivity |]. split; [reflexivity |]. split; [reflexivity |].
  split; [exact Hbehind |].
  exact (proj2 (messageCreate_drops_the_event_only Sample.live Triggers.probe
                  Sample.quoting Sample.thread Sample.linked w onDiscord onGithub
                  [] [] Sample.seed Hattributed eq_refl Hup eq_refl eq_refl eq_refl
                  eq_refl Hbehind)).
Defined.

(** X12.  The catch-up step settles.  With dry run off and both platforms
    answering, for a thread that holds its seed message and the discussion
    linked to it: after one run of the catch-up step the two sides hold the
    same number of messages (the seed left out), and a second run pushes
    nothing. *)
Theorem syncMessages_settles
    (cfg : Config) (thread : AnyThreadChannel) (discussion : GithubDiscussion)
    (w : World) (onDiscord : RemoteThread) (onGithub : RemoteDiscussion)
    (Hlive : DRY_RUN cfg = false)
    (Hup : Run.no_outage w)
    (Hthread : find_thread (t_id thread) w = Some onDiscord)
    (Hseed : rt_messages onDiscord <> [])
    (Hdiscussion : find_discussion (d_number discussion) w = Some onGithub)
    (Hid : d_id (rd onGithub) = d_id discussion) :
  exists w1 onDiscord' onGithub',
    Index.syncMessages cfg thread discussion w = (Ok tt, w1) /\
    find_thread (t_id thread) w1 = Some onDiscord' /\
    find_discussion (d_number discussion) w1 = Some onGithub' /\
    length (Run.mirrored (user (discord w1)) (rt_messages onDiscord')) =
      length (rd_comments onGithub') /\
    exists w2 added,
      Index.syncMessages cfg thread discussion w1 = (Ok tt, w2) /\
      trace w2 = trace w1 ++ added /\
      Run.writes added = [].
Proof.
  destruct (StateFacts.syncMessages_run cfg thread discussion w onDiscord onGithub
              Hlive Hup Hthread Hdiscussion Hid)
    as (w1 & added1 & onDiscord' & onGithub' & Hrun1 & _ & _ & Hup1 & _ &
        Hthread1 & Hdiscussion1 & Hid1 & Hlen1 & Hlen2).
  assert (Hsame : length (Run.mirrored (user (discord w1)) (rt_messages onDiscord')) =
                  length (rd_comments onGithub')).
  { rewrite StateFacts.length_mirrored, Hlen1, Hlen2.
    rewrite StateFacts.length_mirrored.
    destruct (rt_messages onDiscord) as [| first rest]; [contradiction |].
    cbn [length]. lia. }
  exists w1, onDiscord', onGithub'.
  split; [exact Hrun1 |]. split; [exact Hthread1 |]. split; [exact Hdiscussion1 |].
  split; [exact Hsame |].
  destruct (StateFacts.syncMessages_run cfg thread discussion w1 onDiscord' onGithub'
              Hlive Hup1 Hthread1 Hdiscussion1 Hid1)
    as (w2 & added2 & _ & _ & Hrun2 & Htrace2 & Hwrites2 & _).
  exists w2, added2. split; [exact Hrun2 |]. split; [exact Htrace2 |].
  rewrite Hwrites2. rewrite !skipn_all2 by lia. reflexivity.
Qed.

Lemma syncMessages_settles_witness :
  DRY_RUN Sample.live = false /\
  Run.no_outage Sample.behind /\
  find_thread (t_id Sample.thread) Sample.behind = Some Sample.on_discord /\
  rt_messages Sample.on_discord <> [] /\
  find_discussion (d_number Sample.linked) Sample.behind = Some Sample.on_github /\
  d_id (rd Sample.on_github) = d_id Sample.linked /\
  exists w1 onDiscord' onGithub',
    Index.syncMessages Sample.live Sample.thread Sample.linked Sample.behind = (Ok tt, w1) /\
    find_thread (t_id Sample.thread) w1 = Some onDiscord' /\
    find_discussion (d_number Sample.linked) w1 = Some onGithub' /\
    length (Run.mirrored (user (discord w1)) (rt_messages onDiscord')) =
      length (rd_comments onGithub') /\
    exists w2 added,
      Index.syncMessages Sample.live Sample.thread Sample.linked w1 = (Ok tt, w2) /\
      trace w2 = trace w1 ++ added /\
      Run.writes added = [].
Proof.
  assert (Hup : Run.no_outage Sample.behind) by (intros n; reflexivity).
  assert (Hseed : rt_messages Sample.on_discord <> []) by discriminate.
  split; [reflexivity |]. split; [exact Hup |]. split; [reflexivity |].
  split; [exact Hseed |]. split; [reflexivity |]. split; [reflexivity |].
  exact (syncMessages_settles Sample.live Sample.thread Sample.linked Sample.behind
           Sample.on_discord Sample.on_github eq_refl Hup eq_refl Hseed eq_refl eq_refl).
Defined.

(* ================================================================= *)
(** * Linking a discussion to a thread *)
Module RoundTripFacts.

Import JsFacts Run RunFacts PushFacts StateFacts.

(** [updateDiscussion]: the body of the discussion with the marker
    appended, nothing else changed. *)
Lemma updateDiscussion_state discussion discordId w onGithub :
  no_outage w ->
  find_discussion (d_number discussion) w = Some onGithub ->
  d_id (rd onGithub) = d_id discussion ->
  exists w' updated,
    Github.updateDiscussion discussion discordId w = (Ok tt, w') /\
    trace w' = trace w ++
      [Log INFO (lit "[Github] Updating discussion #" ++ of_Z (d_number discussion) ++
                 lit " with body: " ++ d_body discussion);
       UpdateDiscussion (d_id discussion)
         (d_body discussion ++ [LF; LF] ++ Github.marker discordId)] /\
    no_outage w' /\
    discord w' = discord w /\
    next_id w' = N.succ (next_id w) /\
    find_discussion (d_number discussion) w' = Some updated /\
    d_id (rd updated) = d_id discussion /\
    d_body (rd updated) = d_body discussion ++ [LF; LF] ++ Github.marker discordId /\
    rd_comments updated = rd_comments onGithub.
Proof.
  intros Ho Hf Hid. unfold Github.updateDiscussion.
  rewrite (bind_ok _ (logger_advance _ _ w)).
  set (w0 := advance 0 _ w).
  assert (Ho0 : no_outage w0) by now apply advance_outage.
  unfold mutation_updateDiscussion.
  rewrite (bind_ok _ (call_advance _ w0 Ho0)).
  unfold bind, get.
  match goal with
  | |- context [known ?i ?x] => change (known i x) with (known i w)
  end.
  rewrite (find_known _ _ _ _ Hf Hid). cbn [modify].
  eexists; eexists. split; [reflexivity |].
  split; [unfold w0; cbn [trace advance set_calls set_trace update_remote set_discussions];
          now rewrite <- app_assoc |].
  split; [exact Ho |]. split; [reflexivity |]. split; [reflexivity |].
  unfold find_discussion, update_remote. cbn [discussions github set_discussions].
  rewrite find_map_kept.
  - unfold find_discussion in Hf.
    cbn [discussions github advance set_calls set_trace w0].
    rewrite Hf. cbn [option_map]. rewrite Hid, eqb_refl.
    split; [reflexivity |]. cbn [rd d_id d_body rd_comments]. auto.
  - intros x. destruct (eqb (d_id (rd x)) (d_id discussion)); reflexivity.
Qed.

Section WithConfig.

Variable cfg : Config.

Lemma channels_fetch_run w :
  no_outage w ->
  forum (discord w) = Some (FORUM_CHANNEL_ID cfg) ->
  channels_fetch (FORUM_CHANNEL_ID cfg) w =
    (Ok (FORUM_CHANNEL_ID cfg), advance 1 [FetchChannel (FORUM_CHANNEL_ID cfg)] w).
Proof.
  intros Ho Hforum. unfold channels_fetch.
  rewrite (bind_ok _ (call_advance _ w Ho)).
  unfold bind, get.
  match goal with
  | |- context [forum (discord ?x)] => change (forum (discord x)) with (forum (discord w))
  end.
  now rewrite Hforum, eqb_refl.
Qed.

Lemma listDiscordThreads_run w :
  no_outage w ->
  forum (discord w) = Some (FORUM_CHANNEL_ID cfg) ->
  Discord.listDiscordThreads cfg w =
    (Ok (map (fun r => (t_id (rt r), rt r)) (threads (discord w))),
     advance 2 [FetchChannel (FORUM_CHANNEL_ID cfg); FetchThreads] w).
Proof.
  intros Ho Hforum. unfold Discord.listDiscordThreads.
  rewrite (bind_ok _ (channels_fetch_run w Ho Hforum)).
  unfold threads_fetch.
  set (w1 := advance 1 _ w).
  assert (Ho1 : no_outage w1) by now apply advance_outage.
  rewrite (bind_ok _ (call_advance _ w1 Ho1)).
  unfold bind, get, ret. unfold w1. now rewrite advance_advance.
Qed.

(** The resolver towards Discord, both ways it can answer. *)
Lemma findDiscussionOnDiscord_run discussion w :
  no_outage w ->
  forum (discord w) = Some (FORUM_CHANNEL_ID cfg) ->
  Index.findDiscussionOnDiscord cfg discussion w =
    (Ok match Index.markerId (d_body discussion) with
        | Some id => option_map rt (find_thread id w)
        | None => None
        end,
     advance 2 [FetchChannel (FORUM_CHANNEL_ID cfg); FetchThreads] w).
Proof.
  intros Ho Hforum. unfold Index.findDiscussionOnDiscord.
  rewrite (bind_ok _ (listDiscordThreads_run w Ho Hforum)).
  cbv zeta. unfold ret. f_equal. f_equal.
  destruct (Index.markerId (d_body discussion)) as [id |].
  - rewrite find_map. unfold find_thread. cbn [snd].
    destruct (find (fun x => eqb (t_id (rt x)) id) (threads (discord w))); reflexivity.
  - rewrite ResolveFacts.find_all_false; reflexivity.
Qed.

End WithConfig.

End RoundTripFacts.

(** X13.  The link written is the link read back.  For a discussion whose
    body does not already hold the opening of a marker, and a thread with
    a numeric identifier: the body that [updateDiscussion] sends, the old
    body, a blank line and the marker of the thread, is read back by the
    pattern of [findDiscussionOnDiscord] as the identifier of the thread;
    and with both platforms answering, after [updateDiscussion] the
    discussion as GitHub holds it resolves to the thread. *)
Theorem link_written_is_read_back
    (cfg : Config) (discussion : GithubDiscussion) (thread : AnyThreadChannel)
    (w : World) (onGithub : RemoteDiscussion) (onDiscord : RemoteThread)
    (Hup : Run.no_outage w)
    (Hnumeric : Linker.numeric (t_id thread))
    (Hnew : includes (d_body discussion) Linker.OPENING = false)
    (Hdiscussion : find_discussion (d_number discussion) w = Some onGithub)
    (Hid : d_id (rd onGithub) = d_id discussion)
    (Hforum : forum (discord w) = Some (FORUM_CHANNEL_ID cfg))
    (Hthread : find_thread (t_id thread) w = Some onDiscord) :
  Index.markerId (d_body discussion ++ [LF; LF] ++ Github.marker (t_id thread))
    = Some (t_id thread) /\
  exists w1 updated w2,
    Github.updateDiscussion discussion (t_id thread) w = (Ok tt, w1) /\
    find_discussion (d_number discussion) w1 = Some updated /\
    d_body (rd updated) =
      d_body discussion ++ [LF; LF] ++ Github.marker (t_id thread) /\
    Index.findDiscussionOnDiscord cfg (rd updated) w1 = (Ok (Some (rt onDiscord)), w2).
Proof.
  pose proof (LinkFacts.markerId_appended (d_body discussion) (t_id thread) Hnumeric Hnew)
    as Hread.
  split; [exact Hread |].
  destruct (RoundTripFacts.updateDiscussion_state discussion (t_id thread) w onGithub
              Hup Hdiscussion Hid)
    as (w1 & updated & Hrun & _ & Hup1 & Hdiscord & _ & Hfound & _ & Hbody & _).
  exists w1, updated. eexists.
  split; [exact Hrun |]. split; [exact Hfound |]. split; [exact Hbody |].
  rewrite (RoundTripFacts.findDiscussionOnDiscord_run cfg (rd updated) w1 Hup1).
  - rewrite Hbody, Hread. unfold find_thread. rewrite Hdiscord.
    unfold find_thread in Hthread. rewrite Hthread. reflexivity.
  - now rewrite Hdiscord.
Qed.

Lemma link_written_is_read_back_witness :
  Run.no_outage Scene.world /\
  Linker.numeric (t_id Sample.thread) /\
  includes (d_body Scene.report) Linker.OPENING = false /\
  find_discussion (d_number Scene.report) Scene.world = Some Scene.on_github /\
  d_id (rd Scene.on_github) = d_id Scene.report /\
  forum (discord Scene.world) = Some (FORUM_CHANNEL_ID Sample.live) /\
  find_thread (t_id Sample.thread) Scene.world = Some Sample.on_discord /\
  Index.markerId (d_body Scene.report ++ [LF; LF] ++ Github.marker (t_id Sample.thread))
    = Some (t_id Sample.thread).
Proof.
  assert (Hup : Run.no_outage Scene.world) by (intros n; reflexivity).
  assert (Hnumeric : Linker.numeric (t_id Sample.thread)).
  { split; [discriminate |]. repeat constructor. }
  split; [exact Hup |]. split; [exact Hnumeric |].
  repeat (split; [reflexivity |]).
  exact (proj1 (link_written_is_read_back Sample.live Scene.report Sample.thread
                  Scene.world Scene.on_github Sample.on_discord
                  Hup Hnumeric eq_refl eq_refl eq_refl eq_refl eq_refl)).
Defined.

(* ================================================================= *)
(** * Mirroring what is new *)
Module MirrorFacts.

Import JsFacts Run RunFacts PushFacts StateFacts RoundTripFacts.

Section WithConfig.

Variable cfg : Config.

(** [createDiscussion], with what it leaves on GitHub. *)
Lemma createDiscussion_state thread seed w categoryId repositoryId :
  no_outage w ->
  REPO_CATEGORY_ID w = Some categoryId ->
  repository (github w) = Some repositoryId ->
  exists w1 created,
    Github.createDiscussion cfg thread (Some seed) w = (Ok created, w1) /\
    trace w1 = trace w ++
      [Log INFO (lit "[Github] Creating discussion on GitHub repository " ++
                 CATEGORY_NAME cfg ++ lit ": " ++ t_name thread);
       QueryRepositoryId;
       CreateDiscussion categoryId (t_name thread) (Creation.creationBody thread seed)
         repositoryId] /\
    no_outage w1 /\
    discord w1 = discord w /\
    discussions (github w1) =
      discussions (github w) ++
      [Creation.newcomer w categoryId (t_name thread) (Creation.creationBody thread seed)] /\
    d_id created = lit "D_" ++ of_Z (Z.of_N (next_id w)) /\
    d_number created = Z.of_N (next_id w).
Proof.
  intros Ho Hcat Hrepo. unfold Github.createDiscussion.
  rewrite (bind_ok _ (logger_advance _ _ w)).
  set (w0 := advance 0 _ w).
  unfold bind at 1. unfold get.
  assert (Ho0 : no_outage w0) by now apply advance_outage.
  rewrite (bind_ok _ (CreationFacts.getRepositoryId_run cfg w0 repositoryId Ho0 Hrepo)).
  change (REPO_CATEGORY_ID w0) with (REPO_CATEGORY_ID w). rewrite Hcat.
  unfold mutation_createDiscussion.
  set (w2 := advance 1 [QueryRepositoryId] w0).
  assert (Ho2 : no_outage w2) by now apply advance_outage.
  rewrite (bind_ok _ (call_advance _ w2 Ho2)).
  unfold bind, get, fresh_id, ret, modify.
  eexists; eexists. split; [reflexivity |].
  cbn [trace discussions github discord repository set_discussions advance set_calls
       set_trace d_id d_number w2 w0].
  split; [now rewrite <- !app_assoc |].
  split; [exact Ho |]. repeat split.
Qed.

(** [createThread], with what it leaves on Discord. *)
Lemma createThread_state author number title body w :
  no_outage w ->
  forum (discord w) = Some (FORUM_CHANNEL_ID cfg) ->
  let content := Discord.makeDiscordMessage cfg author number body in
  let res := {| t_id := of_Z (Z.of_N (next_id w)); t_name := title;
                t_parentId := FORUM_CHANNEL_ID cfg; t_guild_id := guild (discord w) |} in
  exists w1,
    Discord.createThread cfg author number title body w = (Ok res, w1) /\
    trace w1 = trace w ++
      [FetchChannel (FORUM_CHANNEL_ID cfg);
       Log INFO (lit "[Discord] Creating thread on Discord forum " ++ FORUM_CHANNEL_ID cfg ++
                 lit ": " ++ title);
       ThreadsCreate title content] /\
    no_outage w1 /\
    github w1 = github w /\
    user (discord w1) = user (discord w) /\
    forum (discord w1) = forum (discord w) /\
    threads (discord w1) =
      threads (discord w) ++
      [{| rt := res;
          rt_messages := [{| m_id := t_id res; m_content := content;
                             m_author := user (discord w); m_channel := Some res |}] |}].
Proof.
  intros Ho Hforum content res. unfold Discord.createThread.
  rewrite (bind_ok _ (channels_fetch_run cfg w Ho Hforum)).
  set (w0 := advance 1 _ w).
  rewrite (bind_ok _ (logger_advance _ _ w0)).
  set (w2 := advance 0 _ w0).
  assert (Ho2 : no_outage w2) by (unfold w2, w0; now repeat apply advance_outage).
  unfold threads_create.
  rewrite (bind_ok _ (call_advance _ w2 Ho2)).
  unfold bind, get, fresh_id, ret, modify.
  eexists. split; [reflexivity |].
  cbn [trace threads github discord user forum set_threads advance set_calls set_trace
       w2 w0].
  split; [now rewrite <- !app_assoc |].
  split; [exact Ho |]. repeat split.
Qed.

End WithConfig.

Lemma find_last {A} (p : A -> bool) (l : list A) (x : A) :
  (forall y, In y l -> p y = false) -> p x = true -> find p (l ++ [x]) = Some x.
Proof.
  intros Hl Hx. rewrite CreationFacts.find_app_none by exact Hl.
  simpl. now rewrite Hx.
Qed.

Lemma mirrored_seed bot (later : list Message) (seed : Message) :
  mirrored bot (later ++ [seed]) = rev (map (Discord.toThreadMessage bot) later).
Proof.
  unfold mirrored. now rewrite map_app, rev_app_distr.
Qed.

End MirrorFacts.

(** X14.  A new thread is mirrored whole.  With dry run off and both
    platforms answering, for a thread that no cached discussion refers to:
    [syncThreadOnGitHub] creates one discussion, titled as the thread, from
    the oldest message of the thread with the marker of the thread in its
    body, and then adds one comment per later message of the thread, oldest
    first, to that discussion.  These are all its mutating calls. *)
Theorem syncThreadOnGitHub_mirrors_new_thread
    (cfg : Config) (thread : AnyThreadChannel) (w : World)
    (listing : list GithubDiscussion) (categoryId repositoryId : jsstring)
    (onDiscord : RemoteThread) (later : list Message) (seed : Message)
    (Hlive : DRY_RUN cfg = false)
    (Hup : Run.no_outage w)
    (Hcache : discussionCache w = Some listing)
    (Hunlinked : Resolve.unreferenced thread listing)
    (Hcategory : REPO_CATEGORY_ID w = Some categoryId)
    (Hrepository : repository (github w) = Some repositoryId)
    (Hthread : find_thread (t_id thread) w = Some onDiscord)
    (Hmessages : rt_messages onDiscord = later ++ [seed])
    (Hfree : forall r, In r (discussions (github w)) ->
               d_number (rd r) <> Z.of_N (next_id w)) :
  exists w' added created,
    Index.syncThreadOnGitHub cfg thread w = (Ok tt, w') /\
    trace w' = trace w ++ added /\
    d_id created = lit "D_" ++ of_Z (Z.of_N (next_id w)) /\
    Run.writes added =
      CreateDiscussion categoryId (t_name thread) (Creation.creationBody thread seed)
        repositoryId ::
      map (Push.toGithub thread created)
          (rev (map (Discord.toThreadMessage (user (discord w))) later)).
Proof.
  assert (Hfind : Index.findThreadOnGitHub thread w = (Ok None, w)).
  { unfold Index.findThreadOnGitHub.
    rewrite (RunFacts.bind_ok _
               (CurrentCacheFacts.listGithubDiscussions_cached w listing Hcache)).
    unfold ret. now rewrite ResolveFacts.find_all_false by exact Hunlinked. }
  unfold Index.syncThreadOnGitHub.
  rewrite (RunFacts.bind_ok _ Hfind).
  rewrite (RunFacts.bind_ok _ (RunFacts.logger_advance _ _ w)).
  rewrite Hlive.
  set (w1 := Run.advance 0 _ w).
  assert (Hup1 : Run.no_outage w1) by now apply RunFacts.advance_outage.
  rewrite (RunFacts.bind_ok _ (RunFacts.messages_fetch_run thread onDiscord w1 Hup1 Hthread)).
  set (w2 := Run.advance 1 _ w1).
  assert (Hup2 : Run.no_outage w2) by now apply RunFacts.advance_outage.
  rewrite Hmessages, rev_app_distr. cbn [rev app nth_error].
  destruct (MirrorFacts.createDiscussion_state cfg thread seed w2 categoryId repositoryId
              Hup2 Hcategory Hrepository)
    as (w3 & created & Hrun3 & Htrace3 & Hup3 & Hdiscord3 & Hdiscussions3 & Hid3 & Hnumber3).
  rewrite (RunFacts.bind_ok _ Hrun3).
  assert (Hthread3 : find_thread (t_id thread) w3 = Some onDiscord).
  { unfold find_thread. rewrite Hdiscord3. exact Hthread. }
  assert (Hfound3 : find_discussion (d_number created) w3 =
                    Some (Creation.newcomer w2 categoryId (t_name thread)
                            (Creation.creationBody thread seed))).
  { unfold find_discussion. rewrite Hdiscussions3.
    apply MirrorFacts.find_last.
    - intros r Hr. apply Z.eqb_neq. rewrite Hnumber3. now apply Hfree.
    - cbn [Creation.newcomer rd d_number]. rewrite Hnumber3. apply Z.eqb_refl. }
  destruct (StateFacts.syncMessages_run cfg thread created w3 onDiscord _
              Hlive Hup3 Hthread3 Hfound3)
    as (w' & added & _ & _ & Hrun & Htrace & Hwrites & _).
  { cbn [Creation.newcomer rd d_id]. now rewrite Hid3. }
  exists w'. eexists. exists created.
  split; [exact Hrun |].
  split; [rewrite Htrace, Htrace3; unfold w2, w1;
          cbn [trace Run.advance set_calls set_trace]; rewrite <- !app_assoc;
          reflexivity |].
  split; [exact Hid3 |].
  rewrite !PushFacts.writes_app.
  cbn [Run.writes filter is_write app]. f_equal.
  change (filter is_write added) with (Run.writes added). rewrite Hwrites.
  cbn [Creation.newcomer rd_comments length skipn map app].
  rewrite Hmessages, Hdiscord3. cbn [discord Run.advance set_calls set_trace w2 w1].
  rewrite MirrorFacts.mirrored_seed, skipn_nil. reflexivity.
Qed.

Lemma syncThreadOnGitHub_mirrors_new_thread_witness :
  let later := [Sample.said (lit "557") (lit "same here");
                Sample.said (lit "556") (lit "any news?")] in
  let onDiscord := {| rt := Sample.thread; rt_messages := later ++ [Sample.seed] |} in
  DRY_RUN Sample.live = false /\
  Run.no_outage Scene.busy /\
  discussionCache Scene.busy = Some [] /\
  Resolve.unreferenced Sample.thread [] /\
  REPO_CATEGORY_ID Scene.busy = Some (lit "C_1") /\
  repository (github Scene.busy) = Some (lit "R_1") /\
  find_thread (t_id Sample.thread) Scene.busy = Some onDiscord /\
  rt_messages onDiscord = later ++ [Sample.seed] /\
  (forall r, In r (discussions (github Scene.busy)) ->
     d_number (rd r) <> Z.of_N (next_id Scene.busy)) /\
  exists w' added created,
    Index.syncThreadOnGitHub Sample.live Sample.thread Scene.busy = (Ok tt, w') /\
    trace w' = trace Scene.busy ++ added /\
    d_id created = lit "D_" ++ of_Z (Z.of_N (next_id Scene.busy)) /\
    Run.writes added =
      CreateDiscussion (lit "C_1") (t_name Sample.thread)
        (Creation.creationBody Sample.thread Sample.seed) (lit "R_1") ::
      map (Push.toGithub Sample.thread created)
          (rev (map (Discord.toThreadMessage (user (discord Scene.busy))) later)).
Proof.
  intros later onDiscord.
  assert (Hup : Run.no_outage Scene.busy) by (intros n; reflexivity).
  assert (Hunlinked : Resolve.unreferenced Sample.thread []) by (intros d []).
  assert (Hfree : forall r, In r (discussions (github Scene.busy)) ->
                    d_number (rd r) <> Z.of_N (next_id Scene.busy)) by (intros r []).
  split; [reflexivity |]. split; [exact Hup |]. split; [reflexivity |].
  split; [exact Hunlinked |]. split; [reflexivity |]. split; [reflexivity |].
  split; [reflexivity |]. split; [reflexivity |]. split; [exact Hfree |].
  exact (syncThreadOnGitHub_mirrors_new_thread Sample.live Sample.thread Scene.busy []
           (lit "C_1") (lit "R_1") onDiscord later Sample.seed
           eq_refl Hup eq_refl Hunlinked eq_refl eq_refl eq_refl eq_refl Hfree).
Defined.

(** X15.  A new discussion is mirrored whole.  With dry run off and both
    platforms answering, for a discussion of the configured category whose
    body holds no marker: [syncDiscussionOnDiscord] creates one thread,
    titled as the discussion, whose first message renders the body of the
    discussion; rewrites the body of the discussion once, appending the
    marker of the thread it has just created; and then sends one message
    per comment of the discussion, oldest first, to that thread.  These are
    all its mutating calls. *)
Theorem syncDiscussionOnDiscord_mirrors_new_discussion
    (cfg : Config) (discussion : GithubDiscussion) (w : World)
    (onGithub : RemoteDiscussion)
    (Hlive : DRY_RUN cfg = false)
    (Hup : Run.no_outage w)
    (Hcategory : d_category discussion = Some (CATEGORY_NAME cfg))
    (Hunmarked : Index.markerId (d_body discussion) = None)
    (Hforum : forum (discord w) = Some (FORUM_CHANNEL_ID cfg))
    (Hdiscussion : find_discussion (d_number discussion) w = Some onGithub)
    (Hid : d_id (rd onGithub) = d_id discussion)
    (Hfree : forall r, In r (threads (discord w)) ->
               t_id (rt r) <> of_Z (Z.of_N (next_id w))) :
  exists w' added res,
    Index.syncDiscussionOnDiscord cfg discussion w = (Ok tt, w') /\
    trace w' = trace w ++ added /\
    t_id res = of_Z (Z.of_N (next_id w)) /\
    t_name res = d_title discussion /\
    Run.writes added =
      ThreadsCreate (d_title discussion)
        (Discord.makeDiscordMessage cfg (login (d_author discussion))
           (d_number discussion) (d_body discussion)) ::
      UpdateDiscussion (d_id discussion)
        (d_body discussion ++ [LF; LF] ++ Github.marker (t_id res)) ::
      map (Push.toDiscord cfg res discussion) (rd_comments onGithub).
Proof.
  unfold Index.syncDiscussionOnDiscord.
  rewrite Hcategory, JsFacts.eqb_refl. cbn [negb].
  rewrite (RunFacts.bind_ok _
             (RoundTripFacts.findDiscussionOnDiscord_run cfg discussion w Hup Hforum)).
  rewrite Hunmarked.
  set (w1 := Run.advance 2 _ w).
  rewrite (RunFacts.bind_ok _ (RunFacts.logger_advance _ _ w1)).
  rewrite Hlive.
  set (w2 := Run.advance 0 _ w1).
  assert (Hup2 : Run.no_outage w2) by (unfold w2, w1; now repeat apply RunFacts.advance_outage).
  destruct (MirrorFacts.createThread_state cfg (login (d_author discussion))
              (d_number discussion) (d_title discussion) (d_body discussion) w2 Hup2 Hforum)
    as (w3 & Hrun3 & Htrace3 & Hup3 & Hgithub3 & Huser3 & Hforum3 & Hthreads3).
  rewrite (RunFacts.bind_ok _ Hrun3).
  set (res := {| t_id := of_Z (Z.of_N (next_id w2)); t_name := d_title discussion;
                 t_parentId := FORUM_CHANNEL_ID cfg; t_guild_id := guild (discord w2) |}) in *.
  assert (Hdiscussion3 : find_discussion (d_number discussion) w3 = Some onGithub).
  { unfold find_discussion. rewrite Hgithub3. exact Hdiscussion. }
  destruct (RoundTripFacts.updateDiscussion_state discussion (t_id res) w3 onGithub
              Hup3 Hdiscussion3 Hid)
    as (w4 & updated & Hrun4 & Htrace4 & Hup4 & Hdiscord4 & _ & Hfound4 & Hid4 & _ & Hcomments4).
  rewrite (RunFacts.bind_ok _ Hrun4).
  assert (Hthread4 : find_thread (t_id res) w4 =
                     Some {| rt := res;
                             rt_messages :=
                               [{| m_id := t_id res;
                                   m_content :=
                                     Discord.makeDiscordMessage cfg (login (d_author discussion))
                                       (d_number discussion) (d_body discussion);
                                   m_author := user (discord w2);
                                   m_channel := Some res |}] |}).
  { unfold find_thread. rewrite Hdiscord4, Hthreads3.
    apply MirrorFacts.find_last.
    - intros r Hr. apply JsFacts.eqb_neq. now apply Hfree.
    - apply JsFacts.eqb_refl. }
  destruct (StateFacts.syncMessages_run cfg res discussion w4 _ updated
              Hlive Hup4 Hthread4 Hfound4 Hid4)
    as (w' & added & _ & _ & Hrun & Htrace & Hwrites & _).
  exists w'. eexists. exists res.
  split; [exact Hrun |].
  split; [rewrite Htrace, Htrace4, Htrace3; unfold w2, w1;
          cbn [trace Run.advance set_calls set_trace]; rewrite <- !app_assoc;
          reflexivity |].
  split; [reflexivity |]. split; [reflexivity |].
  rewrite !PushFacts.writes_app.
  cbn [Run.writes filter is_write app]. f_equal. f_equal.
  change (filter is_write added) with (Run.writes added). rewrite Hwrites.
  rewrite Hcomments4. cbn [rt_messages].
  rewrite StateFacts.length_mirrored. cbn [length Nat.sub skipn].
  unfold Run.mirrored. cbn [map rev app skipn]. rewrite skipn_nil.
  cbn [map]. now rewrite app_nil_r.
Qed.

Lemma syncDiscussionOnDiscord_mirrors_new_discussion_witness :
  DRY_RUN Sample.live = false /\
  Run.no_outage Scene.world /\
  d_category Scene.report = Some (CATEGORY_NAME Sample.live) /\
  Index.markerId (d_body Scene.report) = None /\
  forum (discord Scene.world) = Some (FORUM_CHANNEL_ID Sample.live) /\
  find_discussion (d_number Scene.report) Scene.world = Some Scene.on_github /\
  d_id (rd Scene.on_github) = d_id Scene.report /\
  (forall r, In r (threads (discord Scene.world)) ->
     t_id (rt r) <> of_Z (Z.of_N (next_id Scene.world))) /\
  exists w' added res,
    Index.syncDiscussionOnDiscord Sample.live Scene.report Scene.world = (Ok tt, w') /\
    trace w' = trace Scene.world ++ added /\
    t_id res = of_Z (Z.of_N (next_id Scene.world)) /\
    t_name res = d_title Scene.report /\
    Run.writes added =
      ThreadsCreate (d_title Scene.report)
        (Discord.makeDiscordMessage Sample.live (login (d_author Scene.report))
           (d_number Scene.report) (d_body Scene.report)) ::
      UpdateDiscussion (d_id Scene.report)
        (d_body Scene.report ++ [LF; LF] ++ Github.marker (t_id res)) ::
      map (Push.toDiscord Sample.live res Scene.report) (rd_comments Scene.on_github).
Proof.
  assert (Hup : Run.no_outage Scene.world) by (intros n; reflexivity).
  assert (Hunmarked : Index.markerId (d_body Scene.report) = None) by (vm_compute; reflexivity).
  assert (Hfree : forall r, In r (threads (discord Scene.world)) ->
                    t_id (rt r) <> of_Z (Z.of_N (next_id Scene.world))).
  { intros r [<- | []]. vm_compute. discriminate. }
  split; [reflexivity |]. split; [exact Hup |]. split; [reflexivity |].
  split; [exact Hunmarked |]. split; [reflexivity |]. split; [reflexivity |].
  split; [reflexivity |]. split; [exact Hfree |].
  exact (syncDiscussionOnDiscord_mirrors_new_discussion Sample.live Scene.report Scene.world
           Scene.on_github eq_refl Hup eq_refl Hunmarked eq_refl eq_refl eq_refl Hfree).
Defined.

(* ================================================================= *)
(** * The pages of a comment listing *)
Module PagingFacts.

Import Run RunFacts Paging.

Lemma pages_more (n k : nat) : 100 * k + 100 < n -> S k < pages n.
Proof.
  intros H. unfold pages.
  assert (k + 2 <= (n + 99) / 100) by (apply Nat.div_le_lower_bound; lia). lia.
Qed.

Lemma pages_last (n k : nat) : k < pages n -> n <= 100 * k + 100 -> pages n = S k.
Proof.
  unfold pages. intros Hk H.
  assert ((n + 99) / 100 < k + 2) by (apply Nat.Div0.div_lt_upper_bound; lia). lia.
Qed.

Lemma from_cursor (k : nat) : from_of (cursor k) = 100 * k.
Proof. destruct k; [reflexivity |]. reflexivity. Qed.

(** From page [k] on, the loop asks for each remaining page with the
    cursor the page before it gave, and gathers the comments in order. *)
Lemma listGithubComments_loop_pages discussion r (fuel : nat) :
  forall k acc w,
    no_outage w ->
    find_discussion (d_number discussion) w = Some r ->
    k < pages (length (rd_comments r)) ->
    k = 0 \/ 100 * k < length (rd_comments r) ->
    pages (length (rd_comments r)) <= fuel + k ->
    Github.listGithubComments_loop fuel discussion acc (cursor k) w =
      (Ok (Some (acc ++ skipn (100 * k) (rd_comments r))),
       advance (pages (length (rd_comments r)) - k)
         (queries (d_number discussion) k (pages (length (rd_comments r)) - k)) w).
Proof.
  induction fuel as [| fuel IH]; intros k acc w Ho Hf Hk Hin Hfuel; [lia |].
  cbn [Github.listGithubComments_loop].
  rewrite (bind_ok _ (query_comments_run _ (cursor k) r w Ho Hf)).
  cbn [fst snd]. rewrite from_cursor.
  destruct (100 * k + 100 <? length (rd_comments r)) eqn:Hnext.
  - apply Nat.ltb_lt in Hnext.
    set (page := firstn 100 (skipn (100 * k) (rd_comments r))).
    assert (Hpage : length page = 100).
    { unfold page. rewrite length_firstn, length_skipn. lia. }
    destruct page as [| c page'] eqn:Epage; [discriminate |].
    rewrite <- Epage in *. rewrite Hpage.
    replace (Some (100 * k + 100)) with (cursor (S k))
      by (cbn [cursor]; f_equal; lia).
    pose proof (pages_more _ _ Hnext) as Hmore.
    rewrite (IH (S k)); [| now apply advance_outage | exact Hf | exact Hmore | lia | lia].
    rewrite advance_advance. f_equal.
    + f_equal. f_equal. rewrite <- app_assoc. f_equal. unfold page.
      rewrite <- (firstn_skipn 100 (skipn (100 * k) (rd_comments r))) at 2.
      f_equal. rewrite skipn_skipn. f_equal. lia.
    + replace (pages (length (rd_comments r)) - k)
        with (S (pages (length (rd_comments r)) - S k)) by lia.
      reflexivity.
  - apply Nat.ltb_ge in Hnext.
    rewrite (pages_last _ _ Hk Hnext).
    replace (S k - k) with 1 by lia. unfold ret. f_equal. f_equal. f_equal. f_equal.
    apply firstn_all2. rewrite length_skipn. lia.
Qed.

End PagingFacts.

(** X16.  The comments of a discussion, page after page.  With GitHub
    answering, [listGithubComments] returns every comment of the
    discussion, in order, however many there are.  It asks for one page per
    hundred comments begun (one page when there is none), the first
    without a cursor and each next one with the count of the comments read
    so far, and does nothing else. *)
Theorem listGithubComments_reads_every_page
    (discussion : GithubDiscussion) (w : World) (onGithub : RemoteDiscussion)
    (Hup : Run.no_outage w)
    (Hdiscussion : find_discussion (d_number discussion) w = Some onGithub) :
  let n := length (rd_comments onGithub) in
  Github.listGithubComments discussion w =
    (Ok (rd_comments onGithub),
     Run.advance (Paging.pages n) (Paging.queries (d_number discussion) 0 (Paging.pages n)) w).
Proof.
  intros n.
  assert (Hloop :
    Github.listGithubComments_loop (S n) discussion [] None w =
      (Ok (Some (rd_comments onGithub)),
       Run.advance (Paging.pages n) (Paging.queries (d_number discussion) 0 (Paging.pages n)) w)).
  { pose proof (PagingFacts.listGithubComments_loop_pages discussion onGithub (S n) 0 [] w
                  Hup Hdiscussion) as H.
    fold n in H. rewrite Nat.sub_0_r in H. apply H.
    - unfold Paging.pages. lia.
    - now left.
    - unfold Paging.pages.
      assert ((n + 99) / 100 <= S n) by (apply Nat.Div0.div_le_upper_bound; lia). lia. }
  unfold Github.listGithubComments, bind at 1, get. rewrite Hdiscussion.
  fold n. unfold bind. rewrite Hloop. reflexivity.
Qed.

Lemma listGithubComments_reads_every_page_witness :
  Run.no_outage Scene.crowded /\
  find_discussion (d_number Sample.linked) Scene.crowded = Some Scene.long_discussion /\
  Github.listGithubComments Sample.linked Scene.crowded =
    (Ok (rd_comments Scene.long_discussion),
     Run.advance 3
       [QueryComments 7 None; QueryComments 7 (Some 100); QueryComments 7 (Some 200)]
       Scene.crowded).
Proof.
  assert (Hup : Run.no_outage Scene.crowded) by (intros n; reflexivity).
  split; [exact Hup |]. split; [reflexivity |].
  exact (listGithubComments_reads_every_page Sample.linked Scene.crowded
           Scene.long_discussion Hup eq_refl).
Defined.

(* ================================================================= *)
(** * The flag [fromGithub] *)
Module FlagFacts.

Import Runs RunsFacts.

(** A pattern anchored at the start matches at the start only. *)
Lemma m_anchored ic (r : regex) (st : caps) (i : nat) (s : jsstring) :
  m ic (Bol :: r) st (S i) s = None.
Proof. reflexivity. Qed.

(** A message that opens with the speech balloon is not what the pattern
    of [listDiscordMessages] looks for. *)
Lemma balloon_not_flagged (rest : jsstring) :
  exec false Discord.fromGithubPattern (BALLOON ++ rest) 0 = None.
Proof.
  apply exec_none. intros pre suf Hsplit.
  destruct pre as [| c pre]; cbn [length].
  - cbn [app] in Hsplit. subst suf. reflexivity.
  - apply m_anchored.
Qed.

Lemma legacy_header_not_flagged (rest : jsstring) :
  exec false Legacy.fromGithubPattern (Legacy.ATTRIBUTION ++ rest) 0 = None.
Proof.
  apply exec_none. intros pre suf Hsplit.
  destruct pre as [| c pre]; cbn [length].
  - cbn [app] in Hsplit. subst suf. reflexivity.
  - apply m_anchored.
Qed.

End FlagFacts.

(** X17.  The flag [fromGithub] is never set on a mirrored message.  The
    pattern of [listDiscordMessages] asks for another emoji at the start
    than the one [makeDiscordMessage] writes: whatever the author, the
    number and the body, a message whose content was rendered by
    [makeDiscordMessage] is listed with [fromGithub] false, in [discord.ts]
    and in the single-file version alike. *)
Theorem mirrored_messages_are_not_flagged
    (cfg : Config) (bot : User) (author : jsstring) (number : Z) (body : jsstring)
    (id : jsstring) (sender : User) (channel : option AnyThreadChannel) :
  tm_fromGithub
    (Discord.toThreadMessage bot
       {| m_id := id; m_content := Discord.makeDiscordMessage cfg author number body;
          m_author := sender; m_channel := channel |}) = false /\
  tm_fromGithub
    (Legacy.toThreadMessage bot
       {| m_id := id; m_content := Legacy.makeDiscordMessage cfg author number body;
          m_author := sender; m_channel := channel |}) = false.
Proof.
  split.
  - cbn [Discord.toThreadMessage tm_fromGithub m_content].
    unfold Discord.makeDiscordMessage, Discord.messagePrefix, ATTRIBUTION.
    rewrite <- !app_assoc. now rewrite FlagFacts.balloon_not_flagged.
  - cbn [Legacy.toThreadMessage tm_fromGithub m_content].
    unfold Legacy.makeDiscordMessage, Legacy.messagePrefix.
    rewrite <- !app_assoc. now rewrite FlagFacts.legacy_header_not_flagged.
Qed.

(* ================================================================= *)
(** * Plain prose through the renderers *)
Module ProseFacts.

Import JsFacts Runs RunsFacts Prose.

(** A code unit that is not a letter is matched by itself only, with or
    without the [i] flag. *)
Lemma same_exact ic (c x : code_unit) :
  (c < 65)%N -> same ic c x = true -> x = c.
Proof.
  intros Hc. unfold same, canon. destruct ic.
  - destruct ((97 <=? c) && (c <=? 122))%N eqn:Ec.
    { apply andb_prop in Ec as [E _]. apply N.leb_le in E. lia. }
    destruct ((97 <=? x) && (x <=? 122))%N eqn:Ex.
    + apply andb_prop in Ex as [E1 E2]. apply N.leb_le in E1, E2.
      intros H. apply N.eqb_eq in H. lia.
    + intros H. apply N.eqb_eq in H. now symmetry.
  - intros H. apply N.eqb_eq in H. now symmetry.
Qed.

(** A pattern that opens with a literal matches nothing in a text that
    lacks one code unit of the literal. *)
Lemma m_literal_absent ic (c : code_unit) (r : regex) : forall (l : jsstring) st i s,
  (c < 65)%N -> In c l -> ~ In c s ->
  m ic (literal l ++ r) st i s = None.
Proof.
  induction l as [| p l IH]; intros st i s Hc Hin Hs; [contradiction |].
  cbn [literal map app m]. destruct s as [| x s]; [reflexivity |].
  cbn [atom_match]. destruct (same ic p x) eqn:E; [| reflexivity].
  destruct Hin as [-> | Hin].
  - apply (same_exact ic c x Hc) in E. subst x. exfalso. apply Hs. now left.
  - apply IH; [exact Hc | exact Hin |]. intros H. apply Hs. now right.
Qed.

(** Where the pattern matches nowhere, the replacement copies. *)
Lemma replace_from_none ic (r : regex) (f : Match -> jsstring) (input : jsstring) :
  forall s i,
    (forall st j t, (exists pre, s = pre ++ t) -> m ic r st j t = None) ->
    replace_from ic r f input 0 i s = s.
Proof.
  induction s as [| c s IH]; intros i Hnone; cbn [replace_from].
  - rewrite (Hnone start i []); [reflexivity | now exists []].
  - rewrite (Hnone start i (c :: s)); [| now exists []].
    f_equal. apply IH. intros st j t [pre ->]. apply Hnone. now exists (c :: pre).
Qed.

Lemma replace_absent ic (c : code_unit) (l : jsstring) (r : regex)
    (f : Match -> jsstring) (input : jsstring) :
  (c < 65)%N -> In c l -> ~ In c input ->
  replace ic (literal l ++ r) f input = input.
Proof.
  intros Hc Hin Hs. unfold replace. apply replace_from_none.
  intros st j t [pre ->]. apply (m_literal_absent ic c); [exact Hc | exact Hin |].
  intros H. apply Hs. apply in_or_app. now right.
Qed.

(** The same for a pattern that opens a group first. *)
Lemma replace_absent_group ic (c : code_unit) (l : jsstring) (r : regex)
    (f : Match -> jsstring) (input : jsstring) :
  (c < 65)%N -> In c l -> ~ In c input ->
  replace ic (Open :: literal l ++ r) f input = input.
Proof.
  intros Hc Hin Hs. unfold replace. apply replace_from_none.
  intros st j t [pre ->]. cbn [m]. apply (m_literal_absent ic c); [exact Hc | exact Hin |].
  intros H. apply Hs. apply in_or_app. now right.
Qed.

Lemma prose_lacks (text : jsstring) :
  prose text -> ~ In (ch "!") text /\ ~ In (ch "<") text /\ ~ In (ch "/") text.
Proof.
  intros H. unfold prose in H. rewrite Forall_forall in H.
  repeat split; intros Hin; destruct (H _ Hin) as (H1 & H2 & H3); congruence.
Qed.

Lemma markdownImage_prose (text : jsstring) :
  prose text -> replace false markdownImage (expand [Ref 2]) text = text.
Proof.
  intros H. destruct (prose_lacks text H) as (Hbang & _ & _).
  change markdownImage with (literal (lit "![") ++
    ([Open; Star false Dot; Close] ++ str "](" ++
     [Open] ++ str "http" ++ [Opt (Chr (ch "s"))] ++ str "://" ++
     [Plus true (Cls true [Space; One (ch ")")]); Close] ++ str ")")).
  apply (replace_absent false (ch "!")); [reflexivity | now left | exact Hbang].
Qed.

Lemma processGitHubAttachments_prose (text : jsstring) :
  prose text -> Legacy.processGitHubAttachments text = text.
Proof.
  intros H. destruct (prose_lacks text H) as (_ & Hangle & Hslash).
  unfold Legacy.processGitHubAttachments. cbv zeta.
  assert (H1 : replace false Legacy.attachmentTag (fun mt => [LF] ++ group 1 mt ++ [LF]) text
               = text).
  { change Legacy.attachmentTag with (literal (lit "<img") ++
      ([Star false Dot] ++ str "src=" ++ [A (Chr DQUOTE); Open] ++
       str "https://github.com/user-attachments/assets/" ++
       [Plus true (Cls true [One DQUOTE]); Close; A (Chr DQUOTE); Star false Dot] ++
       str "/>")).
    apply (replace_absent false (ch "<")); [reflexivity | now left | exact Hangle]. }
  rewrite H1.
  assert (H2 : replace false Legacy.imageTag (fun mt => [LF] ++ group 1 mt ++ [LF]) text
               = text).
  { change Legacy.imageTag with (literal (lit "<img") ++
      ([Star false Dot] ++ str "src=" ++ [A (Chr DQUOTE); Open] ++
       str "http" ++ [Opt (Chr (ch "s"))] ++ str "://" ++
       [Plus true (Cls true [One DQUOTE]); Close; A (Chr DQUOTE); Star false Dot] ++
       str "/>")).
    apply (replace_absent false (ch "<")); [reflexivity | now left | exact Hangle]. }
  rewrite H2.
  assert (H3 : exec false Legacy.attachmentRegex text 0 = None).
  { apply exec_none. intros pre suf ->.
    change Legacy.attachmentRegex with
      (Open :: literal (lit "https://github.com/user-attachments/assets/") ++
       [Plus true (Cls false [Rng (ch "a") (ch "z"); Rng (ch "A") (ch "Z");
                               Rng (ch "0") (ch "9"); One (ch "-")]);
        Close]).
    cbn [m]. apply (m_literal_absent false (ch "/")).
    - reflexivity.
    - cbv. do 6 right. now left.
    - intros Hin. apply Hslash. apply in_or_app. now right. }
  cbn [Legacy.attachment_loop]. now rewrite H3.
Qed.

Lemma convertAttachmentsToMarkdown_prose (text : jsstring) :
  prose text -> Legacy.convertAttachmentsToMarkdown text = text.
Proof.
  intros H. destruct (prose_lacks text H) as (_ & Hangle & Hslash).
  unfold Legacy.convertAttachmentsToMarkdown. cbv zeta.
  assert (H1 : replace true Legacy.imageTagWithAlt
                 (expand [Txt (lit "!["); Ref 2; Txt (lit "]("); Ref 1; Txt (lit ")")]) text
               = text).
  { change Legacy.imageTagWithAlt with (literal (lit "<img") ++
      ([Star false Dot] ++ str "src=" ++ [A (Chr DQUOTE); Open] ++
       str "http" ++ [Opt (Chr (ch "s"))] ++ str "://" ++
       [Plus true (Cls true [One DQUOTE]); Close; A (Chr DQUOTE); Star false Dot] ++
       str "alt=" ++
       [A (Chr DQUOTE); Open; Star true (Cls true [One DQUOTE]); Close; A (Chr DQUOTE);
        Star false Dot] ++
       str "/>")).
    apply (replace_absent true (ch "<")); [reflexivity | now left | exact Hangle]. }
  rewrite H1.
  assert (H2 : replace true Legacy.imageTag
                 (expand [Txt (lit "![Image]("); Ref 1; Txt (lit ")")]) text = text).
  { change Legacy.imageTag with (literal (lit "<img") ++
      ([Star false Dot] ++ str "src=" ++ [A (Chr DQUOTE); Open] ++
       str "http" ++ [Opt (Chr (ch "s"))] ++ str "://" ++
       [Plus true (Cls true [One DQUOTE]); Close; A (Chr DQUOTE); Star false Dot] ++
       str "/>")).
    apply (replace_absent true (ch "<")); [reflexivity | now left | exact Hangle]. }
  rewrite H2.
  change Legacy.attachmentRegex with
    (Open :: literal (lit "https://github.com/user-attachments/assets/") ++
     [Plus true (Cls false [Rng (ch "a") (ch "z"); Rng (ch "A") (ch "Z");
                             Rng (ch "0") (ch "9"); One (ch "-")]);
      Close]).
  apply (replace_absent_group true (ch "/")); [reflexivity | | exact Hslash].
  cbv. do 6 right. now left.
Qed.

End ProseFacts.

(** X18.  Plain prose goes through unchanged.  A text that holds no
    exclamation mark, no opening angle bracket and no slash is left as it
    is by every image pass, in both versions and in both directions: the
    rewrite of markdown images for Discord, the pass over attachments and
    image tags of the single-file version, and its conversion of
    attachments for GitHub.  So the comment the single-file version writes
    on GitHub is its header followed by the message itself. *)
Theorem prose_goes_through_unchanged
    (text author url : jsstring)
    (Hprose : Prose.prose text) :
  Discord.processedBody text = text /\
  Legacy.processedBody text = text /\
  Legacy.convertAttachmentsToMarkdown text = text /\
  Legacy.makeGithubComment text author url =
    Legacy.ATTRIBUTION ++ author ++ lit "** on [Discord](" ++ url ++ lit ") wrote:" ++
    [LF; LF] ++ text.
Proof.
  pose proof (ProseFacts.markdownImage_prose text Hprose) as Hmd.
  pose proof (ProseFacts.convertAttachmentsToMarkdown_prose text Hprose) as Hconv.
  split; [exact Hmd |].
  split.
  - unfold Legacy.processedBody. cbv zeta. rewrite Hmd.
    now apply ProseFacts.processGitHubAttachments_prose.
  - split; [exact Hconv |].
    unfold Legacy.makeGithubComment. cbv zeta. now rewrite Hconv.
Qed.

Lemma prose_goes_through_unchanged_witness :
  Prose.prose (lit "Thanks, that fixed it.") /\
  Legacy.processedBody (lit "Thanks, that fixed it.") = lit "Thanks, that fixed it." /\
  Legacy.convertAttachmentsToMarkdown (lit "Thanks, that fixed it.")
    = lit "Thanks, that fixed it.".
Proof.
  assert (Hprose : Prose.prose (lit "Thanks, that fixed it.")).
  { repeat constructor; discriminate. }
  split; [exact Hprose |].
  destruct (prose_goes_through_unchanged (lit "Thanks, that fixed it.") [] [] Hprose)
    as (_ & H2 & H3 & _).
  split; [exact H2 | exact H3].
Defined.

(* ================================================================= *)
(** * A trigger on a linked pair *)
Module RelayFacts.

Import JsFacts Run RunFacts StateFacts RoundTripFacts.

Section WithConfig.

Variable cfg : Config.

(** The synchronization towards Discord of a discussion that is linked:
    the catch-up step on the pair. *)
Lemma syncDiscussionOnDiscord_linked d w id onDiscord onGithub :
  DRY_RUN cfg = false ->
  no_outage w ->
  d_category d = Some (CATEGORY_NAME cfg) ->
  Index.markerId (d_body d) = Some id ->
  forum (discord w) = Some (FORUM_CHANNEL_ID cfg) ->
  find_thread id w = Some onDiscord ->
  find_discussion (d_number d) w = Some onGithub ->
  d_id (rd onGithub) = d_id d ->
  exists w' added,
    Index.syncDiscussionOnDiscord cfg d w = (Ok tt, w') /\
    trace w' = trace w ++ added /\
    writes added =
      map (Push.toDiscord cfg (rt onDiscord) d)
          (skipn (length (mirrored (user (discord w)) (rt_messages onDiscord)))
                 (rd_comments onGithub)) ++
      map (Push.toGithub (rt onDiscord) d)
          (skipn (length (rd_comments onGithub))
                 (mirrored (user (discord w)) (rt_messages onDiscord))).
Proof.
  intros Hlive Hup Hcategory Hmarker Hforum Hthread Hdiscussion Hid.
  unfold Index.syncDiscussionOnDiscord.
  rewrite Hcategory, eqb_refl. cbn [negb].
  rewrite (bind_ok _ (findDiscussionOnDiscord_run cfg d w Hup Hforum)).
  rewrite Hmarker, Hthread. cbn [option_map].
  set (w1 := advance 2 _ w).
  assert (Hup1 : no_outage w1) by now apply advance_outage.
  assert (Hsame : t_id (rt onDiscord) = id).
  { unfold find_thread in Hthread. apply find_some in Hthread as [_ H].
    now apply eqb_eq in H. }
  assert (Hthread1 : find_thread (t_id (rt onDiscord)) w1 = Some onDiscord).
  { rewrite Hsame. exact Hthread. }
  destruct (syncMessages_run cfg (rt onDiscord) d w1 onDiscord onGithub
              Hlive Hup1 Hthread1 Hdiscussion Hid)
    as (w' & added & _ & _ & Hrun & Htrace & Hwrites & _).
  exists w'. eexists. split; [exact Hrun |].
  split; [rewrite Htrace; unfold w1; cbn [trace advance set_calls set_trace];
          rewrite <- app_assoc; reflexivity |].
  rewrite PushFacts.writes_app. cbn [writes filter is_write app].
  exact Hwrites.
Qed.

End WithConfig.

End RelayFacts.

(** X19.  A webhook on a linked discussion.  With dry run off and both
    platforms answering: when GitHub reports a new discussion or a new
    comment, for a discussion of the configured category whose body holds
    the marker of an existing thread, the endpoint runs the catch-up step
    on that pair, which sends to the thread the comments it lacks (or adds
    to the discussion the messages it lacks), and then answers 200. *)
Theorem webhook_relays_to_discord
    (cfg : Config) (req : Request) (d : GithubDiscussion) (w : World)
    (id : jsstring) (onDiscord : RemoteThread) (onGithub : RemoteDiscussion)
    (Hlive : DRY_RUN cfg = false)
    (Hup : Run.no_outage w)
    (Hconcerns : Endpoint.concerns req = true)
    (Hpayload : discussion req = Some d)
    (Hcategory : d_category d = Some (CATEGORY_NAME cfg))
    (Hmarker : Index.markerId (d_body d) = Some id)
    (Hforum : forum (discord w) = Some (FORUM_CHANNEL_ID cfg))
    (Hthread : find_thread id w = Some onDiscord)
    (Hdiscussion : find_discussion (d_number d) w = Some onGithub)
    (Hid : d_id (rd onGithub) = d_id d) :
  let threadMessages := Run.mirrored (user (discord w)) (rt_messages onDiscord) in
  let discussionMessages := rd_comments onGithub in
  exists w' added,
    Index.webhook cfg req w = (Ok tt, w') /\
    trace w' = trace w ++ added ++ [SendStatus 200] /\
    Run.writes added =
      map (Push.toDiscord cfg (rt onDiscord) d)
          (skipn (length threadMessages) discussionMessages) ++
      map (Push.toGithub (rt onDiscord) d)
          (skipn (length discussionMessages) threadMessages).
Proof.
  intros tm dm.
  assert (Hrouted : exists line,
            Endpoint.routed cfg req w =
            bind (logger INFO line) (fun _ => Index.syncDiscussionOnDiscord cfg d) w).
  { unfold Endpoint.routed. unfold Endpoint.concerns in Hconcerns.
    apply andb_prop in Hconcerns as [Hevent Haction]. rewrite Haction, Hpayload.
    destruct (eqb (x_github_event req) (lit "discussion")); cbn [andb].
    - eexists; reflexivity.
    - cbn [orb] in Hevent. rewrite Hevent. cbn [andb]. eexists; reflexivity. }
  destruct Hrouted as [line Hrouted].
  assert (Hup1 : Run.no_outage (Run.advance 0 [Log INFO line] w))
    by now apply RunFacts.advance_outage.
  destruct (RelayFacts.syncDiscussionOnDiscord_linked cfg d
              (Run.advance 0 [Log INFO line] w) id onDiscord onGithub
              Hlive Hup1 Hcategory Hmarker Hforum Hthread Hdiscussion Hid)
    as (w1 & added & Hrun & Htrace & Hwrites).
  change (Index.webhook cfg req) with (Endpoint.answered cfg req).
  unfold Endpoint.answered, try_catch.
  unfold bind at 1. rewrite Hrouted.
  rewrite (RunFacts.bind_ok _ (RunFacts.logger_advance _ _ w)). rewrite Hrun.
  eexists. exists (Log INFO line :: added).
  split; [reflexivity |].
  split.
  - cbn [sendStatus emit modify snd trace set_trace]. rewrite Htrace.
    cbn [trace Run.advance set_calls set_trace]. now rewrite <- !app_assoc.
  - cbn [Run.writes filter is_write]. exact Hwrites.
Qed.

Lemma webhook_relays_to_discord_witness :
  let req := {| x_github_event := lit "discussion_comment"; action := lit "created";
                discussion :=
                  Some {| d_id := d_id Sample.linked; d_number := d_number Sample.linked;
                          d_title := d_title Sample.linked; d_body := d_body Sample.linked;
                          d_author := d_author Sample.linked;
                          d_category := Some (lit "General") |} |} in
  DRY_RUN Sample.live = false /\
  Run.no_outage Sample.behind /\
  Endpoint.concerns req = true /\
  forum (discord Sample.behind) = Some (FORUM_CHANNEL_ID Sample.live) /\
  find_thread (lit "555") Sample.behind = Some Sample.on_discord /\
  find_discussion 7 Sample.behind = Some Sample.on_github /\
  exists w' added,
    Index.webhook Sample.live req Sample.behind = (Ok tt, w') /\
    trace w' = trace Sample.behind ++ added ++ [SendStatus 200] /\
    Run.writes added =
      [ThreadSend (lit "555")
         (Discord.makeDiscordMessage Sample.live (lit "octocat") 7 (lit "first reply"));
       ThreadSend (lit "555")
         (Discord.makeDiscordMessage Sample.live (lit "octocat") 7 (lit "second reply"))].
Proof.
  intros req.
  assert (Hup : Run.no_outage Sample.behind) by (intros n; reflexivity).
  split; [reflexivity |]. split; [exact Hup |]. split; [reflexivity |].
  split; [reflexivity |]. split; [reflexivity |]. split; [reflexivity |].
  destruct (webhook_relays_to_discord Sample.live req _ Sample.behind (lit "555")
              Sample.on_discord Sample.on_github
              eq_refl Hup eq_refl eq_refl eq_refl
              ltac:(vm_compute; reflexivity) eq_refl eq_refl eq_refl eq_refl)
    as (w' & added & Hrun & Htrace & Hwrites).
  exists w', added. split; [exact Hrun |]. split; [exact Htrace |]. exact Hwrites.
Defined.

(** X20.  A message in a linked thread.  With dry run off and both
    platforms answering: when a member who is not a bot posts, in a thread
    of the forum channel, a message that does not hold the attribution
    prefix, and a cached discussion carries the marker of the thread, the
    [messageCreate] handler runs the catch-up step on that pair, which adds
    to the discussion the messages it lacks (or sends to the thread the
    comments it lacks), and returns. *)
Theorem messageCreate_relays_to_github
    (cfg : Config) (message : Message) (thread : AnyThreadChannel) (w : World)
    (listing : list GithubDiscussion) (d : GithubDiscussion)
    (onDiscord : RemoteThread) (onGithub : RemoteDiscussion)
    (Hlive : DRY_RUN cfg = false)
    (Hup : Run.no_outage w)
    (Hchannel : m_channel message = Some thread)
    (Hparent : t_parentId thread = FORUM_CHANNEL_ID cfg)
    (Hhuman : u_bot (m_author message) = false)
    (Hnative : includes (m_content message) ATTRIBUTION = false)
    (Hcache : discussionCache w = Some listing)
    (Hlinked : find (fun it => includes (d_body it) (Github.marker (t_id thread))) listing
               = Some d)
    (Hthread : find_thread (t_id thread) w = Some onDiscord)
    (Hdiscussion : find_discussion (d_number d) w = Some onGithub)
    (Hid : d_id (rd onGithub) = d_id d) :
  let threadMessages := Run.mirrored (user (discord w)) (rt_messages onDiscord) in
  let discussionMessages := rd_comments onGithub in
  exists w' added,
    Index.on_messageCreate cfg message w = (Ok tt, w') /\
    trace w' = trace w ++ added /\
    Run.writes added =
      map (Push.toDiscord cfg thread d)
          (skipn (length threadMessages) discussionMessages) ++
      map (Push.toGithub thread d)
          (skipn (length discussionMessages) threadMessages).
Proof.
  intros tm dm.
  destruct (StateFacts.syncMessages_run cfg thread d w onDiscord onGithub
              Hlive Hup Hthread Hdiscussion Hid)
    as (w' & added & _ & _ & Hrun & Htrace & Hwrites & _).
  assert (Hsync : Index.syncThreadOnGitHub cfg thread w = (Ok tt, w')).
  { unfold Index.syncThreadOnGitHub, Index.findThreadOnGitHub.
    unfold bind at 1. unfold bind at 1.
    rewrite (CurrentCacheFacts.listGithubDiscussions_cached w listing Hcache).
    unfold ret. rewrite Hlinked. exact Hrun. }
  exists w', added. split; [| split; [exact Htrace | exact Hwrites]].
  unfold Index.on_messageCreate, Index.messageCreate, try_catch.
  rewrite Hchannel, Hparent, JsFacts.eqb_refl, Hhuman, Hnative. cbn [negb orb].
  now rewrite Hsync.
Qed.

Lemma messageCreate_relays_to_github_witness :
  let newest := Sample.said (lit "556") (lit "any news?") in
  let onDiscord := {| rt := Sample.thread; rt_messages := [newest; Sample.seed] |} in
  let onGithub := {| rd := Sample.linked; rd_category_id := lit "C_1"; rd_comments := [] |} in
  let w := set_discussionCache (Some [Sample.linked])
             (Sample.platform [onGithub] [newest; Sample.seed]) in
  DRY_RUN Sample.live = false /\
  Run.no_outage w /\
  m_channel newest = Some Sample.thread /\
  t_parentId Sample.thread = FORUM_CHANNEL_ID Sample.live /\
  u_bot (m_author newest) = false /\
  includes (m_content newest) ATTRIBUTION = false /\
  discussionCache w = Some [Sample.linked] /\
  find (fun it => includes (d_body it) (Github.marker (t_id Sample.thread))) [Sample.linked]
    = Some Sample.linked /\
  find_thread (t_id Sample.thread) w = Some onDiscord /\
  find_discussion (d_number Sample.linked) w = Some onGithub /\
  d_id (rd onGithub) = d_id Sample.linked /\
  exists w' added,
    Index.on_messageCreate Sample.live newest w = (Ok tt, w') /\
    trace w' = trace w ++ added /\
    Run.writes added =
      [AddDiscussionComment (lit "D_7")
         (Github.makeGithubComment (lit "any news?") (lit "alice")
            (lit "https://discord.com/channels/77/555/556"))].
Proof.
  intros newest onDiscord onGithub w.
  assert (Hup : Run.no_outage w) by (intros n; reflexivity).
  assert (Hnative : includes (m_content newest) ATTRIBUTION = false)
    by (vm_compute; reflexivity).
  assert (Hlinked : find (fun it => includes (d_body it) (Github.marker (t_id Sample.thread)))
                      [Sample.linked] = Some Sample.linked)
    by (vm_compute; reflexivity).
  split; [reflexivity |]. split; [exact Hup |]. split; [reflexivity |].
  split; [reflexivity |]. split; [reflexivity |]. split; [exact Hnative |].
  split; [reflexivity |]. split; [exact Hlinked |]. split; [reflexivity |].
  split; [reflexivity |]. split; [reflexivity |].
  destruct (messageCreate_relays_to_github Sample.live newest Sample.thread w
              [Sample.linked] Sample.linked onDiscord onGithub
              eq_refl Hup eq_refl eq_refl eq_refl Hnative eq_refl Hlinked
              eq_refl eq_refl eq_refl)
    as (w' & added & Hrun & Htrace & Hwrites).
  exists w', added. split; [exact Hrun |]. split; [exact Htrace |]. exact Hwrites.
Defined.
